(** * A shallow embedding of the Sudoku solver (rowanc1/sudoku)

    The solver of [app/utils] keeps one mutable session (board, candidate
    grid, snapshot list) and narrows the candidate grid with seven
    deduction strategies.  This file embeds the TypeScript functions as
    Rocq functions with explicit state passing and proves properties of
    them.

    Conventions of the embedding.
    - A JavaScript [number] stored in a board cell is a [jsnum]: an integer
      or [NaN].  The code only compares cell values with [===]/[!==] and
      stores them in [Set]s, so a non-integral value behaves like an
      integer outside 1..9; [-0] is identified with [0].
    - A [Set<number>] is the list of its elements in insertion order (the
      iteration order of a JavaScript [Set]); [delete] keeps the order of
      the remaining elements.
    - Arrays are lists; [a[i]] is stdpp's total lookup [a !!! i], whose
      default ([NaN] for a number, the empty list for an array or set)
      plays the part of [undefined].  All loops of the solver index the
      grids with 0..8, so on 9x9 grids the default is never read.
    - A loop that mutates the session is a fold over its index range that
      threads the session; [return true] inside a loop is the
      short-circuiting fold [forFirst].
    - The only places where the solver can raise are written in the
      [result] monad: the two [throw]s of [stringToBoard], and the
      [positionsForDigit[d].push] of Hidden Pairs, which is a [TypeError]
      when [d] is not a key of the table. *)

From Stdlib Require Import ZArith List String Ascii Bool Lia DecimalString.
From stdpp Require Import base list gmap.
Import ListNotations.
Local Open Scope string_scope.
Local Open Scope list_scope.

(** ** JavaScript numbers, as far as the solver observes them *)

Inductive jsnum : Type :=
| Num (z : Z)
| NaN.

#[global] Instance jsnum_eq_dec : EqDecision jsnum.
Proof. solve_decision. Defined.

#[global] Instance jsnum_inhabited : Inhabited jsnum := populate NaN.

(** [a === b] on numbers: [NaN] is not equal to itself. *)
Definition strict_eq (a b : jsnum) : bool :=
  match a, b with
  | Num x, Num y => Z.eqb x y
  | _, _ => false
  end.

(** SameValueZero, the equality of [Set.prototype.has] and [delete]. *)
Definition same_value_zero (a b : jsnum) : bool :=
  match a, b with
  | Num x, Num y => Z.eqb x y
  | NaN, NaN => true
  | _, _ => false
  end.

(** [v === 0] *)
Definition is_zero (v : jsnum) : bool := strict_eq v (Num 0).

(** [a < b] and [a > b]; every comparison with [NaN] is false. *)
Definition js_lt (a b : jsnum) : bool :=
  match a, b with
  | Num x, Num y => Z.ltb x y
  | _, _ => false
  end.

Definition js_gt (a b : jsnum) : bool := js_lt b a.

(** Template-literal rendering of a number, [`${n}`]. *)
Definition jsnum_to_string (v : jsnum) : string :=
  match v with
  | Num z => NilZero.string_of_int (Z.to_int z)
  | NaN => "NaN"
  end.

(** ** [Set<number>] *)

Abbreviation CSet := (list jsnum).

Definition set_has (s : CSet) (x : jsnum) : bool :=
  existsb (same_value_zero x) s.

(** The set left by [s.delete(x)]; the call returns [set_has s x]. *)
Definition set_remove (s : CSet) (x : jsnum) : CSet :=
  List.filter (fun y => negb (same_value_zero x y)) s.

Definition set_add (s : CSet) (x : jsnum) : CSet :=
  if set_has s x then s else s ++ [x].

(** [new Set(xs)] *)
Definition set_of_list (xs : list jsnum) : CSet :=
  fold_left set_add xs [].

(** ** Exceptions *)

Inductive exn : Type :=
| Error (msg : string)
| TypeError.

Inductive result (A : Type) : Type :=
| Ok (a : A)
| Raise (e : exn).
Arguments Ok {A} a.
Arguments Raise {A} e.

#[global] Instance result_ret : MRet result := fun A a => Ok a.

#[global] Instance result_bind : MBind result := fun A B k m =>
  match m with
  | Ok a => k a
  | Raise e => Raise e
  end.

(** [for (x of xs) s = body(x, s)], where the body may raise. *)
Fixpoint forM {S X} (xs : list X) (body : X -> S -> result S) (s : S)
  : result S :=
  match xs with
  | [] => Ok s
  | x :: xs' => s' ← body x s; forM xs' body s'
  end.

(** ** Data model (types.ts) *)

Definition BOARD_SIZE : nat := 9.
Definition BOX_SIZE : nat := 3.

Abbreviation Board := (list (list jsnum)).
Abbreviation Cands := (list (list CSet)).

(** A [[row, col, digit]] entry of [candidates] / [removedCandidates]. *)
Abbreviation Triple := (nat * nat * jsnum)%type.

Record Highlight : Type := mkHighlight {
  hl_rows : option (list nat);
  hl_cols : option (list nat);
  hl_blocks : option (list (nat * nat));
  hl_boxes : option (list (nat * nat));
  hl_candidates : option (list Triple);
  hl_removedCandidates : option (list Triple)
}.

Definition noHighlight : Highlight :=
  mkHighlight None None None None None None.

Record SudokuSnapshot : Type := mkSnapshot {
  snap_board : Board;
  snap_candidates : Cands;
  kind : string;
  variant : option string;
  difficulty : nat;
  highlight : option Highlight
}.

Record Sudoku : Type := mkSudoku {
  board : Board;
  candidates : Cands;
  snapshots : list SudokuSnapshot
}.

Record SolverOptions : Type := mkOptions {
  nakedSingles : option bool;
  nakedPairs : option bool;
  nakedPairsRows : option bool;
  nakedPairsCols : option bool;
  nakedPairsBoxes : option bool;
  hiddenSingles : option bool;
  hiddenSinglesRows : option bool;
  hiddenSinglesCols : option bool;
  hiddenSinglesBoxes : option bool;
  nakedTriples : option bool;
  nakedTriplesRows : option bool;
  nakedTriplesCols : option bool;
  nakedTriplesBoxes : option bool;
  hiddenPairs : option bool;
  hiddenPairsRows : option bool;
  hiddenPairsCols : option bool;
  hiddenPairsBoxes : option bool;
  boxLineReduction : option bool;
  boxLineReductionRows : option bool;
  boxLineReductionCols : option bool;
  xWing : option bool;
  xWingRows : option bool;
  xWingCols : option bool
}.

(** [opts?.flag === false] *)
Definition isFalse (opts : option SolverOptions)
  (flag : SolverOptions -> option bool) : bool :=
  match opts with
  | Some o => match flag o with Some false => true | _ => false end
  | None => false
  end.

(** [opts?.flag !== false] *)
Definition notFalse (opts : option SolverOptions)
  (flag : SolverOptions -> option bool) : bool :=
  negb (isFalse opts flag).

(** ** Grid access *)

(** [board[row][col]] *)
Definition cell (b : Board) (row col : nat) : jsnum := (b !!! row) !!! col.

(** [board[row][col] = v] *)
Definition setCell (b : Board) (row col : nat) (v : jsnum) : Board :=
  <[row := <[col := v]> (b !!! row)]> b.

(** [candidates[row][col]] *)
Definition candsAt (cs : Cands) (row col : nat) : CSet := (cs !!! row) !!! col.

(** [candidates[row][col] = s] *)
Definition setCands (cs : Cands) (row col : nat) (s : CSet) : Cands :=
  <[row := <[col := s]> (cs !!! row)]> cs.

(** The grid after [candidates[row][col].delete(digit)]. *)
Definition deleteCand (cs : Cands) (row col : nat) (digit : jsnum) : Cands :=
  setCands cs row col (set_remove (candsAt cs row col) digit).

(** [if (candidates[row][col].delete(digit)) removed.push([row, col, digit])] *)
Definition deleteAndRecord (row col : nat) (digit : jsnum)
  (st : Cands * list Triple) : Cands * list Triple :=
  let '(cs, removed) := st in
  if set_has (candsAt cs row col) digit
  then (deleteCand cs row col digit, removed ++ [(row, col, digit)])
  else (cs, removed).

(** The index ranges of the loops. *)
Definition idx9 : list nat := seq 0 9.
Definition idx3 : list nat := seq 0 3.
Definition digits19 : list Z := [1; 2; 3; 4; 5; 6; 7; 8; 9]%Z.

(** ** utils.ts *)

Definition deepCloneBoard (b : Board) : Board :=
  map (fun row => row) b.

Definition deepCloneCandidates (cs : Cands) : Cands :=
  map (fun row => map (fun cellSet : CSet => cellSet) row) cs.

(** [parseInt(char, 10)] for a one-character string: a decimal digit
    parses to its value and every other character (white space, a sign,
    a letter) to [NaN]. *)
Definition parseInt1 (ch : ascii) : jsnum :=
  let n := nat_of_ascii ch in
  if (48 <=? n)%nat && (n <=? 57)%nat then Num (Z.of_nat (n - 48)) else NaN.

Definition nat_to_string (n : nat) : string :=
  NilZero.string_of_uint (Nat.to_uint n).

Definition char_at (s : string) (i : nat) : ascii :=
  match String.get i s with Some ch => ch | None => zero end.

(** The body of the inner loop of [stringToBoard]: one character is
    turned into a cell and pushed to [rowArray]. *)
Definition parseCell (puzzleString : string) (row col : nat)
  (rowArray : list jsnum) : result (list jsnum) :=
  let index := (row * 9 + col)%nat in
  let char := char_at puzzleString index in
  if Ascii.eqb char "."%char || Ascii.eqb char "0"%char
  then Ok (rowArray ++ [Num 0])
  else
    let digit := parseInt1 char in
    if js_lt digit (Num 1) || js_gt digit (Num 9)
    then Raise (Error ("Invalid character '" ++ String char ""
                       ++ "' at index " ++ nat_to_string index
                       ++ ".")%string)
    else Ok (rowArray ++ [digit]).

(** The body of the outer loop: one row is parsed and pushed to [board]. *)
Definition parseRow (puzzleString : string) (row : nat) (board : Board)
  : result Board :=
  rowArray ← forM idx9 (parseCell puzzleString row) [];
  Ok (board ++ [rowArray]).

Definition stringToBoard (puzzleString : string) : result Board :=
  if negb (String.length puzzleString =? 81)%nat
  then Raise (Error "Puzzle string must be exactly 81 characters long.")
  else forM idx9 (parseRow puzzleString) [].

Definition isComplete (b : Board) : bool :=
  forallb (fun row => forallb (fun col => negb (is_zero (cell b row col))) idx9)
    idx9.

(** The metadata argument of [addSnapshot]. *)
Record SnapshotMeta : Type := mkMeta {
  m_kind : string;
  m_variant : option string;
  m_difficulty : nat;
  m_highlight : option Highlight
}.

Definition addSnapshot (game : Sudoku) (m : SnapshotMeta) : Sudoku :=
  mkSudoku (board game) (candidates game)
    (snapshots game ++
       [mkSnapshot (deepCloneBoard (board game))
          (deepCloneCandidates (candidates game))
          (m_kind m) (m_variant m) (m_difficulty m) (m_highlight m)]).

(** ** Loops of the strategies *)

(** [for (x of xs) { if (body(x)) return true; } return false;] *)
Fixpoint forFirst {X} (xs : list X) (body : X -> Sudoku -> bool * Sudoku)
  (game : Sudoku) : bool * Sudoku :=
  match xs with
  | [] => (false, game)
  | x :: xs' =>
      let '(hit, game') := body x game in
      if hit then (true, game') else forFirst xs' body game'
  end.

(** The same loop when the body may raise. *)
Fixpoint forFirstR {X} (xs : list X)
  (body : X -> Sudoku -> result (bool * Sudoku)) (game : Sudoku)
  : result (bool * Sudoku) :=
  match xs with
  | [] => Ok (false, game)
  | x :: xs' =>
      match body x game with
      | Ok (hit, game') =>
          if hit then Ok (true, game') else forFirstR xs' body game'
      | Raise e => Raise e
      end
  end.

(** A loop that runs to its end: [for (x of xs) body(x)], threading the
    variables the body assigns. *)
Definition forEach {S X} (xs : list X) (body : X -> S -> S) (s : S) : S :=
  fold_left (fun s x => body x s) xs s.

(** ** 1) Candidate building and basic elimination (types.ts) *)

Definition eliminateFromPeers (b : Board) (cs : Cands) (row col : nat)
  (digit : jsnum) : Cands :=
  (* Row *)
  let cs := forEach idx9 (fun c cs =>
    if negb (c =? col)%nat && is_zero (cell b row c)
    then deleteCand cs row c digit else cs) cs in
  (* Column *)
  let cs := forEach idx9 (fun r cs =>
    if negb (r =? row)%nat && is_zero (cell b r col)
    then deleteCand cs r col digit else cs) cs in
  (* Box *)
  let startRow := (row - row mod BOX_SIZE)%nat in
  let startCol := (col - col mod BOX_SIZE)%nat in
  forEach idx3 (fun r cs =>
    forEach idx3 (fun c cs =>
      let rr := (startRow + r)%nat in
      let cc := (startCol + c)%nat in
      if (negb (rr =? row)%nat || negb (cc =? col)%nat) && is_zero (cell b rr cc)
      then deleteCand cs rr cc digit else cs) cs) cs.

(** [new Set([1, 2, 3, 4, 5, 6, 7, 8, 9])] *)
Definition fullSet : CSet := map Num digits19.

Definition buildCandidates (b : Board) : Cands :=
  let candidates := repeat (repeat fullSet BOARD_SIZE) BOARD_SIZE in
  forEach idx9 (fun row cs =>
    forEach idx9 (fun col cs =>
      let val := cell b row col in
      if negb (is_zero val)
      then eliminateFromPeers b (setCands cs row col [val]) row col val
      else cs) cs) candidates.

(** [game.board[row][col] = digit] *)
Definition placeDigit (game : Sudoku) (row col : nat) (digit : jsnum) : Sudoku :=
  mkSudoku (setCell (board game) row col digit) (candidates game)
    (snapshots game).

(** [eliminateFromPeers(game, row, col, digit)] on the session. *)
Definition eliminatePeers (game : Sudoku) (row col : nat) (digit : jsnum)
  : Sudoku :=
  mkSudoku (board game)
    (eliminateFromPeers (board game) (candidates game) row col digit)
    (snapshots game).

(** The session with its candidate grid replaced. *)
Definition withCandidates (game : Sudoku) (cs : Cands) : Sudoku :=
  mkSudoku (board game) cs (snapshots game).

(** ** 2.1) Naked Singles *)

Definition applyNakedSingles (game : Sudoku) (opts : option SolverOptions)
  : bool * Sudoku :=
  if isFalse opts nakedSingles then (false, game)
  else
    forEach idx9 (fun row st =>
      forEach idx9 (fun col '(changed, game) =>
        if is_zero (cell (board game) row col)
           && (length (candsAt (candidates game) row col) =? 1)%nat
        then
          let digit := candsAt (candidates game) row col !!! 0%nat in
          let game := placeDigit game row col digit in
          let game := eliminatePeers game row col digit in
          let game := addSnapshot game
            (mkMeta "Naked Single" (Some (jsnum_to_string digit)) 1
               (Some (mkHighlight None None (Some [(row, col)]) None None None)))
          in (true, game)
        else (changed, game)) st) (false, game).

(** ** 2.2) Hidden Singles *)

Definition isDigitInRow (b : Board) (row : nat) (digit : jsnum) : bool :=
  existsb (fun col => strict_eq (cell b row col) digit) idx9.

Definition isDigitInCol (b : Board) (col : nat) (digit : jsnum) : bool :=
  existsb (fun row => strict_eq (cell b row col) digit) idx9.

(** The cells of the 3x3 box whose corner is (startRow, startCol), in the
    order of the loops [for r { for c { ... } }]. *)
Definition boxCells (startRow startCol : nat) : list (nat * nat) :=
  flat_map (fun r => map (fun c => ((startRow + r)%nat, (startCol + c)%nat)) idx3)
    idx3.

Definition isDigitInBox (b : Board) (boxRow boxCol : nat) (digit : jsnum)
  : bool :=
  let startRow := (boxRow * 3)%nat in
  let startCol := (boxCol * 3)%nat in
  existsb (fun '(rr, cc) => strict_eq (cell b rr cc) digit)
    (boxCells startRow startCol).

(** [board[r][c] === 0 && candidates[r][c].has(digit)] *)
Definition isOpenFor (game : Sudoku) (digit : jsnum) (row col : nat) : bool :=
  is_zero (cell (board game) row col)
  && set_has (candsAt (candidates game) row col) digit.

Definition applyHiddenSinglesInRows (game : Sudoku) : bool * Sudoku :=
  forFirst idx9 (fun row game =>
    forFirst digits19 (fun d game =>
      let digit := Num d in
      if isDigitInRow (board game) row digit then (false, game)
      else
        let possibleCols :=
          List.filter (fun col => isOpenFor game digit row col) idx9 in
        if (length possibleCols =? 1)%nat then
          let col := possibleCols !!! 0%nat in
          let game := placeDigit game row col digit in
          let game := eliminatePeers game row col digit in
          let game := addSnapshot game
            (mkMeta "Hidden Single" (Some "Row") 3
               (Some (mkHighlight (Some [row]) None (Some [(row, col)])
                        None None None)))
          in (true, game)
        else (false, game)) game) game.

Definition applyHiddenSinglesInColumns (game : Sudoku) : bool * Sudoku :=
  forFirst idx9 (fun col game =>
    forFirst digits19 (fun d game =>
      let digit := Num d in
      if isDigitInCol (board game) col digit then (false, game)
      else
        let possibleRows :=
          List.filter (fun row => isOpenFor game digit row col) idx9 in
        if (length possibleRows =? 1)%nat then
          let row := possibleRows !!! 0%nat in
          let game := placeDigit game row col digit in
          let game := eliminatePeers game row col digit in
          let game := addSnapshot game
            (mkMeta "Hidden Single" (Some "Column") 3
               (Some (mkHighlight None (Some [col]) (Some [(row, col)])
                        None None None)))
          in (true, game)
        else (false, game)) game) game.

Definition applyHiddenSinglesInBoxes (game : Sudoku) : bool * Sudoku :=
  forFirst idx3 (fun boxRow game =>
    forFirst idx3 (fun boxCol game =>
      forFirst digits19 (fun d game =>
        let digit := Num d in
        if isDigitInBox (board game) boxRow boxCol digit then (false, game)
        else
          let startRow := (boxRow * 3)%nat in
          let startCol := (boxCol * 3)%nat in
          let possibleCells :=
            List.filter (fun '(rr, cc) => isOpenFor game digit rr cc)
              (boxCells startRow startCol) in
          if (length possibleCells =? 1)%nat then
            let '(r, c) := possibleCells !!! 0%nat in
            let game := placeDigit game r c digit in
            let game := eliminatePeers game r c digit in
            let game := addSnapshot game
              (mkMeta "Hidden Single" (Some "Box") 3
                 (Some (mkHighlight None None (Some [(r, c)])
                          (Some [(boxRow, boxCol)]) None None)))
            in (true, game)
          else (false, game)) game) game) game.

(** [if (enabled && strategy(game)) return true;] followed by [rest]. *)
Definition orElse (enabled : bool) (strategy : Sudoku -> bool * Sudoku)
  (rest : Sudoku -> bool * Sudoku) (game : Sudoku) : bool * Sudoku :=
  if enabled then
    let '(hit, game') := strategy game in
    if hit then (true, game') else rest game'
  else rest game.

Definition applyHiddenSingles (game : Sudoku) (opts : option SolverOptions)
  : bool * Sudoku :=
  if isFalse opts hiddenSingles then (false, game)
  else
    orElse (notFalse opts hiddenSinglesBoxes) applyHiddenSinglesInBoxes
      (orElse (notFalse opts hiddenSinglesRows) applyHiddenSinglesInRows
         (orElse (notFalse opts hiddenSinglesCols) applyHiddenSinglesInColumns
            (fun game => (false, game)))) game.

(** ** 2.3) Naked Pairs *)

(** [a.size !== b.size] fails at once; otherwise every element of [a]
    must be in [b]. *)
Definition areSetsEqual (a b : CSet) : bool :=
  if negb (length a =? length b)%nat then false
  else forallb (fun x => set_has b x) a.

(** The indices [from, from + 1, ..., n - 1] of an inner loop
    [for (let j = from; j < n; j++)]. *)
Definition range (from n : nat) : list nat := seq from (n - from).

(** Closes one match of a pair: the session takes the grid left by the
    eliminations and, when something was removed, the snapshot [m] is
    recorded and the unit returns [true]. *)
Definition commitIfRemoved (game : Sudoku) (cs : Cands)
  (removedCandidates : list Triple) (m : SnapshotMeta) : bool * Sudoku :=
  let game := withCandidates game cs in
  if (0 <? length removedCandidates)%nat
  then (true, addSnapshot game m)
  else (false, game).

Definition applyNakedPairsInRow (game : Sudoku) (row : nat) : bool * Sudoku :=
  let emptyCols :=
    List.filter (fun col => is_zero (cell (board game) row col)) idx9 in
  forFirst (range 0 (length emptyCols)) (fun i game =>
    forFirst (range (i + 1) (length emptyCols)) (fun j game =>
      let col1 := emptyCols !!! i in
      let col2 := emptyCols !!! j in
      let cands1 := candsAt (candidates game) row col1 in
      let cands2 := candsAt (candidates game) row col2 in
      if (length cands1 =? 2)%nat && (length cands2 =? 2)%nat
         && areSetsEqual cands1 cands2
      then
        let pairValues := cands1 in
        let '(cs, removedCandidates) :=
          forEach idx9 (fun c st =>
            if negb (c =? col1)%nat && negb (c =? col2)%nat
               && is_zero (cell (board game) row c)
            then forEach pairValues (fun val st =>
                   deleteAndRecord row c val st) st
            else st) (candidates game, []) in
        commitIfRemoved game cs removedCandidates
          (mkMeta "Naked Pair" (Some "Row") 2
             (Some (mkHighlight (Some [row]) None
                      (Some [(row, col1); (row, col2)]) None
                      (Some [(row, col1, pairValues !!! 0%nat);
                             (row, col1, pairValues !!! 1%nat);
                             (row, col2, pairValues !!! 0%nat);
                             (row, col2, pairValues !!! 1%nat)])
                      (Some removedCandidates))))
      else (false, game)) game) game.

Definition applyNakedPairsInCol (game : Sudoku) (col : nat) : bool * Sudoku :=
  let emptyRows :=
    List.filter (fun row => is_zero (cell (board game) row col)) idx9 in
  forFirst (range 0 (length emptyRows)) (fun i game =>
    forFirst (range (i + 1) (length emptyRows)) (fun j game =>
      let row1 := emptyRows !!! i in
      let row2 := emptyRows !!! j in
      let cands1 := candsAt (candidates game) row1 col in
      let cands2 := candsAt (candidates game) row2 col in
      if (length cands1 =? 2)%nat && (length cands2 =? 2)%nat
         && areSetsEqual cands1 cands2
      then
        let pairValues := cands1 in
        let '(cs, removedCandidates) :=
          forEach idx9 (fun r st =>
            if negb (r =? row1)%nat && negb (r =? row2)%nat
               && is_zero (cell (board game) r col)
            then forEach pairValues (fun val st =>
                   deleteAndRecord r col val st) st
            else st) (candidates game, []) in
        commitIfRemoved game cs removedCandidates
          (mkMeta "Naked Pair" (Some "Column") 2
             (Some (mkHighlight None (Some [col])
                      (Some [(row1, col); (row2, col)]) None
                      (Some [(row1, col, pairValues !!! 0%nat);
                             (row1, col, pairValues !!! 1%nat);
                             (row2, col, pairValues !!! 0%nat);
                             (row2, col, pairValues !!! 1%nat)])
                      (Some removedCandidates))))
      else (false, game)) game) game.

Definition applyNakedPairsInBox (game : Sudoku) (boxRow boxCol : nat)
  : bool * Sudoku :=
  let startRow := (boxRow * BOX_SIZE)%nat in
  let startCol := (boxCol * BOX_SIZE)%nat in
  let cells :=
    List.filter (fun '(rr, cc) => is_zero (cell (board game) rr cc))
      (boxCells startRow startCol) in
  forFirst (range 0 (length cells)) (fun i game =>
    forFirst (range (i + 1) (length cells)) (fun j game =>
      let '(r1, c1) := cells !!! i in
      let '(r2, c2) := cells !!! j in
      let cands1 := candsAt (candidates game) r1 c1 in
      let cands2 := candsAt (candidates game) r2 c2 in
      if (length cands1 =? 2)%nat && (length cands2 =? 2)%nat
         && areSetsEqual cands1 cands2
      then
        let pairValues := cands1 in
        let '(cs, removedCandidates) :=
          forEach (range 0 (length cells)) (fun k st =>
            if negb (k =? i)%nat && negb (k =? j)%nat
            then
              let '(rr, cc) := cells !!! k in
              forEach pairValues (fun val st =>
                deleteAndRecord rr cc val st) st
            else st) (candidates game, []) in
        commitIfRemoved game cs removedCandidates
          (mkMeta "Naked Pair" (Some "Box") 2
             (Some (mkHighlight None None
                      (Some [(r1, c1); (r2, c2)]) (Some [(boxRow, boxCol)])
                      (Some [(r1, c1, pairValues !!! 0%nat);
                             (r1, c1, pairValues !!! 1%nat);
                             (r2, c2, pairValues !!! 0%nat);
                             (r2, c2, pairValues !!! 1%nat)])
                      (Some removedCandidates))))
      else (false, game)) game) game.

(** [if (enabled) { for (x of xs) if (unit(game, x)) return true; }]
    followed by [rest]. *)
Definition orElseUnits {X} (enabled : bool) (xs : list X)
  (unit : X -> Sudoku -> bool * Sudoku)
  (rest : Sudoku -> bool * Sudoku) (game : Sudoku) : bool * Sudoku :=
  if enabled then
    let '(hit, game') := forFirst xs unit game in
    if hit then (true, game') else rest game'
  else rest game.

(** The boxes in the order of [for br { for bc { ... } }]. *)
Definition boxes : list (nat * nat) :=
  flat_map (fun br => map (fun bc => (br, bc)) idx3) idx3.

Definition applyNakedPairs (game : Sudoku) (opts : option SolverOptions)
  : bool * Sudoku :=
  if isFalse opts nakedPairs then (false, game)
  else
    orElseUnits (notFalse opts nakedPairsRows) idx9
      (fun r game => applyNakedPairsInRow game r)
      (orElseUnits (notFalse opts nakedPairsCols) idx9
         (fun c game => applyNakedPairsInCol game c)
         (orElseUnits (notFalse opts nakedPairsBoxes) boxes
            (fun '(br, bc) game => applyNakedPairsInBox game br bc)
            (fun game => (false, game)))) game.

(** ** Naked Triples (nakedTriples.ts) *)

Definition isSubset (setA setB : CSet) : bool :=
  forallb (fun x => set_has setB x) setA.

(** [if (candidates[row][col].delete(val)) { removed.push([row, col, val]);
    changed = true; }] *)
Definition deleteRecordFlag (row col : nat) (digit : jsnum)
  (st : bool * Cands * list Triple) : bool * Cands * list Triple :=
  let '(changed, cs, removed) := st in
  if set_has (candsAt cs row col) digit
  then (true, deleteCand cs row col digit, removed ++ [(row, col, digit)])
  else (changed, cs, removed).

(** Closes one match inside a unit that scans to its end: the snapshot is
    recorded when something was removed, and the scan goes on. *)
Definition recordIfRemoved (game : Sudoku) (changed : bool) (cs : Cands)
  (removedCandidates : list Triple) (m : SnapshotMeta) : bool * Sudoku :=
  let game := withCandidates game cs in
  if (0 <? length removedCandidates)%nat
  then (changed, addSnapshot game m)
  else (changed, game).

Definition tripleHighlight (cs : Cands) (p1 p2 p3 : nat * nat) : list Triple :=
  map (fun d => (p1.1, p1.2, d)) (candsAt cs p1.1 p1.2)
  ++ map (fun d => (p2.1, p2.2, d)) (candsAt cs p2.1 p2.2)
  ++ map (fun d => (p3.1, p3.2, d)) (candsAt cs p3.1 p3.2).

Definition applyNakedTriplesInRow (game : Sudoku) (row : nat) : bool * Sudoku :=
  let emptyCols :=
    List.filter (fun col => is_zero (cell (board game) row col)) idx9 in
  let n := length emptyCols in
  forEach (range 0 n) (fun i st =>
    forEach (range (i + 1) n) (fun j st =>
      forEach (range (j + 1) n) (fun k '(changed, game) =>
        let col1 := emptyCols !!! i in
        let col2 := emptyCols !!! j in
        let col3 := emptyCols !!! k in
        let cands1 := candsAt (candidates game) row col1 in
        let cands2 := candsAt (candidates game) row col2 in
        let cands3 := candsAt (candidates game) row col3 in
        let union := set_of_list (cands1 ++ cands2 ++ cands3) in
        if (length union =? 3)%nat && isSubset cands1 union
           && isSubset cands2 union && isSubset cands3 union
        then
          let tripleValues := union in
          let '(changed, cs, removedCandidates) :=
            forEach idx9 (fun c st =>
              if negb (c =? col1)%nat && negb (c =? col2)%nat
                 && negb (c =? col3)%nat && is_zero (cell (board game) row c)
              then forEach tripleValues (fun val st =>
                     deleteRecordFlag row c val st) st
              else st) (changed, candidates game, []) in
          recordIfRemoved game changed cs removedCandidates
            (mkMeta "Naked Triple" (Some "Row") 4
               (Some (mkHighlight (Some [row]) None
                        (Some [(row, col1); (row, col2); (row, col3)]) None
                        (Some (tripleHighlight cs (row, col1) (row, col2)
                                 (row, col3)))
                        (Some removedCandidates))))
        else (changed, game)) st) st) (false, game).

Definition applyNakedTriplesInColumn (game : Sudoku) (col : nat)
  : bool * Sudoku :=
  let emptyRows :=
    List.filter (fun row => is_zero (cell (board game) row col)) idx9 in
  let n := length emptyRows in
  forEach (range 0 n) (fun i st =>
    forEach (range (i + 1) n) (fun j st =>
      forEach (range (j + 1) n) (fun k '(changed, game) =>
        let row1 := emptyRows !!! i in
        let row2 := emptyRows !!! j in
        let row3 := emptyRows !!! k in
        let cands1 := candsAt (candidates game) row1 col in
        let cands2 := candsAt (candidates game) row2 col in
        let cands3 := candsAt (candidates game) row3 col in
        let union := set_of_list (cands1 ++ cands2 ++ cands3) in
        if (length union =? 3)%nat && isSubset cands1 union
           && isSubset cands2 union && isSubset cands3 union
        then
          let tripleValues := union in
          let '(changed, cs, removedCandidates) :=
            forEach idx9 (fun r st =>
              if negb (r =? row1)%nat && negb (r =? row2)%nat
                 && negb (r =? row3)%nat && is_zero (cell (board game) r col)
              then forEach tripleValues (fun val st =>
                     deleteRecordFlag r col val st) st
              else st) (changed, candidates game, []) in
          recordIfRemoved game changed cs removedCandidates
            (mkMeta "Naked Triple" (Some "Column") 4
               (Some (mkHighlight None (Some [col])
                        (Some [(row1, col); (row2, col); (row3, col)]) None
                        (Some (tripleHighlight cs (row1, col) (row2, col)
                                 (row3, col)))
                        (Some removedCandidates))))
        else (changed, game)) st) st) (false, game).

Definition applyNakedTriplesInBox (game : Sudoku) (boxRow boxCol : nat)
  : bool * Sudoku :=
  let startRow := (boxRow * 3)%nat in
  let startCol := (boxCol * 3)%nat in
  let emptyCells :=
    List.filter (fun '(rr, cc) => is_zero (cell (board game) rr cc))
      (boxCells startRow startCol) in
  let n := length emptyCells in
  forEach (range 0 n) (fun i st =>
    forEach (range (i + 1) n) (fun j st =>
      forEach (range (j + 1) n) (fun k '(changed, game) =>
        let '(r1, c1) := emptyCells !!! i in
        let '(r2, c2) := emptyCells !!! j in
        let '(r3, c3) := emptyCells !!! k in
        let cands1 := candsAt (candidates game) r1 c1 in
        let cands2 := candsAt (candidates game) r2 c2 in
        let cands3 := candsAt (candidates game) r3 c3 in
        let union := set_of_list (cands1 ++ cands2 ++ cands3) in
        if (length union =? 3)%nat && isSubset cands1 union
           && isSubset cands2 union && isSubset cands3 union
        then
          let tripleValues := union in
          let '(changed, cs, removedCandidates) :=
            forEach (boxCells startRow startCol) (fun '(rr, cc) st =>
              if (negb (rr =? r1)%nat || negb (cc =? c1)%nat)
                 && (negb (rr =? r2)%nat || negb (cc =? c2)%nat)
                 && (negb (rr =? r3)%nat || negb (cc =? c3)%nat)
                 && is_zero (cell (board game) rr cc)
              then forEach tripleValues (fun val st =>
                     deleteRecordFlag rr cc val st) st
              else st) (changed, candidates game, []) in
          recordIfRemoved game changed cs removedCandidates
            (mkMeta "Naked Triple" (Some "Box") 4
               (Some (mkHighlight None None
                        (Some [(r1, c1); (r2, c2); (r3, c3)])
                        (Some [(boxRow, boxCol)])
                        (Some (tripleHighlight cs (r1, c1) (r2, c2) (r3, c3)))
                        (Some removedCandidates))))
        else (changed, game)) st) st) (false, game).

Definition applyNakedTriples (game : Sudoku) (opts : option SolverOptions)
  : bool * Sudoku :=
  if isFalse opts nakedTriples then (false, game)
  else
    orElseUnits (notFalse opts nakedTriplesRows) idx9
      (fun r game => applyNakedTriplesInRow game r)
      (orElseUnits (notFalse opts nakedTriplesCols) idx9
         (fun c game => applyNakedTriplesInColumn game c)
         (orElseUnits (notFalse opts nakedTriplesBoxes) boxes
            (fun '(br, bc) game => applyNakedTriplesInBox game br bc)
            (fun game => (false, game)))) game.

(** ** Hidden Pairs (hiddenPairs.ts) *)

Definition arrayEquals (a b : list nat) : bool :=
  if negb (length a =? length b)%nat then false
  else forallb (fun i => (a !!! i =? b !!! i)%nat) (range 0 (length a)).

(** [a.slice().sort((p1, p2) => p1[0] - p2[0] || p1[1] - p2[1])]:
    insertion into a list kept in row-major order. *)
Definition coordLe (p q : nat * nat) : bool :=
  (p.1 <? q.1)%nat || ((p.1 =? q.1)%nat && (p.2 <=? q.2)%nat).

Fixpoint insertCoord (p : nat * nat) (l : list (nat * nat)) : list (nat * nat) :=
  match l with
  | [] => [p]
  | q :: l' => if coordLe p q then p :: l else q :: insertCoord p l'
  end.

Definition sortCoords (l : list (nat * nat)) : list (nat * nat) :=
  fold_right insertCoord [] l.

Definition coordsEquals (a b : list (nat * nat)) : bool :=
  if negb (length a =? length b)%nat then false
  else
    let a := sortCoords a in
    let b := sortCoords b in
    forallb (fun i =>
      negb (negb ((a !!! i).1 =? (b !!! i).1)%nat
            || negb ((a !!! i).2 =? (b !!! i).2)%nat))
      (range 0 (length a)).

(** [positionsForDigit[d].push(x)].  The table has the keys [lo..9]
    ([lo] is 0 for the array of ten lists, 1 for the record filled for
    1..9); with any other [d] the lookup is [undefined] and [push] is a
    [TypeError]. *)
Definition pushPosition {X} (lo : Z) (positionsForDigit : list (list X))
  (d : jsnum) (x : X) : result (list (list X)) :=
  match d with
  | Num z =>
      if (lo <=? z)%Z && (z <=? 9)%Z
      then Ok (<[Z.to_nat z := positionsForDigit !!! Z.to_nat z ++ [x]]>
                 positionsForDigit)
      else Raise TypeError
  | NaN => Raise TypeError
  end.

Definition includes (allowed : list jsnum) (digit : jsnum) : bool :=
  existsb (same_value_zero digit) allowed.

(** Returns the [changed] flag of the call with the grid and the
    [removedCandidates] array it has pushed to. *)
Definition stripOtherCandidates (cs : Cands) (row col : nat)
  (allowed : list jsnum) (removedCandidates : list Triple)
  : bool * Cands * list Triple :=
  let toRemove :=
    List.filter (fun digit => negb (includes allowed digit))
      (candsAt cs row col) in
  forEach toRemove (fun d st => deleteRecordFlag row col d st)
    (false, cs, removedCandidates).

(** The body run for a pair of digits whose position lists match: both
    cells are stripped, and a snapshot is recorded when something was
    removed. *)
Definition stripPair (game : Sudoku) (changed : bool) (p1 p2 : nat * nat)
  (d1 d2 : Z) (m : list Triple -> SnapshotMeta) : bool * Sudoku :=
  let removedCandidates := [] in
  let '(ch, cs, removedCandidates) :=
    stripOtherCandidates (candidates game) p1.1 p1.2 [Num d1; Num d2]
      removedCandidates in
  let changed := ch || changed in
  let '(ch, cs, removedCandidates) :=
    stripOtherCandidates cs p2.1 p2.2 [Num d1; Num d2] removedCandidates in
  let changed := ch || changed in
  recordIfRemoved game changed cs removedCandidates (m removedCandidates).

Definition pairTriples (p1 p2 : nat * nat) (d1 d2 : Z) : list Triple :=
  [(p1.1, p1.2, Num d1); (p1.1, p1.2, Num d2);
   (p2.1, p2.2, Num d1); (p2.1, p2.2, Num d2)].

(** [for (let d2 = d1 + 1; d2 <= 9; d2++)] *)
Definition digitsAfter (d1 : Z) : list Z :=
  List.filter (fun d => (d1 <? d)%Z) digits19.

(** The body of the loop over [d2] in a row: when the position lists of
    [d1] and [d2] are equal, the two cells are stripped. *)
Definition hiddenPairInRow (positionsForDigit : list (list nat)) (row : nat)
  (d1 d2 : Z) (st : bool * Sudoku) : bool * Sudoku :=
  let '(changed, game) := st in
  let cols1 := positionsForDigit !!! Z.to_nat d1 in
  let cols2 := positionsForDigit !!! Z.to_nat d2 in
  if arrayEquals cols1 cols2 then
    let c1 := cols1 !!! 0%nat in
    let c2 := cols1 !!! 1%nat in
    stripPair game changed (row, c1) (row, c2) d1 d2
      (fun removedCandidates =>
         mkMeta "Hidden Pair" (Some "Row") 5
           (Some (mkHighlight (Some [row]) None
                    (Some [(row, c1); (row, c2)]) None
                    (Some (pairTriples (row, c1) (row, c2) d1 d2))
                    (Some removedCandidates))))
  else (changed, game).

(** The table [positionsForDigit] of a row: for each digit the columns of
    the empty cells that have it as a candidate. *)
Definition positionsInRow (game : Sudoku) (row : nat)
  : result (list (list nat)) :=
  forM idx9 (fun col positionsForDigit =>
    if is_zero (cell (board game) row col)
    then forM (candsAt (candidates game) row col) (fun d positionsForDigit =>
           pushPosition 0 positionsForDigit d col) positionsForDigit
    else Ok positionsForDigit) (repeat [] 10).

Definition applyHiddenPairsInRow (game : Sudoku) (row : nat)
  : result (bool * Sudoku) :=
  let changed := false in
  let emptyCells :=
    length (List.filter (fun col => is_zero (cell (board game) row col)) idx9) in
  if (emptyCells <? 2)%nat then Ok (false, game)
  else
    positionsForDigit ← positionsInRow game row;
    Ok (forEach digits19 (fun d1 st =>
      let cols1 := positionsForDigit !!! Z.to_nat d1 in
      if (length cols1 =? 2)%nat then
        forEach (digitsAfter d1) (fun d2 st =>
          hiddenPairInRow positionsForDigit row d1 d2 st) st
      else st) (changed, game)).

Definition hiddenPairInColumn (positionsForDigit : list (list nat)) (col : nat)
  (d1 d2 : Z) (st : bool * Sudoku) : bool * Sudoku :=
  let '(changed, game) := st in
  let rows1 := positionsForDigit !!! Z.to_nat d1 in
  let rows2 := positionsForDigit !!! Z.to_nat d2 in
  if arrayEquals rows1 rows2 then
    let r1 := rows1 !!! 0%nat in
    let r2 := rows1 !!! 1%nat in
    stripPair game changed (r1, col) (r2, col) d1 d2
      (fun removedCandidates =>
         mkMeta "Hidden Pair" (Some "Column") 5
           (Some (mkHighlight None (Some [col])
                    (Some [(r1, col); (r2, col)]) None
                    (Some (pairTriples (r1, col) (r2, col) d1 d2))
                    (Some removedCandidates))))
  else (changed, game).

Definition positionsInColumn (game : Sudoku) (col : nat)
  : result (list (list nat)) :=
  forM idx9 (fun row positionsForDigit =>
    if is_zero (cell (board game) row col)
    then forM (candsAt (candidates game) row col) (fun d positionsForDigit =>
           pushPosition 0 positionsForDigit d row) positionsForDigit
    else Ok positionsForDigit) (repeat [] 10).

Definition applyHiddenPairsInColumn (game : Sudoku) (col : nat)
  : result (bool * Sudoku) :=
  let changed := false in
  let emptyCells :=
    length (List.filter (fun row => is_zero (cell (board game) row col)) idx9) in
  if (emptyCells <? 2)%nat then Ok (false, game)
  else
    positionsForDigit ← positionsInColumn game col;
    Ok (forEach digits19 (fun d1 st =>
      let rows1 := positionsForDigit !!! Z.to_nat d1 in
      if (length rows1 =? 2)%nat then
        forEach (digitsAfter d1) (fun d2 st =>
          hiddenPairInColumn positionsForDigit col d1 d2 st) st
      else st) (changed, game)).

Definition hiddenPairInBox (positionsForDigit : list (list (nat * nat)))
  (boxRow boxCol : nat) (d1 d2 : Z) (st : bool * Sudoku) : bool * Sudoku :=
  let '(changed, game) := st in
  let coords1 := positionsForDigit !!! Z.to_nat d1 in
  let coords2 := positionsForDigit !!! Z.to_nat d2 in
  if (length coords2 =? 2)%nat && coordsEquals coords1 coords2 then
    let cellA := coords1 !!! 0%nat in
    let cellB := coords1 !!! 1%nat in
    stripPair game changed cellA cellB d1 d2
      (fun removedCandidates =>
         mkMeta "Hidden Pair" (Some "Box") 5
           (Some (mkHighlight None None
                    (Some [cellA; cellB]) (Some [(boxRow, boxCol)])
                    (Some (pairTriples cellA cellB d1 d2))
                    (Some removedCandidates))))
  else (changed, game).

Definition positionsInBox (game : Sudoku) (emptyCells : list (nat * nat))
  : result (list (list (nat * nat))) :=
  forM emptyCells (fun '(rr, cc) positionsForDigit =>
    forM (candsAt (candidates game) rr cc) (fun d positionsForDigit =>
      pushPosition 1 positionsForDigit d (rr, cc)) positionsForDigit)
    (repeat [] 10).

Definition applyHiddenPairsInBox (game : Sudoku) (boxRow boxCol : nat)
  : result (bool * Sudoku) :=
  let changed := false in
  let startRow := (boxRow * 3)%nat in
  let startCol := (boxCol * 3)%nat in
  let emptyCells :=
    List.filter (fun '(rr, cc) => is_zero (cell (board game) rr cc))
      (boxCells startRow startCol) in
  if (length emptyCells <? 2)%nat then Ok (false, game)
  else
    positionsForDigit ← positionsInBox game emptyCells;
    Ok (forEach digits19 (fun d1 st =>
      let coords1 := positionsForDigit !!! Z.to_nat d1 in
      if (length coords1 =? 2)%nat then
        forEach (digitsAfter d1) (fun d2 st =>
          hiddenPairInBox positionsForDigit boxRow boxCol d1 d2 st) st
      else st) (changed, game)).

(** [if (enabled) { for (x of xs) if (unit(game, x)) return true; }]
    followed by [rest], for units that may raise. *)
Definition orElseUnitsR {X} (enabled : bool) (xs : list X)
  (unit : X -> Sudoku -> result (bool * Sudoku))
  (rest : Sudoku -> result (bool * Sudoku)) (game : Sudoku)
  : result (bool * Sudoku) :=
  if enabled then
    match forFirstR xs unit game with
    | Ok (hit, game') => if hit then Ok (true, game') else rest game'
    | Raise e => Raise e
    end
  else rest game.

Definition applyHiddenPairs (game : Sudoku) (opts : option SolverOptions)
  : result (bool * Sudoku) :=
  if isFalse opts hiddenPairs then Ok (false, game)
  else
    orElseUnitsR (notFalse opts hiddenPairsBoxes) boxes
      (fun '(br, bc) game => applyHiddenPairsInBox game br bc)
      (orElseUnitsR (notFalse opts hiddenPairsRows) idx9
         (fun row game => applyHiddenPairsInRow game row)
         (orElseUnitsR (notFalse opts hiddenPairsCols) idx9
            (fun col game => applyHiddenPairsInColumn game col)
            (fun game => Ok (false, game)))) game.

(** ** Box-Line Reduction (boxLineReduction.ts) *)

Definition isDigitInColumn (game : Sudoku) (col : nat) (digit : jsnum) : bool :=
  existsb (fun row => strict_eq (cell (board game) row col) digit) idx9.

(** [x === undefined ? whenAbsent : whenPresent(x)] *)
Definition ifPresent {A} (x : option nat) (whenAbsent : A)
  (whenPresent : nat -> A) : A :=
  match x with
  | None => whenAbsent
  | Some v => whenPresent v
  end.

Definition eliminateDigitFromBox (game : Sudoku) (boxRow boxCol : nat)
  (digit : jsnum) (excludeRow excludeCol : option nat) : bool * Sudoku :=
  let startRow := (boxRow * 3)%nat in
  let startCol := (boxCol * 3)%nat in
  let '(cs, removedCandidates, blockHighlight) :=
    forEach (boxCells startRow startCol)
      (fun '(rr, cc) '(cs, removedCandidates, blockHighlight) =>
        let open := is_zero (cell (board game) rr cc)
                    && set_has (candsAt cs rr cc) digit in
        if ifPresent excludeRow false (fun x => (rr =? x)%nat) then
          (cs, removedCandidates,
           if open then blockHighlight ++ [(rr, cc)] else blockHighlight)
        else if ifPresent excludeCol false (fun x => (cc =? x)%nat) then
          (cs, removedCandidates,
           if open then blockHighlight ++ [(rr, cc)] else blockHighlight)
        else if is_zero (cell (board game) rr cc) then
          let '(cs, removedCandidates) :=
            deleteAndRecord rr cc digit (cs, removedCandidates) in
          (cs, removedCandidates, blockHighlight)
        else (cs, removedCandidates, blockHighlight))
      (candidates game, [], []) in
  commitIfRemoved game cs removedCandidates
    (mkMeta "Box Line Reduction"
       (Some (ifPresent excludeRow "Column" (fun _ => "Row"))) 5
       (Some (mkHighlight
                (Some (ifPresent excludeRow [] (fun x => [x])))
                (Some (ifPresent excludeCol [] (fun x => [x])))
                (Some blockHighlight)
                (Some [(boxRow, boxCol)])
                (Some (map (fun '(r, c) => (r, c, digit)) blockHighlight))
                (Some removedCandidates)))).

Definition applyBoxLineReductionInRows (game : Sudoku) : bool * Sudoku :=
  forFirst idx9 (fun row game =>
    forFirst digits19 (fun d game =>
      let digit := Num d in
      if isDigitInRow (board game) row digit then (false, game)
      else
        let colsForDigit :=
          List.filter (fun col => isOpenFor game digit row col) idx9 in
        if (1 <? length colsForDigit)%nat && (length colsForDigit <=? 3)%nat
        then
          let boxColStart := (colsForDigit !!! 0%nat / 3)%nat in
          let allSameBox :=
            forallb (fun c => (c / 3 =? boxColStart)%nat) colsForDigit in
          if allSameBox then
            let rowBox := (row / 3)%nat in
            eliminateDigitFromBox game rowBox boxColStart digit (Some row) None
          else (false, game)
        else (false, game)) game) game.

Definition applyBoxLineReductionInColumns (game : Sudoku) : bool * Sudoku :=
  forFirst idx9 (fun col game =>
    forFirst digits19 (fun d game =>
      let digit := Num d in
      if isDigitInColumn game col digit then (false, game)
      else
        let rowsForDigit :=
          List.filter (fun row => isOpenFor game digit row col) idx9 in
        if (1 <? length rowsForDigit)%nat && (length rowsForDigit <=? 3)%nat
        then
          let boxRowStart := (rowsForDigit !!! 0%nat / 3)%nat in
          let allSameBox :=
            forallb (fun r => (r / 3 =? boxRowStart)%nat) rowsForDigit in
          if allSameBox then
            let boxCol := (col / 3)%nat in
            eliminateDigitFromBox game boxRowStart boxCol digit None (Some col)
          else (false, game)
        else (false, game)) game) game.

Definition applyBoxLineReduction (game : Sudoku) (opts : option SolverOptions)
  : bool * Sudoku :=
  if isFalse opts boxLineReduction then (false, game)
  else
    orElse (notFalse opts boxLineReductionRows) applyBoxLineReductionInRows
      (orElse (notFalse opts boxLineReductionCols)
         applyBoxLineReductionInColumns
         (fun game => (false, game))) game.

(** ** X-Wing (xwing.ts) *)

(** [if (board[r][c] === 0 && candidates[r][c].delete(d)) { push; changed = true }] *)
Definition deleteIfEmpty (b : Board) (row col : nat) (digit : jsnum)
  (st : bool * Cands * list Triple) : bool * Cands * list Triple :=
  if is_zero (cell b row col) then deleteRecordFlag row col digit st else st.

Definition xWingMeta (variantName : string) (r1 r2 c1 c2 : nat) (digit : jsnum)
  (removedCandidates : list Triple) : SnapshotMeta :=
  mkMeta "X-Wing" (Some variantName) 6
    (Some (mkHighlight (Some [r1; r2]) (Some [c1; c2])
             (Some [(r1, c1); (r2, c1); (r1, c2); (r2, c2)]) None
             (Some [(r1, c1, digit); (r2, c1, digit);
                    (r1, c2, digit); (r2, c2, digit)])
             (Some removedCandidates))).

Definition applyXWingRows (game : Sudoku) (d : Z) : bool * Sudoku :=
  let changed := false in
  let digitPositionsInRow :=
    map (fun r => List.filter (fun c => isOpenFor game (Num d) r c) idx9) idx9 in
  forEach idx9 (fun r1 st =>
    if (length (digitPositionsInRow !!! r1) =? 2)%nat then
      forEach (range (r1 + 1) 9) (fun r2 '(changed, game) =>
        if (length (digitPositionsInRow !!! r2) =? 2)%nat then
          let c1 := (digitPositionsInRow !!! r1) !!! 0%nat in
          let c2 := (digitPositionsInRow !!! r1) !!! 1%nat in
          if ((digitPositionsInRow !!! r2) !!! 0%nat =? c1)%nat
             && ((digitPositionsInRow !!! r2) !!! 1%nat =? c2)%nat
          then
            let '(changed, cs, removedCandidates) :=
              forEach idx9 (fun rx st =>
                if negb (rx =? r1)%nat && negb (rx =? r2)%nat then
                  let st := deleteIfEmpty (board game) rx c1 (Num d) st in
                  deleteIfEmpty (board game) rx c2 (Num d) st
                else st) (changed, candidates game, []) in
            recordIfRemoved game changed cs removedCandidates
              (xWingMeta "Row" r1 r2 c1 c2 (Num d) removedCandidates)
          else (changed, game)
        else (changed, game)) st
    else st) (changed, game).

Definition applyXWingColumns (game : Sudoku) (d : Z) : bool * Sudoku :=
  let changed := false in
  let digitPositionsInCol :=
    map (fun c => List.filter (fun r => isOpenFor game (Num d) r c) idx9) idx9 in
  forEach idx9 (fun c1 st =>
    if (length (digitPositionsInCol !!! c1) =? 2)%nat then
      forEach (range (c1 + 1) 9) (fun c2 '(changed, game) =>
        if (length (digitPositionsInCol !!! c2) =? 2)%nat then
          let r1 := (digitPositionsInCol !!! c1) !!! 0%nat in
          let r2 := (digitPositionsInCol !!! c1) !!! 1%nat in
          if ((digitPositionsInCol !!! c2) !!! 0%nat =? r1)%nat
             && ((digitPositionsInCol !!! c2) !!! 1%nat =? r2)%nat
          then
            let '(changed, cs, removedCandidates) :=
              forEach idx9 (fun cx st =>
                if negb (cx =? c1)%nat && negb (cx =? c2)%nat then
                  let st := deleteIfEmpty (board game) r1 cx (Num d) st in
                  deleteIfEmpty (board game) r2 cx (Num d) st
                else st) (changed, candidates game, []) in
            recordIfRemoved game changed cs removedCandidates
              (xWingMeta "Column" r1 r2 c1 c2 (Num d) removedCandidates)
          else (changed, game)
        else (changed, game)) st
    else st) (changed, game).

Definition applyXWing (game : Sudoku) (opts : option SolverOptions)
  : bool * Sudoku :=
  if isFalse opts xWing then (false, game)
  else
    forFirst digits19 (fun d game =>
      orElse (notFalse opts xWingRows) (fun game => applyXWingRows game d)
        (orElse (notFalse opts xWingCols) (fun game => applyXWingColumns game d)
           (fun game => (false, game))) game) game.

(** ** 2) Logical strategies wrapper (types.ts) *)

(** [if (!changed && strategy(game, opts)) changed = true;] *)
Definition tryStrategy (strategy : Sudoku -> result (bool * Sudoku))
  (st : bool * Sudoku) : result (bool * Sudoku) :=
  let '(changed, game) := st in
  if negb changed then
    match strategy game with
    | Ok (hit, game') => Ok (if hit then true else changed, game')
    | Raise e => Raise e
    end
  else Ok (changed, game).

(** A strategy that cannot raise, as a computation that may. *)
Definition pure (strategy : Sudoku -> bool * Sudoku) (game : Sudoku)
  : result (bool * Sudoku) :=
  Ok (strategy game).

(** The body of the [while (changed)] loop, from [changed = false] on. *)
Definition strategyPass (game : Sudoku) (opts : option SolverOptions)
  : result (bool * Sudoku) :=
  let changed := false in
  st ← tryStrategy (pure (fun g => applyNakedSingles g opts)) (changed, game);
  st ← tryStrategy (pure (fun g => applyNakedPairs g opts)) st;
  st ← tryStrategy (pure (fun g => applyHiddenSingles g opts)) st;
  st ← tryStrategy (pure (fun g => applyNakedTriples g opts)) st;
  st ← tryStrategy (fun g => applyHiddenPairs g opts) st;
  st ← tryStrategy (pure (fun g => applyBoxLineReduction g opts)) st;
  tryStrategy (pure (fun g => applyXWing g opts)) st.

(** [let changed = true; while (changed) { ... }].  [fuel] bounds the
    number of iterations; [None] means the bound was reached. *)
Fixpoint applyLogicalStrategies (fuel : nat) (game : Sudoku)
  (opts : option SolverOptions) : option (result Sudoku) :=
  match fuel with
  | O => None
  | S fuel' =>
      match strategyPass game opts with
      | Raise e => Some (Raise e)
      | Ok (changed, game') =>
          if changed then applyLogicalStrategies fuel' game' opts
          else Some (Ok game')
      end
  end.

(** [solveSudoku(startingBoard, options)]: the argument is a matrix
    ([inl]) or a string ([inr]).  The fallback to [backtrack] is commented
    out in the source, so the session is returned as the logical phase
    leaves it. *)
Definition solveSudoku (fuel : nat) (startingBoard : Board + string)
  (options : option SolverOptions) : option (result Sudoku) :=
  match
    (match startingBoard with
     | inr s => stringToBoard s
     | inl b => Ok b
     end)
  with
  | Raise e => Some (Raise e)
  | Ok parsed =>
      let board := deepCloneBoard parsed in
      let game := mkSudoku board (buildCandidates board) [] in
      let game := addSnapshot game (mkMeta "Initial Board" None 0 None) in
      applyLogicalStrategies fuel game options
  end.

(** ** 3) Backtracking (types.ts) *)

(** All cells in the order of [for row { for col { ... } }]. *)
Definition cells81 : list (nat * nat) :=
  flat_map (fun row => map (fun col => (row, col)) idx9) idx9.

(** [None] stands for the pair [[-1, -1]]. *)
Definition findEmptyCell (b : Board) : option (nat * nat) :=
  List.find (fun '(row, col) => is_zero (cell b row col)) cells81.

Definition isValid (b : Board) (row col : nat) (digit : jsnum) : bool :=
  if existsb (fun c => strict_eq (cell b row c) digit) idx9 then false
  else if existsb (fun r => strict_eq (cell b r col) digit) idx9 then false
  else
    let startRow := (row - row mod BOX_SIZE)%nat in
    let startCol := (col - col mod BOX_SIZE)%nat in
    if existsb (fun '(rr, cc) => strict_eq (cell b rr cc) digit)
         (boxCells startRow startCol)
    then false
    else true.

Definition rebuildAllCandidates (game : Sudoku) : Sudoku :=
  let newCands := buildCandidates (board game) in
  withCandidates game
    (forEach idx9 (fun r cs =>
       forEach idx9 (fun c cs => setCands cs r c (candsAt newCands r c)) cs)
       (candidates game)).

(** The loop [for (const digit of possibleDigits)] of [backtrack]; [recurse]
    is the recursive call. *)
Fixpoint tryDigits (recurse : Sudoku -> option (bool * Sudoku))
  (row col : nat) (possibleDigits : list jsnum) (game : Sudoku)
  : option (bool * Sudoku) :=
  match possibleDigits with
  | [] => Some (false, game)
  | digit :: rest =>
      if isValid (board game) row col digit then
        let game := placeDigit game row col digit in
        let oldCandidates := candsAt (candidates game) row col in
        let game :=
          withCandidates game (setCands (candidates game) row col [digit]) in
        let game := eliminatePeers game row col digit in
        match recurse game with
        | None => None
        | Some (true, game) => Some (true, game)
        | Some (false, game) =>
            let game := placeDigit game row col (Num 0) in
            let game :=
              withCandidates game
                (setCands (candidates game) row col oldCandidates) in
            let game := rebuildAllCandidates game in
            tryDigits recurse row col rest game
        end
      else tryDigits recurse row col rest game
  end.

(** [fuel] bounds the depth of the recursion; [None] means the bound was
    reached. *)
Fixpoint backtrack (fuel : nat) (game : Sudoku) : option (bool * Sudoku) :=
  match fuel with
  | O => None
  | S fuel' =>
      match findEmptyCell (board game) with
      | None => Some (true, game)
      | Some (row, col) =>
          let possibleDigits := candsAt (candidates game) row col in
          tryDigits (backtrack fuel') row col possibleDigits game
      end
  end.

(** * Properties *)

(** ** Numbers and sets *)

Lemma same_value_zero_eq (a b : jsnum) : same_value_zero a b = true <-> a = b.
Proof.
  destruct a as [x|], b as [y|]; simpl; split; intros H;
    try discriminate; try reflexivity.
  - apply Z.eqb_eq in H. congruence.
  - injection H as ->. apply Z.eqb_refl.
Qed.

Lemma same_value_zero_refl (a : jsnum) : same_value_zero a a = true.
Proof. now apply same_value_zero_eq. Qed.

Lemma is_zero_eq (v : jsnum) : is_zero v = true <-> v = Num 0.
Proof.
  unfold is_zero. destruct v as [z|]; simpl; split; intros H; try discriminate.
  - apply Z.eqb_eq in H. congruence.
  - injection H as ->. reflexivity.
Qed.

Lemma strict_eq_eq (a b : jsnum) : strict_eq a b = true -> a = b.
Proof.
  destruct a, b; simpl; intros H; try discriminate.
  apply Z.eqb_eq in H. congruence.
Qed.

Lemma strict_eq_Num (x y : Z) : strict_eq (Num x) (Num y) = Z.eqb x y.
Proof. reflexivity. Qed.

Lemma set_has_In (s : CSet) (x : jsnum) : set_has s x = true <-> In x s.
Proof.
  unfold set_has. rewrite existsb_exists. split.
  - intros (y & Hy & E). apply same_value_zero_eq in E. now subst.
  - intros H. exists x. split; [assumption | apply same_value_zero_refl].
Qed.

Lemma set_has_false (s : CSet) (x : jsnum) : set_has s x = false <-> ~ In x s.
Proof.
  rewrite <- set_has_In. destruct (set_has s x); split; intros H;
    try discriminate; try reflexivity; try tauto.
Qed.

Lemma set_remove_In (s : CSet) (x y : jsnum) :
  In y (set_remove s x) <-> In y s /\ y <> x.
Proof.
  unfold set_remove. rewrite filter_In. split; intros [H1 H2]; split; auto.
  - intros ->. now rewrite same_value_zero_refl in H2.
  - destruct (same_value_zero x y) eqn:E; [|reflexivity].
    apply same_value_zero_eq in E. now subst.
Qed.

Lemma set_remove_length (s : CSet) (x : jsnum) :
  length (set_remove s x) <= length s.
Proof.
  unfold set_remove. induction s as [|y s IH]; simpl; [lia|].
  destruct (negb (same_value_zero x y)); simpl; lia.
Qed.

Lemma set_remove_length_lt (s : CSet) (x : jsnum) :
  In x s -> length (set_remove s x) < length s.
Proof.
  unfold set_remove. induction s as [|y s IH]; simpl; [tauto|].
  intros [->|H].
  - rewrite same_value_zero_refl. simpl.
    pose proof (set_remove_length s x). unfold set_remove in *. lia.
  - specialize (IH H). destruct (negb (same_value_zero x y)); simpl; lia.
Qed.

Lemma set_remove_absent (s : CSet) (x : jsnum) :
  ~ In x s -> set_remove s x = s.
Proof.
  unfold set_remove. induction s as [|y s IH]; simpl; [reflexivity|].
  intros H. destruct (same_value_zero x y) eqn:E.
  - apply same_value_zero_eq in E. subst. tauto.
  - simpl. f_equal. apply IH. tauto.
Qed.

(** ** Grids: lookup, update and sums over a matrix *)

Section Grid.
Context {A : Type} `{Inhabited A}.

Definition gridGet (g : list (list A)) (r c : nat) : A := (g !!! r) !!! c.

Definition gridSet (g : list (list A)) (r c : nat) (x : A) : list (list A) :=
  <[r := <[c := x]> (g !!! r)]> g.

(** Both coordinates index existing entries. *)
Definition inGrid (g : list (list A)) (r c : nat) : Prop :=
  r < length g /\ c < length (g !!! r).

Definition shape9 (g : list (list A)) : Prop :=
  length g = 9 /\ forall r, r < 9 -> length (g !!! r) = 9.

Definition gridSum (f : A -> nat) (g : list (list A)) : nat :=
  list_sum (map (fun row => list_sum (map f row)) g).

Lemma gridSet_length g r c x : length (gridSet g r c x) = length g.
Proof. unfold gridSet. apply length_insert. Qed.

Lemma gridSet_row_length g r c x r' :
  length (gridSet g r c x !!! r') = length (g !!! r').
Proof.
  unfold gridSet. destruct (decide (r = r')) as [->|Hne].
  - destruct (decide (r' < length g)) as [Hlt|Hge].
    + rewrite list_lookup_total_insert_eq by assumption. apply length_insert.
    + rewrite list_insert_ge by lia. reflexivity.
  - now rewrite list_lookup_total_insert_ne.
Qed.

Lemma gridGet_set_eq g r c x :
  inGrid g r c -> gridGet (gridSet g r c x) r c = x.
Proof.
  intros [Hr Hc]. unfold gridGet, gridSet.
  rewrite list_lookup_total_insert_eq by assumption.
  now rewrite list_lookup_total_insert_eq.
Qed.

Lemma gridGet_set_ne g r c x r' c' :
  (r, c) <> (r', c') -> gridGet (gridSet g r c x) r' c' = gridGet g r' c'.
Proof.
  intros Hne. unfold gridGet, gridSet.
  destruct (decide (r = r')) as [->|Hr].
  - destruct (decide (r' < length g)) as [Hlt|Hge].
    + rewrite list_lookup_total_insert_eq by assumption.
      rewrite list_lookup_total_insert_ne; [reflexivity | congruence].
    + rewrite list_insert_ge by lia. reflexivity.
  - now rewrite list_lookup_total_insert_ne.
Qed.

Lemma gridSet_outside g r c x : ~ inGrid g r c -> gridSet g r c x = g.
Proof.
  intros Hout. unfold gridSet, inGrid in *.
  destruct (decide (r < length g)) as [Hlt|Hge].
  - rewrite (list_insert_ge (g !!! r)) by lia.
    apply list_insert_id. now apply list_lookup_lookup_total_lt.
  - apply list_insert_ge. lia.
Qed.

Lemma gridSet_same g r c : gridSet g r c (gridGet g r c) = g.
Proof.
  unfold gridSet, gridGet.
  destruct (decide (r < length g)) as [Hlt|Hge].
  - apply list_insert_id.
    rewrite list_lookup_lookup_total_lt by assumption. f_equal. symmetry.
    destruct (decide (c < length (g !!! r))) as [Hc|Hc].
    + apply list_insert_id. now apply list_lookup_lookup_total_lt.
    + apply list_insert_ge. lia.
  - apply list_insert_ge. lia.
Qed.

Lemma gridSet_twice g r c x y :
  gridSet (gridSet g r c x) r c y = gridSet g r c y.
Proof.
  unfold gridSet.
  destruct (decide (r < length g)) as [Hlt|Hge].
  - rewrite list_lookup_total_insert_eq by assumption.
    rewrite list_insert_insert_eq. now rewrite list_insert_insert_eq.
  - rewrite !(list_insert_ge g) by lia. reflexivity.
Qed.

Lemma shape9_gridSet g r c x : shape9 g -> shape9 (gridSet g r c x).
Proof.
  intros [Hl Hr]. split.
  - now rewrite gridSet_length.
  - intros r' Hr'. rewrite gridSet_row_length. now apply Hr.
Qed.

Lemma shape9_inGrid g r c : shape9 g -> r < 9 -> c < 9 -> inGrid g r c.
Proof. intros [Hl Hr] ? ?. split; [lia | rewrite Hr; lia]. Qed.

Lemma list_sum_insert (f : A -> nat) (l : list A) i x :
  i < length l ->
  list_sum (map f (<[i := x]> l)) + f (l !!! i) = list_sum (map f l) + f x.
Proof.
  revert i. induction l as [|a l IH]; intros i Hi; simpl in *; [lia|].
  destruct i as [|i]; simpl.
  - lia.
  - specialize (IH i ltac:(lia)).
    change (list_lookup_total (S i) (a :: l)) with (l !!! i). lia.
Qed.

Lemma gridSum_set (f : A -> nat) g r c x :
  inGrid g r c ->
  gridSum f (gridSet g r c x) + f (gridGet g r c) = gridSum f g + f x.
Proof.
  intros [Hr Hc]. unfold gridSum, gridSet, gridGet.
  revert r Hr Hc. induction g as [|row g IH]; intros r Hr Hc; simpl in *; [lia|].
  destruct r as [|r]; simpl.
  - change (list_lookup_total 0 (row :: g)) with row in *.
    pose proof (list_sum_insert f row c x Hc). lia.
  - change (list_lookup_total (S r) (row :: g)) with (g !!! r) in *.
    specialize (IH r ltac:(lia) Hc). lia.
Qed.
End Grid.

(** ** Eliminations from the candidate grid *)

(** Number of candidates in the grid, number of empty cells on the board,
    and their sum, which every step of the logical phase decreases. *)
Definition total (cs : Cands) : nat := gridSum (fun s : CSet => length s) cs.

Definition countEmpty (b : Board) : nat :=
  gridSum (fun v => if is_zero v then 1 else 0) b.

Definition measure (game : Sudoku) : nat :=
  total (candidates game) + countEmpty (board game).

(** [elim cs0 cs R]: the grid [cs] is [cs0] after the successful deletions
    listed in [R]. *)
Record elim (cs0 cs : Cands) (R : list Triple) : Prop := mkElim {
  elim_sub : forall r c d, In d (candsAt cs r c) -> In d (candsAt cs0 r c);
  elim_removed : forall r c d, In (r, c, d) R ->
    In d (candsAt cs0 r c) /\ ~ In d (candsAt cs r c);
  elim_total : total cs + length R <= total cs0;
  elim_length : length cs = length cs0;
  elim_rows : forall r, length (cs !!! r) = length (cs0 !!! r);
  elim_nil : R = [] -> cs = cs0
}.

Lemma elim_refl (cs : Cands) : elim cs cs [].
Proof. split; simpl; auto; try lia; try tauto. Qed.

Lemma elim_trans (cs0 cs1 cs2 : Cands) (R1 R2 : list Triple) :
  elim cs0 cs1 R1 -> elim cs1 cs2 R2 -> elim cs0 cs2 (R1 ++ R2).
Proof.
  intros E1 E2. split.
  - intros r c d Hd. eapply elim_sub; [exact E1|]. eapply elim_sub; eauto.
  - intros r c d Hin. apply in_app_or in Hin as [Hin|Hin].
    + destruct (elim_removed _ _ _ E1 _ _ _ Hin) as [Ha Hb]. split; [assumption|].
      intros Hd. apply Hb. eapply elim_sub; eauto.
    + destruct (elim_removed _ _ _ E2 _ _ _ Hin) as [Ha Hb]. split; [|assumption].
      eapply elim_sub; eauto.
  - rewrite length_app. pose proof (elim_total _ _ _ E1).
    pose proof (elim_total _ _ _ E2). lia.
  - rewrite (elim_length _ _ _ E2). apply (elim_length _ _ _ E1).
  - intros r. rewrite (elim_rows _ _ _ E2). apply (elim_rows _ _ _ E1).
  - intros Hnil. apply app_eq_nil in Hnil as [-> ->].
    rewrite (elim_nil _ _ _ E2 eq_refl). apply (elim_nil _ _ _ E1 eq_refl).
Qed.

Lemma gridGet_outside {A} `{Inhabited A} (g : list (list A)) r c :
  ~ inGrid g r c -> gridGet g r c = inhabitant.
Proof.
  unfold inGrid, gridGet. intros Hout.
  destruct (decide (r < length g)) as [Hlt|Hge].
  - rewrite (list_lookup_total_alt (g !!! r)).
    rewrite lookup_ge_None_2 by lia. reflexivity.
  - rewrite (list_lookup_total_alt g). rewrite lookup_ge_None_2 by lia.
    reflexivity.
Qed.

Lemma candsAt_gridGet (cs : Cands) r c : candsAt cs r c = gridGet cs r c.
Proof. reflexivity. Qed.

Lemma setCands_gridSet (cs : Cands) r c s : setCands cs r c s = gridSet cs r c s.
Proof. reflexivity. Qed.

Lemma cell_gridGet (b : Board) r c : cell b r c = gridGet b r c.
Proof. reflexivity. Qed.

Lemma setCell_gridSet (b : Board) r c v : setCell b r c v = gridSet b r c v.
Proof. reflexivity. Qed.

Lemma candsAt_In_inGrid (cs : Cands) r c d :
  In d (candsAt cs r c) -> inGrid cs r c.
Proof.
  intros Hin. destruct (decide (inGrid cs r c)) as [Hg|Hg]; [assumption|].
  rewrite candsAt_gridGet, gridGet_outside in Hin by assumption. destruct Hin.
Qed.

Lemma cell_zero_inGrid (b : Board) r c :
  is_zero (cell b r c) = true -> inGrid b r c.
Proof.
  intros Hz. destruct (decide (inGrid b r c)) as [Hg|Hg]; [assumption|].
  rewrite cell_gridGet, gridGet_outside in Hz by assumption. discriminate.
Qed.

Lemma candsAt_deleteCand (cs : Cands) r c d r' c' :
  candsAt (deleteCand cs r c d) r' c'
  = if decide ((r, c) = (r', c')) then set_remove (candsAt cs r c) d
    else candsAt cs r' c'.
Proof.
  unfold deleteCand. rewrite setCands_gridSet, !candsAt_gridGet.
  destruct (decide ((r, c) = (r', c'))) as [E|E].
  - injection E as <- <-.
    destruct (decide (inGrid cs r c)) as [Hg|Hg].
    + now apply gridGet_set_eq.
    + rewrite gridSet_outside by assumption.
      rewrite ?(candsAt_gridGet cs r c), !gridGet_outside by assumption.
      reflexivity.
  - now apply gridGet_set_ne.
Qed.

Lemma deleteCand_absent (cs : Cands) r c d :
  ~ In d (candsAt cs r c) -> deleteCand cs r c d = cs.
Proof.
  intros Hd. unfold deleteCand. rewrite set_remove_absent by assumption.
  apply (gridSet_same (A := CSet)).
Qed.

Lemma elim_delete (cs : Cands) r c d :
  In d (candsAt cs r c) -> elim cs (deleteCand cs r c d) [(r, c, d)].
Proof.
  intros Hd. pose proof (candsAt_In_inGrid _ _ _ _ Hd) as Hg. split.
  - intros r' c' d'. rewrite candsAt_deleteCand. case_decide as E.
    + injection E as <- <-. rewrite set_remove_In. tauto.
    + auto.
  - intros r' c' d' [E|[]]. injection E as <- <- <-. split; [assumption|].
    rewrite candsAt_deleteCand. rewrite decide_True by reflexivity.
    rewrite set_remove_In. tauto.
  - unfold total, deleteCand. rewrite setCands_gridSet.
    pose proof (gridSum_set (fun s : CSet => length s) cs r c
                  (set_remove (candsAt cs r c) d) Hg) as Hs.
    pose proof (set_remove_length_lt _ _ Hd).
    change (gridGet cs r c) with (candsAt cs r c) in Hs.
    change (length [(r, c, d)]) with 1. lia.
  - apply (gridSet_length (A := CSet)).
  - intros r'. apply (gridSet_row_length (A := CSet)).
  - discriminate.
Qed.

(** A loop body that only performs recorded deletions. *)
Definition elim_step (f : Cands * list Triple -> Cands * list Triple) : Prop :=
  forall cs R, exists cs' R',
    f (cs, R) = (cs', R ++ R') /\ elim cs cs' R'.

(** The same for the loops that also raise the [changed] flag. *)
Definition elimF_step
  (f : bool * Cands * list Triple -> bool * Cands * list Triple) : Prop :=
  forall ch cs R, exists cs' R',
    f (ch, cs, R) = (ch || (0 <? length R')%nat, cs', R ++ R') /\ elim cs cs' R'.

Lemma elim_step_id : elim_step (fun st => st).
Proof.
  intros cs R. exists cs, []. rewrite app_nil_r. split; [reflexivity|].
  apply elim_refl.
Qed.

Lemma elimF_step_id : elimF_step (fun st => st).
Proof.
  intros ch cs R. exists cs, []. rewrite app_nil_r, orb_false_r.
  split; [reflexivity | apply elim_refl].
Qed.

Lemma elim_step_deleteAndRecord r c d : elim_step (deleteAndRecord r c d).
Proof.
  intros cs R. unfold deleteAndRecord.
  destruct (set_has (candsAt cs r c) d) eqn:Hh.
  - exists (deleteCand cs r c d), [(r, c, d)]. split; [reflexivity|].
    apply elim_delete. now apply set_has_In.
  - exists cs, []. rewrite app_nil_r. split; [reflexivity | apply elim_refl].
Qed.

Lemma elimF_step_deleteRecordFlag r c d : elimF_step (deleteRecordFlag r c d).
Proof.
  intros ch cs R. unfold deleteRecordFlag.
  destruct (set_has (candsAt cs r c) d) eqn:Hh.
  - exists (deleteCand cs r c d), [(r, c, d)]. rewrite orb_true_r.
    split; [reflexivity|]. apply elim_delete. now apply set_has_In.
  - exists cs, []. rewrite app_nil_r, orb_false_r.
    split; [reflexivity | apply elim_refl].
Qed.

Lemma elim_step_comp f g :
  elim_step f -> elim_step g -> elim_step (fun st => g (f st)).
Proof.
  intros Hf Hg cs R. destruct (Hf cs R) as (cs1 & R1 & E1 & H1).
  destruct (Hg cs1 (R ++ R1)) as (cs2 & R2 & E2 & H2).
  exists cs2, (R1 ++ R2). rewrite E1, E2, app_assoc. split; [reflexivity|].
  eapply elim_trans; eauto.
Qed.

Lemma elimF_step_comp f g :
  elimF_step f -> elimF_step g -> elimF_step (fun st => g (f st)).
Proof.
  intros Hf Hg ch cs R. destruct (Hf ch cs R) as (cs1 & R1 & E1 & H1).
  destruct (Hg (ch || (0 <? length R1)%nat) cs1 (R ++ R1)) as (cs2 & R2 & E2 & H2).
  exists cs2, (R1 ++ R2). rewrite E1, E2, <- app_assoc. split.
  - f_equal. f_equal. rewrite length_app.
    destruct ch, R1, R2; reflexivity.
  - eapply elim_trans; eauto.
Qed.

Lemma elim_step_forEach {X} (xs : list X) body :
  (forall x, In x xs -> elim_step (body x)) -> elim_step (forEach xs body).
Proof.
  unfold forEach. induction xs as [|x xs IH]; intros Hb; simpl.
  - apply elim_step_id.
  - apply (elim_step_comp (body x) (fold_left (fun s x => body x s) xs)).
    + apply Hb. now left.
    + apply IH. intros y Hy. apply Hb. now right.
Qed.

Lemma elimF_step_forEach {X} (xs : list X) body :
  (forall x, In x xs -> elimF_step (body x)) -> elimF_step (forEach xs body).
Proof.
  unfold forEach. induction xs as [|x xs IH]; intros Hb; simpl.
  - apply elimF_step_id.
  - apply (elimF_step_comp (body x) (fold_left (fun s x => body x s) xs)).
    + apply Hb. now left.
    + apply IH. intros y Hy. apply Hb. now right.
Qed.

(** [shrinks cs0 cs]: [cs] is [cs0] after some deletions. *)
Definition shrinks (cs0 cs : Cands) : Prop := exists R, elim cs0 cs R.

Lemma shrinks_refl cs : shrinks cs cs.
Proof. exists []. apply elim_refl. Qed.

Lemma shrinks_trans cs0 cs1 cs2 :
  shrinks cs0 cs1 -> shrinks cs1 cs2 -> shrinks cs0 cs2.
Proof. intros [R1 E1] [R2 E2]. exists (R1 ++ R2). eapply elim_trans; eauto. Qed.

Lemma shrinks_deleteCand cs r c d : shrinks cs (deleteCand cs r c d).
Proof.
  destruct (set_has (candsAt cs r c) d) eqn:Hh.
  - exists [(r, c, d)]. apply elim_delete. now apply set_has_In.
  - rewrite deleteCand_absent by now apply set_has_false.
    apply shrinks_refl.
Qed.

Lemma shrinks_forEach {X} (xs : list X) (body : X -> Cands -> Cands) cs :
  (forall x cs, In x xs -> shrinks cs (body x cs)) ->
  shrinks cs (forEach xs body cs).
Proof.
  unfold forEach. revert cs. induction xs as [|x xs IH]; intros cs Hb; simpl.
  - apply shrinks_refl.
  - eapply shrinks_trans; [apply Hb; now left|].
    apply IH. intros y cs' Hy. apply Hb. now right.
Qed.

Lemma shrinks_eliminateFromPeers b cs row col digit :
  shrinks cs (eliminateFromPeers b cs row col digit).
Proof.
  unfold eliminateFromPeers. cbv zeta.
  eapply shrinks_trans;
    [| apply shrinks_forEach; intros r cs' _;
       apply shrinks_forEach; intros c cs'' _;
       destruct (_ && _); [apply shrinks_deleteCand | apply shrinks_refl]].
  eapply shrinks_trans;
    [| apply shrinks_forEach; intros r cs' _;
       destruct (_ && _); [apply shrinks_deleteCand | apply shrinks_refl]].
  apply shrinks_forEach. intros c cs' _.
  destruct (_ && _); [apply shrinks_deleteCand | apply shrinks_refl].
Qed.

Lemma shrinks_shape9 cs0 cs : shrinks cs0 cs -> shape9 cs0 -> shape9 cs.
Proof.
  intros [R E] [Hl Hr]. split.
  - now rewrite (elim_length _ _ _ E).
  - intros r Hlt. rewrite (elim_rows _ _ _ E). now apply Hr.
Qed.

Lemma deepCloneBoard_id (b : Board) : deepCloneBoard b = b.
Proof. unfold deepCloneBoard. apply map_id. Qed.

Lemma deepCloneCandidates_id (cs : Cands) : deepCloneCandidates cs = cs.
Proof.
  unfold deepCloneCandidates. rewrite <- (map_id cs) at 2.
  apply map_ext. intros row. apply map_id.
Qed.

(** ** Steps of the logical phase *)

(** The [removedCandidates] a snapshot carries (none when the field or the
    highlight is absent). *)
Definition removedOf (m : SnapshotMeta) : list Triple :=
  match m_highlight m with
  | Some h => default [] (hl_removedCandidates h)
  | None => []
  end.

Definition removedOfSnap (s : SudokuSnapshot) : list Triple :=
  match highlight s with
  | Some h => default [] (hl_removedCandidates h)
  | None => []
  end.

(** One recorded step: a digit is placed in an empty cell and eliminated
    from peers, or a strategy removes the candidates [R]; either way one
    snapshot is appended. *)
Inductive unit_step (g : Sudoku) : Sudoku -> Prop :=
| step_place r c d cs' m :
    r < 9 -> c < 9 -> cell (board g) r c = Num 0 -> In d fullSet ->
    shrinks (candidates g) cs' -> removedOf m = [] ->
    unit_step g
      (addSnapshot (mkSudoku (setCell (board g) r c d) cs' (snapshots g)) m)
| step_elim cs' R m :
    elim (candidates g) cs' R -> R <> [] -> removedOf m = R ->
    unit_step g (addSnapshot (withCandidates g cs') m).

Definition units : Sudoku -> Sudoku -> Prop := rtc unit_step.

Lemma unit_step_snapshots g g' :
  unit_step g g' -> exists s, snapshots g' = snapshots g ++ [s]
    /\ snap_candidates s = candidates g'
    /\ snap_board s = board g'
    /\ (forall r c d, In (r, c, d) (removedOfSnap s) ->
          In d (candsAt (candidates g) r c)
          /\ ~ In d (candsAt (candidates g') r c))
    /\ shrinks (candidates g) (candidates g').
Proof.
  intros [r c d cs' m Hr Hc Hz Hd Hs Hm | cs' R m He Hne Hm]; simpl;
    eexists; (split; [reflexivity|]); simpl;
    rewrite deepCloneCandidates_id, deepCloneBoard_id;
    (split; [reflexivity|]); (split; [reflexivity|]).
  - split; [|assumption]. unfold removedOfSnap, removedOf in *. simpl.
    rewrite Hm. intros ? ? ? [].
  - split; [|now exists R]. unfold removedOfSnap, removedOf in *. simpl.
    rewrite Hm. intros r c d Hin. apply (elim_removed _ _ _ He _ _ _ Hin).
Qed.

Lemma units_snapshots_le g g' :
  units g g' -> length (snapshots g) <= length (snapshots g').
Proof.
  induction 1 as [|g g1 g2 Hs _ IH]; [lia|].
  destruct (unit_step_snapshots _ _ Hs) as (s & E & _).
  rewrite E, length_app in IH. simpl in IH. lia.
Qed.

Lemma fullSet_nonzero d : In d fullSet -> is_zero d = false.
Proof.
  unfold fullSet. simpl. intros Hd.
  repeat (destruct Hd as [<-|Hd]; [reflexivity|]). destruct Hd.
Qed.

Lemma unit_step_measure g g' : unit_step g g' -> measure g' < measure g.
Proof.
  intros [r c d cs' m Hr Hc Hz Hd [R Hs] Hm | cs' R m He Hne Hm];
    unfold measure; simpl.
  - pose proof (elim_total _ _ _ Hs).
    assert (Hg : inGrid (board g) r c).
    { apply cell_zero_inGrid. now rewrite Hz. }
    pose proof (gridSum_set (fun v => if is_zero v then 1 else 0)
                  (board g) r c d Hg) as Hsum.
    change (gridGet (board g) r c) with (cell (board g) r c) in Hsum.
    rewrite Hz, (fullSet_nonzero d Hd) in Hsum. simpl in Hsum.
    unfold countEmpty. rewrite setCell_gridSet. lia.
  - pose proof (elim_total _ _ _ He). destruct R; [congruence|].
    simpl in *. lia.
Qed.

Lemma units_measure g g' :
  units g g' ->
  measure g' + (length (snapshots g') - length (snapshots g)) <= measure g.
Proof.
  induction 1 as [|g g1 g2 Hs Hu IH]; [lia|].
  pose proof (unit_step_measure _ _ Hs).
  destruct (unit_step_snapshots _ _ Hs) as (s & E & _).
  pose proof (units_snapshots_le _ _ Hu).
  rewrite E, length_app in *. simpl in *. lia.
Qed.

(** The invariant of the session: both grids are 9x9 and the candidates of
    an empty cell are digits 1..9. *)
Definition dom_ok (g : Sudoku) : Prop :=
  forall r c d, is_zero (cell (board g) r c) = true ->
    In d (candsAt (candidates g) r c) -> In d fullSet.

Definition Good (g : Sudoku) : Prop :=
  shape9 (board g) /\ shape9 (candidates g) /\ dom_ok g.

Lemma unit_step_Good g g' : unit_step g g' -> Good g -> Good g'.
Proof.
  intros [r c d cs' m Hr Hc Hz Hd Hs Hm | cs' R m He Hne Hm]
    (Hb & Hcs & Hdom); repeat split; simpl.
  - rewrite setCell_gridSet, gridSet_length. apply Hb.
  - intros r' Hr'. rewrite setCell_gridSet, gridSet_row_length. now apply Hb.
  - apply (shrinks_shape9 _ _ Hs Hcs).
  - intros r' Hr'. now apply (shrinks_shape9 _ _ Hs Hcs).
  - intros r' c' d' Hz' Hin. simpl in *. destruct Hs as [R Hs].
    destruct (decide ((r, c) = (r', c'))) as [E|E].
    + injection E as <- <-. rewrite setCell_gridSet, cell_gridGet in Hz'.
      rewrite gridGet_set_eq in Hz'.
      * now rewrite (fullSet_nonzero d Hd) in Hz'.
      * apply cell_zero_inGrid. now rewrite Hz.
    + rewrite setCell_gridSet, cell_gridGet, gridGet_set_ne in Hz' by assumption.
      apply (Hdom r' c' d' Hz'). apply (elim_sub _ _ _ Hs _ _ _ Hin).
  - apply Hb.
  - apply Hb.
  - apply (shrinks_shape9 (candidates g)); [now exists R | assumption].
  - intros r' Hr'. apply (shrinks_shape9 (candidates g)); [now exists R | assumption | assumption].
  - intros r' c' d' Hz' Hin. simpl in *.
    apply (Hdom r' c' d' Hz'). apply (elim_sub _ _ _ He _ _ _ Hin).
Qed.

Lemma units_Good g g' : units g g' -> Good g -> Good g'.
Proof. induction 1; eauto using unit_step_Good. Qed.

(** ** What a strategy call does to the session *)

(** [post g (hit, g')]: the call went from [g] to [g'] by recorded steps;
    it reports [true] exactly when it recorded at least one step, and a
    call that reports [false] leaves the session as it was. *)
Definition post (g : Sudoku) (res : bool * Sudoku) : Prop :=
  units g res.2
  /\ (if res.1 then length (snapshots g) < length (snapshots res.2)
      else res.2 = g).

Lemma post_false g : post g (false, g).
Proof. split; simpl; [apply rtc_refl | reflexivity]. Qed.

Lemma post_seq g b1 g1 b2 g2 :
  post g (b1, g1) -> post g1 (b2, g2) -> post g (b1 || b2, g2).
Proof.
  intros [U1 H1] [U2 H2]. simpl in *. split; simpl.
  - eapply rtc_trans; eauto.
  - pose proof (units_snapshots_le _ _ U1).
    pose proof (units_snapshots_le _ _ U2).
    destruct b1, b2; simpl; subst; try lia; reflexivity.
Qed.

Lemma post_Good g b g' : post g (b, g') -> Good g -> Good g'.
Proof. intros [U _]. now apply units_Good. Qed.

Lemma withCandidates_same g : withCandidates g (candidates g) = g.
Proof. now destruct g. Qed.

Lemma post_elim g cs R m :
  elim (candidates g) cs R -> removedOf m = R ->
  post g ((0 <? length R)%nat,
          if (0 <? length R)%nat then addSnapshot (withCandidates g cs) m
          else withCandidates g cs).
Proof.
  intros He Hm. destruct R as [|t R]; simpl.
  - rewrite (elim_nil _ _ _ He eq_refl), withCandidates_same. apply post_false.
  - split; simpl.
    + apply rtc_once. eapply step_elim; eauto; discriminate.
    + rewrite length_app. simpl. lia.
Qed.

Lemma post_commitIfRemoved g cs R m :
  elim (candidates g) cs R -> removedOf m = R ->
  post g (commitIfRemoved g cs R m).
Proof.
  intros He Hm. pose proof (post_elim g cs R m He Hm) as Hp.
  unfold commitIfRemoved. destruct (0 <? length R)%nat; exact Hp.
Qed.

Lemma post_recordIfRemoved g ch cs R m :
  elim (candidates g) cs R -> removedOf m = R ->
  exists g', recordIfRemoved g ch cs R m = (ch, g')
             /\ post g ((0 <? length R)%nat, g').
Proof.
  intros He Hm. pose proof (post_elim g cs R m He Hm) as Hp.
  unfold recordIfRemoved. destruct (0 <? length R)%nat; eauto.
Qed.

Lemma post_place g r c d m :
  r < 9 -> c < 9 -> is_zero (cell (board g) r c) = true -> In d fullSet ->
  removedOf m = [] ->
  post g (true, addSnapshot (eliminatePeers (placeDigit g r c d) r c d) m).
Proof.
  intros Hr Hc Hz Hd Hm. split; simpl.
  - apply rtc_once.
    apply (step_place g r c d
             (eliminateFromPeers (setCell (board g) r c d) (candidates g) r c d) m);
      auto.
    + now apply is_zero_eq.
    + apply shrinks_eliminateFromPeers.
  - rewrite length_app. simpl. lia.
Qed.

(** Short-circuiting loops and dispatchers. *)
Lemma forFirst_post {X} (xs : list X) body g :
  (forall x g, In x xs -> Good g -> post g (body x g)) ->
  Good g -> post g (forFirst xs body g).
Proof.
  revert g. induction xs as [|x xs IH]; intros g Hb Hg; simpl.
  - apply post_false.
  - pose proof (Hb x g (or_introl eq_refl) Hg) as Hp.
    destruct (body x g) as [hit g1]. destruct hit; [exact Hp|].
    destruct Hp as [_ E]. simpl in E. subst g1.
    apply IH; [|assumption]. intros y g' Hy. apply Hb. now right.
Qed.

Lemma orElse_post enabled strategy rest g :
  (forall g, Good g -> post g (strategy g)) ->
  (forall g, Good g -> post g (rest g)) ->
  Good g -> post g (orElse enabled strategy rest g).
Proof.
  intros Hs Hr Hg. unfold orElse. destruct enabled; [|now apply Hr].
  pose proof (Hs g Hg) as Hp. destruct (strategy g) as [hit g1].
  destruct hit; [exact Hp|]. destruct Hp as [_ E]. simpl in E. subst g1.
  now apply Hr.
Qed.

Lemma orElseUnits_post {X} enabled (xs : list X) unit rest g :
  (forall x g, In x xs -> Good g -> post g (unit x g)) ->
  (forall g, Good g -> post g (rest g)) ->
  Good g -> post g (orElseUnits enabled xs unit rest g).
Proof.
  intros Hs Hr Hg. unfold orElseUnits. destruct enabled; [|now apply Hr].
  pose proof (forFirst_post xs unit g Hs Hg) as Hp.
  destruct (forFirst xs unit g) as [hit g1].
  destruct hit; [exact Hp|]. destruct Hp as [_ E]. simpl in E. subst g1.
  now apply Hr.
Qed.

(** Loops that scan to their end and accumulate the [changed] flag. *)
Definition scan_step (f : bool * Sudoku -> bool * Sudoku) : Prop :=
  forall ch g, Good g -> exists hit g',
    f (ch, g) = (ch || hit, g') /\ post g (hit, g').

Lemma scan_step_id : scan_step (fun st => st).
Proof.
  intros ch g _. exists false, g. rewrite orb_false_r.
  split; [reflexivity | apply post_false].
Qed.

Lemma scan_step_comp f1 f2 :
  scan_step f1 -> scan_step f2 -> scan_step (fun st => f2 (f1 st)).
Proof.
  intros H1 H2 ch g Hg. destruct (H1 ch g Hg) as (h1 & g1 & E1 & P1).
  destruct (H2 (ch || h1) g1 (post_Good _ _ _ P1 Hg)) as (h2 & g2 & E2 & P2).
  exists (h1 || h2), g2. rewrite E1, E2, orb_assoc. split; [reflexivity|].
  eapply post_seq; eauto.
Qed.

Lemma scan_step_forEach {X} (xs : list X) body :
  (forall x, In x xs -> scan_step (body x)) -> scan_step (forEach xs body).
Proof.
  unfold forEach. induction xs as [|x xs IH]; intros Hb; simpl.
  - apply scan_step_id.
  - apply (scan_step_comp (body x) (fold_left (fun s x => body x s) xs)).
    + apply Hb. now left.
    + apply IH. intros y Hy. apply Hb. now right.
Qed.

Lemma scan_step_post f g :
  scan_step f -> Good g -> post g (f (false, g)).
Proof.
  intros Hf Hg. destruct (Hf false g Hg) as (hit & g' & E & P).
  rewrite E. exact P.
Qed.

(** ** The strategies only take recorded steps *)

Lemma In_idx9 x : In x idx9 -> x < 9.
Proof. unfold idx9. rewrite in_seq. lia. Qed.

Lemma In_idx3 x : In x idx3 -> x < 3.
Proof. unfold idx3. rewrite in_seq. lia. Qed.

Lemma In_digits19 d : In d digits19 -> In (Num d) fullSet.
Proof. unfold fullSet. apply in_map. Qed.

Lemma In_boxCells sr sc rr cc :
  In (rr, cc) (boxCells sr sc) -> sr <= rr < sr + 3 /\ sc <= cc < sc + 3.
Proof.
  unfold boxCells. rewrite in_flat_map. intros (r & Hr & Hin).
  apply in_map_iff in Hin as (c & E & Hc). injection E as <- <-.
  apply In_idx3 in Hr, Hc. lia.
Qed.

Lemma single_lookup {A} `{Inhabited A} (l : list A) :
  length l = 1 -> l = [l !!! 0].
Proof. destruct l as [|a [|b l]]; simpl; intros; try discriminate. reflexivity. Qed.

Lemma removedOf_none k v d rows cols blocks bxs cands :
  removedOf (mkMeta k v d (Some (mkHighlight rows cols blocks bxs cands None)))
  = [].
Proof. reflexivity. Qed.

Lemma applyNakedSingles_post g opts :
  Good g -> post g (applyNakedSingles g opts).
Proof.
  intros Hg. unfold applyNakedSingles.
  destruct (isFalse opts nakedSingles); [apply post_false|].
  apply scan_step_post; [|assumption].
  apply scan_step_forEach. intros row Hrow.
  apply scan_step_forEach. intros col Hcol ch g0 Hg0. cbv beta iota zeta.
  destruct (is_zero (cell (board g0) row col)) eqn:Hz; simpl;
    [destruct (Nat.eqb_spec (length (candsAt (candidates g0) row col)) 1) as [Hl|Hl]|].
  - eexists true, _. rewrite orb_true_r. split; [reflexivity|].
    apply post_place; auto using In_idx9.
    destruct Hg0 as (_ & _ & Hdom). apply (Hdom row col); [assumption|].
    rewrite (single_lookup _ Hl) at 2. now left.
  - exists false, g0. rewrite orb_false_r. split; [reflexivity | apply post_false].
  - exists false, g0. rewrite orb_false_r. split; [reflexivity | apply post_false].
Qed.

Lemma isOpenFor_zero g digit r c :
  isOpenFor g digit r c = true -> is_zero (cell (board g) r c) = true.
Proof. unfold isOpenFor. now intros [? _]%andb_true_iff. Qed.

Lemma applyHiddenSinglesInRows_post g :
  Good g -> post g (applyHiddenSinglesInRows g).
Proof.
  unfold applyHiddenSinglesInRows. apply forFirst_post. intros row g1 Hrow Hg1.
  apply forFirst_post; [|assumption]. intros d g2 Hd _. cbv zeta.
  destruct (isDigitInRow _ _ _); [apply post_false|].
  destruct (Nat.eqb_spec (length (List.filter (fun col => isOpenFor g2 (Num d) row col) idx9)) 1)
    as [Hl|Hl]; [|apply post_false].
  pose proof (single_lookup _ Hl) as Hs.
  assert (Hin : In (List.filter (fun col => isOpenFor g2 (Num d) row col) idx9 !!! 0)
                  (List.filter (fun col => isOpenFor g2 (Num d) row col) idx9)).
  { rewrite Hs at 2. now left. }
  apply filter_In in Hin as [Hc Ho].
  apply post_place; auto using In_idx9, In_digits19.
  now apply isOpenFor_zero in Ho.
Qed.

Lemma applyHiddenSinglesInColumns_post g :
  Good g -> post g (applyHiddenSinglesInColumns g).
Proof.
  unfold applyHiddenSinglesInColumns. apply forFirst_post. intros col g1 Hcol Hg1.
  apply forFirst_post; [|assumption]. intros d g2 Hd _. cbv zeta.
  destruct (isDigitInCol _ _ _); [apply post_false|].
  destruct (Nat.eqb_spec (length (List.filter (fun row => isOpenFor g2 (Num d) row col) idx9)) 1)
    as [Hl|Hl]; [|apply post_false].
  pose proof (single_lookup _ Hl) as Hs.
  assert (Hin : In (List.filter (fun row => isOpenFor g2 (Num d) row col) idx9 !!! 0)
                  (List.filter (fun row => isOpenFor g2 (Num d) row col) idx9)).
  { rewrite Hs at 2. now left. }
  apply filter_In in Hin as [Hc Ho].
  apply post_place; auto using In_idx9, In_digits19.
  now apply isOpenFor_zero in Ho.
Qed.

Lemma applyHiddenSinglesInBoxes_post g :
  Good g -> post g (applyHiddenSinglesInBoxes g).
Proof.
  unfold applyHiddenSinglesInBoxes. apply forFirst_post. intros boxRow g1 Hbr Hg1.
  apply forFirst_post; [|assumption]. intros boxCol g2 Hbc Hg2.
  apply forFirst_post; [|assumption]. intros d g3 Hd _. cbv zeta.
  destruct (isDigitInBox _ _ _ _); [apply post_false|].
  set (cells := List.filter _ _).
  destruct (Nat.eqb_spec (length cells) 1) as [Hl|Hl]; [|apply post_false].
  pose proof (single_lookup _ Hl) as Hs.
  assert (Hin : In (cells !!! 0) cells) by (rewrite Hs at 2; now left).
  destruct (cells !!! 0) as [r c]. apply filter_In in Hin as [Hc Ho].
  apply In_boxCells in Hc. apply In_idx3 in Hbr, Hbc.
  apply post_place; auto using In_digits19; try lia.
  now apply isOpenFor_zero in Ho.
Qed.

Lemma applyHiddenSingles_post g opts :
  Good g -> post g (applyHiddenSingles g opts).
Proof.
  intros Hg. unfold applyHiddenSingles.
  destruct (isFalse opts hiddenSingles); [apply post_false|].
  repeat (apply orElse_post;
          auto using applyHiddenSinglesInBoxes_post, applyHiddenSinglesInRows_post,
            applyHiddenSinglesInColumns_post; intros).
  apply post_false.
Qed.

(** Tactics for the elimination loops: [elim_solve] proves that a loop
    body only performs recorded deletions, [run_elim] names the grid and
    the removed list an elimination loop of the goal returns. *)
Ltac elim_solve :=
  repeat first
    [ apply elim_step_deleteAndRecord
    | apply elimF_step_deleteRecordFlag
    | apply elim_step_id
    | apply elimF_step_id
    | apply elim_step_forEach; intros
    | apply elimF_step_forEach; intros
    | match goal with
      | p : (nat * nat)%type |- _ => destruct p; cbv beta iota
      end
    | match goal with
      | |- context [if ?c then _ else _] => destruct c
      | |- context [match ?p with pair _ _ => _ end] => destruct p
      end ].

Ltac run_elim :=
  match goal with
  | |- context [forEach ?xs ?body (candidates ?g, @nil Triple)] =>
      let Hstep := fresh "Hstep" in
      let cs' := fresh "cs'" in
      let R' := fresh "R'" in
      let E := fresh "E" in
      let He := fresh "He" in
      assert (Hstep : elim_step (forEach xs body))
        by (apply elim_step_forEach; intros; elim_solve);
      destruct (Hstep (candidates g) (@nil Triple)) as (cs' & R' & E & He);
      rewrite E; clear E Hstep; rewrite ?app_nil_l
  | |- context [forEach ?xs ?body (?ch, candidates ?g, @nil Triple)] =>
      let Hstep := fresh "Hstep" in
      let cs' := fresh "cs'" in
      let R' := fresh "R'" in
      let E := fresh "E" in
      let He := fresh "He" in
      assert (Hstep : elimF_step (forEach xs body))
        by (apply elimF_step_forEach; intros; elim_solve);
      destruct (Hstep ch (candidates g) (@nil Triple)) as (cs' & R' & E & He);
      rewrite E; clear E Hstep; rewrite ?app_nil_l
  end.

(** From a flagged elimination to a step of a scanning loop. *)
Ltac record_step He :=
  match goal with
  | |- exists hit g', recordIfRemoved ?g ?ch ?cs ?R ?m = _ /\ _ =>
      let g' := fresh "g'" in
      let E := fresh "E" in
      let P := fresh "P" in
      destruct (post_recordIfRemoved g ch cs R m He eq_refl) as (g' & E & P);
      exists (0 <? length R)%nat, g'; split; [exact E | exact P]
  end.

Lemma scan_skip ch g :
  exists hit g', (ch, g) = (ch || hit, g') /\ post g (hit, g').
Proof.
  exists false, g. rewrite orb_false_r. split; [reflexivity | apply post_false].
Qed.

Lemma applyNakedPairsInRow_post g row :
  Good g -> post g (applyNakedPairsInRow g row).
Proof.
  unfold applyNakedPairsInRow. cbv zeta. set (emptyCols := List.filter _ _).
  apply forFirst_post. intros i g1 _ Hg1.
  apply forFirst_post; [|assumption]. intros j g2 _ _.
  destruct (_ && _ && _); [|apply post_false].
  run_elim. now apply post_commitIfRemoved.
Qed.

Lemma applyNakedPairsInCol_post g col :
  Good g -> post g (applyNakedPairsInCol g col).
Proof.
  unfold applyNakedPairsInCol. cbv zeta. set (emptyRows := List.filter _ _).
  apply forFirst_post. intros i g1 _ Hg1.
  apply forFirst_post; [|assumption]. intros j g2 _ _.
  destruct (_ && _ && _); [|apply post_false].
  run_elim. now apply post_commitIfRemoved.
Qed.

Lemma applyNakedPairsInBox_post g boxRow boxCol :
  Good g -> post g (applyNakedPairsInBox g boxRow boxCol).
Proof.
  unfold applyNakedPairsInBox. cbv zeta. set (cells := List.filter _ _).
  apply forFirst_post. intros i g1 _ Hg1.
  apply forFirst_post; [|assumption]. intros j g2 _ _.
  destruct (cells !!! i) as [r1 c1]. destruct (cells !!! j) as [r2 c2].
  destruct (_ && _ && _); [|apply post_false].
  run_elim. now apply post_commitIfRemoved.
Qed.

Lemma applyNakedPairs_post g opts : Good g -> post g (applyNakedPairs g opts).
Proof.
  intros Hg. unfold applyNakedPairs.
  destruct (isFalse opts nakedPairs); [apply post_false|].
  repeat (apply orElseUnits_post; [| |assumption]; intros;
          auto using applyNakedPairsInRow_post, applyNakedPairsInCol_post).
  - destruct x. now apply applyNakedPairsInBox_post.
  - apply post_false.
Qed.

Lemma applyNakedTriplesInRow_post g row :
  Good g -> post g (applyNakedTriplesInRow g row).
Proof.
  unfold applyNakedTriplesInRow. cbv zeta. set (emptyCols := List.filter _ _).
  apply scan_step_post.
  apply scan_step_forEach. intros i _.
  apply scan_step_forEach. intros j _.
  apply scan_step_forEach. intros k _ ch g1 Hg1. cbv beta iota.
  destruct (_ && _ && _ && _); [|apply scan_skip].
  run_elim. record_step He.
Qed.

Lemma applyNakedTriplesInColumn_post g col :
  Good g -> post g (applyNakedTriplesInColumn g col).
Proof.
  unfold applyNakedTriplesInColumn. cbv zeta. set (emptyRows := List.filter _ _).
  apply scan_step_post.
  apply scan_step_forEach. intros i _.
  apply scan_step_forEach. intros j _.
  apply scan_step_forEach. intros k _ ch g1 Hg1. cbv beta iota.
  destruct (_ && _ && _ && _); [|apply scan_skip].
  run_elim. record_step He.
Qed.

Lemma applyNakedTriplesInBox_post g boxRow boxCol :
  Good g -> post g (applyNakedTriplesInBox g boxRow boxCol).
Proof.
  unfold applyNakedTriplesInBox. cbv zeta. set (emptyCells := List.filter _ _).
  apply scan_step_post.
  apply scan_step_forEach. intros i _.
  apply scan_step_forEach. intros j _.
  apply scan_step_forEach. intros k _ ch g1 Hg1. cbv beta iota.
  destruct (emptyCells !!! i) as [r1 c1]. destruct (emptyCells !!! j) as [r2 c2].
  destruct (emptyCells !!! k) as [r3 c3].
  destruct (_ && _ && _ && _); [|apply scan_skip].
  run_elim. record_step He.
Qed.

Lemma applyNakedTriples_post g opts : Good g -> post g (applyNakedTriples g opts).
Proof.
  intros Hg. unfold applyNakedTriples.
  destruct (isFalse opts nakedTriples); [apply post_false|].
  repeat (apply orElseUnits_post; [| |assumption]; intros;
          auto using applyNakedTriplesInRow_post, applyNakedTriplesInColumn_post).
  - destruct x. now apply applyNakedTriplesInBox_post.
  - apply post_false.
Qed.

(** Box-Line Reduction: the elimination loop also collects the cells it
    highlights. *)
Definition elimX_step {E}
  (f : Cands * list Triple * E -> Cands * list Triple * E) : Prop :=
  forall cs R e, exists cs' R' e',
    f (cs, R, e) = (cs', R ++ R', e') /\ elim cs cs' R'.

Lemma elimX_step_forEach {E X} (xs : list X)
  (body : X -> Cands * list Triple * E -> Cands * list Triple * E) :
  (forall x, In x xs -> elimX_step (body x)) -> elimX_step (forEach xs body).
Proof.
  unfold forEach. induction xs as [|x xs IH]; intros Hb cs R e; simpl.
  - exists cs, [], e. rewrite app_nil_r. split; [reflexivity | apply elim_refl].
  - destruct (Hb x (or_introl eq_refl) cs R e) as (cs1 & R1 & e1 & E1 & He1).
    rewrite E1.
    destruct (IH (fun y Hy => Hb y (or_intror Hy)) cs1 (R ++ R1) e1)
      as (cs2 & R2 & e2 & E2 & He2).
    rewrite E2, <- app_assoc. exists cs2, (R1 ++ R2), e2.
    split; [reflexivity | eapply elim_trans; eauto].
Qed.

Lemma eliminateDigitFromBox_post g boxRow boxCol digit excludeRow excludeCol :
  Good g ->
  post g (eliminateDigitFromBox g boxRow boxCol digit excludeRow excludeCol).
Proof.
  intros _. unfold eliminateDigitFromBox. cbv zeta.
  match goal with
  | |- context [forEach ?xs ?body (candidates g, [], [])] =>
      assert (Hstep : elimX_step (forEach xs body))
  end.
  { apply elimX_step_forEach. intros [rr cc] _ cs R bh. cbv beta iota.
    destruct (ifPresent excludeRow _ _);
      [|destruct (ifPresent excludeCol _ _);
        [|destruct (is_zero (cell (board g) rr cc))]];
      try (eexists cs, [], _; rewrite app_nil_r;
           split; [reflexivity | apply elim_refl]).
    destruct (elim_step_deleteAndRecord rr cc digit cs R)
      as (cs1 & R1 & E1 & He1). rewrite E1. eauto. }
  destruct (Hstep (candidates g) [] []) as (cs' & R' & bh' & E & He).
  rewrite E, app_nil_l. now apply post_commitIfRemoved.
Qed.

Lemma applyBoxLineReductionInRows_post g :
  Good g -> post g (applyBoxLineReductionInRows g).
Proof.
  unfold applyBoxLineReductionInRows. apply forFirst_post. intros row g1 _ Hg1.
  apply forFirst_post; [|assumption]. intros d g2 _ Hg2. cbv zeta.
  destruct (isDigitInRow _ _ _); [apply post_false|].
  destruct (_ && _); [|apply post_false].
  destruct (forallb _ _); [|apply post_false].
  now apply eliminateDigitFromBox_post.
Qed.

Lemma applyBoxLineReductionInColumns_post g :
  Good g -> post g (applyBoxLineReductionInColumns g).
Proof.
  unfold applyBoxLineReductionInColumns. apply forFirst_post. intros col g1 _ Hg1.
  apply forFirst_post; [|assumption]. intros d g2 _ Hg2. cbv zeta.
  destruct (isDigitInColumn _ _ _); [apply post_false|].
  destruct (_ && _); [|apply post_false].
  destruct (forallb _ _); [|apply post_false].
  now apply eliminateDigitFromBox_post.
Qed.

Lemma applyBoxLineReduction_post g opts :
  Good g -> post g (applyBoxLineReduction g opts).
Proof.
  intros Hg. unfold applyBoxLineReduction.
  destruct (isFalse opts boxLineReduction); [apply post_false|].
  repeat (apply orElse_post;
          auto using applyBoxLineReductionInRows_post,
            applyBoxLineReductionInColumns_post; intros).
  apply post_false.
Qed.

(** X-Wing *)
Lemma elimF_step_deleteIfEmpty b r c d : elimF_step (deleteIfEmpty b r c d).
Proof.
  unfold deleteIfEmpty. destruct (is_zero (cell b r c)).
  - apply elimF_step_deleteRecordFlag.
  - apply elimF_step_id.
Qed.

Lemma elimF_step_xwing b r1 c1 r2 c2 d :
  elimF_step (fun st =>
    let st := deleteIfEmpty b r1 c1 d st in deleteIfEmpty b r2 c2 d st).
Proof.
  apply (elimF_step_comp (deleteIfEmpty b r1 c1 d) (deleteIfEmpty b r2 c2 d));
    apply elimF_step_deleteIfEmpty.
Qed.

Lemma applyXWingRows_post g d : Good g -> post g (applyXWingRows g d).
Proof.
  unfold applyXWingRows. cbv zeta. set (pos := map _ idx9).
  apply scan_step_post.
  apply scan_step_forEach. intros r1 _.
  destruct (length (pos !!! r1) =? 2)%nat; [|apply scan_step_id].
  apply scan_step_forEach. intros r2 _ ch g1 Hg1. cbv beta iota.
  destruct (length (pos !!! r2) =? 2)%nat; [|apply scan_skip].
  destruct (_ && _); [|apply scan_skip].
  match goal with
  | |- context [forEach ?xs ?body (ch, candidates g1, [])] =>
      assert (Hstep : elimF_step (forEach xs body))
  end.
  { apply elimF_step_forEach. intros rx _.
    destruct (_ && _); [apply elimF_step_xwing | apply elimF_step_id]. }
  destruct (Hstep ch (candidates g1) []) as (cs' & R' & E & He).
  rewrite E, app_nil_l. record_step He.
Qed.

Lemma applyXWingColumns_post g d : Good g -> post g (applyXWingColumns g d).
Proof.
  unfold applyXWingColumns. cbv zeta. set (pos := map _ idx9).
  apply scan_step_post.
  apply scan_step_forEach. intros c1 _.
  destruct (length (pos !!! c1) =? 2)%nat; [|apply scan_step_id].
  apply scan_step_forEach. intros c2 _ ch g1 Hg1. cbv beta iota.
  destruct (length (pos !!! c2) =? 2)%nat; [|apply scan_skip].
  destruct (_ && _); [|apply scan_skip].
  match goal with
  | |- context [forEach ?xs ?body (ch, candidates g1, [])] =>
      assert (Hstep : elimF_step (forEach xs body))
  end.
  { apply elimF_step_forEach. intros cx _.
    destruct (_ && _); [apply elimF_step_xwing | apply elimF_step_id]. }
  destruct (Hstep ch (candidates g1) []) as (cs' & R' & E & He).
  rewrite E, app_nil_l. record_step He.
Qed.

Lemma applyXWing_post g opts : Good g -> post g (applyXWing g opts).
Proof.
  intros Hg. unfold applyXWing.
  destruct (isFalse opts xWing); [apply post_false|].
  apply forFirst_post; [|assumption]. intros d g1 _ Hg1.
  repeat (apply orElse_post;
          auto using applyXWingRows_post, applyXWingColumns_post; intros).
  apply post_false.
Qed.

(** Hidden Pairs: on a good session the position table is built without
    a [TypeError]. *)
Definition postR (g : Sudoku) (r : result (bool * Sudoku)) : Prop :=
  exists res, r = Ok res /\ post g res.

Lemma bind_Ok {A B} (a : A) (k : A -> result B) : (x ← Ok a; k x) = k a.
Proof. reflexivity. Qed.

Lemma forM_ok {S X} (xs : list X) (body : X -> S -> result S) (s : S) :
  (forall x s, In x xs -> exists s', body x s = Ok s') ->
  exists s', forM xs body s = Ok s'.
Proof.
  revert s. induction xs as [|x xs IH]; intros s Hb; simpl.
  - now exists s.
  - destruct (Hb x s (or_introl eq_refl)) as (s1 & E1). rewrite E1, bind_Ok.
    apply IH. intros y s' Hy. apply Hb. now right.
Qed.

Lemma pushPosition_ok {X} (lo : Z) (pos : list (list X)) d (x : X) :
  (lo <= 1)%Z -> In d fullSet -> exists pos', pushPosition lo pos d x = Ok pos'.
Proof.
  intros Hlo Hd. unfold fullSet in Hd. apply in_map_iff in Hd as (z & <- & Hz).
  unfold pushPosition.
  assert (Hrange : (1 <= z <= 9)%Z).
  { unfold digits19 in Hz. simpl in Hz.
    repeat (destruct Hz as [<-|Hz]; [lia|]). destruct Hz. }
  destruct (Z.leb_spec lo z); [|lia]. destruct (Z.leb_spec z 9); [|lia].
  simpl. eauto.
Qed.

Lemma stripOtherCandidates_elim cs row col allowed R :
  exists cs' R',
    stripOtherCandidates cs row col allowed R
    = ((0 <? length R')%nat, cs', R ++ R') /\ elim cs cs' R'.
Proof.
  unfold stripOtherCandidates.
  match goal with
  | |- context [forEach ?xs ?body _] =>
      assert (Hstep : elimF_step (forEach xs body))
        by (apply elimF_step_forEach; intros; apply elimF_step_deleteRecordFlag)
  end.
  destruct (Hstep false cs R) as (cs' & R' & E & He). rewrite E. simpl. eauto.
Qed.

Lemma stripPair_scan g ch p1 p2 d1 d2 m :
  (forall R, removedOf (m R) = R) ->
  exists hit g', stripPair g ch p1 p2 d1 d2 m = (ch || hit, g')
                 /\ post g (hit, g').
Proof.
  intros Hm. unfold stripPair. cbv zeta.
  destruct (stripOtherCandidates_elim (candidates g) p1.1 p1.2 [Num d1; Num d2] [])
    as (cs1 & R1 & E1 & He1). rewrite E1, app_nil_l.
  destruct (stripOtherCandidates_elim cs1 p2.1 p2.2 [Num d1; Num d2] R1)
    as (cs2 & R2 & E2 & He2). rewrite E2.
  pose proof (elim_trans _ _ _ _ _ He1 He2) as He.
  destruct (post_recordIfRemoved g
              ((0 <? length R2)%nat || ((0 <? length R1)%nat || ch)) cs2
              (R1 ++ R2) (m (R1 ++ R2)) He (Hm _)) as (g' & E & P).
  exists (0 <? length (R1 ++ R2))%nat, g'. rewrite E. split; [|exact P].
  f_equal. rewrite length_app. destruct ch, R1, R2; reflexivity.
Qed.

Lemma applyHiddenPairsInRow_post g row :
  Good g -> postR g (applyHiddenPairsInRow g row).
Proof.
  intros Hg. unfold applyHiddenPairsInRow, positionsInRow. cbv zeta.
  destruct (_ <? 2)%nat; [eexists; split; [reflexivity | apply post_false]|].
  match goal with
  | |- context [forM ?xs ?body ?s] =>
      destruct (forM_ok xs body s) as (pos & Epos)
  end.
  { intros col pos _. destruct (is_zero (cell (board g) row col)) eqn:Hz; [|eauto].
    apply forM_ok. intros d pos' Hd. apply pushPosition_ok; [lia|].
    destruct Hg as (_ & _ & Hdom). now apply (Hdom row col). }
  rewrite Epos, bind_Ok. eexists. split; [reflexivity|].
  apply scan_step_post; [|assumption].
  apply scan_step_forEach. intros d1 _.
  destruct (length (pos !!! Z.to_nat d1) =? 2)%nat; [|apply scan_step_id].
  apply scan_step_forEach. intros d2 _ ch g1 Hg1.
  unfold hiddenPairInRow. cbv zeta.
  destruct (arrayEquals _ _); [|apply scan_skip].
  now apply stripPair_scan.
Qed.

Lemma applyHiddenPairsInColumn_post g col :
  Good g -> postR g (applyHiddenPairsInColumn g col).
Proof.
  intros Hg. unfold applyHiddenPairsInColumn, positionsInColumn. cbv zeta.
  destruct (_ <? 2)%nat; [eexists; split; [reflexivity | apply post_false]|].
  match goal with
  | |- context [forM ?xs ?body ?s] =>
      destruct (forM_ok xs body s) as (pos & Epos)
  end.
  { intros row pos _. destruct (is_zero (cell (board g) row col)) eqn:Hz; [|eauto].
    apply forM_ok. intros d pos' Hd. apply pushPosition_ok; [lia|].
    destruct Hg as (_ & _ & Hdom). now apply (Hdom row col). }
  rewrite Epos, bind_Ok. eexists. split; [reflexivity|].
  apply scan_step_post; [|assumption].
  apply scan_step_forEach. intros d1 _.
  destruct (length (pos !!! Z.to_nat d1) =? 2)%nat; [|apply scan_step_id].
  apply scan_step_forEach. intros d2 _ ch g1 Hg1.
  unfold hiddenPairInColumn. cbv zeta.
  destruct (arrayEquals _ _); [|apply scan_skip].
  now apply stripPair_scan.
Qed.

Lemma applyHiddenPairsInBox_post g boxRow boxCol :
  Good g -> postR g (applyHiddenPairsInBox g boxRow boxCol).
Proof.
  intros Hg. unfold applyHiddenPairsInBox, positionsInBox. cbv zeta.
  set (emptyCells := List.filter _ _).
  destruct (_ <? 2)%nat; [eexists; split; [reflexivity | apply post_false]|].
  match goal with
  | |- context [forM ?xs ?body ?s] =>
      destruct (forM_ok xs body s) as (pos & Epos)
  end.
  { intros [rr cc] pos Hin. apply filter_In in Hin as [_ Hz].
    apply forM_ok. intros d pos' Hd. apply pushPosition_ok; [lia|].
    destruct Hg as (_ & _ & Hdom). now apply (Hdom rr cc). }
  rewrite Epos, bind_Ok. eexists. split; [reflexivity|].
  apply scan_step_post; [|assumption].
  apply scan_step_forEach. intros d1 _.
  destruct (length (pos !!! Z.to_nat d1) =? 2)%nat; [|apply scan_step_id].
  apply scan_step_forEach. intros d2 _ ch g1 Hg1.
  unfold hiddenPairInBox. cbv zeta.
  destruct (_ && _); [|apply scan_skip].
  now apply stripPair_scan.
Qed.

Lemma forFirstR_post {X} (xs : list X) body g :
  (forall x g, In x xs -> Good g -> postR g (body x g)) ->
  Good g -> postR g (forFirstR xs body g).
Proof.
  revert g. induction xs as [|x xs IH]; intros g Hb Hg; simpl.
  - eexists. split; [reflexivity | apply post_false].
  - destruct (Hb x g (or_introl eq_refl) Hg) as ([hit g1] & E & Hp). rewrite E.
    destruct hit; [eexists; split; [reflexivity | exact Hp]|].
    destruct Hp as [_ Eg]. simpl in Eg. subst g1.
    apply IH; [|assumption]. intros y g' Hy. apply Hb. now right.
Qed.

Lemma orElseUnitsR_post {X} enabled (xs : list X) unit rest g :
  (forall x g, In x xs -> Good g -> postR g (unit x g)) ->
  (forall g, Good g -> postR g (rest g)) ->
  Good g -> postR g (orElseUnitsR enabled xs unit rest g).
Proof.
  intros Hs Hr Hg. unfold orElseUnitsR. destruct enabled; [|now apply Hr].
  destruct (forFirstR_post xs unit g Hs Hg) as ([hit g1] & E & Hp). rewrite E.
  destruct hit; [eexists; split; [reflexivity | exact Hp]|].
  destruct Hp as [_ Eg]. simpl in Eg. subst g1. now apply Hr.
Qed.

Lemma applyHiddenPairs_post g opts : Good g -> postR g (applyHiddenPairs g opts).
Proof.
  intros Hg. unfold applyHiddenPairs.
  destruct (isFalse opts hiddenPairs);
    [eexists; split; [reflexivity | apply post_false]|].
  repeat (apply orElseUnitsR_post; [| |assumption]; intros;
          auto using applyHiddenPairsInRow_post, applyHiddenPairsInColumn_post).
  - destruct x. now apply applyHiddenPairsInBox_post.
  - eexists; split; [reflexivity | apply post_false].
Qed.

(** ** The scheduler *)

Lemma tryStrategy_post strategy g0 ch g :
  (forall g, Good g -> postR g (strategy g)) ->
  Good g -> post g0 (ch, g) -> postR g0 (tryStrategy strategy (ch, g)).
Proof.
  intros Hs Hg Hp. unfold tryStrategy. destruct ch; simpl.
  - eexists. split; [reflexivity | exact Hp].
  - destruct (Hs g Hg) as ([hit g'] & E & Hp'). rewrite E.
    eexists. split; [reflexivity|].
    replace (if hit then true else false) with (false || hit)
      by now destruct hit.
    eapply post_seq; eauto.
Qed.

Lemma pure_post strategy :
  (forall g, Good g -> post g (strategy g)) ->
  forall g, Good g -> postR g (pure strategy g).
Proof. intros Hs g Hg. eexists. split; [reflexivity | now apply Hs]. Qed.

Lemma strategyPass_post g opts : Good g -> postR g (strategyPass g opts).
Proof.
  intros Hg. unfold strategyPass. cbv zeta.
  pose proof (post_false g) as P0.
  destruct (tryStrategy_post (pure (fun g => applyNakedSingles g opts)) g false g)
    as ([ch1 g1] & E1 & P1); auto.
  { apply pure_post. intros. now apply applyNakedSingles_post. }
  rewrite E1, bind_Ok.
  destruct (tryStrategy_post (pure (fun g => applyNakedPairs g opts)) g ch1 g1)
    as ([ch2 g2] & E2 & P2); eauto using post_Good.
  { apply pure_post. intros. now apply applyNakedPairs_post. }
  rewrite E2, bind_Ok.
  destruct (tryStrategy_post (pure (fun g => applyHiddenSingles g opts)) g ch2 g2)
    as ([ch3 g3] & E3 & P3); eauto using post_Good.
  { apply pure_post. intros. now apply applyHiddenSingles_post. }
  rewrite E3, bind_Ok.
  destruct (tryStrategy_post (pure (fun g => applyNakedTriples g opts)) g ch3 g3)
    as ([ch4 g4] & E4 & P4); eauto using post_Good.
  { apply pure_post. intros. now apply applyNakedTriples_post. }
  rewrite E4, bind_Ok.
  destruct (tryStrategy_post (fun g => applyHiddenPairs g opts) g ch4 g4)
    as ([ch5 g5] & E5 & P5); eauto using post_Good.
  { intros. now apply applyHiddenPairs_post. }
  rewrite E5, bind_Ok.
  destruct (tryStrategy_post (pure (fun g => applyBoxLineReduction g opts)) g ch5 g5)
    as ([ch6 g6] & E6 & P6); eauto using post_Good.
  { apply pure_post. intros. now apply applyBoxLineReduction_post. }
  rewrite E6, bind_Ok.
  apply tryStrategy_post; eauto using post_Good.
  apply pure_post. intros. now apply applyXWing_post.
Qed.

(** The loop stops within [measure g] iterations. *)
Lemma applyLogicalStrategies_terminates fuel g opts :
  Good g -> measure g < fuel ->
  exists g', applyLogicalStrategies fuel g opts = Some (Ok g') /\ units g g'.
Proof.
  revert g. induction fuel as [|fuel IH]; intros g Hg Hm; [lia|]. simpl.
  destruct (strategyPass_post g opts Hg) as ([changed g1] & E & [U Hc]).
  rewrite E. simpl in *. destruct changed.
  - pose proof (units_measure _ _ U).
    destruct (IH g1) as (g' & E' & U'); [eapply units_Good; eauto | lia |].
    exists g'. split; [assumption | eapply rtc_trans; eauto].
  - subst g1. exists g. split; [reflexivity | apply rtc_refl].
Qed.

(** More fuel does not change a result. *)
Lemma applyLogicalStrategies_fuel_mono fuel fuel' g opts r :
  applyLogicalStrategies fuel g opts = Some r -> fuel <= fuel' ->
  applyLogicalStrategies fuel' g opts = Some r.
Proof.
  revert fuel' g. induction fuel as [|fuel IH]; intros fuel' g Hr Hle;
    [discriminate|].
  destruct fuel' as [|fuel']; [lia|]. simpl in *.
  destruct (strategyPass g opts) as [[changed g1]|e]; [|assumption].
  destruct changed; [|assumption]. apply IH; [assumption | lia].
Qed.

(** ** The initial session *)

Lemma forEach_inv {S X} (P : S -> Prop) (xs : list X) (body : X -> S -> S) s :
  P s -> (forall x s, In x xs -> P s -> P (body x s)) -> P (forEach xs body s).
Proof.
  unfold forEach. revert s. induction xs as [|x xs IH]; intros s Hs Hb; simpl.
  - exact Hs.
  - apply IH.
    + apply Hb; [now left | exact Hs].
    + intros y s' Hy. apply Hb. now right.
Qed.

Lemma lookup_total_repeat {A} `{Inhabited A} (x : A) n i :
  i < n -> repeat x n !!! i = x.
Proof.
  revert i. induction n as [|n IH]; intros i Hi; [lia|].
  destruct i as [|i]; simpl; [reflexivity|]. apply IH. lia.
Qed.

Lemma candsAt_full r c d :
  In d (candsAt (repeat (repeat fullSet BOARD_SIZE) BOARD_SIZE) r c) ->
  In d fullSet.
Proof.
  intros Hin. pose proof (candsAt_In_inGrid _ _ _ _ Hin) as [Hr Hc].
  unfold candsAt in *. rewrite repeat_length in Hr.
  rewrite (lookup_total_repeat (repeat fullSet BOARD_SIZE) _ _ Hr) in Hc, Hin.
  rewrite repeat_length in Hc.
  now rewrite (lookup_total_repeat fullSet _ _ Hc) in Hin.
Qed.

Lemma shape9_full : shape9 (repeat (repeat fullSet BOARD_SIZE) BOARD_SIZE).
Proof.
  split; [apply repeat_length|]. intros r Hr.
  rewrite (lookup_total_repeat (repeat fullSet BOARD_SIZE) _ _ Hr).
  apply repeat_length.
Qed.

Lemma buildCandidates_shape9 b : shape9 (buildCandidates b).
Proof.
  unfold buildCandidates. cbv zeta.
  apply (forEach_inv (fun cs : Cands => shape9 cs)); [apply shape9_full|].
  intros row cs _ Hcs.
  apply (forEach_inv (fun cs : Cands => shape9 cs)); [assumption|].
  intros col cs' _ Hcs'. destruct (negb _); [|assumption].
  eapply shrinks_shape9; [apply shrinks_eliminateFromPeers|].
  rewrite setCands_gridSet. now apply shape9_gridSet.
Qed.

Lemma buildCandidates_dom b r c d :
  is_zero (cell b r c) = true -> In d (candsAt (buildCandidates b) r c) ->
  In d fullSet.
Proof.
  intros Hz. unfold buildCandidates. cbv zeta.
  apply (forEach_inv (fun cs : Cands => In d (candsAt cs r c) -> In d fullSet));
    [apply candsAt_full|].
  intros row cs _ Hcs.
  apply (forEach_inv (fun cs : Cands => In d (candsAt cs r c) -> In d fullSet));
    [assumption|].
  intros col cs' _ Hcs'. destruct (negb (is_zero (cell b row col))) eqn:Hnz;
    [|assumption].
  intros Hin. destruct (shrinks_eliminateFromPeers b
                          (setCands cs' row col [cell b row col]) row col
                          (cell b row col)) as [R He].
  apply (elim_sub _ _ _ He) in Hin.
  rewrite setCands_gridSet, candsAt_gridGet, gridGet_set_ne in Hin.
  - now apply Hcs'.
  - intros E. injection E as -> ->. rewrite Hz in Hnz. discriminate.
Qed.

Lemma initial_Good b snaps :
  shape9 b -> Good (mkSudoku b (buildCandidates b) snaps).
Proof.
  intros Hb. repeat split; simpl; try apply Hb; try apply buildCandidates_shape9.
  intros r c d. apply buildCandidates_dom.
Qed.

Lemma addSnapshot_Good g m : Good g -> Good (addSnapshot g m).
Proof. intros (? & ? & ?). repeat split; simpl; auto; apply H || apply H0. Qed.

(** ** Soundness of the recorded removals *)

Definition sound_pair (prev cur : SudokuSnapshot) : Prop :=
  forall r c d, In (r, c, d) (removedOfSnap cur) ->
    In d (candsAt (snap_candidates prev) r c)
    /\ ~ In d (candsAt (snap_candidates cur) r c).

Definition sound_chain (snaps : list SudokuSnapshot) : Prop :=
  forall i prev cur, snaps !! i = Some prev -> snaps !! S i = Some cur ->
    sound_pair prev cur.

(** The snapshot list is not empty, its first entry has no highlight, the
    recorded removals are sound, and the live grid is contained in the
    grid of the last snapshot. *)
Definition SInv (g : Sudoku) : Prop :=
  exists init lst, snapshots g = init ++ [lst]
    /\ (forall s, snapshots g !! 0 = Some s -> highlight s = None)
    /\ sound_chain (snapshots g)
    /\ (forall r c d, In d (candsAt (candidates g) r c) ->
          In d (candsAt (snap_candidates lst) r c)).

Lemma unit_step_SInv g g' : unit_step g g' -> SInv g -> SInv g'.
Proof.
  intros Hs (init & lst & E & H0 & Hch & Hsub).
  destruct (unit_step_snapshots _ _ Hs) as (s & E' & Hc & _ & Hrem & Hshr).
  exists (snapshots g), s. split; [assumption|]. split; [|split].
  - intros s0. rewrite E', E, <- app_assoc.
    destruct init; simpl; intros Hl; apply H0; rewrite E; exact Hl.
  - intros i prev cur Hp Hcur. rewrite E' in Hp, Hcur.
    destruct (decide (S i < length (snapshots g))) as [Hlt|Hge].
    + rewrite lookup_app_l in Hp by lia. rewrite lookup_app_l in Hcur by lia.
      eapply Hch; eauto.
    + assert (Hi : S i = length (snapshots g)).
      { apply lookup_lt_Some in Hcur. rewrite length_app in Hcur.
        simpl in Hcur. lia. }
      rewrite lookup_app_r in Hcur by lia.
      replace (S i - length (snapshots g)) with 0 in Hcur by lia.
      injection Hcur as <-.
      rewrite lookup_app_l in Hp by lia. rewrite E in Hp, Hi.
      rewrite length_app in Hi. simpl in Hi.
      rewrite lookup_app_r in Hp by lia.
      replace (i - length init) with 0 in Hp by lia. injection Hp as <-.
      intros r c d Hin. destruct (Hrem r c d Hin) as [Ha Hb]. split.
      * now apply Hsub.
      * now rewrite Hc.
  - intros r c d. now rewrite Hc.
Qed.

Lemma units_SInv g g' : units g g' -> SInv g -> SInv g'.
Proof. induction 1; eauto using unit_step_SInv. Qed.

Definition initialGame (b : Board) : Sudoku :=
  addSnapshot (mkSudoku (deepCloneBoard b) (buildCandidates (deepCloneBoard b)) [])
    (mkMeta "Initial Board" None 0 None).

Lemma initialGame_Good b : shape9 b -> Good (initialGame b).
Proof.
  intros Hb. apply addSnapshot_Good. rewrite deepCloneBoard_id.
  now apply initial_Good.
Qed.

Lemma initialGame_SInv b : SInv (initialGame b).
Proof.
  unfold initialGame, addSnapshot. simpl. eexists [], _.
  split; [reflexivity|]. split; [|split].
  - intros s. simpl. intros [= <-]. reflexivity.
  - intros i prev cur Hp Hc. destruct i; discriminate.
  - simpl. intros r c d. now rewrite deepCloneCandidates_id.
Qed.

(** ** Parsing *)

Lemma stringToBoard_length_error s :
  String.length s <> 81 ->
  stringToBoard s
  = Raise (Error "Puzzle string must be exactly 81 characters long.").
Proof.
  intros Hl. unfold stringToBoard.
  destruct (Nat.eqb_spec (String.length s) 81); [contradiction | reflexivity].
Qed.

Lemma parseInt1_in_range ch :
  js_lt (parseInt1 ch) (Num 1) || js_gt (parseInt1 ch) (Num 9) = true ->
  ch = "0"%char.
Proof.
  unfold parseInt1.
  destruct ((48 <=? nat_of_ascii ch)%nat && (nat_of_ascii ch <=? 57)%nat) eqn:E;
    simpl; [|discriminate].
  apply andb_true_iff in E as [E1 E2]. apply Nat.leb_le in E1, E2.
  unfold js_gt. simpl. intros H. apply orb_true_iff in H as [H|H].
  - apply Z.ltb_lt in H. assert (Hn : nat_of_ascii ch = 48) by lia.
    rewrite <- (ascii_nat_embedding ch), Hn. reflexivity.
  - apply Z.ltb_lt in H. lia.
Qed.

(** The row loop of [stringToBoard] never reaches its [throw]: a character
    other than [.] and [0] parses to 1..9 or to [NaN], and no comparison
    with [NaN] holds. *)
Lemma parseCell_ok s row col (rowArray : list jsnum) :
  exists v, parseCell s row col rowArray = Ok (rowArray ++ [v]).
Proof.
  unfold parseCell. cbv zeta.
  destruct (Ascii.eqb (char_at s (row * 9 + col)) ".") eqn:Edot;
    [now exists (Num 0)|].
  destruct (Ascii.eqb (char_at s (row * 9 + col)) "0") eqn:Ezero;
    [now exists (Num 0)|].
  cbn [orb]. destruct (js_lt _ _ || js_gt _ _) eqn:Ecmp; [|eauto].
  apply parseInt1_in_range in Ecmp. rewrite Ecmp in Ezero. discriminate.
Qed.

Lemma parseCells_ok s row (cols : list nat) (rowArray : list jsnum) :
  exists rowArray',
    forM cols (parseCell s row) rowArray = Ok rowArray'
    /\ length rowArray' = length rowArray + length cols.
Proof.
  revert rowArray. induction cols as [|col cols IH]; intros rowArray;
    cbn [forM].
  - exists rowArray. split; [reflexivity | simpl; lia].
  - destruct (parseCell_ok s row col rowArray) as (v & E). rewrite E, bind_Ok.
    destruct (IH (rowArray ++ [v])) as (r' & E' & Hl).
    exists r'. split; [exact E'|]. rewrite Hl, length_app. simpl. lia.
Qed.

Lemma parseRow_ok s row (board : Board) :
  exists rowArray,
    parseRow s row board = Ok (board ++ [rowArray]) /\ length rowArray = 9.
Proof.
  unfold parseRow. destruct (parseCells_ok s row idx9 []) as (ra & E & Hra).
  rewrite E, bind_Ok. now exists ra.
Qed.

Lemma parseRows_ok s (rows : list nat) (board : Board) :
  (forall r, r < length board -> length (board !!! r) = 9) ->
  exists board',
    forM rows (parseRow s) board = Ok board'
    /\ length board' = length board + length rows
    /\ (forall r, r < length board' -> length (board' !!! r) = 9).
Proof.
  revert board. induction rows as [|row rows IH]; intros board Hb; cbn [forM].
  - exists board. repeat split; [simpl; lia | assumption].
  - destruct (parseRow_ok s row board) as (ra & E & Hra).
    rewrite E, bind_Ok.
    destruct (IH (board ++ [ra])) as (b' & E' & Hl' & Hr').
    + intros r Hr. rewrite length_app in Hr. simpl in Hr.
      destruct (decide (r < length board)) as [Hlt|Hge].
      * rewrite lookup_total_app_l by assumption. now apply Hb.
      * rewrite lookup_total_app_r by lia.
        replace (r - length board) with 0 by lia. exact Hra.
    + exists b'. rewrite length_app in Hl'. simpl in Hl'.
      repeat split; [exact E' | simpl; lia | exact Hr'].
Qed.

Lemma stringToBoard_ok s :
  String.length s = 81 -> exists b, stringToBoard s = Ok b /\ shape9 b.
Proof.
  intros Hl. unfold stringToBoard. rewrite Hl. simpl negb. cbv iota.
  destruct (parseRows_ok s idx9 []) as (b & E & Hlen & Hr); [simpl; lia|].
  exists b. split; [exact E|]. split; [exact Hlen|].
  intros r Hlt. apply Hr. rewrite Hlen. simpl. exact Hlt.
Qed.

(** ** Whole runs of [solveSudoku] *)

(** The decidable form of "a 9x9 matrix". *)
Definition is9x9 {A} (b : list (list A)) : bool :=
  (length b =? 9)%nat && forallb (fun row => (length row =? 9)%nat) b.

Lemma is9x9_shape9 {A} `{Inhabited A} (b : list (list A)) :
  is9x9 b = true -> shape9 b.
Proof.
  unfold is9x9. intros [Hl Hr]%andb_true_iff. apply Nat.eqb_eq in Hl.
  split; [exact Hl|]. intros r Hlt. rewrite forallb_forall in Hr.
  apply Nat.eqb_eq, Hr. apply list_elem_of_In.
  apply list_elem_of_lookup_total_2. lia.
Qed.

(** The board [solveSudoku] starts from: the parsed string or the matrix. *)
Definition startBoard (startingBoard : Board + string) : result Board :=
  match startingBoard with
  | inr s => stringToBoard s
  | inl b => Ok b
  end.

(** The inputs the embedding speaks about: a matrix argument is 9x9. *)
Definition wellFormed (startingBoard : Board + string) : Prop :=
  match startingBoard with
  | inl b => is9x9 b = true
  | inr _ => True
  end.

Lemma solveSudoku_unfold fuel sb opts :
  solveSudoku fuel sb opts
  = match startBoard sb with
    | Raise e => Some (Raise e)
    | Ok parsed => applyLogicalStrategies fuel (initialGame parsed) opts
    end.
Proof. reflexivity. Qed.

Lemma startBoard_shape9 sb parsed :
  wellFormed sb -> startBoard sb = Ok parsed -> shape9 parsed.
Proof.
  destruct sb as [b|s]; simpl.
  - intros Hb [= <-]. now apply is9x9_shape9.
  - intros _ Hs. destruct (Nat.eq_dec (String.length s) 81) as [Hl|Hl].
    + destruct (stringToBoard_ok s Hl) as (b & E & Hb). congruence.
    + rewrite stringToBoard_length_error in Hs by assumption. discriminate.
Qed.

Lemma applyLogicalStrategies_units fuel g opts r :
  Good g -> applyLogicalStrategies fuel g opts = Some r ->
  exists g', r = Ok g' /\ units g g'.
Proof.
  revert g. induction fuel as [|fuel IH]; intros g Hg Hr; [discriminate|].
  simpl in Hr.
  destruct (strategyPass_post g opts Hg) as ([changed g1] & E & [U Hc]).
  rewrite E in Hr. simpl in *. destruct changed.
  - destruct (IH g1 (units_Good _ _ U Hg) Hr) as (g' & -> & U').
    exists g'. split; [reflexivity | eapply rtc_trans; eauto].
  - injection Hr as <-. exists g1. split; [reflexivity | exact U].
Qed.

(** C10. [solveSudoku] does not validate a matrix argument: for every 9x9
    matrix of numbers, whatever its entries (outside 0..9, [NaN]), the call
    runs to completion and returns a session; it never raises on a matrix,
    so only a string argument can raise. *)
Theorem solveSudoku_matrix_never_raises (b : Board) (opts : option SolverOptions) :
  is9x9 b = true ->
  (exists fuel0 g, forall fuel, fuel0 <= fuel ->
     solveSudoku fuel (inl b) opts = Some (Ok g))
  /\ (forall fuel e, solveSudoku fuel (inl b) opts <> Some (Raise e)).
Proof.
  intros Hb. apply is9x9_shape9 in Hb.
  pose proof (initialGame_Good b Hb) as Hg. split.
  - destruct (applyLogicalStrategies_terminates
                (S (measure (initialGame b))) (initialGame b) opts Hg)
      as (g & E & _); [lia|].
    exists (S (measure (initialGame b))), g. intros fuel Hle.
    rewrite solveSudoku_unfold. simpl.
    eapply applyLogicalStrategies_fuel_mono; eauto.
  - intros fuel e Hr. rewrite solveSudoku_unfold in Hr. simpl in Hr.
    destruct (applyLogicalStrategies_units _ _ _ _ Hg Hr) as (g' & E & _).
    discriminate.
Qed.

(** C7. In the list returned by [solveSudoku], every snapshot that carries
    a [removedCandidates] list has a predecessor, and each recorded
    [[row, col, digit]] was a candidate of that cell in the predecessor's
    grid and is not one in the snapshot's own grid. *)
Theorem solveSudoku_removed_sound (fuel : nat) (sb : Board + string)
  (opts : option SolverOptions) (g : Sudoku) :
  wellFormed sb ->
  solveSudoku fuel sb opts = Some (Ok g) ->
  forall i cur h removed,
    snapshots g !! i = Some cur ->
    highlight cur = Some h ->
    hl_removedCandidates h = Some removed ->
    exists j prev,
      i = S j /\ snapshots g !! j = Some prev
      /\ forall r c d, In (r, c, d) removed ->
           In d (candsAt (snap_candidates prev) r c)
           /\ ~ In d (candsAt (snap_candidates cur) r c).
Proof.
  intros Hwf Hrun i cur h removed Hi Hh Hrem.
  rewrite solveSudoku_unfold in Hrun.
  destruct (startBoard sb) as [parsed|e] eqn:Es; [|discriminate].
  pose proof (startBoard_shape9 _ _ Hwf Es) as Hshape.
  destruct (applyLogicalStrategies_units _ _ _ _
              (initialGame_Good _ Hshape) Hrun) as (g' & [= <-] & U).
  destruct (units_SInv _ _ U (initialGame_SInv parsed))
    as (init & lst & E & H0 & Hch & _).
  destruct i as [|j].
  - rewrite (H0 cur Hi) in Hh. discriminate.
  - assert (Hj : j < length (snapshots g)).
    { apply lookup_lt_Some in Hi. lia. }
    destruct (lookup_lt_is_Some_2 _ _ Hj) as [prev Hprev].
    exists j, prev. split; [reflexivity|]. split; [exact Hprev|].
    intros r c d Hin. apply (Hch j prev cur Hprev Hi).
    unfold removedOfSnap. rewrite Hh, Hrem. exact Hin.
Qed.

(** ** Backtracking *)

Lemma setCell_revert (b : Board) r c d :
  cell b r c = Num 0 -> setCell (setCell b r c d) r c (Num 0) = b.
Proof.
  intros Hz. change (gridSet (gridSet b r c d) r c (Num 0) = b).
  rewrite gridSet_twice, <- Hz. apply (gridSet_same b r c).
Qed.

Lemma findEmptyCell_Some b row col :
  findEmptyCell b = Some (row, col) ->
  cell b row col = Num 0 /\ row < 9 /\ col < 9.
Proof.
  unfold findEmptyCell. intros Hf. apply find_some in Hf as [Hin Hz].
  apply is_zero_eq in Hz. split; [exact Hz|].
  unfold cells81 in Hin. apply in_flat_map in Hin as (r & Hr & Hin).
  apply in_map_iff in Hin as (c & [= <- <-] & Hc).
  split; now apply In_idx9.
Qed.

Lemma isValid_nonzero b row col digit :
  cell b row col = Num 0 -> col < 9 -> isValid b row col digit = true ->
  is_zero digit = false.
Proof.
  intros Hz Hc. unfold isValid.
  destruct (existsb _ idx9) eqn:Ex; [discriminate|]. intros _.
  destruct (is_zero digit) eqn:Hd; [|reflexivity].
  apply is_zero_eq in Hd. subst digit.
  assert (Hin : In col idx9) by (unfold idx9; apply in_seq; lia).
  rewrite <- not_true_iff_false in Ex. exfalso. apply Ex.
  apply existsb_exists. exists col. split; [exact Hin|]. now rewrite Hz.
Qed.

(** Two 9x9 grids with the same cells are equal. *)
Lemma shape9_ext {A} `{Inhabited A} (g1 g2 : list (list A)) :
  shape9 g1 -> shape9 g2 ->
  (forall r c, r < 9 -> c < 9 -> gridGet g1 r c = gridGet g2 r c) -> g1 = g2.
Proof.
  intros [L1 R1] [L2 R2] Hcells. apply list_eq. intros r.
  destruct (decide (r < 9)) as [Hr|Hr].
  - rewrite !list_lookup_lookup_total_lt by lia. f_equal.
    apply list_eq. intros c. destruct (decide (c < 9)) as [Hc|Hc].
    + rewrite !list_lookup_lookup_total_lt by (rewrite ?R1, ?R2; lia).
      f_equal. now apply Hcells.
    + rewrite !lookup_ge_None_2 by (rewrite ?R1, ?R2; lia). reflexivity.
  - rewrite !lookup_ge_None_2 by lia. reflexivity.
Qed.

Lemma forEach_seq_inv {S} (P : nat -> S -> Prop) n (body : nat -> S -> S) s :
  P 0 s -> (forall k s, k < n -> P k s -> P (Datatypes.S k) (body k s)) ->
  P n (forEach (seq 0 n) body s).
Proof.
  intros H0 Hstep. unfold forEach.
  assert (Hgen : forall m k s, k + m = n -> P k s ->
                   P n (fold_left (fun s x => body x s) (seq k m) s)).
  { induction m as [|m IH]; intros k s' Hk Hp; simpl.
    - replace n with k by lia. exact Hp.
    - apply IH; [lia|]. apply Hstep; [lia | exact Hp]. }
  apply (Hgen n 0 s); [lia | exact H0].
Qed.

Lemma forEach_idx9_inv {S} (P : nat -> S -> Prop) (body : nat -> S -> S) s :
  P 0 s -> (forall k s, k < 9 -> P k s -> P (Datatypes.S k) (body k s)) ->
  P 9 (forEach idx9 body s).
Proof. apply forEach_seq_inv. Qed.

(** The loops of [rebuildAllCandidates] overwrite every cell of a 9x9
    grid, so the grid is the rebuilt one. *)
Lemma overwrite_row (new cs : Cands) k :
  shape9 cs ->
  let cs' := forEach idx9 (fun c cs => setCands cs k c (candsAt new k c)) cs in
  shape9 cs'
  /\ (forall r c, r <> k -> candsAt cs' r c = candsAt cs r c)
  /\ (forall c, c < 9 -> k < 9 -> candsAt cs' k c = candsAt new k c).
Proof.
  intros Hs. cbv zeta.
  apply (forEach_idx9_inv (fun j (cs' : Cands) =>
           shape9 cs'
           /\ (forall r c, r <> k -> candsAt cs' r c = candsAt cs r c)
           /\ (forall c, c < j -> k < 9 -> candsAt cs' k c = candsAt new k c))).
  - split; [exact Hs|]. split; [reflexivity | intros; lia].
  - intros j cs' Hj (Hsh & Hother & Hcols).
    rewrite setCands_gridSet. split; [now apply shape9_gridSet|]. split.
    + intros r c Hr. rewrite candsAt_gridGet, gridGet_set_ne.
      * now apply Hother.
      * intros [= -> ->]. congruence.
    + intros c Hc Hk. destruct (decide (c = j)) as [->|Hne].
      * rewrite candsAt_gridGet, gridGet_set_eq; [reflexivity|].
        now apply shape9_inGrid.
      * rewrite candsAt_gridGet, gridGet_set_ne by congruence.
        apply Hcols; lia.
Qed.

Lemma overwrite_all (new cs : Cands) :
  shape9 cs ->
  shape9 (forEach idx9 (fun r cs =>
            forEach idx9 (fun c cs => setCands cs r c (candsAt new r c)) cs) cs)
  /\ forall r c, r < 9 -> c < 9 ->
       candsAt (forEach idx9 (fun r cs =>
            forEach idx9 (fun c cs => setCands cs r c (candsAt new r c)) cs) cs)
         r c = candsAt new r c.
Proof.
  intros Hs.
  apply (forEach_idx9_inv (fun k (cs : Cands) =>
           shape9 cs /\ forall r c, r < k -> c < 9 ->
             candsAt cs r c = candsAt new r c)).
  - split; [exact Hs | intros; lia].
  - intros k cs' Hk [Hsh Hrows].
    destruct (overwrite_row new cs' k Hsh) as (Hsh' & Hother & Hcols).
    split; [exact Hsh'|].
    intros r c Hr Hc. destruct (decide (r = k)) as [->|Hne].
    + now apply Hcols.
    + rewrite Hother by assumption. apply Hrows; lia.
Qed.

Lemma candsAt_ext (cs1 cs2 : Cands) :
  shape9 cs1 -> shape9 cs2 ->
  (forall r c, r < 9 -> c < 9 -> candsAt cs1 r c = candsAt cs2 r c) ->
  cs1 = cs2.
Proof. intros. apply shape9_ext; auto. Qed.

Lemma rebuildAllCandidates_unfold g :
  candidates (rebuildAllCandidates g)
  = forEach idx9 (fun r cs =>
      forEach idx9 (fun c cs =>
        setCands cs r c (candsAt (buildCandidates (board g)) r c)) cs)
      (candidates g).
Proof. reflexivity. Qed.

Lemma rebuildAllCandidates_spec g :
  shape9 (candidates g) ->
  candidates (rebuildAllCandidates g) = buildCandidates (board g).
Proof.
  intros Hs. rewrite rebuildAllCandidates_unfold.
  destruct (overwrite_all (buildCandidates (board g)) (candidates g) Hs)
    as [Hsh Hcells].
  apply candsAt_ext; [exact Hsh | apply buildCandidates_shape9 | exact Hcells].
Qed.

Lemma rebuildAllCandidates_board g : board (rebuildAllCandidates g) = board g.
Proof. reflexivity. Qed.

(** What a failed search leaves behind. *)
Definition restored (g g' : Sudoku) : Prop :=
  board g' = board g
  /\ snapshots g' = snapshots g
  /\ (candidates g' = candidates g
      \/ candidates g' = buildCandidates (board g)).

(** The session on which [tryDigits] recurses, and the one it continues
    with after a failed recursion. *)
Definition trial (g : Sudoku) (row col : nat) (digit : jsnum) : Sudoku :=
  let game := placeDigit g row col digit in
  let game :=
    withCandidates game (setCands (candidates game) row col [digit]) in
  eliminatePeers game row col digit.

Definition undo (g2 : Sudoku) (row col : nat) (oldCandidates : CSet) : Sudoku :=
  let game := placeDigit g2 row col (Num 0) in
  let game :=
    withCandidates game (setCands (candidates game) row col oldCandidates) in
  rebuildAllCandidates game.

Lemma tryDigits_cons recurse row col digit rest g :
  tryDigits recurse row col (digit :: rest) g
  = if isValid (board g) row col digit then
      match recurse (trial g row col digit) with
      | None => None
      | Some (true, game) => Some (true, game)
      | Some (false, game) =>
          tryDigits recurse row col rest
            (undo game row col (candsAt (candidates g) row col))
      end
    else tryDigits recurse row col rest g.
Proof. reflexivity. Qed.

Lemma trial_shape9 g row col digit :
  shape9 (candidates g) -> shape9 (candidates (trial g row col digit)).
Proof.
  intros Hs. unfold trial, eliminatePeers, withCandidates, placeDigit.
  cbn [candidates board snapshots].
  eapply shrinks_shape9; [apply shrinks_eliminateFromPeers|].
  rewrite setCands_gridSet. now apply shape9_gridSet.
Qed.

Lemma undo_restored g g2 row col old :
  cell (board g) row col = Num 0 ->
  shape9 (candidates g2) ->
  board g2 = setCell (board g) row col (cell (board g2) row col) ->
  board (undo g2 row col old) = board g
  /\ snapshots (undo g2 row col old) = snapshots g2
  /\ candidates (undo g2 row col old) = buildCandidates (board g).
Proof.
  intros Hz Hs Hb.
  assert (Hboard : board (undo g2 row col old) = board g).
  { unfold undo, rebuildAllCandidates, withCandidates, placeDigit.
    cbn [board candidates snapshots]. rewrite Hb. now apply setCell_revert. }
  split; [exact Hboard|]. split; [reflexivity|].
  rewrite <- Hboard. unfold undo at 1. cbv zeta.
  rewrite rebuildAllCandidates_spec; [reflexivity|].
  unfold withCandidates, placeDigit. cbn [candidates].
  rewrite setCands_gridSet. now apply shape9_gridSet.
Qed.

Lemma tryDigits_false recurse row col digits g g' :
  (forall g1 g2, shape9 (candidates g1) -> recurse g1 = Some (false, g2) ->
     restored g1 g2) ->
  cell (board g) row col = Num 0 ->
  shape9 (candidates g) ->
  tryDigits recurse row col digits g = Some (false, g') ->
  restored g g'.
Proof.
  intros Hrec. revert g. induction digits as [|digit rest IH];
    intros g Hz Hs Hrun.
  - injection Hrun as <-. repeat split. now left.
  - rewrite tryDigits_cons in Hrun.
    destruct (isValid (board g) row col digit); [|now apply IH].
    destruct (recurse (trial g row col digit)) as [[[|] g2]|] eqn:Er;
      try discriminate.
    destruct (Hrec _ _ (trial_shape9 g row col digit Hs) Er) as (Hb & Hsn & Hc).
    assert (Hs2 : shape9 (candidates g2)).
    { destruct Hc as [->| ->];
        [now apply trial_shape9 | apply buildCandidates_shape9]. }
    assert (Hb2 : board g2
                  = setCell (board g) row col (cell (board g2) row col)).
    { rewrite Hb. unfold trial, eliminatePeers, withCandidates, placeDigit.
      cbn [board]. change (gridSet (board g) row col digit
        = gridSet (board g) row col
            (gridGet (gridSet (board g) row col digit) row col)).
      pose proof (cell_zero_inGrid (board g) row col) as Hin.
      rewrite Hz in Hin. specialize (Hin eq_refl).
      now rewrite gridGet_set_eq. }
    destruct (undo_restored g g2 row col (candsAt (candidates g) row col)
                Hz Hs2 Hb2) as (Ub & Usn & Uc).
    apply IH in Hrun.
    + destruct Hrun as (Hb' & Hsn' & Hc').
      rewrite Ub in Hb'. rewrite Usn, Hsn in Hsn'.
      split; [exact Hb'|]. split; [exact Hsn'|]. right.
      destruct Hc' as [Hc'|Hc']; rewrite Hc'; [exact Uc | now rewrite Ub].
    + now rewrite Ub.
    + rewrite Uc. apply buildCandidates_shape9.
Qed.

(** C9. If [backtrack(game)] returns [false], [game.board] is what it was at
    entry: every trial placement of the call and of its recursive calls
    has been set back to 0.  The candidate grid is either untouched (no
    digit was tried) or the full rebuild from that board. *)
Theorem backtrack_false_restores (fuel : nat) (g g' : Sudoku) :
  is9x9 (candidates g) = true ->
  backtrack fuel g = Some (false, g') ->
  board g' = board g
  /\ (candidates g' = candidates g
      \/ candidates g' = buildCandidates (board g)).
Proof.
  intros Hs Hrun. apply is9x9_shape9 in Hs.
  assert (Hgen : forall fuel g g', shape9 (candidates g) ->
            backtrack fuel g = Some (false, g') -> restored g g').
  { clear. induction fuel as [|fuel IH]; intros g g' Hs Hrun; [discriminate|].
    simpl in Hrun.
    destruct (findEmptyCell (board g)) as [[row col]|] eqn:Ef; [|discriminate].
    apply findEmptyCell_Some in Ef as (Hz & _ & _).
    eapply tryDigits_false; eauto. }
  destruct (Hgen fuel g g' Hs Hrun) as (Hb & _ & Hc). now split.
Qed.

(** With enough fuel the search returns: every recursive call works on a
    board with one empty cell less. *)
Lemma tryDigits_total recurse row col digits g :
  (forall g1, shape9 (candidates g1) ->
     countEmpty (board g1) < countEmpty (board g) ->
     exists res, recurse g1 = Some res) ->
  (forall g1 g2, shape9 (candidates g1) -> recurse g1 = Some (false, g2) ->
     restored g1 g2) ->
  cell (board g) row col = Num 0 -> col < 9 -> shape9 (candidates g) ->
  exists res, tryDigits recurse row col digits g = Some res.
Proof.
  intros Hrec Hres. revert g Hrec. induction digits as [|digit rest IH];
    intros g Hrec Hz Hc Hs.
  - now eexists.
  - rewrite tryDigits_cons.
    destruct (isValid (board g) row col digit) eqn:Hv; [|now apply IH].
    pose proof (isValid_nonzero _ _ _ _ Hz Hc Hv) as Hd.
    assert (Hless : countEmpty (board (trial g row col digit))
                    < countEmpty (board g)).
    { unfold trial, eliminatePeers, withCandidates, placeDigit. cbn [board].
      unfold countEmpty. rewrite setCell_gridSet.
      assert (Hg : inGrid (board g) row col).
      { apply cell_zero_inGrid. now rewrite Hz. }
      pose proof (gridSum_set (fun v => if is_zero v then 1 else 0)
                    (board g) row col digit Hg) as Hsum.
      change (gridGet (board g) row col) with (cell (board g) row col) in Hsum.
      rewrite Hz, Hd in Hsum. simpl in Hsum. lia. }
    destruct (Hrec _ (trial_shape9 g row col digit Hs) Hless)
      as ([[|] g2] & Er); rewrite Er; [now eexists|].
    destruct (Hres _ _ (trial_shape9 g row col digit Hs) Er) as (Hb & Hsn & Hcs).
    assert (Hs2 : shape9 (candidates g2)).
    { destruct Hcs as [->| ->];
        [now apply trial_shape9 | apply buildCandidates_shape9]. }
    assert (Hb2 : board g2
                  = setCell (board g) row col (cell (board g2) row col)).
    { rewrite Hb. unfold trial, eliminatePeers, withCandidates, placeDigit.
      cbn [board]. change (gridSet (board g) row col digit
        = gridSet (board g) row col
            (gridGet (gridSet (board g) row col digit) row col)).
      pose proof (cell_zero_inGrid (board g) row col) as Hin.
      rewrite Hz in Hin. specialize (Hin eq_refl).
      now rewrite gridGet_set_eq. }
    destruct (undo_restored g g2 row col (candsAt (candidates g) row col)
                Hz Hs2 Hb2) as (Ub & Usn & Uc).
    apply IH.
    + intros g1 Hs1 Hlt. apply Hrec; [assumption|]. now rewrite Ub in Hlt.
    + now rewrite Ub.
    + assumption.
    + rewrite Uc. apply buildCandidates_shape9.
Qed.

Lemma backtrack_restored fuel g g' :
  shape9 (candidates g) -> backtrack fuel g = Some (false, g') -> restored g g'.
Proof.
  revert g g'. induction fuel as [|fuel IH]; intros g g' Hs Hrun;
    [discriminate|].
  simpl in Hrun.
  destruct (findEmptyCell (board g)) as [[row col]|] eqn:Ef; [|discriminate].
  apply findEmptyCell_Some in Ef as (Hz & _ & _).
  eapply tryDigits_false; eauto.
Qed.

Lemma backtrack_total fuel g :
  shape9 (candidates g) -> countEmpty (board g) < fuel ->
  exists res, backtrack fuel g = Some res.
Proof.
  revert g. induction fuel as [|fuel IH]; intros g Hs Hlt; [lia|]. simpl.
  destruct (findEmptyCell (board g)) as [[row col]|] eqn:Ef; [|now eexists].
  apply findEmptyCell_Some in Ef as (Hz & _ & Hc).
  apply tryDigits_total; auto.
  - intros g1 Hs1 Hless. apply IH; [assumption | lia].
  - intros g1 g2. apply backtrack_restored.
Qed.

(** ** The caller's matrix

    To speak about the argument of the caller, arrays get identities.  A
    heap maps the address of a row array to its content, and a matrix is
    the list of the addresses of its rows (the outer array is never
    assigned to by the solver, so it is kept as a value).  Every
    assignment of the solver to a board has the form
    [game.board[row][col] = v], and [game.board] is the clone made by
    [deepCloneBoard]; so a run on the heap clones the argument, runs the
    strategies on the content of the clone, and leaves the board of the
    session in the rows of the clone. *)

Abbreviation Heap := (gmap nat (list jsnum)).

(** The content of a matrix of the heap. *)
Definition readMatrix (h : Heap) (rows : list nat) : Board :=
  map (fun l => default [] (h !! l)) rows.

(** [board.map((row) => [...row])]: each row is copied into a new array. *)
Fixpoint cloneRows (h : Heap) (rows : list nat) : Heap * list nat :=
  match rows with
  | [] => (h, [])
  | l :: rest =>
      let new := fresh (dom h) in
      let '(h', rest') := cloneRows (<[new := default [] (h !! l)]> h) rest in
      (h', new :: rest')
  end.

(** The rows [rows] of the heap hold the board [b]. *)
Fixpoint writeRows (h : Heap) (rows : list nat) (b : Board) : Heap :=
  match rows, b with
  | l :: rest, row :: b' => writeRows (<[l := row]> h) rest b'
  | _, _ => h
  end.

(** The session as the caller receives it: its board lives in the heap. *)
Record SudokuRef : Type := mkSudokuRef {
  ref_board : list nat;
  ref_candidates : Cands;
  ref_snapshots : list SudokuSnapshot
}.

(** [solveSudoku(startingBoard, options)] for a matrix argument whose rows
    are the arrays [rows] of the heap [h]. *)
Definition solveSudokuHeap (fuel : nat) (h : Heap) (rows : list nat)
  (options : option SolverOptions) : option (result (Heap * SudokuRef)) :=
  let '(h1, clone) := cloneRows h rows in
  match applyLogicalStrategies fuel (initialGame (readMatrix h1 clone))
          options with
  | None => None
  | Some (Raise e) => Some (Raise e)
  | Some (Ok game) =>
      Some (Ok (writeRows h1 clone (board game),
                mkSudokuRef clone (candidates game) (snapshots game)))
  end.

(** The same call without the clone ([const board = startingBoard]), to
    compare with. *)
Definition solveSudokuNoClone (fuel : nat) (h : Heap) (rows : list nat)
  (options : option SolverOptions) : option (result (Heap * SudokuRef)) :=
  match applyLogicalStrategies fuel (initialGame (readMatrix h rows))
          options with
  | None => None
  | Some (Raise e) => Some (Raise e)
  | Some (Ok game) =>
      Some (Ok (writeRows h rows (board game),
                mkSudokuRef rows (candidates game) (snapshots game)))
  end.

(** Every row of the matrix is an array of the heap. *)
Definition allocated (h : Heap) (rows : list nat) : bool :=
  forallb (fun l => bool_decide (is_Some (h !! l))) rows.

Lemma allocated_In (h : Heap) rows l :
  allocated h rows = true -> In l rows -> is_Some (h !! l).
Proof.
  unfold allocated. rewrite forallb_forall. intros Ha Hin.
  specialize (Ha l Hin). now apply bool_decide_eq_true in Ha.
Qed.

Lemma cloneRows_spec (h : Heap) rows h' rows' :
  cloneRows h rows = (h', rows') ->
  (forall l, is_Some (h !! l) -> h' !! l = h !! l)
  /\ (forall l, In l rows' -> h !! l = None).
Proof.
  revert h h' rows'. induction rows as [|l rest IH]; intros h h' rows' Hc;
    simpl in Hc.
  - injection Hc as <- <-. split; [auto | intros ? []].
  - destruct (cloneRows _ rest) as [h2 rest'] eqn:Er. injection Hc as <- <-.
    destruct (IH _ _ _ Er) as (Hkeep & Hfresh).
    assert (Hnew : h !! fresh (dom h) = None).
    { apply not_elem_of_dom. apply is_fresh. }
    split.
    + intros l' Hl'.
      assert (Hne : fresh (dom h) <> l').
      { intros <-. rewrite Hnew in Hl'. now destruct Hl'. }
      rewrite Hkeep; rewrite lookup_insert_ne; auto.
    + intros l' [<-|Hin]; [exact Hnew|].
      specialize (Hfresh l' Hin).
      destruct (decide (fresh (dom h) = l')) as [<-|Hne]; [exact Hnew|].
      now rewrite lookup_insert_ne in Hfresh.
Qed.

Lemma cloneRows_read (h : Heap) rows h' rows' :
  allocated h rows = true ->
  cloneRows h rows = (h', rows') ->
  readMatrix h' rows' = readMatrix h rows.
Proof.
  revert h h' rows'. induction rows as [|l rest IH]; intros h h' rows' Ha Hc;
    simpl in Hc.
  - now injection Hc as <- <-.
  - destruct (cloneRows _ rest) as [h2 rest'] eqn:Er. injection Hc as <- <-.
    simpl in Ha. apply andb_true_iff in Ha as [Hl Ha].
    apply bool_decide_eq_true in Hl.
    assert (Hnew : h !! fresh (dom h) = None).
    { apply not_elem_of_dom. apply is_fresh. }
    destruct (cloneRows_spec _ _ _ _ Er) as (Hkeep & _).
    simpl. f_equal.
    + rewrite Hkeep by (rewrite lookup_insert_eq; eauto).
      now rewrite lookup_insert_eq.
    + assert (Ha' : allocated (<[fresh (dom h) := default [] (h !! l)]> h)
                      rest = true).
      { unfold allocated in *. rewrite forallb_forall in *.
        intros l' Hl'. specialize (Ha l' Hl').
        apply bool_decide_eq_true in Ha. apply bool_decide_eq_true.
        rewrite lookup_insert_ne; [assumption|]. intros <-.
        rewrite Hnew in Ha. now destruct Ha. }
      rewrite (IH _ _ _ Ha' Er).
      unfold readMatrix. apply map_ext_in. intros l' Hl'.
      rewrite lookup_insert_ne; [reflexivity|]. intros <-.
      pose proof (allocated_In h rest _ Ha Hl') as Hs.
      rewrite Hnew in Hs. now destruct Hs.
Qed.

Lemma writeRows_other (h : Heap) rows b l :
  ~ In l rows -> writeRows h rows b !! l = h !! l.
Proof.
  revert h b. induction rows as [|l' rest IH]; intros h b Hn; [reflexivity|].
  destruct b as [|row b]; [reflexivity|]. simpl.
  rewrite IH by (intros Hin; apply Hn; now right).
  apply lookup_insert_ne. intros ->. apply Hn. now left.
Qed.

Lemma cloneRows_NoDup (h : Heap) rows h' rows' :
  cloneRows h rows = (h', rows') -> NoDup rows' /\ length rows' = length rows.
Proof.
  revert h h' rows'. induction rows as [|l rest IH]; intros h h' rows' Hc;
    simpl in Hc.
  - injection Hc as <- <-. split; [constructor | reflexivity].
  - destruct (cloneRows _ rest) as [h2 rest'] eqn:Er. injection Hc as <- <-.
    destruct (IH _ _ _ Er) as (Hnd & Hlen).
    destruct (cloneRows_spec _ _ _ _ Er) as (_ & Hfresh).
    split; [|simpl; congruence]. constructor; [|exact Hnd].
    intros Hin. apply list_elem_of_In in Hin. specialize (Hfresh _ Hin).
    now rewrite lookup_insert_eq in Hfresh.
Qed.

Lemma readMatrix_writeRows (h : Heap) rows (b : Board) :
  NoDup rows -> length rows = length b ->
  readMatrix (writeRows h rows b) rows = b.
Proof.
  revert h b. induction rows as [|l rest IH]; intros h b Hnd Hlen;
    destruct b as [|row b]; try discriminate; [reflexivity|].
  inversion Hnd as [|? ? Hnotin Hnd']; subst. simpl. f_equal.
  - rewrite writeRows_other by (now rewrite <- list_elem_of_In).
    now rewrite lookup_insert_eq.
  - apply IH; [assumption | simpl in Hlen; lia].
Qed.

(** C8. [solveSudoku] does not mutate the matrix of its caller: it works
    on the rows [deepCloneBoard] allocates, so after the call every array
    of the caller's heap, and with it every entry of the caller's matrix,
    is what it was before; the session the caller gets back is the one
    [solveSudoku] computes from the content of the matrix. *)
Theorem solveSudoku_preserves_argument (fuel : nat) (h h' : Heap)
  (rows : list nat) (opts : option SolverOptions) (game : SudokuRef) :
  allocated h rows = true ->
  is9x9 (readMatrix h rows) = true ->
  solveSudokuHeap fuel h rows opts = Some (Ok (h', game)) ->
  (forall l, is_Some (h !! l) -> h' !! l = h !! l)
  /\ readMatrix h' rows = readMatrix h rows
  /\ exists g,
       solveSudoku fuel (inl (readMatrix h rows)) opts = Some (Ok g)
       /\ readMatrix h' (ref_board game) = board g
       /\ ref_candidates game = candidates g
       /\ ref_snapshots game = snapshots g.
Proof.
  intros Ha H9 Hrun. unfold solveSudokuHeap in Hrun.
  destruct (cloneRows h rows) as [h1 clone] eqn:Ec.
  destruct (cloneRows_spec _ _ _ _ Ec) as (Hkeep & Hfresh).
  destruct (cloneRows_NoDup _ _ _ _ Ec) as (Hnd & Hlen).
  rewrite (cloneRows_read _ _ _ _ Ha Ec) in Hrun.
  destruct (applyLogicalStrategies fuel _ opts) as [[g|e]|] eqn:Er;
    try discriminate.
  injection Hrun as <- <-.
  assert (Hold : forall l, is_Some (h !! l) ->
            writeRows h1 clone (board g) !! l = h !! l).
  { intros l Hl. rewrite writeRows_other; [now apply Hkeep|].
    intros Hin. rewrite (Hfresh l Hin) in Hl. now destruct Hl. }
  split; [exact Hold|]. split.
  - unfold readMatrix. apply map_ext_in. intros l Hl.
    now rewrite Hold by (eapply allocated_In; eauto).
  - exists g. rewrite solveSudoku_unfold. simpl startBoard. cbv iota.
    split; [exact Er|]. split; [|split; reflexivity].
    cbn [ref_board]. apply readMatrix_writeRows; [exact Hnd|].
    pose proof (is9x9_shape9 _ H9) as Hshape.
    destruct (applyLogicalStrategies_units _ _ _ _
                (initialGame_Good _ Hshape) Er) as (g' & [= <-] & U).
    destruct (units_Good _ _ U (initialGame_Good _ Hshape)) as ([Hb _] & _).
    rewrite Hlen, Hb. apply andb_true_iff in H9 as [H9 _].
    apply Nat.eqb_eq in H9. unfold readMatrix in H9.
    now rewrite length_map in H9.
Qed.



(** ** The scheduler, as the spec words it *)

Abbreviation Strategy := (Sudoku -> result (bool * Sudoku)).

(** The seven strategies in their fixed priority order. *)
Definition strategyList (opts : option SolverOptions) : list Strategy :=
  [ pure (fun g => applyNakedSingles g opts);
    pure (fun g => applyNakedPairs g opts);
    pure (fun g => applyHiddenSingles g opts);
    pure (fun g => applyNakedTriples g opts);
    (fun g => applyHiddenPairs g opts);
    pure (fun g => applyBoxLineReduction g opts);
    pure (fun g => applyXWing g opts) ].

(** [allUnchanged ss g g']: every strategy of [ss] was tried in order,
    from [g], and each reported no change. *)
Inductive allUnchanged : list Strategy -> Sudoku -> Sudoku -> Prop :=
| allUnchanged_nil g : allUnchanged [] g g
| allUnchanged_cons (s : Strategy) ss g g1 g2 :
    s g = Ok (false, g1) -> allUnchanged ss g1 g2 ->
    allUnchanged (s :: ss) g g2.

(** [firstChange ss g g']: the strategies before [s] reported no change,
    [s] reported a change and left [g'], and the strategies after [s] were
    not tried. *)
Inductive firstChange : list Strategy -> Sudoku -> Sudoku -> Prop :=
| firstChange_at before (s : Strategy) after g g1 g2 :
    allUnchanged before g g1 -> s g1 = Ok (true, g2) ->
    firstChange (before ++ s :: after) g g2.

(** The outer loop: iterations that end at the first change restart from
    the first strategy; the loop ends with the first full pass without a
    change. *)
Inductive schedule (opts : option SolverOptions) : Sudoku -> Sudoku -> Prop :=
| schedule_stop g g' :
    allUnchanged (strategyList opts) g g' -> schedule opts g g'
| schedule_again g g1 g' :
    firstChange (strategyList opts) g g1 -> schedule opts g1 g' ->
    schedule opts g g'.

(** The chain of [if (!changed && ...)] statements over a list. *)
Fixpoint runPass (ss : list Strategy) (st : bool * Sudoku)
  : result (bool * Sudoku) :=
  match ss with
  | [] => Ok st
  | s :: ss' => st' ← tryStrategy s st; runPass ss' st'
  end.

Lemma bind_ret_id {A} (m : result A) : (x ← m; Ok x) = m.
Proof. now destruct m. Qed.

Lemma strategyPass_runPass g opts :
  strategyPass g opts = runPass (strategyList opts) (false, g).
Proof.
  unfold strategyPass, strategyList. cbn [runPass]. cbv zeta.
  repeat match goal with
         | |- context [tryStrategy ?s (?ch, ?g0)] =>
             destruct (tryStrategy s (ch, g0)) as [[? ?]|?];
             rewrite ?bind_Ok; try reflexivity
         end.
Qed.

Lemma runPass_changed ss g : runPass ss (true, g) = Ok (true, g).
Proof. induction ss as [|s ss IH]; [reflexivity|]. simpl. exact IH. Qed.

Lemma runPass_cons (s : Strategy) ss g :
  runPass (s :: ss) (false, g)
  = match s g with
    | Ok (true, g1) => Ok (true, g1)
    | Ok (false, g1) => runPass ss (false, g1)
    | Raise e => Raise e
    end.
Proof.
  cbn [runPass]. unfold tryStrategy. simpl negb. cbv iota.
  destruct (s g) as [[[|] g1]|e]; rewrite ?bind_Ok; try reflexivity.
  apply runPass_changed.
Qed.

Lemma runPass_false ss g g' :
  runPass ss (false, g) = Ok (false, g') <-> allUnchanged ss g g'.
Proof.
  revert g. induction ss as [|s ss IH]; intros g.
  - simpl. split.
    + intros [= <-]. constructor.
    + intros Hu. inversion Hu. reflexivity.
  - rewrite runPass_cons. split.
    + destruct (s g) as [[[|] g1]|e] eqn:Es; try discriminate.
      intros Hr. apply IH in Hr. econstructor; eauto.
    + intros Hu. inversion Hu as [|? ? ? g1 ? Hs Hrest]; subst.
      rewrite Hs. now apply IH.
Qed.

Lemma runPass_true ss g g' :
  runPass ss (false, g) = Ok (true, g') <-> firstChange ss g g'.
Proof.
  revert g. induction ss as [|s ss IH]; intros g.
  - simpl. split; [discriminate|].
    intros Hf. remember [] as l eqn:El.
    destruct Hf as [before s' after g0 g2 g3 Hu Hs'].
    now destruct before.
  - rewrite runPass_cons. split.
    + destruct (s g) as [[[|] g1]|e] eqn:Es; try discriminate.
      * intros [= <-].
        apply (firstChange_at [] s ss g g g1); [constructor | exact Es].
      * intros Hr. apply IH in Hr.
        inversion Hr as [before s' after ? g2 ? Hu Hs' Hl]; subst.
        apply (firstChange_at (s :: before) s' after g g2 g');
          [econstructor; eauto | exact Hs'].
    + intros Hf. remember (s :: ss) as l eqn:El.
      destruct Hf as [before s' after g0 g2 g3 Hu Hs'].
      destruct before as [|s0 before]; simpl in El; injection El as <- <-.
      * inversion Hu; subst. now rewrite Hs'.
      * inversion Hu as [|? ? ? g1 ? Hs0 Hrest]; subst. rewrite Hs0.
        apply IH. now apply (firstChange_at before s' after g1 g2 g3).
Qed.

(** C3. The scheduler tries Naked Singles, Naked Pairs, Hidden Singles,
    Naked Triples, Hidden Pairs, Box-Line Reduction and X-Wing in this
    order; an iteration ends with the first strategy that reports a change
    (the later ones are not tried) and the next iteration starts again at
    Naked Singles; the loop ends exactly when a full pass over the seven
    reports no change. *)
Theorem scheduler_order (opts : option SolverOptions) (g g' : Sudoku) :
  (strategyPass g opts = Ok (true, g') <-> firstChange (strategyList opts) g g')
  /\ (strategyPass g opts = Ok (false, g')
      <-> allUnchanged (strategyList opts) g g')
  /\ ((exists fuel, applyLogicalStrategies fuel g opts = Some (Ok g'))
      <-> schedule opts g g').
Proof.
  split; [|split].
  - rewrite strategyPass_runPass. apply runPass_true.
  - rewrite strategyPass_runPass. apply runPass_false.
  - split.
    + intros [fuel Hrun]. revert g Hrun.
      induction fuel as [|fuel IH]; intros g Hrun; [discriminate|].
      simpl in Hrun.
      destruct (strategyPass g opts) as [[[|] g1]|e] eqn:Ep; try discriminate.
      * apply schedule_again with g1; [|now apply IH].
        apply runPass_true. now rewrite <- strategyPass_runPass.
      * injection Hrun as <-. apply schedule_stop.
        apply runPass_false. now rewrite <- strategyPass_runPass.
    + induction 1 as [g g' Hu | g g1 g' Hf _ [fuel IH]].
      * exists 1. simpl. apply runPass_false in Hu.
        rewrite <- strategyPass_runPass in Hu. now rewrite Hu.
      * exists (S fuel). simpl. apply runPass_true in Hf.
        rewrite <- strategyPass_runPass in Hf. now rewrite Hf.
Qed.

(** ** Naked Singles, as the spec words it *)

(** The digit of the cell when it is a naked single: the cell is empty and
    its candidate set has exactly one digit. *)
Definition nakedSingleAt (g : Sudoku) (row col : nat) : option jsnum :=
  if is_zero (cell (board g) row col)
     && (length (candsAt (candidates g) row col) =? 1)%nat
  then Some (candsAt (candidates g) row col !!! 0%nat)
  else None.

Definition nakedSingleMeta (row col : nat) (digit : jsnum) : SnapshotMeta :=
  mkMeta "Naked Single" (Some (jsnum_to_string digit)) 1
    (Some (mkHighlight None None (Some [(row, col)]) None None None)).

(** The placement of a naked single. *)
Definition fillNakedSingle (g : Sudoku) (row col : nat) (digit : jsnum)
  : Sudoku :=
  addSnapshot (eliminatePeers (placeDigit g row col digit) row col digit)
    (nakedSingleMeta row col digit).

(** [nakedSingleScan cells g placed g']: the cells are visited in order,
    all of them; a cell that is a naked single when it is visited is
    filled, any other cell is left alone; [placed] lists the placements. *)
Inductive nakedSingleScan
  : list (nat * nat) -> Sudoku -> list Triple -> Sudoku -> Prop :=
| scan_done g : nakedSingleScan [] g [] g
| scan_fill row col rest g digit placed g' :
    nakedSingleAt g row col = Some digit ->
    nakedSingleScan rest (fillNakedSingle g row col digit) placed g' ->
    nakedSingleScan ((row, col) :: rest) g ((row, col, digit) :: placed) g'
| scan_skip_cell row col rest g placed g' :
    nakedSingleAt g row col = None ->
    nakedSingleScan rest g placed g' ->
    nakedSingleScan ((row, col) :: rest) g placed g'.

(** The cells that share a row, a column or a box with (row, col). *)
Definition isPeer (row col r c : nat) : bool :=
  negb ((r =? row)%nat && (c =? col)%nat)
  && ((r =? row)%nat || (c =? col)%nat
      || ((r / 3 =? row / 3)%nat && (c / 3 =? col / 3)%nat)).

Lemma forEach_app {S X} (xs ys : list X) (body : X -> S -> S) s :
  forEach (xs ++ ys) body s = forEach ys body (forEach xs body s).
Proof. unfold forEach. apply fold_left_app. Qed.

Lemma forEach_map {S X Y} (h : Y -> X) (ys : list Y) (body : X -> S -> S) s :
  forEach (map h ys) body s = forEach ys (fun y s => body (h y) s) s.
Proof.
  unfold forEach. revert s. induction ys as [|y ys IH]; intros s; simpl; auto.
Qed.

Lemma forEach_ext {S X} (xs : list X) (f g : X -> S -> S) s :
  (forall x s, f x s = g x s) -> forEach xs f s = forEach xs g s.
Proof.
  intros Hfg. unfold forEach. revert s.
  induction xs as [|x xs IH]; intros s; simpl; [reflexivity|].
  now rewrite Hfg, IH.
Qed.

Lemma forEach_flat_map {S X Y} (f : X -> list Y) (xs : list X)
  (body : Y -> S -> S) s :
  forEach (flat_map f xs) body s
  = forEach xs (fun x s => forEach (f x) body s) s.
Proof.
  revert s. induction xs as [|x xs IH]; intros s; simpl; [reflexivity|].
  rewrite forEach_app, IH. reflexivity.
Qed.

(** The visit of one cell by the loops of [applyNakedSingles]. *)
Definition visitCell (p : nat * nat) (st : bool * Sudoku) : bool * Sudoku :=
  let '(changed, g) := st in
  match nakedSingleAt g p.1 p.2 with
  | Some digit => (true, fillNakedSingle g p.1 p.2 digit)
  | None => (changed, g)
  end.

Lemma applyNakedSingles_cells g opts :
  isFalse opts nakedSingles = false ->
  applyNakedSingles g opts = forEach cells81 visitCell (false, g).
Proof.
  intros He. unfold applyNakedSingles. rewrite He. unfold cells81.
  rewrite forEach_flat_map. apply forEach_ext. intros row st.
  rewrite forEach_map. apply forEach_ext. intros col [ch g0].
  unfold visitCell, nakedSingleAt, fillNakedSingle, nakedSingleMeta.
  cbn [fst snd]. now destruct (_ && _).
Qed.

Lemma visitCells_scan cells ch g :
  exists placed g',
    forEach cells visitCell (ch, g) = (ch || (0 <? length placed)%nat, g')
    /\ nakedSingleScan cells g placed g'
    /\ length (snapshots g') = length (snapshots g) + length placed.
Proof.
  revert ch g. induction cells as [|[row col] cells IH]; intros ch g.
  - exists [], g. rewrite orb_false_r.
    repeat split; [constructor | simpl; lia].
  - change (forEach ((row, col) :: cells) visitCell (ch, g))
      with (forEach cells visitCell (visitCell (row, col) (ch, g))).
    unfold visitCell at 2. cbn [fst snd].
    destruct (nakedSingleAt g row col) as [digit|] eqn:En.
    + destruct (IH true (fillNakedSingle g row col digit))
        as (placed & g' & E & Hscan & Hlen).
      exists ((row, col, digit) :: placed), g'. rewrite E.
      split; [now rewrite orb_true_r|]. split; [now constructor|].
      rewrite Hlen. unfold fillNakedSingle, addSnapshot.
      cbn [snapshots eliminatePeers placeDigit]. rewrite length_app.
      simpl. lia.
    + destruct (IH ch g) as (placed & g' & E & Hscan & Hlen).
      exists placed, g'. rewrite E. split; [reflexivity|].
      split; [now constructor | exact Hlen].
Qed.

Lemma notIn_deleteCand_keep cs r c digit r0 c0 d0 :
  ~ In digit (candsAt cs r c) ->
  ~ In digit (candsAt (deleteCand cs r0 c0 d0) r c).
Proof.
  intros Hn. rewrite candsAt_deleteCand. case_decide as E; [|exact Hn].
  injection E as -> ->. rewrite set_remove_In. tauto.
Qed.

Lemma notIn_deleteCand_hit cs r c digit :
  ~ In digit (candsAt (deleteCand cs r c digit) r c).
Proof.
  rewrite candsAt_deleteCand, decide_True by reflexivity.
  rewrite set_remove_In. tauto.
Qed.

Lemma forEach_hits {S X} (Q : S -> Prop) (xs : list X) (body : X -> S -> S)
  s x0 :
  In x0 xs -> (forall s, Q (body x0 s)) ->
  (forall x s, Q s -> Q (body x s)) -> Q (forEach xs body s).
Proof.
  intros Hin Hhit Hkeep. apply in_split in Hin as (l1 & l2 & ->).
  rewrite forEach_app.
  change (forEach (x0 :: l2) body (forEach l1 body s))
    with (forEach l2 body (body x0 (forEach l1 body s))).
  apply forEach_inv; [apply Hhit | intros; now apply Hkeep].
Qed.

Lemma box_start row : row < 9 -> row - row mod BOX_SIZE = 3 * (row / 3).
Proof.
  intros _. unfold BOX_SIZE. pose proof (Nat.div_mod_eq row 3). lia.
Qed.

(** [eliminateFromPeers] removes the digit from every empty peer. *)
Lemma eliminateFromPeers_removes b cs row col digit r c :
  row < 9 -> col < 9 -> r < 9 -> c < 9 ->
  isPeer row col r c = true -> is_zero (cell b r c) = true ->
  ~ In digit (candsAt (eliminateFromPeers b cs row col digit) r c).
Proof.
  intros Hrow Hcol Hr Hc Hp Hz. unfold eliminateFromPeers. cbv zeta.
  rewrite !box_start by assumption.
  set (Q := fun cs : Cands => ~ In digit (candsAt cs r c)).
  assert (Hkeep : forall r0 c0 (cond : bool) cs0,
            Q cs0 -> Q (if cond then deleteCand cs0 r0 c0 digit else cs0)).
  { intros r0 c0 [] cs0 Hq; [now apply notIn_deleteCand_keep | exact Hq]. }
  assert (Hkeep_box : forall cs0, Q cs0 ->
    Q (forEach idx3 (fun r0 cs1 =>
         forEach idx3 (fun c0 cs2 =>
           if (negb (3 * (row / 3) + r0 =? row)%nat
               || negb (3 * (col / 3) + c0 =? col)%nat)
              && is_zero (cell b (3 * (row / 3) + r0) (3 * (col / 3) + c0))
           then deleteCand cs2 (3 * (row / 3) + r0) (3 * (col / 3) + c0) digit
           else cs2) cs1) cs0)).
  { intros cs0 Hq. apply forEach_inv; [exact Hq|]. intros r0 cs1 _ Hq1.
    apply forEach_inv; [exact Hq1|]. intros c0 cs2 _ Hq2. now apply Hkeep. }
  assert (Hkeep_col : forall cs0, Q cs0 ->
    Q (forEach idx9 (fun r0 cs1 =>
         if negb (r0 =? row)%nat && is_zero (cell b r0 col)
         then deleteCand cs1 r0 col digit else cs1) cs0)).
  { intros cs0 Hq. apply forEach_inv; [exact Hq|]. intros r0 cs1 _ Hq1.
    now apply Hkeep. }
  unfold isPeer in Hp. apply andb_true_iff in Hp as [Hne Hp].
  apply negb_true_iff, andb_false_iff in Hne.
  destruct (Nat.eqb_spec r row) as [->|Hrne].
  - (* same row: the first loop reaches the cell *)
    destruct Hne as [Hne|Hne]; [discriminate|]. apply Nat.eqb_neq in Hne.
    apply Hkeep_box, Hkeep_col.
    apply (forEach_hits Q idx9 _ cs c).
    + unfold idx9. apply in_seq. lia.
    + intros cs0. rewrite Hz. rewrite (proj2 (Nat.eqb_neq c col) Hne).
      apply notIn_deleteCand_hit.
    + intros c0 cs0 Hq. now apply Hkeep.
  - destruct (Nat.eqb_spec c col) as [->|Hcne].
    + (* same column: the second loop reaches the cell *)
      apply Hkeep_box.
      apply (forEach_hits Q idx9 _ _ r).
      * unfold idx9. apply in_seq. lia.
      * intros cs0. rewrite Hz. rewrite (proj2 (Nat.eqb_neq r row) Hrne).
        apply notIn_deleteCand_hit.
      * intros r0 cs0 Hq. now apply Hkeep.
    + (* same box: the third loop reaches the cell *)
      cbn [orb] in Hp. apply andb_true_iff in Hp as [Hbr Hbc].
      apply Nat.eqb_eq in Hbr, Hbc.
      pose proof (Nat.div_mod_eq r 3) as Er.
      pose proof (Nat.div_mod_eq c 3) as Ec.
      pose proof (Nat.mod_upper_bound r 3 ltac:(lia)) as Br.
      pose proof (Nat.mod_upper_bound c 3 ltac:(lia)) as Bc.
      apply (forEach_hits Q idx3 _ _ (r mod 3)).
      * unfold idx3. apply in_seq. lia.
      * intros cs0. apply (forEach_hits Q idx3 _ _ (c mod 3)).
        -- unfold idx3. apply in_seq. lia.
        -- intros cs1.
           replace (3 * (row / 3) + r mod 3) with r by lia.
           replace (3 * (col / 3) + c mod 3) with c by lia.
           rewrite Hz, (proj2 (Nat.eqb_neq r row) Hrne). cbn [negb orb andb].
           apply notIn_deleteCand_hit.
        -- intros c0 cs1 Hq. now apply Hkeep.
      * intros r0 cs0 Hq. apply forEach_inv; [exact Hq|].
        intros c0 cs1 _ Hq1. now apply Hkeep.
Qed.

(** What [eliminateFromPeers] does to each candidate set. *)
Lemma set_remove_idem (s : CSet) (x : jsnum) :
  set_remove (set_remove s x) x = set_remove s x.
Proof.
  apply set_remove_absent. rewrite set_remove_In. tauto.
Qed.

(** A loop of guarded deletions of one digit: a cell loses the digit when
    some iteration with a true guard targets it. *)
Lemma forEach_delete_spec {X} (xs : list X) (guard : X -> bool)
  (pos : X -> nat * nat) (digit : jsnum) (cs : Cands) r c :
  candsAt (forEach xs (fun x cs =>
             if guard x then deleteCand cs (pos x).1 (pos x).2 digit else cs) cs)
    r c
  = if existsb (fun x => guard x && bool_decide (pos x = (r, c))) xs
    then set_remove (candsAt cs r c) digit
    else candsAt cs r c.
Proof.
  unfold forEach. revert cs. induction xs as [|x xs IH]; intros cs;
    [reflexivity|].
  cbn [fold_left existsb]. rewrite IH. destruct (guard x); cbn [andb orb].
  - rewrite candsAt_deleteCand. destruct (pos x) as [r0 c0]. cbn [fst snd].
    case_bool_decide as E; case_decide as E'; try congruence; cbn [orb].
    + injection E as -> ->. rewrite set_remove_idem.
      now destruct (existsb _ xs).
    + reflexivity.
  - reflexivity.
Qed.

(** The cells [eliminateFromPeers] visits, in the order of its three
    loops, each with the guard of its [if]. *)
Definition peerVisits (b : Board) (row col : nat) : list (bool * (nat * nat)) :=
  let startRow := (row - row mod BOX_SIZE)%nat in
  let startCol := (col - col mod BOX_SIZE)%nat in
  map (fun c => (negb (c =? col)%nat && is_zero (cell b row c), (row, c))) idx9
  ++ map (fun r => (negb (r =? row)%nat && is_zero (cell b r col), (r, col))) idx9
  ++ flat_map (fun r => map (fun c =>
       ((negb (startRow + r =? row)%nat || negb (startCol + c =? col)%nat)
        && is_zero (cell b (startRow + r) (startCol + c)),
        ((startRow + r)%nat, (startCol + c)%nat))) idx3) idx3.

Lemma eliminateFromPeers_visits b cs row col digit :
  eliminateFromPeers b cs row col digit
  = forEach (peerVisits b row col) (fun x cs =>
      if x.1 then deleteCand cs (x.2).1 (x.2).2 digit else cs) cs.
Proof.
  unfold eliminateFromPeers, peerVisits. cbv zeta.
  rewrite !forEach_app, !forEach_map, forEach_flat_map.
  apply forEach_ext. intros r cs'. now rewrite forEach_map.
Qed.

Lemma div3_block q k : k < 3 -> (3 * q + k) / 3 = q.
Proof.
  intros Hk. symmetry. apply (Nat.div_unique (3 * q + k) 3 q k); lia.
Qed.

Lemma peerVisits_hit b row col r c :
  row < 9 -> col < 9 -> r < 9 -> c < 9 ->
  existsb (fun x : bool * (nat * nat) => x.1 && bool_decide (x.2 = (r, c)))
    (peerVisits b row col)
  = isPeer row col r c && is_zero (cell b r c).
Proof.
  intros Hrow Hcol Hr Hc. apply eq_true_iff_eq.
  rewrite existsb_exists, andb_true_iff. unfold peerVisits. cbv zeta.
  rewrite !box_start by assumption. unfold isPeer. split.
  - intros ([g [r0 c0]] & Hin & Hg). cbn [fst snd] in Hg.
    apply andb_true_iff in Hg as [Hg E]. apply bool_decide_eq_true in E.
    injection E as -> ->. subst g.
    rewrite !in_app_iff in Hin. destruct Hin as [Hin|[Hin|Hin]].
    + apply in_map_iff in Hin as (c0 & [= Hg <- <-] & _).
      apply andb_true_iff in Hg as [Hne Hz].
      rewrite Hz, Nat.eqb_refl. split; [|reflexivity].
      destruct (c0 =? col)%nat; [discriminate | reflexivity].
    + apply in_map_iff in Hin as (r0 & [= Hg <- <-] & _).
      apply andb_true_iff in Hg as [Hne Hz].
      rewrite Hz, Nat.eqb_refl. split; [|reflexivity].
      destruct (r0 =? row)%nat; [discriminate|]. now rewrite orb_true_r.
    + remember (3 * (row / 3)) as sr eqn:Esr.
      remember (3 * (col / 3)) as sc eqn:Esc.
      apply in_flat_map in Hin as (r0 & Hr0 & Hin).
      apply in_map_iff in Hin as (c0 & [= Hg <- <-] & Hc0).
      apply In_idx3 in Hr0, Hc0.
      apply andb_true_iff in Hg as [Hne Hz]. rewrite Hz.
      split; [|reflexivity]. subst sr sc. rewrite !div3_block by assumption.
      rewrite !Nat.eqb_refl, orb_true_r, andb_true_r.
      now rewrite negb_andb.
  - intros [Hp Hz]. apply andb_true_iff in Hp as [Hne Hp].
    rewrite negb_andb in Hne.
    destruct (Nat.eqb_spec r row) as [->|Hrne].
    + exists (negb (c =? col)%nat && is_zero (cell b row c), (row, c)).
      cbn [fst snd]. rewrite bool_decide_eq_true_2 by reflexivity.
      split; [|cbn [negb orb] in Hne; now rewrite Hne, Hz].
      apply in_or_app. left. apply in_map_iff. exists c.
      split; [reflexivity | unfold idx9; apply in_seq; lia].
    + destruct (Nat.eqb_spec c col) as [->|Hcne].
      * exists (negb (r =? row)%nat && is_zero (cell b r col), (r, col)).
        cbn [fst snd]. rewrite bool_decide_eq_true_2 by reflexivity.
        split; [|now rewrite Hz, (proj2 (Nat.eqb_neq r row) Hrne)].
        apply in_or_app. right. apply in_or_app. left. apply in_map_iff.
        exists r. split; [reflexivity | unfold idx9; apply in_seq; lia].
      * cbn [orb] in Hp. apply andb_true_iff in Hp as [Hbr Hbc].
        apply Nat.eqb_eq in Hbr, Hbc.
        pose proof (Nat.div_mod_eq r 3) as Er.
        pose proof (Nat.div_mod_eq c 3) as Ec.
        pose proof (Nat.mod_upper_bound r 3 ltac:(lia)) as Br.
        pose proof (Nat.mod_upper_bound c 3 ltac:(lia)) as Bc.
        exists (true, (r, c)). cbn [fst snd].
        rewrite bool_decide_eq_true_2 by reflexivity. split; [|reflexivity].
        apply in_or_app. right. apply in_or_app. right.
        apply in_flat_map. exists (r mod 3).
        split; [unfold idx3; apply in_seq; lia|].
        apply in_map_iff. exists (c mod 3).
        split; [|unfold idx3; apply in_seq; lia].
        replace (3 * (row / 3) + r mod 3) with r by lia.
        replace (3 * (col / 3) + c mod 3) with c by lia.
        now rewrite Hz, (proj2 (Nat.eqb_neq r row) Hrne).
Qed.

(** [eliminateFromPeers] deletes the digit from the candidate set of every
    empty peer of (row, col) and leaves every other candidate set, those
    of the filled peers included, as it was. *)
Lemma candsAt_eliminateFromPeers (b : Board) (cs : Cands) (row col : nat)
  (digit : jsnum) (r c : nat) :
  row < 9 -> col < 9 -> r < 9 -> c < 9 ->
  candsAt (eliminateFromPeers b cs row col digit) r c
  = if isPeer row col r c && is_zero (cell b r c)
    then set_remove (candsAt cs r c) digit
    else candsAt cs r c.
Proof.
  intros Hrow Hcol Hr Hc. rewrite eliminateFromPeers_visits.
  rewrite (forEach_delete_spec (peerVisits b row col) fst snd digit cs r c).
  now rewrite peerVisits_hit.
Qed.

Lemma cells81_all r c : In (r, c) cells81 <-> r < 9 /\ c < 9.
Proof.
  unfold cells81. rewrite in_flat_map. split.
  - intros (row & Hrow & Hin). apply in_map_iff in Hin as (col & [= <- <-] & Hcol).
    split; now apply In_idx9.
  - intros [Hr Hc]. exists r. split; [unfold idx9; apply in_seq; lia|].
    apply in_map. unfold idx9. apply in_seq. lia.
Qed.

Lemma fillNakedSingle_spec g row col digit :
  row < 9 -> col < 9 -> nakedSingleAt g row col = Some digit ->
  cell (board (fillNakedSingle g row col digit)) row col = digit
  /\ (forall r c, r < 9 -> c < 9 -> isPeer row col r c = true ->
        is_zero (cell (board g) r c) = true ->
        ~ In digit (candsAt (candidates (fillNakedSingle g row col digit)) r c))
  /\ (exists s,
       snapshots (fillNakedSingle g row col digit) = snapshots g ++ [s]
       /\ kind s = "Naked Single" /\ difficulty s = 1
       /\ snap_board s = board (fillNakedSingle g row col digit)
       /\ snap_candidates s = candidates (fillNakedSingle g row col digit))
  /\ (forall r c, r < 9 -> c < 9 ->
        candsAt (candidates (fillNakedSingle g row col digit)) r c
        = if isPeer row col r c && is_zero (cell (board g) r c)
          then set_remove (candsAt (candidates g) r c) digit
          else candsAt (candidates g) r c).
Proof.
  intros Hrow Hcol Hn. unfold nakedSingleAt in Hn.
  destruct (is_zero (cell (board g) row col)) eqn:Hz; [|discriminate].
  clear Hn. pose proof (cell_zero_inGrid _ _ _ Hz) as Hin.
  unfold fillNakedSingle, addSnapshot, eliminatePeers, placeDigit.
  cbn [board candidates snapshots]. split; [|split; [|split]].
  - rewrite setCell_gridSet, cell_gridGet. now apply gridGet_set_eq.
  - intros r c Hr Hc Hp Hzp.
    apply eliminateFromPeers_removes; try assumption.
    rewrite setCell_gridSet, cell_gridGet, gridGet_set_ne; [exact Hzp|].
    intros [= -> ->]. unfold isPeer in Hp. rewrite !Nat.eqb_refl in Hp.
    discriminate.
  - eexists. split; [reflexivity|]. cbn [kind difficulty snap_board
      snap_candidates nakedSingleMeta m_kind m_difficulty].
    now rewrite deepCloneBoard_id, deepCloneCandidates_id.
  - intros r c Hr Hc. rewrite candsAt_eliminateFromPeers by assumption.
    destruct (isPeer row col r c) eqn:Hp; [|reflexivity]. cbn [andb].
    rewrite setCell_gridSet, cell_gridGet, gridGet_set_ne; [reflexivity|].
    intros [= -> ->]. unfold isPeer in Hp. rewrite !Nat.eqb_refl in Hp.
    discriminate.
Qed.

(** C5, as the code has it.  An enabled call of Naked Singles visits all
    81 cells once, in row-major order, without returning early: each cell
    that is empty and has exactly one candidate when it is visited is
    filled with that digit, the digit is removed from the candidate sets
    of its empty peers (the peers whose cell is 0; no other candidate set
    changes, so a filled peer keeps the digit if its set still holds it),
    and one snapshot of kind "Naked Single" and difficulty 1 is recorded
    for the placement; the call returns [true] exactly when it made at
    least one placement. *)
Theorem naked_singles_full_scan (g : Sudoku) (opts : option SolverOptions) :
  isFalse opts nakedSingles = false ->
  (forall r c, In (r, c) cells81 <-> r < 9 /\ c < 9)
  /\ NoDup cells81
  /\ (exists placed g',
        applyNakedSingles g opts = ((0 <? length placed)%nat, g')
        /\ nakedSingleScan cells81 g placed g'
        /\ length (snapshots g') = length (snapshots g) + length placed)
  /\ (forall g0 row col digit,
        row < 9 -> col < 9 -> nakedSingleAt g0 row col = Some digit ->
        cell (board (fillNakedSingle g0 row col digit)) row col = digit
        /\ (forall r c, r < 9 -> c < 9 -> isPeer row col r c = true ->
              is_zero (cell (board g0) r c) = true ->
              ~ In digit
                  (candsAt (candidates (fillNakedSingle g0 row col digit)) r c))
        /\ (exists s,
             snapshots (fillNakedSingle g0 row col digit) = snapshots g0 ++ [s]
             /\ kind s = "Naked Single" /\ difficulty s = 1
             /\ snap_board s = board (fillNakedSingle g0 row col digit)
             /\ snap_candidates s
                = candidates (fillNakedSingle g0 row col digit))
        /\ (forall r c, r < 9 -> c < 9 ->
              candsAt (candidates (fillNakedSingle g0 row col digit)) r c
              = if isPeer row col r c && is_zero (cell (board g0) r c)
                then set_remove (candsAt (candidates g0) r c) digit
                else candsAt (candidates g0) r c)).
Proof.
  intros He. split; [apply cells81_all|]. split; [|split].
  - apply (bool_decide_unpack (NoDup cells81)). vm_compute. exact I.
  - rewrite (applyNakedSingles_cells g opts He).
    destruct (visitCells_scan cells81 false g) as (placed & g' & E & Hs & Hl).
    exists placed, g'. auto.
  - intros g0 row col digit. apply fillNakedSingle_spec.
Qed.

(** ** Hidden Pairs: which loops return early *)

(** [for (x of xs) if (unit(game, x)) changed = true;]: a scan of all the
    units of one orientation that does not return early. *)
Fixpoint scanUnitsR {X} (xs : list X)
  (unit : X -> Sudoku -> result (bool * Sudoku)) (st : bool * Sudoku)
  : result (bool * Sudoku) :=
  match xs with
  | [] => Ok st
  | x :: xs' =>
      match unit x st.2 with
      | Ok (hit, game') => scanUnitsR xs' unit (st.1 || hit, game')
      | Raise e => Raise e
      end
  end.

(** [if (enabled && category(game)) return true;] followed by [rest]. *)
Definition orElseR (enabled : bool) (category : Strategy) (rest : Strategy)
  (game : Sudoku) : result (bool * Sudoku) :=
  if enabled then
    match category game with
    | Ok (hit, game') => if hit then Ok (true, game') else rest game'
    | Raise e => Raise e
    end
  else rest game.

(** The dispatcher as the claim reads: each orientation is scanned to its
    end, and the dispatcher returns after the first orientation that
    yields a change. *)
Definition applyHiddenPairsByCategory (game : Sudoku)
  (opts : option SolverOptions) : result (bool * Sudoku) :=
  if isFalse opts hiddenPairs then Ok (false, game)
  else
    orElseR (notFalse opts hiddenPairsBoxes)
      (fun game => scanUnitsR boxes
         (fun '(br, bc) game => applyHiddenPairsInBox game br bc) (false, game))
      (orElseR (notFalse opts hiddenPairsRows)
         (fun game => scanUnitsR idx9
            (fun row game => applyHiddenPairsInRow game row) (false, game))
         (orElseR (notFalse opts hiddenPairsCols)
            (fun game => scanUnitsR idx9
               (fun col game => applyHiddenPairsInColumn game col) (false, game))
            (fun game => Ok (false, game)))) game.

(** An empty board on which the digits 1 and 2 are confined to the cells
    (0,0), (0,1) of the first box and to the cells (0,3), (0,4) of the
    second box: each of the two boxes has a hidden pair. *)
Definition twoBoxesCands : Cands :=
  map (fun r => map (fun c =>
         if (r <? 3)%nat && (c <? 6)%nat
            && negb ((r =? 0)%nat && (c mod 3 <? 2)%nat)
         then map Num [3; 4; 5; 6; 7; 8; 9]%Z
         else fullSet) idx9) idx9.

Definition twoBoxes : Sudoku :=
  mkSudoku (repeat (repeat (Num 0) 9) 9) twoBoxesCands [].

(** An empty board whose first box has two hidden pairs: the digits 1, 2
    are confined to (0,0), (0,1) and the digits 3, 4 to (1,0), (1,1). *)
Definition twoPairsCands : Cands :=
  map (fun r => map (fun c =>
         if (r <? 3)%nat && (c <? 3)%nat then
           if (r =? 0)%nat && (c <? 2)%nat
           then map Num [1; 2; 5; 6; 7; 8; 9]%Z
           else if (r =? 1)%nat && (c <? 2)%nat
           then map Num [3; 4; 5; 6; 7; 8; 9]%Z
           else map Num [5; 6; 7; 8; 9]%Z
         else fullSet) idx9) idx9.

Definition twoPairs : Sudoku :=
  mkSudoku (repeat (repeat (Num 0) 9) 9) twoPairsCands [].

(** The number of snapshots of a result. *)
Definition recorded (r : result (bool * Sudoku)) : option (bool * nat) :=
  match r with
  | Ok (hit, g) => Some (hit, length (snapshots g))
  | Raise _ => None
  end.

(** The unit calls of Hidden Pairs in the order of the dispatcher: the
    boxes, the rows, the columns, each orientation when it is enabled. *)
Definition hiddenPairUnits (opts : option SolverOptions) : list Strategy :=
  (if notFalse opts hiddenPairsBoxes
   then map (fun '(br, bc) game => applyHiddenPairsInBox game br bc) boxes
   else [])
  ++ (if notFalse opts hiddenPairsRows
      then map (fun row game => applyHiddenPairsInRow game row) idx9
      else [])
  ++ (if notFalse opts hiddenPairsCols
      then map (fun col game => applyHiddenPairsInColumn game col) idx9
      else []).

(** The pairs of digits [d1 < d2] a unit call examines: [d1] must have
    exactly two positions in the table. *)
Definition digitPairs {P} (positionsForDigit : list (list P)) : list (Z * Z) :=
  flat_map (fun d1 =>
    if (length (positionsForDigit !!! Z.to_nat d1) =? 2)%nat
    then map (fun d2 => (d1, d2)) (digitsAfter d1)
    else []) digits19.

Lemma runPass_app ss1 ss2 g :
  runPass (ss1 ++ ss2) (false, g)
  = match runPass ss1 (false, g) with
    | Ok (true, g1) => Ok (true, g1)
    | Ok (false, g1) => runPass ss2 (false, g1)
    | Raise e => Raise e
    end.
Proof.
  revert g. induction ss1 as [|s ss1 IH]; intros g; [reflexivity|].
  rewrite <- app_comm_cons, !runPass_cons.
  destruct (s g) as [[[|] g1]|e]; try reflexivity. apply IH.
Qed.

Lemma forFirstR_runPass {X} (xs : list X) unit g :
  forFirstR xs unit g = runPass (map unit xs) (false, g).
Proof.
  revert g. induction xs as [|x xs IH]; intros g; [reflexivity|].
  cbn [forFirstR map]. rewrite runPass_cons.
  destruct (unit x g) as [[[|] g1]|e]; try reflexivity. apply IH.
Qed.

Lemma orElseUnitsR_runPass {X} enabled (xs : list X) unit rest restList g :
  (forall g, rest g = runPass restList (false, g)) ->
  orElseUnitsR enabled xs unit rest g
  = runPass ((if enabled then map unit xs else []) ++ restList) (false, g).
Proof.
  intros Hrest. unfold orElseUnitsR. destruct enabled; [|apply Hrest].
  rewrite runPass_app, forFirstR_runPass.
  destruct (runPass (map unit xs) (false, g)) as [[[|] g1]|e];
    try reflexivity. apply Hrest.
Qed.

Lemma applyHiddenPairs_runPass g opts :
  isFalse opts hiddenPairs = false ->
  applyHiddenPairs g opts = runPass (hiddenPairUnits opts) (false, g).
Proof.
  intros He. unfold applyHiddenPairs, hiddenPairUnits. rewrite He.
  apply orElseUnitsR_runPass. intros g1.
  apply orElseUnitsR_runPass. intros g2.
  rewrite <- (app_nil_r (if notFalse opts hiddenPairsCols then _ else _)).
  apply orElseUnitsR_runPass. reflexivity.
Qed.

Lemma forEach_digitPairs {P S} (positionsForDigit : list (list P))
  (body : Z -> Z -> S -> S) s :
  forEach digits19 (fun d1 st =>
    if (length (positionsForDigit !!! Z.to_nat d1) =? 2)%nat
    then forEach (digitsAfter d1) (fun d2 st => body d1 d2 st) st
    else st) s
  = forEach (digitPairs positionsForDigit) (fun p st => body p.1 p.2 st) s.
Proof.
  unfold digitPairs. rewrite forEach_flat_map. apply forEach_ext.
  intros d1 st. destruct (_ =? 2)%nat; [|reflexivity].
  now rewrite forEach_map.
Qed.

(** C4, as the code has it.  A unit call (one box, one row or one column)
    examines every pair of digits of its table, without returning early;
    the dispatcher goes through the enabled boxes, then rows, then columns
    one unit at a time and returns [true] at the first unit call that
    reports a change: the units after it, of this orientation and of the
    later ones, are not visited. *)
Theorem hidden_pairs_short_circuit (g : Sudoku) (opts : option SolverOptions) :
  isFalse opts hiddenPairs = false ->
  (forall g', applyHiddenPairs g opts = Ok (true, g')
              <-> firstChange (hiddenPairUnits opts) g g')
  /\ (forall g', applyHiddenPairs g opts = Ok (false, g')
                 <-> allUnchanged (hiddenPairUnits opts) g g')
  /\ (forall boxRow boxCol,
        applyHiddenPairsInBox g boxRow boxCol
        = let emptyCells :=
            List.filter (fun '(rr, cc) => is_zero (cell (board g) rr cc))
              (boxCells (boxRow * 3) (boxCol * 3)) in
          if (length emptyCells <? 2)%nat then Ok (false, g)
          else
            positionsForDigit ← positionsInBox g emptyCells;
            Ok (forEach (digitPairs positionsForDigit) (fun p st =>
                  hiddenPairInBox positionsForDigit boxRow boxCol p.1 p.2 st)
                  (false, g)))
  /\ (forall row,
        applyHiddenPairsInRow g row
        = if (length (List.filter
                        (fun col => is_zero (cell (board g) row col)) idx9)
              <? 2)%nat
          then Ok (false, g)
          else
            positionsForDigit ← positionsInRow g row;
            Ok (forEach (digitPairs positionsForDigit) (fun p st =>
                  hiddenPairInRow positionsForDigit row p.1 p.2 st)
                  (false, g)))
  /\ (forall col,
        applyHiddenPairsInColumn g col
        = if (length (List.filter
                        (fun row => is_zero (cell (board g) row col)) idx9)
              <? 2)%nat
          then Ok (false, g)
          else
            positionsForDigit ← positionsInColumn g col;
            Ok (forEach (digitPairs positionsForDigit) (fun p st =>
                  hiddenPairInColumn positionsForDigit col p.1 p.2 st)
                  (false, g))).
Proof.
  intros He. split; [|split; [|split; [|split]]].
  - intros g'. rewrite (applyHiddenPairs_runPass g opts He). apply runPass_true.
  - intros g'. rewrite (applyHiddenPairs_runPass g opts He). apply runPass_false.
  - intros boxRow boxCol. unfold applyHiddenPairsInBox. cbv zeta.
    destruct (_ <? 2)%nat; [reflexivity|].
    destruct (positionsInBox g _) as [pos|e]; [|reflexivity].
    rewrite !bind_Ok. f_equal.
    apply (forEach_digitPairs pos
             (fun d1 d2 st => hiddenPairInBox pos boxRow boxCol d1 d2 st)).
  - intros row. unfold applyHiddenPairsInRow. cbv zeta.
    destruct (_ <? 2)%nat; [reflexivity|].
    destruct (positionsInRow g row) as [pos|e]; [|reflexivity].
    rewrite !bind_Ok. f_equal.
    apply (forEach_digitPairs pos
             (fun d1 d2 st => hiddenPairInRow pos row d1 d2 st)).
  - intros col. unfold applyHiddenPairsInColumn. cbv zeta.
    destruct (_ <? 2)%nat; [reflexivity|].
    destruct (positionsInColumn g col) as [pos|e]; [|reflexivity].
    rewrite !bind_Ok. f_equal.
    apply (forEach_digitPairs pos
             (fun d1 d2 st => hiddenPairInColumn pos col d1 d2 st)).
Qed.

Lemma twoBoxes_dispatcher :
  recorded (applyHiddenPairs twoBoxes None) = Some (true, 1).
Proof. vm_compute. reflexivity. Qed.

Lemma twoBoxes_by_category :
  recorded (applyHiddenPairsByCategory twoBoxes None) = Some (true, 2).
Proof. vm_compute. reflexivity. Qed.

(** The claim C4 as it is stated fails: on [twoBoxes] the dispatcher
    returns after the first box (one snapshot), whereas a scan of the
    boxes to their end would also strip the hidden pair of the second box
    (two snapshots). *)
Lemma hidden_pairs_category_counterexample :
  applyHiddenPairs twoBoxes None <> applyHiddenPairsByCategory twoBoxes None.
Proof.
  intros E. pose proof twoBoxes_dispatcher as H1.
  rewrite E in H1. rewrite twoBoxes_by_category in H1. discriminate.
Qed.

(** One unit call can record more than one hidden pair: on [twoPairs] the
    call for the first box records two snapshots. *)
Lemma hidden_pairs_unit_records_two :
  recorded (applyHiddenPairsInBox twoPairs 0 0) = Some (true, 2).
Proof. vm_compute. reflexivity. Qed.

(** ** Example inputs *)

(** A puzzle that Naked Singles solve, as a string and as a matrix. *)
Definition easyPuzzle : string :=
  "530070000600195000098000060800060003400803001700020006060000280000419005000080079".

Definition easyBoard : Board :=
  [ [Num 5; Num 3; Num 0; Num 0; Num 7; Num 0; Num 0; Num 0; Num 0];
    [Num 6; Num 0; Num 0; Num 1; Num 9; Num 5; Num 0; Num 0; Num 0];
    [Num 0; Num 9; Num 8; Num 0; Num 0; Num 0; Num 0; Num 6; Num 0];
    [Num 8; Num 0; Num 0; Num 0; Num 6; Num 0; Num 0; Num 0; Num 3];
    [Num 4; Num 0; Num 0; Num 8; Num 0; Num 3; Num 0; Num 0; Num 1];
    [Num 7; Num 0; Num 0; Num 0; Num 2; Num 0; Num 0; Num 0; Num 6];
    [Num 0; Num 6; Num 0; Num 0; Num 0; Num 0; Num 2; Num 8; Num 0];
    [Num 0; Num 0; Num 0; Num 4; Num 1; Num 9; Num 0; Num 0; Num 5];
    [Num 0; Num 0; Num 0; Num 0; Num 8; Num 0; Num 0; Num 7; Num 9] ].

(** A puzzle on which Naked Pairs and Hidden Singles are needed. *)
Definition hardPuzzle : string :=
  "000000010400000000020000000000050407008000300001090000300400200050100000000806000".

(** [easyBoard] with entries that are no digits: 12, -3 and [NaN]. *)
Definition oddBoard : Board :=
  [ [Num 5; Num 3; Num 12; Num 0; Num 7; Num 0; Num 0; Num 0; Num 0];
    [Num 6; Num 0; Num 0; Num 1; Num 9; Num 5; Num 0; Num 0; Num 0];
    [Num 0; Num 9; Num 8; Num 0; Num 0; Num 0; Num 0; Num 6; Num 0];
    [Num 8; Num 0; Num 0; Num 0; Num 6; Num 0; Num 0; Num 0; Num 3];
    [Num 4; Num 0; Num 0; Num 8; Num (-3); Num 3; Num 0; Num 0; Num 1];
    [Num 7; Num 0; Num 0; Num 0; Num 2; Num 0; Num 0; Num 0; Num 6];
    [Num 0; Num 6; Num 0; Num 0; Num 0; Num 0; Num 2; Num 8; Num 0];
    [Num 0; Num 0; Num 0; Num 4; Num 1; Num 9; Num 0; Num 0; Num 5];
    [NaN; Num 0; Num 0; Num 0; Num 8; Num 0; Num 0; Num 7; Num 9] ].

(** The letter [a] followed by eighty dots: 81 characters. *)
Definition letterPuzzle : string :=
  "a................................................................................".

(** Eighty dots. *)
Definition shortPuzzle : string :=
  "................................................................................".

Definition emptyBoard : Board := repeat (repeat (Num 0) 9) 9.

(** A board without solution: the cell (0,1) sees 2..8 in its row and 1, 9
    in its column. *)
Definition deadEndBoard : Board :=
  [ [Num 0; Num 0; Num 2; Num 3; Num 4; Num 5; Num 6; Num 7; Num 8];
    [Num 0; Num 0; Num 0; Num 0; Num 0; Num 0; Num 0; Num 0; Num 0];
    [Num 0; Num 0; Num 0; Num 0; Num 0; Num 0; Num 0; Num 0; Num 0];
    [Num 0; Num 1; Num 0; Num 0; Num 0; Num 0; Num 0; Num 0; Num 0];
    [Num 0; Num 9; Num 0; Num 0; Num 0; Num 0; Num 0; Num 0; Num 0];
    [Num 0; Num 0; Num 0; Num 0; Num 0; Num 0; Num 0; Num 0; Num 0];
    [Num 0; Num 0; Num 0; Num 0; Num 0; Num 0; Num 0; Num 0; Num 0];
    [Num 0; Num 0; Num 0; Num 0; Num 0; Num 0; Num 0; Num 0; Num 0];
    [Num 0; Num 0; Num 0; Num 0; Num 0; Num 0; Num 0; Num 0; Num 0] ].

Definition deadEnd : Sudoku :=
  mkSudoku deadEndBoard (buildCandidates deadEndBoard) [].

(** A completed grid. *)
Definition solvedBoard : Board :=
  [ [Num 1; Num 2; Num 3; Num 4; Num 5; Num 6; Num 7; Num 8; Num 9];
    [Num 4; Num 5; Num 6; Num 7; Num 8; Num 9; Num 1; Num 2; Num 3];
    [Num 7; Num 8; Num 9; Num 1; Num 2; Num 3; Num 4; Num 5; Num 6];
    [Num 2; Num 1; Num 4; Num 3; Num 6; Num 5; Num 8; Num 9; Num 7];
    [Num 3; Num 6; Num 5; Num 8; Num 9; Num 7; Num 2; Num 1; Num 4];
    [Num 8; Num 9; Num 7; Num 2; Num 1; Num 4; Num 3; Num 6; Num 5];
    [Num 5; Num 3; Num 1; Num 6; Num 4; Num 2; Num 9; Num 7; Num 8];
    [Num 6; Num 4; Num 2; Num 9; Num 7; Num 8; Num 5; Num 3; Num 1];
    [Num 9; Num 7; Num 8; Num 5; Num 3; Num 1; Num 6; Num 4; Num 2] ].

(** [digit] occurs in the cells [cells] of [b]. *)
Definition occursIn (b : Board) (cells : list (nat * nat)) (digit : Z) : bool :=
  existsb (fun '(r, c) => strict_eq (cell b r c) (Num digit)) cells.

(** Every row, every column and every box of [b] holds the digits 1..9. *)
Definition validGrid (b : Board) : bool :=
  forallb (fun i =>
    forallb (fun d =>
      occursIn b (map (fun c => (i, c)) idx9) d
      && occursIn b (map (fun r => (r, i)) idx9) d
      && occursIn b (boxCells (i / 3 * 3) (i mod 3 * 3)) d) digits19) idx9.

(** [sol] is a solution of the puzzle [b]. *)
Definition solves (b sol : Board) : bool :=
  is9x9 sol && validGrid sol
  && forallb (fun '(r, c) =>
       is_zero (cell b r c)
       || bool_decide (cell b r c = cell sol r c)) cells81.

(** The caller's matrix [easyBoard] as nine row arrays at the addresses
    0..8. *)
Definition easyHeap : Heap := list_to_map (zip (seq 0 9) easyBoard).

Definition easyRows : list nat := seq 0 9.

(** ** The two places where the code stops short *)

(** C1. [solveSudoku] does not fall back to the backtracking search: what
    it returns is the session at the logical fixpoint, for every input.
    On the empty board, which has a solution, the strategies change
    nothing, so the returned board is still empty, although [backtrack]
    called on that very session fills it completely. *)
Theorem solveSudoku_stops_at_logical_fixpoint :
  (forall fuel sb opts,
     solveSudoku fuel sb opts
     = match startBoard sb with
       | Raise e => Some (Raise e)
       | Ok parsed => applyLogicalStrategies fuel (initialGame parsed) opts
       end)
  /\ solves emptyBoard solvedBoard = true
  /\ exists g,
       (forall fuel, solveSudoku (S fuel) (inl emptyBoard) None = Some (Ok g))
       /\ board g = emptyBoard
       /\ isComplete (board g) = false
       /\ exists g',
            backtrack 82 g = Some (true, g')
            /\ board g' = solvedBoard
            /\ isComplete (board g') = true.
Proof.
  split; [intros; apply solveSudoku_unfold|].
  split; [vm_compute; reflexivity|].
  eexists. split.
  - intros fuel. rewrite solveSudoku_unfold. cbn [startBoard].
    eapply (applyLogicalStrategies_fuel_mono 1); [vm_compute; reflexivity|lia].
  - split; [vm_compute; reflexivity|]. split; [vm_compute; reflexivity|].
    eexists. split; [vm_compute; reflexivity|].
    split; vm_compute; reflexivity.
Qed.

(** C2. [stringToBoard] raises exactly when the string is not 81
    characters long, so an 80-character string raises before solving
    starts; an 81-character string is never refused for its characters:
    a letter is parsed to [NaN], passes the range check and is stored in
    the board that is then solved. *)
Theorem stringToBoard_checks_length_only :
  (forall s, (exists e, stringToBoard s = Raise e) <-> String.length s <> 81)
  /\ String.length shortPuzzle = 80
  /\ (forall fuel opts,
        solveSudoku fuel (inr shortPuzzle) opts
        = Some (Raise
                  (Error "Puzzle string must be exactly 81 characters long.")))
  /\ String.length letterPuzzle = 81
  /\ exists b g,
       stringToBoard letterPuzzle = Ok b
       /\ cell b 0 0 = NaN
       /\ solveSudoku 1 (inr letterPuzzle) None = Some (Ok g)
       /\ cell (board g) 0 0 = NaN.
Proof.
  split; [|split; [reflexivity|split; [|split; [reflexivity|]]]].
  - intros s. split.
    + intros [e He] Hl.
      destruct (stringToBoard_ok s Hl) as (b & E & _). congruence.
    + intros Hl. eexists. now apply stringToBoard_length_error.
  - intros fuel opts. unfold solveSudoku.
    now rewrite (stringToBoard_length_error shortPuzzle).
  - eexists _, _. split; [vm_compute; reflexivity|].
    split; [vm_compute; reflexivity|].
    split; vm_compute; reflexivity.
Qed.

(** Without the clone the caller's matrix is overwritten with the solved
    board. *)
Lemma solveSudokuNoClone_mutates :
  exists h' game,
    solveSudokuNoClone 100 easyHeap easyRows None = Some (Ok (h', game))
    /\ readMatrix h' easyRows <> readMatrix easyHeap easyRows.
Proof.
  eexists _, _. split; [vm_compute; reflexivity|].
  vm_compute. discriminate.
Qed.

(** Without the clone a second run on the same matrix does not repeat the
    first: it starts from the board the first run has left in the
    caller's rows and records a single snapshot. *)
Lemma solveSudokuNoClone_second_run_differs :
  exists h1 game1 h2 game2,
    solveSudokuNoClone 100 easyHeap easyRows None = Some (Ok (h1, game1))
    /\ solveSudokuNoClone 100 h1 easyRows None = Some (Ok (h2, game2))
    /\ length (ref_snapshots game1) = 52
    /\ length (ref_snapshots game2) = 1.
Proof.
  eexists _, _, _, _. split; [vm_compute; reflexivity|].
  split; [vm_compute; reflexivity|]. split; vm_compute; reflexivity.
Qed.

(** The claim C5 as it is stated, with the digit eliminated from all the
    peers of the cell, fails.  In the run on [hardPuzzle] the snapshot 16
    is the Naked Single that places 6 at (6, 7).  Its peer (3, 7) was
    filled with 8 by a Hidden Single, which leaves the candidate set of
    the cell it fills as it is; the set still holds 6 after the
    placement, because [eliminateFromPeers] skips the cells that are not
    empty. *)
Lemma naked_single_filled_peer_counterexample :
  exists g prev cur,
    solveSudoku 100 (inr hardPuzzle) None = Some (Ok g)
    /\ snapshots g !! 15%nat = Some prev
    /\ snapshots g !! 16%nat = Some cur
    /\ kind cur = "Naked Single"
    /\ nakedSingleAt
         (mkSudoku (snap_board prev) (snap_candidates prev)
            (firstn 16 (snapshots g))) 6 7 = Some (Num 6)
    /\ fillNakedSingle
         (mkSudoku (snap_board prev) (snap_candidates prev)
            (firstn 16 (snapshots g))) 6 7 (Num 6)
       = mkSudoku (snap_board cur) (snap_candidates cur)
           (firstn 17 (snapshots g))
    /\ isPeer 6 7 3 7 = true
    /\ cell (snap_board prev) 3 7 = Num 8
    /\ candsAt (snap_candidates prev) 3 7 = [Num 2; Num 6; Num 8; Num 9]
    /\ In (Num 6) (candsAt (snap_candidates cur) 3 7).
Proof.
  eexists _, _, _. split; [vm_compute; reflexivity|].
  split; [vm_compute; reflexivity|]. split; [vm_compute; reflexivity|].
  split; [vm_compute; reflexivity|]. split; [vm_compute; reflexivity|].
  split; [vm_compute; reflexivity|]. split; [reflexivity|].
  split; [vm_compute; reflexivity|]. split; [vm_compute; reflexivity|].
  vm_compute. tauto.
Qed.

(** ** The theorems at concrete inputs *)

Lemma solveSudoku_matrix_never_raises_witness :
  is9x9 oddBoard = true
  /\ (exists fuel0 g, forall fuel, fuel0 <= fuel ->
        solveSudoku fuel (inl oddBoard) None = Some (Ok g))
  /\ (forall fuel e, solveSudoku fuel (inl oddBoard) None <> Some (Raise e)).
Proof.
  split; [reflexivity|].
  apply (solveSudoku_matrix_never_raises oddBoard None). reflexivity.
Defined.

Lemma solveSudoku_removed_sound_witness :
  exists g,
    wellFormed (inr hardPuzzle)
    /\ solveSudoku 100 (inr hardPuzzle) None = Some (Ok g)
    /\ forall i cur h removed,
         snapshots g !! i = Some cur ->
         highlight cur = Some h ->
         hl_removedCandidates h = Some removed ->
         exists j prev,
           i = S j /\ snapshots g !! j = Some prev
           /\ forall r c d, In (r, c, d) removed ->
                In d (candsAt (snap_candidates prev) r c)
                /\ ~ In d (candsAt (snap_candidates cur) r c).
Proof.
  eexists. split; [exact I|]. split; [vm_compute; reflexivity|].
  apply (solveSudoku_removed_sound 100 (inr hardPuzzle) None _ I).
  vm_compute. reflexivity.
Defined.


Lemma backtrack_false_restores_witness :
  exists g',
    is9x9 (candidates deadEnd) = true
    /\ backtrack 3 deadEnd = Some (false, g')
    /\ board g' = board deadEnd
    /\ (candidates g' = candidates deadEnd
        \/ candidates g' = buildCandidates (board deadEnd)).
Proof.
  eexists. split; [reflexivity|]. split; [vm_compute; reflexivity|].
  apply (backtrack_false_restores 3 deadEnd); vm_compute; reflexivity.
Defined.

Lemma solveSudoku_preserves_argument_witness :
  exists h' game,
    allocated easyHeap easyRows = true
    /\ is9x9 (readMatrix easyHeap easyRows) = true
    /\ solveSudokuHeap 100 easyHeap easyRows None = Some (Ok (h', game))
    /\ (forall l, is_Some (easyHeap !! l) -> h' !! l = easyHeap !! l)
    /\ readMatrix h' easyRows = readMatrix easyHeap easyRows
    /\ exists g,
         solveSudoku 100 (inl (readMatrix easyHeap easyRows)) None
         = Some (Ok g)
         /\ readMatrix h' (ref_board game) = board g
         /\ ref_candidates game = candidates g
         /\ ref_snapshots game = snapshots g.
Proof.
  eexists _, _. split; [vm_compute; reflexivity|].
  split; [vm_compute; reflexivity|]. split; [vm_compute; reflexivity|].
  apply (solveSudoku_preserves_argument 100 easyHeap _ easyRows None _);
    vm_compute; reflexivity.
Defined.

Lemma naked_singles_full_scan_witness :
  isFalse None nakedSingles = false
  /\ exists placed g',
       applyNakedSingles (initialGame easyBoard) None
       = ((0 <? length placed)%nat, g')
       /\ nakedSingleScan cells81 (initialGame easyBoard) placed g'
       /\ length (snapshots g')
          = length (snapshots (initialGame easyBoard)) + length placed.
Proof.
  split; [reflexivity|].
  apply (naked_singles_full_scan (initialGame easyBoard) None). reflexivity.
Defined.

Lemma hidden_pairs_short_circuit_witness :
  isFalse None hiddenPairs = false
  /\ (forall g', applyHiddenPairs twoBoxes None = Ok (true, g')
                 <-> firstChange (hiddenPairUnits None) twoBoxes g').
Proof.
  split; [reflexivity|].
  apply (hidden_pairs_short_circuit twoBoxes None). reflexivity.
Defined.
(** * Further properties of the solver *)

(** ** What [isValid] and [buildCandidates] compute *)

(** The cells of the row, of the column and of the box of (row, col), the
    cell itself included. *)
Definition sameUnit (row col r c : nat) : bool :=
  (r =? row)%nat || (c =? col)%nat
  || ((r / 3 =? row / 3)%nat && (c / 3 =? col / 3)%nat).

Lemma isPeer_sameUnit row col r c :
  isPeer row col r c
  = negb ((r =? row)%nat && (c =? col)%nat) && sameUnit row col r c.
Proof. reflexivity. Qed.

Lemma sameUnit_sym row col r c : sameUnit row col r c = sameUnit r c row col.
Proof.
  unfold sameUnit. now rewrite (Nat.eqb_sym r row), (Nat.eqb_sym c col),
    (Nat.eqb_sym (r / 3)), (Nat.eqb_sym (c / 3)).
Qed.

Lemma isPeer_sym row col r c : isPeer row col r c = isPeer r c row col.
Proof.
  rewrite !isPeer_sameUnit, sameUnit_sym.
  now rewrite (Nat.eqb_sym r row), (Nat.eqb_sym c col).
Qed.

Lemma isPeer_irrefl r c : isPeer r c r c = false.
Proof. unfold isPeer. now rewrite !Nat.eqb_refl. Qed.

Lemma In_boxCells_iff sr sc rr cc :
  In (rr, cc) (boxCells sr sc) <-> sr <= rr < sr + 3 /\ sc <= cc < sc + 3.
Proof.
  split; [apply In_boxCells|]. intros [Hr Hc]. unfold boxCells.
  apply in_flat_map. exists (rr - sr). split; [unfold idx3; apply in_seq; lia|].
  apply in_map_iff. exists (cc - sc).
  split; [f_equal; lia | unfold idx3; apply in_seq; lia].
Qed.

Lemma same_box_iff row r :
  3 * (row / 3) <= r < 3 * (row / 3) + 3 <-> r / 3 = row / 3.
Proof.
  pose proof (Nat.div_mod_eq r 3). pose proof (Nat.mod_upper_bound r 3).
  split; intros Hb.
  - replace r with (3 * (row / 3) + (r - 3 * (row / 3))) by lia.
    apply div3_block. lia.
  - rewrite <- Hb. lia.
Qed.

(** [isValid(board, row, col, digit)] is [true] exactly when no cell of
    the row, the column or the box of (row, col) holds the digit. *)
Lemma isValid_true b row col digit :
  row < 9 -> col < 9 ->
  isValid b row col digit = true
  <-> forall r c, r < 9 -> c < 9 -> sameUnit row col r c = true ->
        strict_eq (cell b r c) digit = false.
Proof.
  intros Hrow Hcol. unfold isValid. cbv zeta.
  rewrite !box_start by assumption. split.
  - destruct (existsb _ idx9) eqn:E1; [discriminate|].
    destruct (existsb (fun r => strict_eq (cell b r col) digit) idx9) eqn:E2;
      [discriminate|].
    destruct (existsb _ (boxCells _ _)) eqn:E3; [discriminate|]. intros _.
    intros r c Hr Hc Hu. unfold sameUnit in Hu.
    destruct (strict_eq (cell b r c) digit) eqn:Es; [exfalso|reflexivity].
    apply orb_true_iff in Hu as [Hu|Hu]; [apply orb_true_iff in Hu as [Hu|Hu]|].
    + apply Nat.eqb_eq in Hu. subst r.
      rewrite <- not_true_iff_false in E1. apply E1, existsb_exists.
      exists c. split; [unfold idx9; apply in_seq; lia | exact Es].
    + apply Nat.eqb_eq in Hu. subst c.
      rewrite <- not_true_iff_false in E2. apply E2, existsb_exists.
      exists r. split; [unfold idx9; apply in_seq; lia | exact Es].
    + apply andb_true_iff in Hu as [H1 H2]. apply Nat.eqb_eq in H1, H2.
      rewrite <- not_true_iff_false in E3. apply E3, existsb_exists.
      exists (r, c). split; [|exact Es].
      apply In_boxCells_iff. split; now apply same_box_iff.
  - intros Hall.
    assert (E1 : existsb (fun c => strict_eq (cell b row c) digit) idx9 = false).
    { apply not_true_iff_false. rewrite existsb_exists. intros (c & Hc & Es).
      apply In_idx9 in Hc. rewrite Hall in Es; [discriminate|lia|lia|].
      unfold sameUnit. now rewrite Nat.eqb_refl. }
    assert (E2 : existsb (fun r => strict_eq (cell b r col) digit) idx9 = false).
    { apply not_true_iff_false. rewrite existsb_exists. intros (r & Hr & Es).
      apply In_idx9 in Hr. rewrite Hall in Es; [discriminate|lia|lia|].
      unfold sameUnit. now rewrite Nat.eqb_refl, orb_true_r. }
    assert (E3 : existsb (fun '(rr, cc) => strict_eq (cell b rr cc) digit)
                   (boxCells (3 * (row / 3)) (3 * (col / 3))) = false).
    { apply not_true_iff_false. rewrite existsb_exists.
      intros ([r c] & Hin & Es). apply In_boxCells_iff in Hin as [Hr Hc].
      pose proof (Nat.div_mod_eq row 3). pose proof (Nat.div_mod_eq col 3).
      pose proof (Nat.mod_upper_bound row 3).
      pose proof (Nat.mod_upper_bound col 3).
      rewrite Hall in Es; [discriminate|lia|lia|].
      apply same_box_iff in Hr, Hc. unfold sameUnit.
      now rewrite Hr, Hc, !Nat.eqb_refl, orb_true_r. }
    now rewrite E1, E2, E3.
Qed.

(** The body of the double loop of [buildCandidates], per cell. *)
Definition buildStep (b : Board) (p : nat * nat) (cs : Cands) : Cands :=
  let val := cell b p.1 p.2 in
  if negb (is_zero val)
  then eliminateFromPeers b (setCands cs p.1 p.2 [val]) p.1 p.2 val
  else cs.

Lemma buildCandidates_cells b :
  buildCandidates b
  = forEach cells81 (buildStep b) (repeat (repeat fullSet BOARD_SIZE) BOARD_SIZE).
Proof.
  unfold buildCandidates, cells81. cbv zeta. rewrite forEach_flat_map.
  apply forEach_ext. intros row cs. now rewrite forEach_map.
Qed.

Lemma buildStep_shape9 b p cs : shape9 cs -> shape9 (buildStep b p cs).
Proof.
  intros Hs. unfold buildStep. cbv zeta. destruct (negb _); [|assumption].
  eapply shrinks_shape9; [apply shrinks_eliminateFromPeers|].
  rewrite setCands_gridSet. now apply shape9_gridSet.
Qed.

Lemma filter_filter_and {A} (f g : A -> bool) (l : list A) :
  List.filter f (List.filter g l) = List.filter (fun x => g x && f x) l.
Proof.
  induction l as [|x l IH]; [reflexivity|]. simpl.
  destruct (g x); simpl; [destruct (f x)|]; now rewrite IH.
Qed.

(** The filled peer [p] of the cell (r, c) holds the digit [y]. *)
Definition blocks (b : Board) (r c : nat) (y : jsnum) (p : nat * nat) : bool :=
  isPeer p.1 p.2 r c && negb (is_zero (cell b p.1 p.2))
  && same_value_zero (cell b p.1 p.2) y.

Lemma buildSteps_filled b (L : list (nat * nat)) r c :
  (forall p, In p L -> p.1 < 9 /\ p.2 < 9) -> r < 9 -> c < 9 ->
  is_zero (cell b r c) = false ->
  shape9 (forEach L (buildStep b)
            (repeat (repeat fullSet BOARD_SIZE) BOARD_SIZE))
  /\ candsAt (forEach L (buildStep b)
                (repeat (repeat fullSet BOARD_SIZE) BOARD_SIZE)) r c
     = if existsb (fun p => bool_decide (p = (r, c))) L then [cell b r c]
       else fullSet.
Proof.
  intros HL Hr Hc Hz. induction L as [|p L IH] using rev_ind.
  - split; [apply shape9_full|]. cbn [existsb forEach fold_left]. unfold candsAt.
    rewrite (lookup_total_repeat (repeat fullSet BOARD_SIZE)) by exact Hr.
    now rewrite (lookup_total_repeat fullSet) by exact Hc.
  - rewrite forEach_app. cbn [forEach fold_left].
    destruct IH as [Hs IH]; [intros q Hq; apply HL, in_or_app; now left|].
    change (fold_left (fun s x => buildStep b x s) L) with (forEach L (buildStep b)) in *.
    split; [now apply buildStep_shape9|].
    rewrite existsb_app. cbn [existsb]. rewrite orb_false_r.
    destruct (HL p) as [Hp1 Hp2]; [apply in_or_app; right; now left|].
    unfold buildStep at 1. cbv zeta.
    destruct (negb (is_zero (cell b p.1 p.2))) eqn:Hpz.
    + rewrite candsAt_eliminateFromPeers by assumption.
      rewrite Hz, andb_false_r. rewrite setCands_gridSet, candsAt_gridGet.
      case_bool_decide as E.
      * subst p. cbn [fst snd]. rewrite orb_true_r.
        apply gridGet_set_eq. now apply shape9_inGrid.
      * rewrite orb_false_r, gridGet_set_ne; [exact IH|].
        destruct p. cbn [fst snd]. congruence.
    + case_bool_decide as E.
      * subst p. cbn [fst snd] in Hpz. rewrite Hz in Hpz. discriminate.
      * now rewrite orb_false_r.
Qed.

Lemma buildSteps_empty b (L : list (nat * nat)) r c :
  (forall p, In p L -> p.1 < 9 /\ p.2 < 9) -> r < 9 -> c < 9 ->
  is_zero (cell b r c) = true ->
  candsAt (forEach L (buildStep b)
             (repeat (repeat fullSet BOARD_SIZE) BOARD_SIZE)) r c
  = List.filter (fun y => forallb (fun p => negb (blocks b r c y p)) L) fullSet.
Proof.
  intros HL Hr Hc Hz. induction L as [|p L IH] using rev_ind.
  - cbn [forEach fold_left forallb]. unfold candsAt.
    rewrite (lookup_total_repeat (repeat fullSet BOARD_SIZE)) by exact Hr.
    rewrite (lookup_total_repeat fullSet) by exact Hc.
    symmetry. apply forallb_filter_id. now apply forallb_forall.
  - rewrite forEach_app. cbn [forEach fold_left].
    change (fold_left (fun s x => buildStep b x s) L) with (forEach L (buildStep b)) in *.
    specialize (IH (fun q Hq => HL q (in_or_app _ _ _ (or_introl Hq)))).
    destruct (HL p) as [Hp1 Hp2]; [apply in_or_app; right; now left|].
    assert (Eall : forall y,
      forallb (fun p0 => negb (blocks b r c y p0)) (L ++ [p])
      = forallb (fun p0 => negb (blocks b r c y p0)) L
        && negb (blocks b r c y p)).
    { intros y. rewrite forallb_app. cbn [forallb]. now rewrite andb_true_r. }
    rewrite (filter_ext _ _ Eall), <- filter_filter_and, <- IH.
    unfold buildStep. cbv zeta. unfold blocks.
    destruct (negb (is_zero (cell b p.1 p.2))) eqn:Hpz.
    + rewrite candsAt_eliminateFromPeers by assumption. rewrite Hz, andb_true_r.
      assert (Hne : (p.1, p.2) <> (r, c)).
      { intros [= <- <-]. rewrite Hz in Hpz. discriminate. }
      rewrite setCands_gridSet, candsAt_gridGet, gridGet_set_ne by exact Hne.
      destruct (isPeer p.1 p.2 r c); cbn [andb].
      * reflexivity.
      * symmetry. apply forallb_filter_id. now apply forallb_forall.
    + rewrite andb_false_r. cbn [andb negb].
      symmetry. apply forallb_filter_id. now apply forallb_forall.
Qed.

Lemma In_fullSet_Num y : In y fullSet -> exists z, y = Num z /\ (1 <= z <= 9)%Z.
Proof.
  unfold fullSet. intros (z & <- & Hz)%in_map_iff. exists z. split; [reflexivity|].
  unfold digits19 in Hz. simpl in Hz.
  repeat (destruct Hz as [<-|Hz]; [lia|]). destruct Hz.
Qed.

Lemma strict_eq_same_value a y :
  In y fullSet -> strict_eq a y = same_value_zero a y.
Proof.
  intros (z & -> & _)%In_fullSet_Num. now destruct a.
Qed.

Lemma strict_eq_fullSet_nonzero a y :
  In y fullSet -> strict_eq a y = true -> is_zero a = false.
Proof.
  intros (z & -> & Hz)%In_fullSet_Num Hs. apply strict_eq_eq in Hs. subst a.
  unfold is_zero. simpl. apply Z.eqb_neq. lia.
Qed.

(** For a digit 1..9 and an empty cell, "no filled peer holds it" is what
    [isValid] checks. *)
Lemma unblocked_isValid b r c y :
  r < 9 -> c < 9 -> is_zero (cell b r c) = true -> In y fullSet ->
  forallb (fun p => negb (blocks b r c y p)) cells81 = isValid b r c y.
Proof.
  intros Hr Hc Hz Hy. apply eq_true_iff_eq.
  rewrite forallb_forall, isValid_true by assumption. split.
  - intros Hall r' c' Hr' Hc' Hu.
    destruct (strict_eq (cell b r' c') y) eqn:Es; [exfalso|reflexivity].
    pose proof (strict_eq_fullSet_nonzero _ _ Hy Es) as Hnz.
    specialize (Hall (r', c') (proj2 (cells81_all r' c') (conj Hr' Hc'))).
    unfold blocks in Hall. cbn [fst snd] in Hall.
    rewrite Hnz, <- (strict_eq_same_value _ _ Hy), Es in Hall.
    rewrite isPeer_sym, isPeer_sameUnit, Hu in Hall. cbn [negb andb] in Hall.
    rewrite !andb_true_r, negb_involutive in Hall.
    apply andb_true_iff in Hall as [E1 E2]. apply Nat.eqb_eq in E1, E2. subst.
    rewrite Hz in Hnz. discriminate.
  - intros Hall [r' c'] Hin. apply cells81_all in Hin as [Hr' Hc'].
    unfold blocks. cbn [fst snd].
    destruct (isPeer r' c' r c) eqn:Hp; [|reflexivity]. cbn [andb].
    rewrite isPeer_sym, isPeer_sameUnit in Hp.
    apply andb_true_iff in Hp as [_ Hu].
    rewrite <- (strict_eq_same_value _ _ Hy), (Hall r' c' Hr' Hc' Hu).
    now rewrite andb_false_r.
Qed.

Lemma candsAt_buildCandidates b r c :
  r < 9 -> c < 9 ->
  candsAt (buildCandidates b) r c
  = if is_zero (cell b r c) then List.filter (isValid b r c) fullSet
    else [cell b r c].
Proof.
  intros Hr Hc. rewrite buildCandidates_cells.
  assert (HL : forall p, In p cells81 -> p.1 < 9 /\ p.2 < 9).
  { intros [r' c'] Hin. now apply cells81_all in Hin. }
  destruct (is_zero (cell b r c)) eqn:Hz.
  - rewrite (buildSteps_empty b cells81 r c HL Hr Hc Hz).
    apply filter_ext_in. intros y Hy. now apply unblocked_isValid.
  - destruct (buildSteps_filled b cells81 r c HL Hr Hc Hz) as [_ E].
    rewrite E.
    assert (Hex : existsb (fun p => bool_decide (p = (r, c))) cells81 = true).
    { apply existsb_exists. exists (r, c).
      split; [apply cells81_all; split; assumption|].
      apply bool_decide_eq_true. reflexivity. }
    rewrite Hex. reflexivity.
Qed.

(** ** [findEmptyCell] and [isComplete] *)

Lemma find_first {A} (f : A -> bool) (l : list A) (x : A) :
  List.find f l = Some x ->
  exists l1 l2, l = l1 ++ x :: l2 /\ f x = true
                /\ forall y, In y l1 -> f y = false.
Proof.
  induction l as [|a l IH]; [discriminate|]. simpl.
  destruct (f a) eqn:Ea.
  - intros [= <-]. exists [], l. repeat split; [assumption | intros ? []].
  - intros Hf. destruct (IH Hf) as (l1 & l2 & -> & Hx & Hl1).
    exists (a :: l1), l2. repeat split; [assumption|].
    intros y [<-|Hy]; [assumption | now apply Hl1].
Qed.

(** The position of a cell in the row-major scan. *)
Definition scanIndex (p : nat * nat) : nat := 9 * p.1 + p.2.

Lemma scanIndex_cells81 : map scanIndex cells81 = seq 0 81.
Proof. reflexivity. Qed.

Lemma seq_split_lt start len s1 a s2 :
  seq start len = s1 ++ a :: s2 ->
  (forall x, In x s1 -> x < a) /\ (forall x, In x s2 -> a < x).
Proof.
  revert start s1. induction len as [|len IH]; intros start s1 E.
  - destruct s1; discriminate.
  - simpl in E. destruct s1 as [|x s1]; simpl in E.
    + injection E as <- <-. split; [intros ? []|].
      intros x Hx. apply in_seq in Hx. lia.
    + injection E as <- E. destruct (IH _ _ E) as [H1 H2].
      split; [|exact H2]. intros y [<-|Hy]; [|now apply H1].
      assert (Ha : In a (seq (S start) len)).
      { rewrite E. apply in_or_app. right. now left. }
      apply in_seq in Ha. lia.
Qed.

(** The cells [findEmptyCell] has passed over are not empty. *)
Lemma findEmptyCell_first b row col r c :
  findEmptyCell b = Some (row, col) -> r < 9 -> c < 9 ->
  scanIndex (r, c) < scanIndex (row, col) ->
  is_zero (cell b r c) = false.
Proof.
  unfold findEmptyCell. intros Hf Hr Hc Hlt.
  destruct (find_first _ _ _ Hf) as (l1 & l2 & E & _ & Hl1).
  pose proof scanIndex_cells81 as Hidx. rewrite E, map_app in Hidx.
  cbn [map] in Hidx. symmetry in Hidx.
  destruct (seq_split_lt _ _ _ _ _ Hidx) as [_ Hafter].
  assert (Hin : In (r, c) cells81) by (apply cells81_all; split; assumption).
  rewrite E in Hin. apply in_app_or in Hin as [Hin|[Hin|Hin]].
  - exact (Hl1 (r, c) Hin).
  - injection Hin as <- <-. lia.
  - specialize (Hafter (scanIndex (r, c)) (in_map scanIndex _ _ Hin)). lia.
Qed.

Lemma isComplete_true b :
  isComplete b = true
  <-> forall r c, r < 9 -> c < 9 -> is_zero (cell b r c) = false.
Proof.
  unfold isComplete. rewrite forallb_forall. split.
  - intros Hall r c Hr Hc.
    assert (Hrow : In r idx9) by (unfold idx9; apply in_seq; lia).
    specialize (Hall r Hrow). rewrite forallb_forall in Hall.
    assert (Hcol : In c idx9) by (unfold idx9; apply in_seq; lia).
    specialize (Hall c Hcol). now apply negb_true_iff in Hall.
  - intros Hall r Hr. apply forallb_forall. intros c Hc.
    apply In_idx9 in Hr, Hc. apply negb_true_iff. now apply Hall.
Qed.

Lemma findEmptyCell_None b :
  findEmptyCell b = None <-> isComplete b = true.
Proof.
  rewrite isComplete_true. unfold findEmptyCell. split.
  - intros Hn r c Hr Hc.
    apply (find_none _ _ Hn (r, c)). apply cells81_all. split; assumption.
  - intros Hall.
    destruct (List.find _ cells81) as [[row col]|] eqn:Ef; [|reflexivity].
    apply find_some in Ef as [Hin Hz]. apply cells81_all in Hin as [Hr Hc].
    rewrite (Hall row col Hr Hc) in Hz. discriminate.
Qed.

(** ** What a successful search returns *)

(** No digit occurs twice among the filled cells of a row, a column or a
    box. *)
Definition conflictFree (b : Board) : bool :=
  forallb (fun '(r, c) =>
    is_zero (cell b r c)
    || forallb (fun '(r', c') =>
         negb (isPeer r c r' c' && strict_eq (cell b r c) (cell b r' c')))
         cells81) cells81.

Lemma conflictFree_true b :
  conflictFree b = true
  <-> forall r c r' c', r < 9 -> c < 9 -> r' < 9 -> c' < 9 ->
        is_zero (cell b r c) = false -> isPeer r c r' c' = true ->
        strict_eq (cell b r c) (cell b r' c') = false.
Proof.
  unfold conflictFree. rewrite forallb_forall. split.
  - intros Hall r c r' c' Hr Hc Hr' Hc' Hz Hp.
    specialize (Hall (r, c) (proj2 (cells81_all r c) (conj Hr Hc))).
    cbv beta iota in Hall. rewrite Hz in Hall. cbn [orb] in Hall.
    rewrite forallb_forall in Hall.
    specialize (Hall (r', c') (proj2 (cells81_all r' c') (conj Hr' Hc'))).
    cbv beta iota in Hall. rewrite Hp in Hall. cbn [andb] in Hall.
    now apply negb_true_iff in Hall.
  - intros Hall [r c] Hin. apply cells81_all in Hin as [Hr Hc].
    destruct (is_zero (cell b r c)) eqn:Hz; [reflexivity|]. cbn [orb].
    apply forallb_forall. intros [r' c'] Hin'.
    apply cells81_all in Hin' as [Hr' Hc'].
    destruct (isPeer r c r' c') eqn:Hp; [|reflexivity]. cbn [andb].
    apply negb_true_iff. now apply Hall.
Qed.

Lemma strict_eq_sym a b : strict_eq a b = strict_eq b a.
Proof. destruct a, b; simpl; try reflexivity. apply Z.eqb_sym. Qed.

Lemma isPeer_unit row col r c :
  isPeer row col r c = true -> sameUnit row col r c = true.
Proof. rewrite isPeer_sameUnit. now intros [_ ?]%andb_true_iff. Qed.

Lemma isPeer_ne row col r c : isPeer row col r c = true -> (row, col) <> (r, c).
Proof. intros Hp [= -> ->]. now rewrite isPeer_irrefl in Hp. Qed.

Lemma cell_setCell_eq b r c v :
  is_zero (cell b r c) = true -> cell (setCell b r c v) r c = v.
Proof.
  intros Hz. rewrite setCell_gridSet, cell_gridGet.
  apply gridGet_set_eq. now apply cell_zero_inGrid.
Qed.

Lemma cell_setCell_ne b r c v r' c' :
  (r, c) <> (r', c') -> cell (setCell b r c v) r' c' = cell b r' c'.
Proof.
  intros Hne. rewrite setCell_gridSet, cell_gridGet. now apply gridGet_set_ne.
Qed.

(** A digit [isValid] accepts can be placed without a conflict. *)
Lemma conflictFree_place b row col digit :
  row < 9 -> col < 9 -> is_zero (cell b row col) = true ->
  isValid b row col digit = true ->
  conflictFree b = true -> conflictFree (setCell b row col digit) = true.
Proof.
  intros Hrow Hcol Hz Hv. rewrite !conflictFree_true. intros Hcf.
  rewrite isValid_true in Hv by assumption.
  intros r c r' c' Hr Hc Hr' Hc' Hnz Hp.
  destruct (decide ((row, col) = (r, c))) as [E|E].
  - injection E as <- <-. rewrite cell_setCell_eq by assumption.
    rewrite cell_setCell_ne by now apply isPeer_ne.
    rewrite strict_eq_sym. apply Hv; [assumption | assumption|].
    now apply isPeer_unit.
  - rewrite (cell_setCell_ne _ _ _ _ r c) in * by assumption.
    destruct (decide ((row, col) = (r', c'))) as [E'|E'].
    + injection E' as <- <-. rewrite cell_setCell_eq by assumption.
      apply Hv; [assumption | assumption|].
      rewrite isPeer_sym in Hp. now apply isPeer_unit.
    + rewrite cell_setCell_ne by assumption. now apply Hcf.
Qed.

Lemma trial_board g row col digit :
  board (trial g row col digit) = setCell (board g) row col digit.
Proof. reflexivity. Qed.

(** Where a search that succeeds places its digit: on the board it
    started from, with a digit [isValid] accepts. *)
Lemma tryDigits_true recurse row col digits g g' :
  (forall g1 g2, shape9 (candidates g1) -> recurse g1 = Some (false, g2) ->
     restored g1 g2) ->
  cell (board g) row col = Num 0 ->
  shape9 (candidates g) ->
  tryDigits recurse row col digits g = Some (true, g') ->
  exists g1 digit,
    board g1 = board g /\ shape9 (candidates g1)
    /\ isValid (board g1) row col digit = true
    /\ recurse (trial g1 row col digit) = Some (true, g').
Proof.
  intros Hrec. revert g. induction digits as [|digit rest IH];
    intros g Hz Hs Hrun; [discriminate|].
  rewrite tryDigits_cons in Hrun.
  destruct (isValid (board g) row col digit) eqn:Hv; [|now apply IH].
  destruct (recurse (trial g row col digit)) as [[[|] g2]|] eqn:Er;
    try discriminate.
  - injection Hrun as <-. exists g, digit. auto.
  - destruct (Hrec _ _ (trial_shape9 g row col digit Hs) Er) as (Hb & Hsn & Hc).
    assert (Hs2 : shape9 (candidates g2)).
    { destruct Hc as [->| ->];
        [now apply trial_shape9 | apply buildCandidates_shape9]. }
    assert (Hb2 : board g2
                  = setCell (board g) row col (cell (board g2) row col)).
    { rewrite Hb, trial_board, cell_setCell_eq; [reflexivity|].
      now rewrite Hz. }
    destruct (undo_restored g g2 row col (candsAt (candidates g) row col)
                Hz Hs2 Hb2) as (Ub & Usn & Uc).
    apply IH in Hrun.
    + destruct Hrun as (g1 & d & Hb1 & Hs1 & Hv1 & Hr1).
      exists g1, d. rewrite Ub in Hb1. auto.
    + now rewrite Ub.
    + rewrite Uc. apply buildCandidates_shape9.
Qed.

Lemma backtrack_true fuel g g' :
  shape9 (candidates g) -> backtrack fuel g = Some (true, g') ->
  isComplete (board g') = true
  /\ (forall r c, r < 9 -> c < 9 -> is_zero (cell (board g) r c) = false ->
        cell (board g') r c = cell (board g) r c)
  /\ (conflictFree (board g) = true -> conflictFree (board g') = true).
Proof.
  revert g g'. induction fuel as [|fuel IH]; intros g g' Hs Hrun;
    [discriminate|].
  simpl in Hrun.
  destruct (findEmptyCell (board g)) as [[row col]|] eqn:Ef.
  - apply findEmptyCell_Some in Ef as (Hz & Hrow & Hcol).
    destruct (tryDigits_true _ _ _ _ _ _ (backtrack_restored fuel) Hz Hs Hrun)
      as (g1 & digit & Hb1 & Hs1 & Hv & Hrec).
    destruct (IH _ _ (trial_shape9 g1 row col digit Hs1) Hrec)
      as (Hcomp & Hkeep & Hcf).
    rewrite trial_board, Hb1 in Hkeep, Hcf. rewrite Hb1 in Hv.
    assert (Hz' : is_zero (cell (board g) row col) = true) by now rewrite Hz.
    split; [exact Hcomp|]. split.
    + intros r c Hr Hc Hnz.
      assert (Hne : (row, col) <> (r, c)).
      { intros [= <- <-]. rewrite Hz' in Hnz. discriminate. }
      rewrite Hkeep by (rewrite ?cell_setCell_ne; assumption).
      now apply cell_setCell_ne.
    + intros H0. apply Hcf. now apply conflictFree_place.
  - injection Hrun as <-. split; [now apply findEmptyCell_None|].
    split; auto.
Qed.

(** ** Solutions *)

(** The cells of the row, of the column and of the box with the index [i],
    as [validGrid] goes through them. *)
Definition unitsOf (i : nat) : list (list (nat * nat)) :=
  [ map (fun c => (i, c)) idx9;
    map (fun r => (r, i)) idx9;
    boxCells (i / 3 * 3) (i mod 3 * 3) ].

Definition cellOf (b : Board) (p : nat * nat) : jsnum := cell b p.1 p.2.

Lemma occursIn_In b U d :
  occursIn b U d = true -> In (Num d) (map (cellOf b) U).
Proof.
  unfold occursIn. rewrite existsb_exists. intros ([r c] & Hin & Hs).
  apply strict_eq_eq in Hs. rewrite <- Hs.
  now apply (in_map (cellOf b) U (r, c)).
Qed.

Lemma validGrid_unit sol i U :
  validGrid sol = true -> i < 9 -> In U (unitsOf i) ->
  incl fullSet (map (cellOf sol) U).
Proof.
  unfold validGrid. rewrite forallb_forall. intros Hv Hi HU y Hy.
  assert (Hin : In i idx9) by (unfold idx9; apply in_seq; lia).
  specialize (Hv i Hin). rewrite forallb_forall in Hv.
  unfold fullSet in Hy. apply in_map_iff in Hy as (d & <- & Hd).
  specialize (Hv d Hd). apply andb_true_iff in Hv as [Hv H3].
  apply andb_true_iff in Hv as [H1 H2].
  destruct HU as [<-|[<-|[<-|[]]]]; now apply occursIn_In.
Qed.

Lemma NoDup_fullSet : List.NoDup fullSet.
Proof.
  unfold fullSet, digits19. cbn [map].
  repeat (constructor; [cbn [In]; intros H;
    repeat (destruct H as [H|H]; [discriminate|]); exact H|]).
  constructor.
Qed.

Lemma NoDup_map_inj_on {A B} (f : A -> B) (l : list A) x y :
  List.NoDup (map f l) -> In x l -> In y l -> f x = f y -> x = y.
Proof.
  induction l as [|a l IH]; [intros _ []|]. cbn [map].
  intros Hnd Hx Hy E. apply List.NoDup_cons_iff in Hnd as [Hna Hnd].
  destruct Hx as [->|Hx], Hy as [->|Hy]; auto.
  - exfalso. apply Hna. rewrite E. now apply in_map.
  - exfalso. apply Hna. rewrite <- E. now apply in_map.
Qed.

Lemma unitsOf_length i U : In U (unitsOf i) -> length U = 9.
Proof.
  intros [<-|[<-|[<-|[]]]]; try (rewrite length_map; reflexivity).
  unfold boxCells. generalize (i / 3 * 3) (i mod 3 * 3). intros sr sc.
  reflexivity.
Qed.

(** In a valid grid the nine cells of a unit hold nine different digits
    1..9. *)
Lemma validGrid_unit_facts sol i U :
  validGrid sol = true -> i < 9 -> In U (unitsOf i) ->
  (forall p, In p U -> In (cellOf sol p) fullSet)
  /\ (forall p q, In p U -> In q U -> cellOf sol p = cellOf sol q -> p = q)
  /\ (forall y, In y fullSet -> exists p, In p U /\ cellOf sol p = y).
Proof.
  intros Hv Hi HU. pose proof (validGrid_unit sol i U Hv Hi HU) as Hincl.
  assert (Hlen : length (map (cellOf sol) U) <= length fullSet).
  { rewrite length_map, (unitsOf_length i U HU). reflexivity. }
  pose proof (@List.NoDup_incl_NoDup _ _ _ NoDup_fullSet Hlen Hincl) as Hnd.
  pose proof (@List.NoDup_length_incl _ _ _ NoDup_fullSet Hlen Hincl) as Hback.
  split; [|split].
  - intros p Hp. apply Hback. now apply in_map.
  - intros p q Hp Hq. now apply (NoDup_map_inj_on (cellOf sol) U).
  - intros y Hy. specialize (Hincl y Hy).
    apply in_map_iff in Hincl as (p & E & Hp). now exists p.
Qed.

Lemma In_rowCells (i r c : nat) :
  In (r, c) (map (fun c : nat => (i, c)) idx9) <-> r = i /\ c < 9.
Proof.
  rewrite in_map_iff. split.
  - intros (c0 & [= <- <-] & Hc). split; [reflexivity | now apply In_idx9].
  - intros [-> Hc]. exists c. split; [reflexivity|]. unfold idx9. apply in_seq. lia.
Qed.

Lemma In_colCells (i r c : nat) :
  In (r, c) (map (fun r : nat => (r, i)) idx9) <-> c = i /\ r < 9.
Proof.
  rewrite in_map_iff. split.
  - intros (r0 & [= <- <-] & Hr). split; [reflexivity | now apply In_idx9].
  - intros [-> Hr]. exists r. split; [reflexivity|]. unfold idx9. apply in_seq. lia.
Qed.

(** The index of the box of a cell, and the cells of the box. *)
Definition boxIndex (r c : nat) : nat := r / 3 * 3 + c / 3.

Lemma In_boxOf r c r' c' :
  r < 9 -> c < 9 ->
  In (r', c') (boxCells (boxIndex r c / 3 * 3) (boxIndex r c mod 3 * 3))
  <-> r' / 3 = r / 3 /\ c' / 3 = c / 3.
Proof.
  intros Hr Hc. unfold boxIndex.
  assert (Hc3 : c / 3 < 3) by (apply Nat.Div0.div_lt_upper_bound; lia).
  assert (E1 : (r / 3 * 3 + c / 3) / 3 = r / 3).
  { rewrite (Nat.mul_comm (r / 3) 3). now apply div3_block. }
  assert (E2 : (r / 3 * 3 + c / 3) mod 3 = c / 3).
  { rewrite Nat.add_comm, Nat.Div0.mod_add. now apply Nat.mod_small. }
  rewrite E1, E2, In_boxCells_iff, !(Nat.mul_comm _ 3).
  now rewrite (same_box_iff r r'), (same_box_iff c c').
Qed.

Lemma boxIndex_lt r c : r < 9 -> c < 9 -> boxIndex r c < 9.
Proof.
  intros Hr Hc. unfold boxIndex.
  assert (r / 3 < 3) by (apply Nat.Div0.div_lt_upper_bound; lia).
  assert (c / 3 < 3) by (apply Nat.Div0.div_lt_upper_bound; lia).
  lia.
Qed.

Section Solution.
Variable sol : Board.
Hypothesis Hsol : validGrid sol = true.

Lemma sol_digit r c : r < 9 -> c < 9 -> In (cell sol r c) fullSet.
Proof.
  intros Hr Hc.
  destruct (validGrid_unit_facts sol r (map (fun c => (r, c)) idx9) Hsol Hr)
    as (Hd & _); [now left|].
  apply (Hd (r, c)). now apply In_rowCells.
Qed.

Lemma sol_nonzero r c : r < 9 -> c < 9 -> is_zero (cell sol r c) = false.
Proof. intros Hr Hc. apply fullSet_nonzero. now apply sol_digit. Qed.

(** Two cells that see each other hold different digits. *)
Lemma sol_peers r c r' c' :
  r < 9 -> c < 9 -> r' < 9 -> c' < 9 -> isPeer r c r' c' = true ->
  cell sol r c <> cell sol r' c'.
Proof.
  intros Hr Hc Hr' Hc' Hp E. apply isPeer_ne in Hp as Hne.
  apply isPeer_unit in Hp. unfold sameUnit in Hp.
  assert (Hcase : r' = r \/ c' = c \/ (r' / 3 = r / 3 /\ c' / 3 = c / 3)).
  { apply orb_true_iff in Hp as [Hp|Hp];
      [apply orb_true_iff in Hp as [Hp|Hp]|].
    - left. now apply Nat.eqb_eq.
    - right. left. now apply Nat.eqb_eq.
    - right. right. apply andb_true_iff in Hp as [H1 H2].
      split; now apply Nat.eqb_eq. }
  apply Hne.
  destruct Hcase as [->|[->|[Hbr Hbc]]].
  - destruct (validGrid_unit_facts sol r (map (fun c => (r, c)) idx9) Hsol Hr)
      as (_ & Hinj & _); [now left|].
    apply (Hinj (r, c) (r, c')); [now apply In_rowCells..|exact E].
  - destruct (validGrid_unit_facts sol c (map (fun r => (r, c)) idx9) Hsol Hc)
      as (_ & Hinj & _); [right; now left|].
    apply (Hinj (r, c) (r', c)); [now apply In_colCells..|exact E].
  - destruct (validGrid_unit_facts sol (boxIndex r c)
                (boxCells (boxIndex r c / 3 * 3) (boxIndex r c mod 3 * 3))
                Hsol (boxIndex_lt r c Hr Hc)) as (_ & Hinj & _);
      [right; right; now left|].
    apply (Hinj (r, c) (r', c')); [now apply In_boxOf..|exact E].
Qed.

Lemma sol_peers_strict r c r' c' :
  r < 9 -> c < 9 -> r' < 9 -> c' < 9 -> isPeer r c r' c' = true ->
  strict_eq (cell sol r c) (cell sol r' c') = false.
Proof.
  intros Hr Hc Hr' Hc' Hp.
  destruct (strict_eq (cell sol r c) (cell sol r' c')) eqn:E; [|reflexivity].
  apply strict_eq_eq in E. now apply sol_peers in E.
Qed.

End Solution.

(** ** The search finds a solution when there is one *)

(** The session leaves room for the grid [sol]: a filled cell holds the
    digit of [sol], and the digit of [sol] is among the candidates of an
    empty cell. *)
Definition admitsGrids (b : Board) (cs : Cands) (sol : Board) : bool :=
  forallb (fun '(r, c) =>
    if is_zero (cell b r c)
    then set_has (candsAt cs r c) (cell sol r c)
    else bool_decide (cell b r c = cell sol r c)) cells81.

Definition admits (g : Sudoku) (sol : Board) : bool :=
  admitsGrids (board g) (candidates g) sol.

Lemma admitsGrids_true b cs sol :
  admitsGrids b cs sol = true
  <-> forall r c, r < 9 -> c < 9 ->
        if is_zero (cell b r c) then In (cell sol r c) (candsAt cs r c)
        else cell b r c = cell sol r c.
Proof.
  unfold admitsGrids. rewrite forallb_forall. split.
  - intros Hall r c Hr Hc.
    specialize (Hall (r, c) (proj2 (cells81_all r c) (conj Hr Hc))).
    cbv beta iota in Hall. destruct (is_zero (cell b r c)).
    + now apply set_has_In.
    + now apply bool_decide_eq_true in Hall.
  - intros Hall [r c] Hin. apply cells81_all in Hin as [Hr Hc].
    specialize (Hall r c Hr Hc). destruct (is_zero (cell b r c)).
    + now apply set_has_In.
    + now apply bool_decide_eq_true.
Qed.

Section FindsSolution.
Variable sol : Board.
Hypothesis Hsol : validGrid sol = true.

(** The digit of the solution can be placed in an empty cell of a board
    that agrees with the solution on its filled cells. *)
Lemma isValid_sol b cs r c :
  admitsGrids b cs sol = true -> r < 9 -> c < 9 ->
  is_zero (cell b r c) = true ->
  isValid b r c (cell sol r c) = true.
Proof.
  intros Ha Hr Hc Hz. rewrite admitsGrids_true in Ha.
  apply isValid_true; [assumption..|]. intros r' c' Hr' Hc' Hu.
  destruct (strict_eq (cell b r' c') (cell sol r c)) eqn:Es; [exfalso|reflexivity].
  pose proof (strict_eq_fullSet_nonzero _ _ (sol_digit sol Hsol r c Hr Hc) Es)
    as Hnz.
  apply strict_eq_eq in Es. specialize (Ha r' c' Hr' Hc'). rewrite Hnz in Ha.
  rewrite Ha in Es.
  destruct (decide ((r, c) = (r', c'))) as [E|E].
  - injection E as <- <-. rewrite Hz in Hnz. discriminate.
  - apply (sol_peers sol Hsol r c r' c'); try assumption; [|now symmetry].
    rewrite isPeer_sameUnit, Hu, andb_true_r. apply negb_true_iff.
    apply andb_false_iff.
    destruct (Nat.eqb_spec r' r) as [->|]; [|now left].
    destruct (Nat.eqb_spec c' c) as [->|]; [congruence | now right].
Qed.

Lemma admits_buildCandidates b cs :
  admitsGrids b cs sol = true -> admitsGrids b (buildCandidates b) sol = true.
Proof.
  intros Ha. apply admitsGrids_true. intros r c Hr Hc.
  pose proof (proj1 (admitsGrids_true _ _ _) Ha r c Hr Hc) as Hrc.
  rewrite candsAt_buildCandidates by assumption.
  destruct (is_zero (cell b r c)) eqn:Hz; [|exact Hrc].
  apply filter_In. split; [now apply sol_digit|].
  now apply (isValid_sol b cs).
Qed.

Lemma admits_trial g row col :
  admits g sol = true -> row < 9 -> col < 9 ->
  is_zero (cell (board g) row col) = true ->
  admits (trial g row col (cell sol row col)) sol = true.
Proof.
  unfold admits. intros Ha Hrow Hcol Hz. rewrite admitsGrids_true in *.
  intros r c Hr Hc. rewrite trial_board.
  unfold trial, eliminatePeers, withCandidates, placeDigit.
  cbn [board candidates snapshots].
  destruct (decide ((row, col) = (r, c))) as [E|E].
  - injection E as <- <-. rewrite cell_setCell_eq by assumption.
    now rewrite (sol_nonzero sol Hsol row col).
  - rewrite cell_setCell_ne by assumption. specialize (Ha r c Hr Hc).
    destruct (is_zero (cell (board g) r c)) eqn:Hzc; [|exact Ha].
    rewrite candsAt_eliminateFromPeers by assumption.
    rewrite cell_setCell_ne, Hzc, andb_true_r by assumption.
    rewrite setCands_gridSet, candsAt_gridGet, gridGet_set_ne by assumption.
    destruct (isPeer row col r c) eqn:Hp; [|exact Ha].
    apply set_remove_In. split; [exact Ha|]. intros Es.
    now apply (sol_peers sol Hsol row col r c).
Qed.

Lemma tryDigits_not_false recurse row col digits g g' :
  (forall g1 g2, shape9 (candidates g1) -> admits g1 sol = true ->
     recurse g1 <> Some (false, g2)) ->
  (forall g1 g2, shape9 (candidates g1) -> recurse g1 = Some (false, g2) ->
     restored g1 g2) ->
  row < 9 -> col < 9 ->
  cell (board g) row col = Num 0 ->
  shape9 (candidates g) ->
  admits g sol = true ->
  In (cell sol row col) digits ->
  tryDigits recurse row col digits g <> Some (false, g').
Proof.
  intros Hrec Hres Hrow Hcol. revert g.
  induction digits as [|digit rest IH]; intros g Hz Hs Ha Hin; [destruct Hin|].
  assert (Hz' : is_zero (cell (board g) row col) = true) by now rewrite Hz.
  rewrite tryDigits_cons.
  destruct (isValid (board g) row col digit) eqn:Hv.
  - destruct (recurse (trial g row col digit)) as [[[|] g2]|] eqn:Er;
      try discriminate.
    destruct (decide (digit = cell sol row col)) as [->|Hne].
    { exfalso. apply (Hrec _ g2 (trial_shape9 g row col _ Hs)
                        (admits_trial g row col Ha Hrow Hcol Hz') Er). }
    destruct (Hres _ _ (trial_shape9 g row col digit Hs) Er) as (Hb & Hsn & Hc).
    assert (Hs2 : shape9 (candidates g2)).
    { destruct Hc as [->| ->];
        [now apply trial_shape9 | apply buildCandidates_shape9]. }
    assert (Hb2 : board g2
                  = setCell (board g) row col (cell (board g2) row col)).
    { rewrite Hb, trial_board, cell_setCell_eq; [reflexivity | assumption]. }
    destruct (undo_restored g g2 row col (candsAt (candidates g) row col)
                Hz Hs2 Hb2) as (Ub & Usn & Uc).
    apply IH.
    + now rewrite Ub.
    + rewrite Uc. apply buildCandidates_shape9.
    + unfold admits. rewrite Uc, Ub.
      now apply (admits_buildCandidates _ (candidates g)).
    + destruct Hin as [E|Hin]; [congruence | exact Hin].
  - destruct Hin as [E|Hin]; [|now apply IH].
    subst digit. rewrite (isValid_sol _ _ row col Ha) in Hv by assumption.
    discriminate.
Qed.

Lemma backtrack_not_false fuel g g' :
  shape9 (candidates g) -> admits g sol = true ->
  backtrack fuel g <> Some (false, g').
Proof.
  revert g g'. induction fuel as [|fuel IH]; intros g g' Hs Ha;
    [discriminate|].
  simpl. destruct (findEmptyCell (board g)) as [[row col]|] eqn:Ef;
    [|discriminate].
  apply findEmptyCell_Some in Ef as (Hz & Hrow & Hcol).
  apply tryDigits_not_false; try assumption.
  - intros g1 g2. apply backtrack_restored.
  - unfold admits in Ha. rewrite admitsGrids_true in Ha.
    specialize (Ha row col Hrow Hcol). now rewrite Hz in Ha.
Qed.

(** A board that agrees with a valid grid on its filled cells has no
    conflict. *)
Lemma admits_conflictFree b cs :
  admitsGrids b cs sol = true -> conflictFree b = true.
Proof.
  rewrite admitsGrids_true, conflictFree_true.
  intros Ha r c r' c' Hr Hc Hr' Hc' Hnz Hp.
  pose proof (Ha r c Hr Hc) as H1. rewrite Hnz in H1. rewrite H1.
  pose proof (Ha r' c' Hr' Hc') as H2.
  destruct (is_zero (cell b r' c')) eqn:Hz'.
  - apply is_zero_eq in Hz'. rewrite Hz'.
    destruct (strict_eq (cell sol r c) (Num 0)) eqn:E; [|reflexivity].
    pose proof (sol_nonzero sol Hsol r c Hr Hc) as Hn.
    unfold is_zero in Hn. congruence.
  - rewrite H2. now apply sol_peers_strict.
Qed.

End FindsSolution.

(** ** What the logical phase keeps *)

Lemma unit_step_board g g' r c :
  unit_step g g' -> is_zero (cell (board g) r c) = false ->
  cell (board g') r c = cell (board g) r c.
Proof.
  intros [r0 c0 d cs' m Hr Hc Hz Hd Hs Hm | cs' R m He Hne Hm] Hnz;
    cbn [addSnapshot board withCandidates]; [|reflexivity].
  apply cell_setCell_ne. intros [= -> ->]. rewrite Hz in Hnz. discriminate.
Qed.

Lemma units_board g g' r c :
  units g g' -> is_zero (cell (board g) r c) = false ->
  cell (board g') r c = cell (board g) r c.
Proof.
  induction 1 as [|g g1 g2 Hs _ IH]; intros Hnz; [reflexivity|].
  pose proof (unit_step_board _ _ r c Hs Hnz) as E.
  rewrite IH by now rewrite E. exact E.
Qed.

Lemma units_shrinks g g' : units g g' -> shrinks (candidates g) (candidates g').
Proof.
  induction 1 as [|g g1 g2 Hs _ IH]; [apply shrinks_refl|].
  destruct (unit_step_snapshots _ _ Hs) as (s & _ & _ & _ & _ & Hsh).
  eapply shrinks_trans; eauto.
Qed.

(** The snapshot list only grows, and its last entry is a copy of the
    session. *)
Definition mirrors (g : Sudoku) : Prop :=
  exists lst, last (snapshots g) = Some lst
    /\ snap_board lst = board g /\ snap_candidates lst = candidates g.

Lemma unit_step_mirrors g g' : unit_step g g' -> mirrors g'.
Proof.
  intros Hs. destruct (unit_step_snapshots _ _ Hs) as (s & E & Hc & Hb & _).
  exists s. rewrite E, last_snoc. auto.
Qed.

Lemma units_prefix g g' :
  units g g' -> exists more, snapshots g' = snapshots g ++ more.
Proof.
  induction 1 as [g|g g1 g2 Hs _ [more IH]].
  - exists []. now rewrite app_nil_r.
  - destruct (unit_step_snapshots _ _ Hs) as (s & E & _).
    exists (s :: more). rewrite IH, E, <- app_assoc. reflexivity.
Qed.

Lemma units_mirrors g g' : units g g' -> mirrors g -> mirrors g'.
Proof.
  induction 1 as [|g g1 g2 Hs _ IH]; [auto|]. intros _.
  apply IH. eapply unit_step_mirrors; eauto.
Qed.

(** From one snapshot to the next the filled cells stay as they are and
    no candidate comes back. *)
Definition grows (prev cur : SudokuSnapshot) : Prop :=
  (forall r c, is_zero (cell (snap_board prev) r c) = false ->
     cell (snap_board cur) r c = cell (snap_board prev) r c)
  /\ (forall r c d, In d (candsAt (snap_candidates cur) r c) ->
        In d (candsAt (snap_candidates prev) r c)).

Definition growing (snaps : list SudokuSnapshot) : Prop :=
  forall i prev cur, snaps !! i = Some prev -> snaps !! S i = Some cur ->
    grows prev cur.

Lemma unit_step_growing g g' :
  unit_step g g' -> mirrors g -> growing (snapshots g) ->
  growing (snapshots g').
Proof.
  intros Hs (lst & Hlast & Hlb & Hlc) Hch.
  destruct (unit_step_snapshots _ _ Hs) as (s & E & Hc & Hb & _ & [R Hsh]).
  intros i prev cur Hp Hcur. rewrite E in Hp, Hcur.
  destruct (decide (S i < length (snapshots g))) as [Hlt|Hge].
  - rewrite lookup_app_l in Hp by lia. rewrite lookup_app_l in Hcur by lia.
    eapply Hch; eauto.
  - assert (Hi : S i = length (snapshots g)).
    { apply lookup_lt_Some in Hcur. rewrite length_app in Hcur.
      simpl in Hcur. lia. }
    rewrite lookup_app_r in Hcur by lia.
    replace (S i - length (snapshots g)) with 0 in Hcur by lia.
    injection Hcur as <-.
    rewrite lookup_app_l in Hp by lia.
    rewrite last_lookup in Hlast.
    replace (Nat.pred (length (snapshots g))) with i in Hlast by lia.
    rewrite Hp in Hlast. injection Hlast as ->.
    split.
    + intros r c Hnz. rewrite Hb, Hlb in *.
      now apply unit_step_board.
    + intros r c d Hin. rewrite Hc in Hin. rewrite Hlc.
      now apply (elim_sub _ _ _ Hsh).
Qed.

Lemma units_growing g g' :
  units g g' -> mirrors g -> growing (snapshots g) -> growing (snapshots g').
Proof.
  induction 1 as [|g g1 g2 Hs _ IH]; [auto|]. intros Hm Hg.
  apply IH; [eapply unit_step_mirrors; eauto|].
  now apply (unit_step_growing g).
Qed.

Lemma initialGame_mirrors b : mirrors (initialGame b).
Proof.
  eexists. split; [reflexivity|]. unfold initialGame, addSnapshot.
  cbn [board candidates snap_board snap_candidates].
  rewrite ?deepCloneCandidates_id, ?deepCloneBoard_id. split; reflexivity.
Qed.

Lemma initialGame_growing b : growing (snapshots (initialGame b)).
Proof. intros [|i] prev cur Hp Hc; discriminate. Qed.

(** A run of [solveSudoku] that returns: the board it started from and the
    steps that lead to the session it returns. *)
Lemma solveSudoku_units fuel sb opts g :
  wellFormed sb -> solveSudoku fuel sb opts = Some (Ok g) ->
  exists b0, startBoard sb = Ok b0 /\ shape9 b0
    /\ units (initialGame b0) g.
Proof.
  intros Hwf Hrun. rewrite solveSudoku_unfold in Hrun.
  destruct (startBoard sb) as [b0|e] eqn:Es; [|discriminate].
  pose proof (startBoard_shape9 _ _ Hwf Es) as Hshape.
  destruct (applyLogicalStrategies_units _ _ _ _
              (initialGame_Good _ Hshape) Hrun) as (g' & [= <-] & U).
  now exists b0.
Qed.

(** ** The returned session is a fixpoint *)

Lemma applyLogicalStrategies_stable fuel g opts g' :
  Good g -> applyLogicalStrategies fuel g opts = Some (Ok g') ->
  strategyPass g' opts = Ok (false, g').
Proof.
  revert g. induction fuel as [|fuel IH]; intros g Hg Hrun; [discriminate|].
  simpl in Hrun.
  destruct (strategyPass_post g opts Hg) as ([changed g1] & E & [U Hc]).
  rewrite E in Hrun. simpl in *. destruct changed.
  - apply (IH g1); [eapply units_Good; eauto | exact Hrun].
  - subst g1. injection Hrun as <-. exact E.
Qed.

Lemma nakedSingleScan_none cells g g' :
  nakedSingleScan cells g [] g' ->
  forall p, In p cells -> nakedSingleAt g p.1 p.2 = None.
Proof.
  intros Hscan. remember [] as placed eqn:Ep.
  induction Hscan as [g|row col rest g digit placed g' Hn Hscan IH
                      |row col rest g placed g' Hn Hscan IH];
    [intros ? []|discriminate|].
  intros p [<-|Hin]; [exact Hn | now apply IH].
Qed.

Lemma strategyPass_false_nakedSingles g opts g' :
  strategyPass g opts = Ok (false, g') ->
  exists g1, applyNakedSingles g opts = (false, g1).
Proof.
  rewrite strategyPass_runPass. unfold strategyList. rewrite runPass_cons.
  unfold pure at 1. destruct (applyNakedSingles g opts) as [[|] g1];
    [discriminate | eauto].
Qed.

(** ** What [stringToBoard] returns *)

(** The cell a character stands for. *)
Definition charCell (ch : ascii) : jsnum :=
  if Ascii.eqb ch "."%char || Ascii.eqb ch "0"%char then Num 0
  else parseInt1 ch.

Lemma parseCell_value s row col (rowArray : list jsnum) :
  parseCell s row col rowArray
  = Ok (rowArray ++ [charCell (char_at s (row * 9 + col))]).
Proof.
  unfold parseCell, charCell. cbv zeta.
  destruct (Ascii.eqb (char_at s (row * 9 + col)) ".") eqn:Edot;
    [reflexivity|].
  destruct (Ascii.eqb (char_at s (row * 9 + col)) "0") eqn:Ezero;
    [reflexivity|].
  cbn [orb]. destruct (js_lt _ _ || js_gt _ _) eqn:Ecmp; [|reflexivity].
  apply parseInt1_in_range in Ecmp. rewrite Ecmp in Ezero. discriminate.
Qed.

Lemma parseCells_value s row (cols : list nat) (rowArray : list jsnum) :
  forM cols (parseCell s row) rowArray
  = Ok (rowArray
        ++ map (fun col => charCell (char_at s (row * 9 + col))) cols).
Proof.
  revert rowArray. induction cols as [|col cols IH]; intros rowArray;
    cbn [forM map].
  - now rewrite app_nil_r.
  - rewrite parseCell_value, bind_Ok, IH, <- app_assoc. reflexivity.
Qed.

Lemma parseRow_value s row (board : Board) :
  parseRow s row board
  = Ok (board
        ++ [map (fun col => charCell (char_at s (row * 9 + col))) idx9]).
Proof. unfold parseRow. now rewrite parseCells_value. Qed.

Lemma parseRows_value s (rows : list nat) (board : Board) :
  forM rows (parseRow s) board
  = Ok (board
        ++ map (fun row =>
             map (fun col => charCell (char_at s (row * 9 + col))) idx9) rows).
Proof.
  revert board. induction rows as [|row rows IH]; intros board;
    cbn [forM map].
  - now rewrite app_nil_r.
  - rewrite parseRow_value, bind_Ok, IH, <- app_assoc. reflexivity.
Qed.

Lemma lookup_total_map_seq {A} `{Inhabited A} (f : nat -> A) n i :
  i < n -> map f (seq 0 n) !!! i = f i.
Proof.
  intros Hi. rewrite list_lookup_total_alt, list_lookup_fmap_Some_2 with (x := i).
  - reflexivity.
  - apply lookup_seq. lia.
Qed.

(** * The logical phase never contradicts a solution *)

Lemma validGrid_row_has sol r d :
  validGrid sol = true -> r < 9 -> In d fullSet ->
  exists c, c < 9 /\ cell sol r c = d.
Proof.
  intros Hsol Hr Hd.
  destruct (validGrid_unit_facts sol r (map (fun c => (r, c)) idx9) Hsol Hr)
    as (_ & _ & Hhas); [now left|].
  destruct (Hhas d Hd) as ([r' c] & Hin & E).
  apply In_rowCells in Hin as [-> Hc]. now exists c.
Qed.

Lemma validGrid_col_has sol c d :
  validGrid sol = true -> c < 9 -> In d fullSet ->
  exists r, r < 9 /\ cell sol r c = d.
Proof.
  intros Hsol Hc Hd.
  destruct (validGrid_unit_facts sol c (map (fun r => (r, c)) idx9) Hsol Hc)
    as (_ & _ & Hhas); [right; now left|].
  destruct (Hhas d Hd) as ([r c'] & Hin & E).
  apply In_colCells in Hin as [-> Hr]. now exists r.
Qed.

(** The box (boxRow, boxCol) holds every digit. *)
Lemma validGrid_box_has sol boxRow boxCol d :
  validGrid sol = true -> boxRow < 3 -> boxCol < 3 -> In d fullSet ->
  exists r c, In (r, c) (boxCells (boxRow * 3) (boxCol * 3))
              /\ cell sol r c = d.
Proof.
  intros Hsol Hbr Hbc Hd.
  assert (Hi : boxRow * 3 + boxCol < 9) by lia.
  assert (E1 : (boxRow * 3 + boxCol) / 3 = boxRow).
  { rewrite (Nat.mul_comm boxRow 3). now apply div3_block. }
  assert (E2 : (boxRow * 3 + boxCol) mod 3 = boxCol).
  { rewrite Nat.add_comm, Nat.Div0.mod_add. now apply Nat.mod_small. }
  destruct (validGrid_unit_facts sol (boxRow * 3 + boxCol)
              (boxCells (boxRow * 3) (boxCol * 3)) Hsol Hi)
    as (_ & _ & Hhas).
  { right. right. left. now rewrite E1, E2. }
  destruct (Hhas d Hd) as ([r c] & Hin & E). now exists r, c.
Qed.

Section Soundness.
Variable sol : Board.
Hypothesis Hsol : validGrid sol = true.

(** The value of a filled cell is not a candidate of its empty peers. *)
Definition tight (g : Sudoku) : Prop :=
  forall r c r' c', r < 9 -> c < 9 -> r' < 9 -> c' < 9 ->
    isPeer r c r' c' = true ->
    is_zero (cell (board g) r c) = false ->
    is_zero (cell (board g) r' c') = true ->
    ~ In (cell (board g) r c) (candsAt (candidates g) r' c').

(** The invariant of the logical phase with respect to the solution. *)
Definition Sound (g : Sudoku) : Prop :=
  Good g /\ tight g /\ admits g sol = true.

Lemma Sound_admits g r c :
  Sound g -> r < 9 -> c < 9 ->
  if is_zero (cell (board g) r c)
  then In (cell sol r c) (candsAt (candidates g) r c)
  else cell (board g) r c = cell sol r c.
Proof.
  intros (_ & _ & Ha). unfold admits in Ha. rewrite admitsGrids_true in Ha.
  apply Ha.
Qed.

Lemma Sound_empty g r c :
  Sound g -> r < 9 -> c < 9 -> is_zero (cell (board g) r c) = true ->
  In (cell sol r c) (candsAt (candidates g) r c).
Proof.
  intros Hs Hr Hc Hz. pose proof (Sound_admits g r c Hs Hr Hc) as H.
  now rewrite Hz in H.
Qed.

Lemma Sound_filled g r c :
  Sound g -> r < 9 -> c < 9 -> is_zero (cell (board g) r c) = false ->
  cell (board g) r c = cell sol r c.
Proof.
  intros Hs Hr Hc Hz. pose proof (Sound_admits g r c Hs Hr Hc) as H.
  now rewrite Hz in H.
Qed.

Lemma Sound_addSnapshot g m : Sound g -> Sound (addSnapshot g m).
Proof. intros H. exact H. Qed.

(** A cell that holds the digit of the solution of another cell of its
    unit is that cell. *)
Lemma Sound_digit_here g r c r' c' :
  Sound g -> r < 9 -> c < 9 -> r' < 9 -> c' < 9 ->
  sameUnit r c r' c' = true ->
  strict_eq (cell (board g) r' c') (cell sol r c) = true ->
  (r', c') = (r, c).
Proof.
  intros Hs Hr Hc Hr' Hc' Hu Hq.
  pose proof (strict_eq_fullSet_nonzero _ _ (sol_digit sol Hsol r c Hr Hc) Hq)
    as Hnz.
  apply strict_eq_eq in Hq.
  rewrite (Sound_filled g r' c' Hs Hr' Hc' Hnz) in Hq.
  destruct (decide ((r', c') = (r, c))) as [E|E]; [exact E|]. exfalso.
  apply (sol_peers sol Hsol r c r' c'); try assumption; [|now symmetry].
  rewrite isPeer_sameUnit, Hu, andb_true_r. apply negb_true_iff.
  apply andb_false_iff.
  destruct (Nat.eqb_spec r' r) as [->|]; [|now left].
  destruct (Nat.eqb_spec c' c) as [->|]; [congruence | now right].
Qed.

(** Candidate grids that still hold the digit of the solution in every
    empty cell. *)
Definition keeps (b : Board) (cs : Cands) : Prop :=
  forall r c, r < 9 -> c < 9 -> is_zero (cell b r c) = true ->
    In (cell sol r c) (candsAt cs r c).

Lemma keeps_deleteCand b cs r c d :
  keeps b cs -> (r < 9 -> c < 9 -> is_zero (cell b r c) = true ->
                 d <> cell sol r c) ->
  keeps b (deleteCand cs r c d).
Proof.
  intros Hk Hsafe r' c' Hr' Hc' Hz. rewrite candsAt_deleteCand.
  case_decide as E; [|now apply Hk]. injection E as <- <-.
  apply set_remove_In. split; [now apply Hk|].
  intros Es. now apply (Hsafe Hr' Hc' Hz).
Qed.

Lemma Sound_keeps g : Sound g -> keeps (board g) (candidates g).
Proof. intros Hs r c Hr Hc Hz. now apply Sound_empty. Qed.

Lemma Sound_shrink g cs' :
  Sound g -> shrinks (candidates g) cs' -> keeps (board g) cs' ->
  Sound (withCandidates g cs').
Proof.
  intros ((Hb & Hcs & Hdom) & Ht & Ha) [R He] Hk. split; [|split].
  - split; [exact Hb|]. split.
    + apply (shrinks_shape9 (candidates g)); [now exists R | exact Hcs].
    + intros r c d Hz Hin. apply (Hdom r c d Hz).
      exact (elim_sub _ _ _ He _ _ _ Hin).
  - intros r c r' c' Hr Hc Hr' Hc' Hp Hnz Hz Hin.
    apply (Ht r c r' c' Hr Hc Hr' Hc' Hp Hnz Hz).
    exact (elim_sub _ _ _ He _ _ _ Hin).
  - unfold admits in *. rewrite admitsGrids_true in *. intros r c Hr Hc.
    specialize (Ha r c Hr Hc). cbn [withCandidates board candidates].
    destruct (is_zero (cell (board g) r c)) eqn:Hz; [|exact Ha].
    now apply Hk.
Qed.

(** Placing the digit of the solution and eliminating it from the peers
    keeps the invariant. *)
Lemma Sound_place g r c :
  Sound g -> r < 9 -> c < 9 -> is_zero (cell (board g) r c) = true ->
  Sound (eliminatePeers (placeDigit g r c (cell sol r c)) r c (cell sol r c)).
Proof.
  intros Hs Hr Hc Hz. pose proof Hs as (Hg & Ht & Ha).
  set (d := cell sol r c).
  assert (Hd : In d fullSet) by now apply sol_digit.
  split; [|split].
  - assert (Hm : removedOf (mkMeta "" None 0 None) = []) by reflexivity.
    exact (post_Good _ _ _ (post_place g r c d _ Hr Hc Hz Hd Hm) Hg).
  - intros r1 c1 r2 c2 Hr1 Hc1 Hr2 Hc2 Hp Hnz Hz2.
    unfold eliminatePeers, placeDigit in *. cbn [board candidates] in *.
    rewrite candsAt_eliminateFromPeers by assumption. rewrite Hz2, andb_true_r.
    assert (Hne2 : (r, c) <> (r2, c2)).
    { intros [= <- <-]. rewrite cell_setCell_eq in Hz2 by assumption.
      rewrite (fullSet_nonzero d Hd) in Hz2. discriminate. }
    rewrite cell_setCell_ne in Hz2 by assumption.
    destruct (decide ((r, c) = (r1, c1))) as [E|E].
    + injection E as <- <-. rewrite cell_setCell_eq by assumption.
      rewrite Hp. rewrite set_remove_In. tauto.
    + rewrite cell_setCell_ne in * by assumption. intros Hin.
      apply (Ht r1 c1 r2 c2 Hr1 Hc1 Hr2 Hc2 Hp Hnz Hz2).
      destruct (isPeer r c r2 c2); [|exact Hin].
      now apply set_remove_In in Hin as [Hin _].
  - unfold admits in *. rewrite admitsGrids_true in *. intros r' c' Hr' Hc'.
    unfold eliminatePeers, placeDigit. cbn [board candidates].
    destruct (decide ((r, c) = (r', c'))) as [E|E].
    + injection E as <- <-. rewrite cell_setCell_eq by assumption.
      now rewrite (fullSet_nonzero d Hd).
    + rewrite cell_setCell_ne by assumption. specialize (Ha r' c' Hr' Hc').
      destruct (is_zero (cell (board g) r' c')) eqn:Hz'; [|exact Ha].
      rewrite candsAt_eliminateFromPeers by assumption.
      rewrite cell_setCell_ne, Hz', andb_true_r by assumption.
      destruct (isPeer r c r' c') eqn:Hp; [|exact Ha].
      apply set_remove_In. split; [exact Ha|]. intros Es.
      now apply (sol_peers sol Hsol r c r' c').
Qed.

(** ** Calls that return at the first change *)

(** A call that takes recorded steps and keeps the invariant. *)
Definition sp (g : Sudoku) (res : bool * Sudoku) : Prop :=
  post g res /\ Sound res.2.

Lemma sp_false g : Sound g -> sp g (false, g).
Proof. intros Hg. split; [apply post_false | exact Hg]. Qed.

Lemma forFirst_sp {X} (xs : list X) body g :
  (forall x, In x xs -> sp g (body x g)) ->
  Sound g -> sp g (forFirst xs body g).
Proof.
  induction xs as [|x xs IH]; intros Hb Hg; simpl; [now apply sp_false|].
  pose proof (Hb x (or_introl eq_refl)) as Hx.
  destruct (body x g) as [hit g1]. destruct hit; [exact Hx|].
  destruct Hx as [[_ E] _]. simpl in E. subst g1.
  apply IH; [|exact Hg]. intros y Hy. apply Hb. now right.
Qed.

Lemma orElse_sp enabled strategy rest g :
  sp g (strategy g) -> sp g (rest g) ->
  sp g (orElse enabled strategy rest g).
Proof.
  intros Hs Hr. unfold orElse. destruct enabled; [|exact Hr].
  destruct (strategy g) as [hit g1]. destruct hit; [exact Hs|].
  destruct Hs as [[_ E] _]. simpl in E. now subst g1.
Qed.

Lemma orElseUnits_sp {X} enabled (xs : list X) unit rest g :
  (forall x, In x xs -> sp g (unit x g)) -> sp g (rest g) ->
  Sound g -> sp g (orElseUnits enabled xs unit rest g).
Proof.
  intros Hu Hr Hg. unfold orElseUnits. destruct enabled; [|exact Hr].
  pose proof (forFirst_sp xs unit g Hu Hg) as Hf.
  destruct (forFirst xs unit g) as [hit g1]. destruct hit; [exact Hf|].
  destruct Hf as [[_ E] _]. simpl in E. now subst g1.
Qed.


(** ** Singles *)

Lemma idx9_In x : x < 9 -> In x idx9.
Proof. intros Hx. unfold idx9. apply in_seq. lia. Qed.

Lemma strict_eq_refl_digit d : In d fullSet -> strict_eq d d = true.
Proof.
  intros Hd. destruct (In_fullSet_Num d Hd) as (z & -> & _). apply Z.eqb_refl.
Qed.

(** A cell holds the digit of the solution, or is empty with that digit
    among its candidates. *)
Lemma Sound_cell_cases g r c :
  Sound g -> r < 9 -> c < 9 ->
  strict_eq (cell (board g) r c) (cell sol r c) = true
  \/ isOpenFor g (cell sol r c) r c = true.
Proof.
  intros Hg Hr Hc. pose proof (Sound_admits g r c Hg Hr Hc) as H.
  unfold isOpenFor. destruct (is_zero (cell (board g) r c)) eqn:Hz.
  - right. simpl. now apply set_has_In.
  - left. rewrite H. apply strict_eq_refl_digit. now apply sol_digit.
Qed.

Lemma applyNakedSingles_Sound g opts :
  Sound g -> Sound (applyNakedSingles g opts).2.
Proof.
  intros Hg. unfold applyNakedSingles.
  destruct (isFalse opts nakedSingles); [exact Hg|].
  apply (forEach_inv (fun st : bool * Sudoku => Sound st.2)); [exact Hg|].
  intros row st Hrow Hst.
  apply (forEach_inv (fun st : bool * Sudoku => Sound st.2)); [exact Hst|].
  intros col [ch g1] Hcol Hg1. cbv beta iota zeta. simpl in Hg1.
  apply In_idx9 in Hrow, Hcol.
  destruct (is_zero (cell (board g1) row col)) eqn:Hz; simpl; [|exact Hg1].
  destruct (Nat.eqb_spec (length (candsAt (candidates g1) row col)) 1)
    as [Hl|Hl]; [|exact Hg1].
  simpl.
  pose proof (Sound_empty g1 row col Hg1 Hrow Hcol Hz) as Hin.
  rewrite (single_lookup _ Hl) in Hin. destruct Hin as [E|[]].
  rewrite E. apply Sound_addSnapshot. now apply Sound_place.
Qed.

Lemma applyHiddenSinglesInRows_sp g :
  Sound g -> sp g (applyHiddenSinglesInRows g).
Proof.
  intros Hg. unfold applyHiddenSinglesInRows.
  apply forFirst_sp; [|exact Hg]. intros row Hrow.
  apply forFirst_sp; [|exact Hg]. intros d Hd. cbv zeta.
  destruct (isDigitInRow (board g) row (Num d)) eqn:Hin; [now apply sp_false|].
  set (possibleCols := List.filter _ idx9).
  destruct (Nat.eqb_spec (length possibleCols) 1) as [Hl|Hl];
    [|now apply sp_false].
  pose proof (single_lookup _ Hl) as Hs.
  apply In_idx9 in Hrow. apply In_digits19 in Hd.
  destruct (validGrid_row_has sol row (Num d) Hsol Hrow Hd) as (k & Hk & Ek).
  assert (Hopen : isOpenFor g (Num d) row k = true).
  { destruct (Sound_cell_cases g row k Hg Hrow Hk) as [Hq|Ho];
      rewrite Ek in *; [|exact Ho].
    exfalso. unfold isDigitInRow in Hin.
    apply not_true_iff_false in Hin. apply Hin. apply existsb_exists.
    exists k. split; [now apply idx9_In | exact Hq]. }
  assert (Hin' : In k possibleCols).
  { apply filter_In. split; [now apply idx9_In | exact Hopen]. }
  rewrite Hs in Hin'. destruct Hin' as [E|[]]. rewrite E. split.
  - apply post_place; auto. now apply isOpenFor_zero in Hopen.
  - cbn [snd]. apply Sound_addSnapshot. rewrite <- Ek.
    apply Sound_place; auto. now apply isOpenFor_zero in Hopen.
Qed.

Lemma applyHiddenSinglesInColumns_sp g :
  Sound g -> sp g (applyHiddenSinglesInColumns g).
Proof.
  intros Hg. unfold applyHiddenSinglesInColumns.
  apply forFirst_sp; [|exact Hg]. intros col Hcol.
  apply forFirst_sp; [|exact Hg]. intros d Hd. cbv zeta.
  destruct (isDigitInCol (board g) col (Num d)) eqn:Hin; [now apply sp_false|].
  set (possibleRows := List.filter _ idx9).
  destruct (Nat.eqb_spec (length possibleRows) 1) as [Hl|Hl];
    [|now apply sp_false].
  pose proof (single_lookup _ Hl) as Hs.
  apply In_idx9 in Hcol. apply In_digits19 in Hd.
  destruct (validGrid_col_has sol col (Num d) Hsol Hcol Hd) as (k & Hk & Ek).
  assert (Hopen : isOpenFor g (Num d) k col = true).
  { destruct (Sound_cell_cases g k col Hg Hk Hcol) as [Hq|Ho];
      rewrite Ek in *; [|exact Ho].
    exfalso. unfold isDigitInCol in Hin.
    apply not_true_iff_false in Hin. apply Hin. apply existsb_exists.
    exists k. split; [now apply idx9_In | exact Hq]. }
  assert (Hin' : In k possibleRows).
  { apply filter_In. split; [now apply idx9_In | exact Hopen]. }
  rewrite Hs in Hin'. destruct Hin' as [E|[]]. rewrite E. split.
  - apply post_place; auto. now apply isOpenFor_zero in Hopen.
  - cbn [snd]. apply Sound_addSnapshot. rewrite <- Ek.
    apply Sound_place; auto. now apply isOpenFor_zero in Hopen.
Qed.

Lemma applyHiddenSinglesInBoxes_sp g :
  Sound g -> sp g (applyHiddenSinglesInBoxes g).
Proof.
  intros Hg. unfold applyHiddenSinglesInBoxes.
  apply forFirst_sp; [|exact Hg]. intros boxRow Hbr.
  apply forFirst_sp; [|exact Hg]. intros boxCol Hbc.
  apply forFirst_sp; [|exact Hg]. intros d Hd. cbv zeta.
  destruct (isDigitInBox (board g) boxRow boxCol (Num d)) eqn:Hin;
    [now apply sp_false|].
  set (cells := List.filter _ _).
  destruct (Nat.eqb_spec (length cells) 1) as [Hl|Hl]; [|now apply sp_false].
  pose proof (single_lookup _ Hl) as Hs.
  apply In_idx3 in Hbr, Hbc. apply In_digits19 in Hd.
  destruct (validGrid_box_has sol boxRow boxCol (Num d) Hsol Hbr Hbc Hd)
    as (r & c & Hcell & Ek).
  pose proof (In_boxCells _ _ _ _ Hcell) as [Hr Hc].
  assert (Hr9 : r < 9) by lia. assert (Hc9 : c < 9) by lia.
  assert (Hopen : isOpenFor g (Num d) r c = true).
  { destruct (Sound_cell_cases g r c Hg Hr9 Hc9) as [Hq|Ho];
      rewrite Ek in *; [|exact Ho].
    exfalso. unfold isDigitInBox in Hin.
    apply not_true_iff_false in Hin. apply Hin. apply existsb_exists.
    exists (r, c). split; [exact Hcell | exact Hq]. }
  assert (Hin' : In (r, c) cells).
  { apply filter_In. split; [exact Hcell | exact Hopen]. }
  rewrite Hs in Hin'. destruct Hin' as [E|[]]. rewrite E. split.
  - apply post_place; auto. now apply isOpenFor_zero in Hopen.
  - cbn [snd]. apply Sound_addSnapshot. rewrite <- Ek.
    apply Sound_place; auto. now apply isOpenFor_zero in Hopen.
Qed.

Lemma applyHiddenSingles_Sound g opts :
  Sound g -> Sound (applyHiddenSingles g opts).2.
Proof.
  intros Hg. unfold applyHiddenSingles.
  destruct (isFalse opts hiddenSingles); [exact Hg|].
  apply orElse_sp; [now apply applyHiddenSinglesInBoxes_sp|].
  apply orElse_sp; [now apply applyHiddenSinglesInRows_sp|].
  apply orElse_sp; [now apply applyHiddenSinglesInColumns_sp|].
  now apply sp_false.
Qed.

(** ** Eliminations *)

(** Deleting [d] from the cell does not delete the digit of the
    solution. *)
Definition safe (b : Board) (r c : nat) (d : jsnum) : Prop :=
  r < 9 -> c < 9 -> is_zero (cell b r c) = true -> d <> cell sol r c.

(** The grid [cs] is [cs0] after deletions that keep the digits of the
    solution. *)
Definition fine (b : Board) (cs0 cs : Cands) : Prop :=
  shrinks cs0 cs /\ (keeps b cs0 -> keeps b cs).

Lemma fine_refl b cs : fine b cs cs.
Proof. split; [apply shrinks_refl | auto]. Qed.

Lemma fine_trans b cs0 cs1 cs2 :
  fine b cs0 cs1 -> fine b cs1 cs2 -> fine b cs0 cs2.
Proof.
  intros [S1 K1] [S2 K2]. split; [eapply shrinks_trans; eauto | auto].
Qed.

Lemma fine_deleteCand b cs r c d : safe b r c d -> fine b cs (deleteCand cs r c d).
Proof.
  intros Hs. split; [apply shrinks_deleteCand|].
  intros Hk. now apply keeps_deleteCand.
Qed.

Lemma fine_deleteAndRecord b cs0 r c d (st : Cands * list Triple) :
  safe b r c d -> fine b cs0 st.1 -> fine b cs0 (deleteAndRecord r c d st).1.
Proof.
  intros Hs Hf. destruct st as [cs R]. unfold deleteAndRecord.
  destruct (set_has (candsAt cs r c) d); [|exact Hf]. cbn [fst] in *.
  eapply fine_trans; [exact Hf | now apply fine_deleteCand].
Qed.

Lemma fine_deleteRecordFlag b cs0 r c d (st : bool * Cands * list Triple) :
  safe b r c d -> fine b cs0 st.1.2 ->
  fine b cs0 (deleteRecordFlag r c d st).1.2.
Proof.
  intros Hs Hf. destruct st as [[ch cs] R]. unfold deleteRecordFlag.
  destruct (set_has (candsAt cs r c) d); [|exact Hf]. cbn [fst snd] in *.
  eapply fine_trans; [exact Hf | now apply fine_deleteCand].
Qed.

Lemma fine_deleteIfEmpty b cs0 r c d (st : bool * Cands * list Triple) :
  safe b r c d -> fine b cs0 st.1.2 ->
  fine b cs0 (deleteIfEmpty b r c d st).1.2.
Proof.
  intros Hs Hf. unfold deleteIfEmpty.
  destruct (is_zero (cell b r c)); [now apply fine_deleteRecordFlag | exact Hf].
Qed.

Lemma Sound_fine g cs :
  Sound g -> fine (board g) (candidates g) cs -> Sound (withCandidates g cs).
Proof.
  intros Hg [Hs Hk]. apply Sound_shrink; [exact Hg | exact Hs|].
  apply Hk. now apply Sound_keeps.
Qed.

Lemma sp_commitIfRemoved g cs R m :
  Sound g -> elim (candidates g) cs R -> removedOf m = R ->
  fine (board g) (candidates g) cs -> sp g (commitIfRemoved g cs R m).
Proof.
  intros Hg He Hm Hf. split; [now apply post_commitIfRemoved|].
  pose proof (Sound_fine g cs Hg Hf) as Hs.
  unfold commitIfRemoved. destruct (0 <? length R)%nat; exact Hs.
Qed.

(** ** Lists of positions *)

Lemma lookup_total_In {A} `{Inhabited A} (l : list A) i :
  i < length l -> In (l !!! i) l.
Proof.
  revert i. induction l as [|a l IH]; intros i Hi; simpl in *; [lia|].
  destruct i as [|i]; [now left|]. right. apply IH. lia.
Qed.

Lemma lookup_total_NoDup_ne {A} `{Inhabited A} (l : list A) i j :
  List.NoDup l -> i < j -> j < length l -> l !!! i <> l !!! j.
Proof.
  revert i j. induction l as [|a l IH]; intros i j Hnd Hij Hj; simpl in *;
    [lia|].
  apply List.NoDup_cons_iff in Hnd as [Hna Hnd].
  destruct j as [|j]; [lia|]. destruct i as [|i].
  - intros E. apply Hna. change ((a :: l) !!! 0) with a in E.
    change ((a :: l) !!! S j) with (l !!! j) in E. rewrite E.
    apply lookup_total_In. lia.
  - change ((a :: l) !!! S i) with (l !!! i).
    change ((a :: l) !!! S j) with (l !!! j). apply IH; [exact Hnd | lia | lia].
Qed.

Lemma In_range i a n : In i (range a n) -> a <= i < n.
Proof. unfold range. rewrite in_seq. lia. Qed.

Lemma NoDup_idx9_filter (f : nat -> bool) : List.NoDup (List.filter f idx9).
Proof. apply List.NoDup_filter. apply List.seq_NoDup. Qed.

Lemma NoDup_boxCells sr sc : List.NoDup (boxCells sr sc).
Proof.
  unfold boxCells, idx3. cbn [seq flat_map map app].
  repeat (constructor;
          [cbn [In]; intros H;
           repeat (destruct H as [H|H]; [injection H; lia|]); exact H|]).
  constructor.
Qed.

Lemma In_boxCells_div boxRow boxCol r c :
  In (r, c) (boxCells (boxRow * 3) (boxCol * 3)) ->
  r / 3 = boxRow /\ c / 3 = boxCol.
Proof.
  intros Hin. apply In_boxCells in Hin as [Hr Hc]. split.
  - replace r with (3 * boxRow + (r - 3 * boxRow)) by lia.
    apply div3_block. lia.
  - replace c with (3 * boxCol + (c - 3 * boxCol)) by lia.
    apply div3_block. lia.
Qed.

Lemma In_boxes br bc : In (br, bc) boxes -> br < 3 /\ bc < 3.
Proof.
  unfold boxes. rewrite in_flat_map. intros (r & Hr & Hin).
  apply in_map_iff in Hin as (c & [= <- <-] & Hc).
  split; now apply In_idx3.
Qed.

Lemma isPeer_row r c c' : c <> c' -> isPeer r c r c' = true.
Proof.
  intros Hne. rewrite isPeer_sameUnit. unfold sameUnit.
  rewrite Nat.eqb_refl. simpl.
  destruct (Nat.eqb_spec c' c); [congruence | reflexivity].
Qed.

Lemma isPeer_col r r' c : r <> r' -> isPeer r c r' c = true.
Proof.
  intros Hne. rewrite isPeer_sameUnit. unfold sameUnit.
  rewrite (Nat.eqb_refl c).
  destruct (Nat.eqb_spec r' r); [congruence | reflexivity].
Qed.

Lemma isPeer_box r c r' c' :
  (r, c) <> (r', c') -> r' / 3 = r / 3 -> c' / 3 = c / 3 ->
  isPeer r c r' c' = true.
Proof.
  intros Hne Hr Hc. rewrite isPeer_sameUnit. unfold sameUnit.
  rewrite Hr, Hc, !Nat.eqb_refl, andb_true_r, orb_true_r, andb_true_r.
  destruct (Nat.eqb_spec r' r) as [->|]; [|reflexivity].
  destruct (Nat.eqb_spec c' c) as [->|]; [congruence | reflexivity].
Qed.

(** ** Naked Pairs *)

(** The two digits of a naked pair are the digits of the solution in
    its two cells, so no other cell of the unit holds one of them. *)
Lemma naked_pair_safe g r1 c1 r2 c2 r c v :
  Sound g -> r1 < 9 -> c1 < 9 -> r2 < 9 -> c2 < 9 ->
  is_zero (cell (board g) r1 c1) = true ->
  is_zero (cell (board g) r2 c2) = true ->
  isPeer r1 c1 r2 c2 = true ->
  length (candsAt (candidates g) r2 c2) = 2 ->
  areSetsEqual (candsAt (candidates g) r1 c1) (candsAt (candidates g) r2 c2)
  = true ->
  In v (candsAt (candidates g) r1 c1) ->
  isPeer r1 c1 r c = true -> isPeer r2 c2 r c = true ->
  safe (board g) r c v.
Proof.
  intros Hg Hr1 Hc1 Hr2 Hc2 Hz1 Hz2 Hp Hl Heq Hv Hp1 Hp2 Hr Hc Hz.
  assert (Hsub : forall x, In x (candsAt (candidates g) r1 c1) ->
                           In x (candsAt (candidates g) r2 c2)).
  { unfold areSetsEqual in Heq. destruct (negb _); [discriminate|].
    rewrite forallb_forall in Heq. intros x Hx. apply set_has_In. now apply Heq. }
  pose proof (Sound_empty g r1 c1 Hg Hr1 Hc1 Hz1) as H1. apply Hsub in H1.
  pose proof (Sound_empty g r2 c2 Hg Hr2 Hc2 Hz2) as H2.
  pose proof (sol_peers sol Hsol r1 c1 r2 c2 Hr1 Hc1 Hr2 Hc2 Hp) as Hne.
  assert (Hincl : incl (candsAt (candidates g) r2 c2)
                    [cell sol r1 c1; cell sol r2 c2]).
  { apply List.NoDup_length_incl.
    - constructor; [intros [E|[]]; congruence|]. constructor; [intros []|].
      constructor.
    - rewrite Hl. reflexivity.
    - intros x [<-|[<-|[]]]; assumption. }
  apply Hsub, Hincl in Hv. destruct Hv as [<-|[<-|[]]].
  - now apply sol_peers.
  - now apply sol_peers.
Qed.

Lemma applyNakedPairsInRow_sp g row :
  Sound g -> row < 9 -> sp g (applyNakedPairsInRow g row).
Proof.
  intros Hg Hrow. unfold applyNakedPairsInRow. cbv zeta.
  set (emptyCols := List.filter _ _).
  assert (Hem : forall i, i < length emptyCols ->
            emptyCols !!! i < 9
            /\ is_zero (cell (board g) row (emptyCols !!! i)) = true).
  { intros i Hi. pose proof (lookup_total_In emptyCols i Hi) as Hin.
    apply filter_In in Hin as [H1 H2]. split; [now apply In_idx9 | exact H2]. }
  apply forFirst_sp; [|exact Hg]. intros i Hi.
  apply forFirst_sp; [|exact Hg]. intros j Hj.
  apply In_range in Hi, Hj.
  destruct (Hem i) as [Hc1 Hz1]; [lia|]. destruct (Hem j) as [Hc2 Hz2]; [lia|].
  assert (Hne : emptyCols !!! i <> emptyCols !!! j).
  { apply lookup_total_NoDup_ne; [apply NoDup_idx9_filter | lia | lia]. }
  set (col1 := emptyCols !!! i) in *. set (col2 := emptyCols !!! j) in *.
  destruct (Nat.eqb_spec (length (candsAt (candidates g) row col1)) 2)
    as [Hl1|]; [|now apply sp_false].
  destruct (Nat.eqb_spec (length (candsAt (candidates g) row col2)) 2)
    as [Hl2|]; [|now apply sp_false].
  destruct (areSetsEqual _ _) eqn:Heq; [|now apply sp_false].
  cbn [andb].
  match goal with
  | |- context [forEach ?xs ?body (candidates g, [])] =>
      assert (Hfine : fine (board g) (candidates g)
                        (forEach xs body (candidates g, [])).1)
  end.
  { apply (forEach_inv (fun st : Cands * list Triple =>
             fine (board g) (candidates g) st.1)); [apply fine_refl|].
    intros c st Hc Hst.
    destruct (Nat.eqb_spec c col1); [exact Hst|].
    destruct (Nat.eqb_spec c col2); [exact Hst|].
    destruct (is_zero (cell (board g) row c)); [|exact Hst]. cbn [negb andb].
    apply (forEach_inv (fun st : Cands * list Triple =>
             fine (board g) (candidates g) st.1)); [exact Hst|].
    intros v st' Hv Hst'. apply fine_deleteAndRecord; [|exact Hst'].
    apply (naked_pair_safe g row col1 row col2 row c v); auto;
      apply isPeer_row; congruence. }
  revert Hfine. run_elim. intros Hfine.
  apply sp_commitIfRemoved; auto.
Qed.

Lemma applyNakedPairsInCol_sp g col :
  Sound g -> col < 9 -> sp g (applyNakedPairsInCol g col).
Proof.
  intros Hg Hcol. unfold applyNakedPairsInCol. cbv zeta.
  set (emptyRows := List.filter _ _).
  assert (Hem : forall i, i < length emptyRows ->
            emptyRows !!! i < 9
            /\ is_zero (cell (board g) (emptyRows !!! i) col) = true).
  { intros i Hi. pose proof (lookup_total_In emptyRows i Hi) as Hin.
    apply filter_In in Hin as [H1 H2]. split; [now apply In_idx9 | exact H2]. }
  apply forFirst_sp; [|exact Hg]. intros i Hi.
  apply forFirst_sp; [|exact Hg]. intros j Hj.
  apply In_range in Hi, Hj.
  destruct (Hem i) as [Hr1 Hz1]; [lia|]. destruct (Hem j) as [Hr2 Hz2]; [lia|].
  assert (Hne : emptyRows !!! i <> emptyRows !!! j).
  { apply lookup_total_NoDup_ne; [apply NoDup_idx9_filter | lia | lia]. }
  set (row1 := emptyRows !!! i) in *. set (row2 := emptyRows !!! j) in *.
  destruct (Nat.eqb_spec (length (candsAt (candidates g) row1 col)) 2)
    as [Hl1|]; [|now apply sp_false].
  destruct (Nat.eqb_spec (length (candsAt (candidates g) row2 col)) 2)
    as [Hl2|]; [|now apply sp_false].
  destruct (areSetsEqual _ _) eqn:Heq; [|now apply sp_false].
  cbn [andb].
  match goal with
  | |- context [forEach ?xs ?body (candidates g, [])] =>
      assert (Hfine : fine (board g) (candidates g)
                        (forEach xs body (candidates g, [])).1)
  end.
  { apply (forEach_inv (fun st : Cands * list Triple =>
             fine (board g) (candidates g) st.1)); [apply fine_refl|].
    intros r st Hr Hst.
    destruct (Nat.eqb_spec r row1); [exact Hst|].
    destruct (Nat.eqb_spec r row2); [exact Hst|].
    destruct (is_zero (cell (board g) r col)); [|exact Hst]. cbn [negb andb].
    apply (forEach_inv (fun st : Cands * list Triple =>
             fine (board g) (candidates g) st.1)); [exact Hst|].
    intros v st' Hv Hst'. apply fine_deleteAndRecord; [|exact Hst'].
    apply (naked_pair_safe g row1 col row2 col r col v); auto;
      apply isPeer_col; congruence. }
  revert Hfine. run_elim. intros Hfine.
  apply sp_commitIfRemoved; auto.
Qed.

Lemma applyNakedPairsInBox_sp g boxRow boxCol :
  Sound g -> boxRow < 3 -> boxCol < 3 ->
  sp g (applyNakedPairsInBox g boxRow boxCol).
Proof.
  intros Hg Hbr Hbc. unfold applyNakedPairsInBox, BOX_SIZE. cbv zeta.
  set (cells := List.filter _ _).
  assert (Hem : forall i, i < length cells ->
            (cells !!! i).1 < 9 /\ (cells !!! i).2 < 9
            /\ (cells !!! i).1 / 3 = boxRow /\ (cells !!! i).2 / 3 = boxCol
            /\ is_zero (cell (board g) (cells !!! i).1 (cells !!! i).2) = true).
  { intros i Hi. pose proof (lookup_total_In cells i Hi) as Hin.
    destruct (cells !!! i) as [r c]. apply filter_In in Hin as [H1 H2].
    pose proof (In_boxCells _ _ _ _ H1). apply In_boxCells_div in H1.
    cbn [fst snd]. repeat split; try tauto; try lia. }
  assert (Hnd : List.NoDup cells).
  { apply List.NoDup_filter, NoDup_boxCells. }
  apply forFirst_sp; [|exact Hg]. intros i Hi.
  apply forFirst_sp; [|exact Hg]. intros j Hj.
  apply In_range in Hi, Hj.
  destruct (Hem i) as (Hr1 & Hc1 & Hb1 & Hd1 & Hz1); [lia|].
  destruct (Hem j) as (Hr2 & Hc2 & Hb2 & Hd2 & Hz2); [lia|].
  assert (Hne : cells !!! i <> cells !!! j).
  { apply lookup_total_NoDup_ne; [exact Hnd | lia | lia]. }
  assert (Hk : forall k, k <> i -> k < length cells -> cells !!! k <> cells !!! i).
  { intros k Hki Hlt. destruct (Nat.lt_total k i) as [?|[?|?]]; [|lia|].
    - apply lookup_total_NoDup_ne; [exact Hnd | lia | lia].
    - apply not_eq_sym. apply lookup_total_NoDup_ne; [exact Hnd | lia | lia]. }
  assert (Hk' : forall k, k <> j -> k < length cells -> cells !!! k <> cells !!! j).
  { intros k Hkj Hlt. destruct (Nat.lt_total k j) as [?|[?|?]]; [|lia|].
    - apply lookup_total_NoDup_ne; [exact Hnd | lia | lia].
    - apply not_eq_sym. apply lookup_total_NoDup_ne; [exact Hnd | lia | lia]. }
  destruct (cells !!! i) as [r1 c1] eqn:Ei.
  destruct (cells !!! j) as [r2 c2] eqn:Ej. cbn [fst snd] in *.
  destruct (Nat.eqb_spec (length (candsAt (candidates g) r1 c1)) 2)
    as [Hl1|]; [|now apply sp_false].
  destruct (Nat.eqb_spec (length (candsAt (candidates g) r2 c2)) 2)
    as [Hl2|]; [|now apply sp_false].
  destruct (areSetsEqual _ _) eqn:Heq; [|now apply sp_false].
  cbn [andb].
  match goal with
  | |- context [forEach ?xs ?body (candidates g, [])] =>
      assert (Hfine : fine (board g) (candidates g)
                        (forEach xs body (candidates g, [])).1)
  end.
  { apply (forEach_inv (fun st : Cands * list Triple =>
             fine (board g) (candidates g) st.1)); [apply fine_refl|].
    intros k st Hkr Hst. apply In_range in Hkr.
    destruct (Nat.eqb_spec k i) as [|Hki]; [exact Hst|].
    destruct (Nat.eqb_spec k j) as [|Hkj]; [exact Hst|]. cbn [negb andb].
    destruct (Hem k) as (Hr3 & Hc3 & Hb3 & Hd3 & Hz3); [lia|].
    specialize (Hk k Hki ltac:(lia)). specialize (Hk' k Hkj ltac:(lia)).
    destruct (cells !!! k) as [rr cc]. cbn [fst snd] in *.
    apply (forEach_inv (fun st : Cands * list Triple =>
             fine (board g) (candidates g) st.1)); [exact Hst|].
    intros v st' Hv Hst'. apply fine_deleteAndRecord; [|exact Hst'].
    apply (naked_pair_safe g r1 c1 r2 c2 rr cc v); auto;
      apply isPeer_box; congruence. }
  revert Hfine. run_elim. intros Hfine.
  apply sp_commitIfRemoved; auto.
Qed.

Lemma applyNakedPairs_Sound g opts :
  Sound g -> Sound (applyNakedPairs g opts).2.
Proof.
  intros Hg. unfold applyNakedPairs.
  destruct (isFalse opts nakedPairs); [exact Hg|].
  apply orElseUnits_sp; [| |exact Hg].
  { intros r Hr. apply applyNakedPairsInRow_sp; [exact Hg | now apply In_idx9]. }
  apply orElseUnits_sp; [| |exact Hg].
  { intros c Hc. apply applyNakedPairsInCol_sp; [exact Hg | now apply In_idx9]. }
  apply orElseUnits_sp; [| |exact Hg].
  { intros [br bc] Hb. apply In_boxes in Hb as [? ?].
    now apply applyNakedPairsInBox_sp. }
  now apply sp_false.
Qed.

(** ** Units that scan to their end *)

(** The session [g] during a scan that started from [g0]: the board is
    the one of [g0] and the candidates have only shrunk. *)
Definition during (g0 g : Sudoku) : Prop :=
  Sound g /\ board g = board g0 /\ shrinks (candidates g0) (candidates g).

Lemma during_refl g : Sound g -> during g g.
Proof. intros Hg. split; [exact Hg|]. split; [reflexivity | apply shrinks_refl]. Qed.

Lemma during_recordIfRemoved g0 g ch cs R m :
  during g0 g -> fine (board g) (candidates g) cs ->
  during g0 (recordIfRemoved g ch cs R m).2.
Proof.
  intros (Hg & Hb & Hs) Hf.
  assert (Hd : during g0 (withCandidates g cs)).
  { split; [now apply Sound_fine|]. split; [exact Hb|].
    eapply shrinks_trans; [exact Hs | apply Hf]. }
  unfold recordIfRemoved. destruct (0 <? length R)%nat; exact Hd.
Qed.

(** ** Naked Triples *)

Lemma naked_triple_safe g r1 c1 r2 c2 r3 c3 (U : CSet) r c v :
  Sound g -> r1 < 9 -> c1 < 9 -> r2 < 9 -> c2 < 9 -> r3 < 9 -> c3 < 9 ->
  is_zero (cell (board g) r1 c1) = true ->
  is_zero (cell (board g) r2 c2) = true ->
  is_zero (cell (board g) r3 c3) = true ->
  isPeer r1 c1 r2 c2 = true -> isPeer r1 c1 r3 c3 = true ->
  isPeer r2 c2 r3 c3 = true ->
  length U = 3 ->
  isSubset (candsAt (candidates g) r1 c1) U = true ->
  isSubset (candsAt (candidates g) r2 c2) U = true ->
  isSubset (candsAt (candidates g) r3 c3) U = true ->
  In v U ->
  isPeer r1 c1 r c = true -> isPeer r2 c2 r c = true ->
  isPeer r3 c3 r c = true ->
  safe (board g) r c v.
Proof.
  intros Hg Hr1 Hc1 Hr2 Hc2 Hr3 Hc3 Hz1 Hz2 Hz3 Hp12 Hp13 Hp23 Hl
    Hs1 Hs2 Hs3 Hv Hp1 Hp2 Hp3 Hr Hc Hz.
  unfold isSubset in Hs1, Hs2, Hs3. rewrite forallb_forall in Hs1, Hs2, Hs3.
  pose proof (Sound_empty g r1 c1 Hg Hr1 Hc1 Hz1) as H1.
  apply Hs1, set_has_In in H1.
  pose proof (Sound_empty g r2 c2 Hg Hr2 Hc2 Hz2) as H2.
  apply Hs2, set_has_In in H2.
  pose proof (Sound_empty g r3 c3 Hg Hr3 Hc3 Hz3) as H3.
  apply Hs3, set_has_In in H3.
  pose proof (sol_peers sol Hsol r1 c1 r2 c2 Hr1 Hc1 Hr2 Hc2 Hp12) as Hne12.
  pose proof (sol_peers sol Hsol r1 c1 r3 c3 Hr1 Hc1 Hr3 Hc3 Hp13) as Hne13.
  pose proof (sol_peers sol Hsol r2 c2 r3 c3 Hr2 Hc2 Hr3 Hc3 Hp23) as Hne23.
  assert (Hincl : incl U [cell sol r1 c1; cell sol r2 c2; cell sol r3 c3]).
  { apply List.NoDup_length_incl.
    - constructor; [intros [E|[E|[]]]; congruence|].
      constructor; [intros [E|[]]; congruence|].
      constructor; [intros []|]. constructor.
    - rewrite Hl. reflexivity.
    - intros x [<-|[<-|[<-|[]]]]; assumption. }
  apply Hincl in Hv. destruct Hv as [<-|[<-|[<-|[]]]]; now apply sol_peers.
Qed.

Lemma applyNakedTriplesInRow_Sound g row :
  Sound g -> row < 9 -> Sound (applyNakedTriplesInRow g row).2.
Proof.
  intros Hg Hrow. unfold applyNakedTriplesInRow. cbv zeta.
  set (emptyCols := List.filter _ _).
  assert (Hem : forall i, i < length emptyCols ->
            emptyCols !!! i < 9
            /\ is_zero (cell (board g) row (emptyCols !!! i)) = true).
  { intros i Hi. pose proof (lookup_total_In emptyCols i Hi) as Hin.
    apply filter_In in Hin as [H1 H2]. split; [now apply In_idx9 | exact H2]. }
  assert (Hne : forall i j, i < j -> j < length emptyCols ->
            emptyCols !!! i <> emptyCols !!! j).
  { intros i j Hij Hj. apply lookup_total_NoDup_ne;
      [apply NoDup_idx9_filter | lia | lia]. }
  apply (forEach_inv (fun st : bool * Sudoku => during g st.2));
    [now apply during_refl|].
  intros i st Hi Hst.
  apply (forEach_inv (fun st : bool * Sudoku => during g st.2)); [exact Hst|].
  intros j st' Hj Hst'.
  apply (forEach_inv (fun st : bool * Sudoku => during g st.2)); [exact Hst'|].
  intros k [ch g1] Hk Hg1. cbv beta iota. cbn [snd] in Hg1.
  apply In_range in Hi, Hj, Hk.
  destruct (Hem i) as [Hc1 Hz1]; [lia|]. destruct (Hem j) as [Hc2 Hz2]; [lia|].
  destruct (Hem k) as [Hc3 Hz3]; [lia|].
  pose proof (Hne i j ltac:(lia) ltac:(lia)) as Hn12.
  pose proof (Hne i k ltac:(lia) ltac:(lia)) as Hn13.
  pose proof (Hne j k ltac:(lia) ltac:(lia)) as Hn23.
  pose proof Hg1 as (Hs1 & Hb1 & _). rewrite <- Hb1 in Hz1, Hz2, Hz3.
  set (col1 := emptyCols !!! i) in *. set (col2 := emptyCols !!! j) in *.
  set (col3 := emptyCols !!! k) in *.
  set (U := set_of_list _).
  destruct (Nat.eqb_spec (length U) 3) as [Hl|]; [|exact Hg1].
  destruct (isSubset (candsAt (candidates g1) row col1) U) eqn:Hu1;
    [|exact Hg1].
  destruct (isSubset (candsAt (candidates g1) row col2) U) eqn:Hu2;
    [|exact Hg1].
  destruct (isSubset (candsAt (candidates g1) row col3) U) eqn:Hu3;
    [|exact Hg1].
  cbn [andb].
  match goal with
  | |- context [forEach ?xs ?body (ch, candidates g1, [])] =>
      assert (Hfine : fine (board g1) (candidates g1)
                        (forEach xs body (ch, candidates g1, [])).1.2)
  end.
  { apply (forEach_inv (fun st : bool * Cands * list Triple =>
             fine (board g1) (candidates g1) st.1.2)); [apply fine_refl|].
    intros c st0 Hc Hst0.
    destruct (Nat.eqb_spec c col1); [exact Hst0|].
    destruct (Nat.eqb_spec c col2); [exact Hst0|].
    destruct (Nat.eqb_spec c col3); [exact Hst0|].
    destruct (is_zero (cell (board g1) row c)); [|exact Hst0]. cbn [negb andb].
    apply (forEach_inv (fun st : bool * Cands * list Triple =>
             fine (board g1) (candidates g1) st.1.2)); [exact Hst0|].
    intros v st1 Hv Hst1. apply fine_deleteRecordFlag; [|exact Hst1].
    apply (naked_triple_safe g1 row col1 row col2 row col3 U row c v); auto;
      apply isPeer_row; congruence. }
  revert Hfine.
  match goal with
  | |- context [forEach ?xs ?body (ch, candidates g1, [])] =>
      destruct (forEach xs body (ch, candidates g1, [])) as [[ch' cs'] R']
  end.
  intros Hfine. now apply during_recordIfRemoved.
Qed.

Lemma applyNakedTriplesInColumn_Sound g col :
  Sound g -> col < 9 -> Sound (applyNakedTriplesInColumn g col).2.
Proof.
  intros Hg Hcol. unfold applyNakedTriplesInColumn. cbv zeta.
  set (emptyRows := List.filter _ _).
  assert (Hem : forall i, i < length emptyRows ->
            emptyRows !!! i < 9
            /\ is_zero (cell (board g) (emptyRows !!! i) col) = true).
  { intros i Hi. pose proof (lookup_total_In emptyRows i Hi) as Hin.
    apply filter_In in Hin as [H1 H2]. split; [now apply In_idx9 | exact H2]. }
  assert (Hne : forall i j, i < j -> j < length emptyRows ->
            emptyRows !!! i <> emptyRows !!! j).
  { intros i j Hij Hj. apply lookup_total_NoDup_ne;
      [apply NoDup_idx9_filter | lia | lia]. }
  apply (forEach_inv (fun st : bool * Sudoku => during g st.2));
    [now apply during_refl|].
  intros i st Hi Hst.
  apply (forEach_inv (fun st : bool * Sudoku => during g st.2)); [exact Hst|].
  intros j st' Hj Hst'.
  apply (forEach_inv (fun st : bool * Sudoku => during g st.2)); [exact Hst'|].
  intros k [ch g1] Hk Hg1. cbv beta iota. cbn [snd] in Hg1.
  apply In_range in Hi, Hj, Hk.
  destruct (Hem i) as [Hr1 Hz1]; [lia|]. destruct (Hem j) as [Hr2 Hz2]; [lia|].
  destruct (Hem k) as [Hr3 Hz3]; [lia|].
  pose proof (Hne i j ltac:(lia) ltac:(lia)) as Hn12.
  pose proof (Hne i k ltac:(lia) ltac:(lia)) as Hn13.
  pose proof (Hne j k ltac:(lia) ltac:(lia)) as Hn23.
  pose proof Hg1 as (Hs1 & Hb1 & _). rewrite <- Hb1 in Hz1, Hz2, Hz3.
  set (row1 := emptyRows !!! i) in *. set (row2 := emptyRows !!! j) in *.
  set (row3 := emptyRows !!! k) in *.
  set (U := set_of_list _).
  destruct (Nat.eqb_spec (length U) 3) as [Hl|]; [|exact Hg1].
  destruct (isSubset (candsAt (candidates g1) row1 col) U) eqn:Hu1;
    [|exact Hg1].
  destruct (isSubset (candsAt (candidates g1) row2 col) U) eqn:Hu2;
    [|exact Hg1].
  destruct (isSubset (candsAt (candidates g1) row3 col) U) eqn:Hu3;
    [|exact Hg1].
  cbn [andb].
  match goal with
  | |- context [forEach ?xs ?body (ch, candidates g1, [])] =>
      assert (Hfine : fine (board g1) (candidates g1)
                        (forEach xs body (ch, candidates g1, [])).1.2)
  end.
  { apply (forEach_inv (fun st : bool * Cands * list Triple =>
             fine (board g1) (candidates g1) st.1.2)); [apply fine_refl|].
    intros r st0 Hr Hst0.
    destruct (Nat.eqb_spec r row1); [exact Hst0|].
    destruct (Nat.eqb_spec r row2); [exact Hst0|].
    destruct (Nat.eqb_spec r row3); [exact Hst0|].
    destruct (is_zero (cell (board g1) r col)); [|exact Hst0]. cbn [negb andb].
    apply (forEach_inv (fun st : bool * Cands * list Triple =>
             fine (board g1) (candidates g1) st.1.2)); [exact Hst0|].
    intros v st1 Hv Hst1. apply fine_deleteRecordFlag; [|exact Hst1].
    apply (naked_triple_safe g1 row1 col row2 col row3 col U r col v); auto;
      apply isPeer_col; congruence. }
  revert Hfine.
  match goal with
  | |- context [forEach ?xs ?body (ch, candidates g1, [])] =>
      destruct (forEach xs body (ch, candidates g1, [])) as [[ch' cs'] R']
  end.
  intros Hfine. now apply during_recordIfRemoved.
Qed.

Lemma applyNakedTriplesInBox_Sound g boxRow boxCol :
  Sound g -> boxRow < 3 -> boxCol < 3 ->
  Sound (applyNakedTriplesInBox g boxRow boxCol).2.
Proof.
  intros Hg Hbr Hbc. unfold applyNakedTriplesInBox. cbv zeta.
  set (emptyCells := List.filter _ _).
  assert (Hem : forall i, i < length emptyCells ->
            (emptyCells !!! i).1 < 9 /\ (emptyCells !!! i).2 < 9
            /\ (emptyCells !!! i).1 / 3 = boxRow
            /\ (emptyCells !!! i).2 / 3 = boxCol
            /\ is_zero (cell (board g) (emptyCells !!! i).1
                          (emptyCells !!! i).2) = true).
  { intros i Hi. pose proof (lookup_total_In emptyCells i Hi) as Hin.
    destruct (emptyCells !!! i) as [r c]. apply filter_In in Hin as [H1 H2].
    pose proof (In_boxCells _ _ _ _ H1). apply In_boxCells_div in H1.
    cbn [fst snd]. repeat split; try tauto; try lia. }
  assert (Hne : forall i j, i < j -> j < length emptyCells ->
            emptyCells !!! i <> emptyCells !!! j).
  { intros i j Hij Hj. apply lookup_total_NoDup_ne; [|lia|lia].
    apply List.NoDup_filter, NoDup_boxCells. }
  apply (forEach_inv (fun st : bool * Sudoku => during g st.2));
    [now apply during_refl|].
  intros i st Hi Hst.
  apply (forEach_inv (fun st : bool * Sudoku => during g st.2)); [exact Hst|].
  intros j st' Hj Hst'.
  apply (forEach_inv (fun st : bool * Sudoku => during g st.2)); [exact Hst'|].
  intros k [ch g1] Hk Hg1. cbv beta iota. cbn [snd] in Hg1.
  apply In_range in Hi, Hj, Hk.
  destruct (Hem i) as (Hr1 & Hc1 & Hb1 & Hd1 & Hz1); [lia|].
  destruct (Hem j) as (Hr2 & Hc2 & Hb2 & Hd2 & Hz2); [lia|].
  destruct (Hem k) as (Hr3 & Hc3 & Hb3 & Hd3 & Hz3); [lia|].
  pose proof (Hne i j ltac:(lia) ltac:(lia)) as Hn12.
  pose proof (Hne i k ltac:(lia) ltac:(lia)) as Hn13.
  pose proof (Hne j k ltac:(lia) ltac:(lia)) as Hn23.
  pose proof Hg1 as (Hs1 & Hbd & _). rewrite <- Hbd in Hz1, Hz2, Hz3.
  destruct (emptyCells !!! i) as [r1 c1].
  destruct (emptyCells !!! j) as [r2 c2].
  destruct (emptyCells !!! k) as [r3 c3]. cbn [fst snd] in *.
  set (U := set_of_list _).
  destruct (Nat.eqb_spec (length U) 3) as [Hl|]; [|exact Hg1].
  destruct (isSubset (candsAt (candidates g1) r1 c1) U) eqn:Hu1; [|exact Hg1].
  destruct (isSubset (candsAt (candidates g1) r2 c2) U) eqn:Hu2; [|exact Hg1].
  destruct (isSubset (candsAt (candidates g1) r3 c3) U) eqn:Hu3; [|exact Hg1].
  cbn [andb].
  match goal with
  | |- context [forEach ?xs ?body (ch, candidates g1, [])] =>
      assert (Hfine : fine (board g1) (candidates g1)
                        (forEach xs body (ch, candidates g1, [])).1.2)
  end.
  { apply (forEach_inv (fun st : bool * Cands * list Triple =>
             fine (board g1) (candidates g1) st.1.2)); [apply fine_refl|].
    intros [rr cc] st0 Hcell Hst0. apply In_boxCells_div in Hcell as [Hrr Hcc].
    assert (Hcase : forall a b : nat,
              (negb (rr =? a)%nat || negb (cc =? b)%nat) = true
              <-> (a, b) <> (rr, cc)).
    { intros a b. destruct (Nat.eqb_spec rr a), (Nat.eqb_spec cc b);
        cbn [negb orb]; split; intros; try congruence; try reflexivity. }
    destruct (negb (rr =? r1)%nat || negb (cc =? c1)%nat) eqn:E1;
      [apply Hcase in E1 | exact Hst0].
    destruct (negb (rr =? r2)%nat || negb (cc =? c2)%nat) eqn:E2;
      [apply Hcase in E2 | exact Hst0].
    destruct (negb (rr =? r3)%nat || negb (cc =? c3)%nat) eqn:E3;
      [apply Hcase in E3 | exact Hst0].
    destruct (is_zero (cell (board g1) rr cc)); [|exact Hst0]. cbn [andb].
    apply (forEach_inv (fun st : bool * Cands * list Triple =>
             fine (board g1) (candidates g1) st.1.2)); [exact Hst0|].
    intros v st1 Hv Hst1. apply fine_deleteRecordFlag; [|exact Hst1].
    apply (naked_triple_safe g1 r1 c1 r2 c2 r3 c3 U rr cc v); auto;
      apply isPeer_box; congruence. }
  revert Hfine.
  match goal with
  | |- context [forEach ?xs ?body (ch, candidates g1, [])] =>
      destruct (forEach xs body (ch, candidates g1, [])) as [[ch' cs'] R']
  end.
  intros Hfine. now apply during_recordIfRemoved.
Qed.

Lemma Sound_Good g : Sound g -> Good g.
Proof. now intros [Hg _]. Qed.

Lemma applyNakedTriples_Sound g opts :
  Sound g -> Sound (applyNakedTriples g opts).2.
Proof.
  intros Hg. pose proof (Sound_Good g Hg) as Hgood. unfold applyNakedTriples.
  destruct (isFalse opts nakedTriples); [exact Hg|].
  apply orElseUnits_sp; [| |exact Hg].
  { intros r Hr. split; [now apply applyNakedTriplesInRow_post|].
    apply applyNakedTriplesInRow_Sound; [exact Hg | now apply In_idx9]. }
  apply orElseUnits_sp; [| |exact Hg].
  { intros c Hc. split; [now apply applyNakedTriplesInColumn_post|].
    apply applyNakedTriplesInColumn_Sound; [exact Hg | now apply In_idx9]. }
  apply orElseUnits_sp; [| |exact Hg].
  { intros [br bc] Hb. apply In_boxes in Hb as [? ?].
    split; [now apply applyNakedTriplesInBox_post|].
    now apply applyNakedTriplesInBox_Sound. }
  now apply sp_false.
Qed.

(** ** Box-Line Reduction *)

(** An open cell of a unit for the digit that the solution has in a
    cell of that unit: the latter cell is open too. *)
Lemma Sound_open_of_peer g r c r' c' :
  Sound g -> r < 9 -> c < 9 -> r' < 9 -> c' < 9 ->
  sameUnit r c r' c' = true ->
  isOpenFor g (cell sol r c) r' c' = true ->
  isOpenFor g (cell sol r c) r c = true.
Proof.
  intros Hg Hr Hc Hr' Hc' Hu Ho.
  destruct (Sound_cell_cases g r c Hg Hr Hc) as [Hq|H]; [|exact H].
  destruct (decide ((r', c') = (r, c))) as [E|E];
    [injection E as -> ->; exact Ho|].
  exfalso. pose proof Hg as (_ & Ht & _).
  apply andb_true_iff in Ho as [Hz' Hin]. apply set_has_In in Hin.
  pose proof (strict_eq_fullSet_nonzero _ _ (sol_digit sol Hsol r c Hr Hc) Hq)
    as Hnz.
  apply strict_eq_eq in Hq. rewrite <- Hq in Hin.
  apply (Ht r c r' c' Hr Hc Hr' Hc'); try assumption.
  rewrite isPeer_sameUnit, Hu, andb_true_r. apply negb_true_iff.
  apply andb_false_iff.
  destruct (Nat.eqb_spec r' r) as [->|]; [|now left].
  destruct (Nat.eqb_spec c' c) as [->|]; [congruence | now right].
Qed.

Lemma row_digit_open g row d :
  Sound g -> row < 9 -> In d fullSet -> isDigitInRow (board g) row d = false ->
  exists k, k < 9 /\ cell sol row k = d /\ isOpenFor g d row k = true.
Proof.
  intros Hg Hrow Hd Hin.
  destruct (validGrid_row_has sol row d Hsol Hrow Hd) as (k & Hk & Ek).
  exists k. split; [exact Hk|]. split; [exact Ek|].
  destruct (Sound_cell_cases g row k Hg Hrow Hk) as [Hq|Ho];
    rewrite Ek in *; [|exact Ho].
  exfalso. unfold isDigitInRow in Hin.
  apply not_true_iff_false in Hin. apply Hin. apply existsb_exists.
  exists k. split; [now apply idx9_In | exact Hq].
Qed.

Lemma col_digit_open g col d :
  Sound g -> col < 9 -> In d fullSet -> isDigitInCol (board g) col d = false ->
  exists k, k < 9 /\ cell sol k col = d /\ isOpenFor g d k col = true.
Proof.
  intros Hg Hcol Hd Hin.
  destruct (validGrid_col_has sol col d Hsol Hcol Hd) as (k & Hk & Ek).
  exists k. split; [exact Hk|]. split; [exact Ek|].
  destruct (Sound_cell_cases g k col Hg Hk Hcol) as [Hq|Ho];
    rewrite Ek in *; [|exact Ho].
  exfalso. unfold isDigitInCol in Hin.
  apply not_true_iff_false in Hin. apply Hin. apply existsb_exists.
  exists k. split; [now apply idx9_In | exact Hq].
Qed.

Lemma eliminateDigitFromBox_sp g boxRow boxCol digit excludeRow excludeCol :
  Sound g ->
  (forall rr cc, In (rr, cc) (boxCells (boxRow * 3) (boxCol * 3)) ->
     ifPresent excludeRow false (fun x => (rr =? x)%nat) = false ->
     ifPresent excludeCol false (fun x => (cc =? x)%nat) = false ->
     safe (board g) rr cc digit) ->
  sp g (eliminateDigitFromBox g boxRow boxCol digit excludeRow excludeCol).
Proof.
  intros Hg Hsafe.
  split; [apply eliminateDigitFromBox_post; now apply Hg|].
  unfold eliminateDigitFromBox. cbv zeta.
  match goal with
  | |- context [forEach ?xs ?body (candidates g, [], [])] =>
      assert (Hfine : fine (board g) (candidates g)
                        (forEach xs body (candidates g, [], [])).1.1)
  end.
  { apply (forEach_inv
             (fun st : Cands * list Triple * list (nat * nat) =>
                fine (board g) (candidates g) st.1.1)); [apply fine_refl|].
    intros [rr cc] [[cs R] bh] Hin Hst. cbv beta iota.
    destruct (ifPresent excludeRow _ _) eqn:E1; [exact Hst|].
    destruct (ifPresent excludeCol _ _) eqn:E2; [exact Hst|].
    destruct (is_zero (cell (board g) rr cc)); [|exact Hst].
    pose proof (fine_deleteAndRecord (board g) (candidates g) rr cc digit
                  (cs, R) (Hsafe rr cc Hin E1 E2) Hst) as Hf.
    destruct (deleteAndRecord rr cc digit (cs, R)) as [cs1 R1]. exact Hf. }
  revert Hfine.
  match goal with
  | |- context [forEach ?xs ?body (candidates g, [], [])] =>
      destruct (forEach xs body (candidates g, [], [])) as [[cs' R'] bh']
  end.
  intros Hfine. pose proof (Sound_fine g cs' Hg Hfine) as Hs.
  unfold commitIfRemoved. destruct (0 <? length R')%nat; exact Hs.
Qed.

Lemma applyBoxLineReductionInRows_sp g :
  Sound g -> sp g (applyBoxLineReductionInRows g).
Proof.
  intros Hg. unfold applyBoxLineReductionInRows.
  apply forFirst_sp; [|exact Hg]. intros row Hrow.
  apply forFirst_sp; [|exact Hg]. intros d Hd. cbv zeta.
  destruct (isDigitInRow (board g) row (Num d)) eqn:Hin; [now apply sp_false|].
  set (colsForDigit := List.filter _ idx9).
  destruct (_ && _); [|now apply sp_false].
  destruct (forallb _ colsForDigit) eqn:Hall; [|now apply sp_false].
  apply In_idx9 in Hrow. apply In_digits19 in Hd.
  apply eliminateDigitFromBox_sp; [exact Hg|].
  intros rr cc Hcell Hex _ Hrr Hcc Hz. cbn in Hex.
  apply Nat.eqb_neq in Hex.
  destruct (row_digit_open g row (Num d) Hg Hrow Hd Hin) as (k & Hk & Ek & Ho).
  assert (Hkin : In k colsForDigit).
  { apply filter_In. split; [now apply idx9_In | exact Ho]. }
  rewrite forallb_forall in Hall. apply Hall, Nat.eqb_eq in Hkin.
  apply In_boxCells_div in Hcell as [Hb1 Hb2].
  rewrite <- Ek. apply sol_peers; try assumption.
  apply isPeer_box; [congruence | exact Hb1 | congruence].
Qed.

Lemma applyBoxLineReductionInColumns_sp g :
  Sound g -> sp g (applyBoxLineReductionInColumns g).
Proof.
  intros Hg. unfold applyBoxLineReductionInColumns.
  apply forFirst_sp; [|exact Hg]. intros col Hcol.
  apply forFirst_sp; [|exact Hg]. intros d Hd. cbv zeta.
  destruct (isDigitInColumn g col (Num d)) eqn:Hin; [now apply sp_false|].
  set (rowsForDigit := List.filter _ idx9).
  destruct (_ && _); [|now apply sp_false].
  destruct (forallb _ rowsForDigit) eqn:Hall; [|now apply sp_false].
  apply In_idx9 in Hcol. apply In_digits19 in Hd.
  apply eliminateDigitFromBox_sp; [exact Hg|].
  intros rr cc Hcell _ Hex Hrr Hcc Hz. cbn in Hex.
  apply Nat.eqb_neq in Hex.
  destruct (col_digit_open g col (Num d) Hg Hcol Hd Hin) as (k & Hk & Ek & Ho).
  assert (Hkin : In k rowsForDigit).
  { apply filter_In. split; [now apply idx9_In | exact Ho]. }
  rewrite forallb_forall in Hall. apply Hall, Nat.eqb_eq in Hkin.
  apply In_boxCells_div in Hcell as [Hb1 Hb2].
  rewrite <- Ek. apply sol_peers; try assumption.
  apply isPeer_box; [congruence | congruence | exact Hb2].
Qed.

Lemma applyBoxLineReduction_Sound g opts :
  Sound g -> Sound (applyBoxLineReduction g opts).2.
Proof.
  intros Hg. unfold applyBoxLineReduction.
  destruct (isFalse opts boxLineReduction); [exact Hg|].
  apply orElse_sp; [now apply applyBoxLineReductionInRows_sp|].
  apply orElse_sp; [now apply applyBoxLineReductionInColumns_sp|].
  now apply sp_false.
Qed.

(** ** X-Wing *)

Lemma pair_lookup {A} `{Inhabited A} (l : list A) :
  length l = 2 -> l = [l !!! 0; l !!! 1].
Proof.
  destruct l as [|a [|b [|c l]]]; simpl; intros; try discriminate. reflexivity.
Qed.

Lemma sameUnit_row r c c' : sameUnit r c r c' = true.
Proof. unfold sameUnit. now rewrite Nat.eqb_refl. Qed.

Lemma sameUnit_col r r' c : sameUnit r c r' c = true.
Proof. unfold sameUnit. now rewrite (Nat.eqb_refl c), orb_true_r. Qed.

(** When the digit has the same two open columns in two rows, the
    solution has it in those rows at those two columns, so nowhere else
    in the two columns. *)
Lemma xwing_rows_safe g d r1 r2 c1 c2 rx c b :
  Sound g -> r1 < 9 -> r2 < 9 -> r1 <> r2 -> In d fullSet ->
  List.filter (fun c => isOpenFor g d r1 c) idx9 = [c1; c2] ->
  List.filter (fun c => isOpenFor g d r2 c) idx9 = [c1; c2] ->
  rx <> r1 -> rx <> r2 -> In c [c1; c2] ->
  safe b rx c d.
Proof.
  intros Hg Hr1 Hr2 Hne Hd E1 E2 Hx1 Hx2 Hc Hrx Hc9 Hz.
  assert (Hc1 : c1 < 9 /\ isOpenFor g d r1 c1 = true
                /\ isOpenFor g d r2 c1 = true).
  { assert (H1 : In c1 (List.filter (fun c => isOpenFor g d r1 c) idx9))
      by (rewrite E1; now left).
    assert (H2 : In c1 (List.filter (fun c => isOpenFor g d r2 c) idx9))
      by (rewrite E2; now left).
    apply filter_In in H1 as [H1 ?], H2 as [_ ?]. apply In_idx9 in H1. tauto. }
  destruct Hc1 as (Hc1 & Ho1 & Ho2).
  destruct (validGrid_row_has sol r1 d Hsol Hr1 Hd) as (k1 & Hk1 & Ek1).
  destruct (validGrid_row_has sol r2 d Hsol Hr2 Hd) as (k2 & Hk2 & Ek2).
  assert (Hi1 : In k1 [c1; c2]).
  { rewrite <- E1. apply filter_In. split; [now apply idx9_In|].
    rewrite <- Ek1 in *.
    apply (Sound_open_of_peer g r1 k1 r1 c1); auto using sameUnit_row. }
  assert (Hi2 : In k2 [c1; c2]).
  { rewrite <- E2. apply filter_In. split; [now apply idx9_In|].
    rewrite <- Ek2 in *.
    apply (Sound_open_of_peer g r2 k2 r2 c1); auto using sameUnit_row. }
  assert (Hk : k1 <> k2).
  { intros ->. apply (sol_peers sol Hsol r1 k2 r2 k2); auto;
      [now apply isPeer_col | congruence]. }
  assert (Hcase : c = k1 \/ c = k2).
  { cbn [In] in Hc, Hi1, Hi2.
    destruct Hc as [<-|[<-|[]]], Hi1 as [<-|[<-|[]]], Hi2 as [<-|[<-|[]]];
      tauto. }
  destruct Hcase as [-> | ->].
  - rewrite <- Ek1. apply sol_peers; auto. apply isPeer_col. congruence.
  - rewrite <- Ek2. apply sol_peers; auto. apply isPeer_col. congruence.
Qed.

Lemma xwing_cols_safe g d c1 c2 r1 r2 r cx b :
  Sound g -> c1 < 9 -> c2 < 9 -> c1 <> c2 -> In d fullSet ->
  List.filter (fun r => isOpenFor g d r c1) idx9 = [r1; r2] ->
  List.filter (fun r => isOpenFor g d r c2) idx9 = [r1; r2] ->
  cx <> c1 -> cx <> c2 -> In r [r1; r2] ->
  safe b r cx d.
Proof.
  intros Hg Hc1 Hc2 Hne Hd E1 E2 Hx1 Hx2 Hr Hr9 Hcx Hz.
  assert (Hr1 : r1 < 9 /\ isOpenFor g d r1 c1 = true
                /\ isOpenFor g d r1 c2 = true).
  { assert (H1 : In r1 (List.filter (fun r => isOpenFor g d r c1) idx9))
      by (rewrite E1; now left).
    assert (H2 : In r1 (List.filter (fun r => isOpenFor g d r c2) idx9))
      by (rewrite E2; now left).
    apply filter_In in H1 as [H1 ?], H2 as [_ ?]. apply In_idx9 in H1. tauto. }
  destruct Hr1 as (Hr1 & Ho1 & Ho2).
  destruct (validGrid_col_has sol c1 d Hsol Hc1 Hd) as (k1 & Hk1 & Ek1).
  destruct (validGrid_col_has sol c2 d Hsol Hc2 Hd) as (k2 & Hk2 & Ek2).
  assert (Hi1 : In k1 [r1; r2]).
  { rewrite <- E1. apply filter_In. split; [now apply idx9_In|].
    rewrite <- Ek1 in *.
    apply (Sound_open_of_peer g k1 c1 r1 c1); auto using sameUnit_col. }
  assert (Hi2 : In k2 [r1; r2]).
  { rewrite <- E2. apply filter_In. split; [now apply idx9_In|].
    rewrite <- Ek2 in *.
    apply (Sound_open_of_peer g k2 c2 r1 c2); auto using sameUnit_col. }
  assert (Hk : k1 <> k2).
  { intros ->. apply (sol_peers sol Hsol k2 c1 k2 c2); auto;
      [now apply isPeer_row | congruence]. }
  assert (Hcase : r = k1 \/ r = k2).
  { cbn [In] in Hr, Hi1, Hi2.
    destruct Hr as [<-|[<-|[]]], Hi1 as [<-|[<-|[]]], Hi2 as [<-|[<-|[]]];
      tauto. }
  destruct Hcase as [-> | ->].
  - rewrite <- Ek1. apply sol_peers; auto. apply isPeer_row. congruence.
  - rewrite <- Ek2. apply sol_peers; auto. apply isPeer_row. congruence.
Qed.

Lemma applyXWingRows_Sound g d :
  Sound g -> In d digits19 -> Sound (applyXWingRows g d).2.
Proof.
  intros Hg Hd. apply In_digits19 in Hd. unfold applyXWingRows. cbv zeta.
  set (pos := map _ idx9).
  assert (Hpos : forall r, r < 9 ->
            pos !!! r = List.filter (fun c => isOpenFor g (Num d) r c) idx9).
  { intros r Hr. unfold pos, idx9.
    now rewrite (lookup_total_map_seq
                   (fun r => List.filter (fun c => isOpenFor g (Num d) r c)
                               (seq 0 9)) 9 r Hr). }
  apply (forEach_inv (fun st : bool * Sudoku => during g st.2));
    [now apply during_refl|].
  intros r1 st Hr1 Hst. apply In_idx9 in Hr1.
  destruct (Nat.eqb_spec (length (pos !!! r1)) 2) as [Hl1|]; [|exact Hst].
  apply (forEach_inv (fun st : bool * Sudoku => during g st.2)); [exact Hst|].
  intros r2 [ch g1] Hr2 Hg1. cbv beta iota. cbn [snd] in Hg1.
  apply In_range in Hr2.
  destruct (Nat.eqb_spec (length (pos !!! r2)) 2) as [Hl2|]; [|exact Hg1].
  destruct (_ && _) eqn:Hc; [|exact Hg1].
  apply andb_true_iff in Hc as [Ha Hb]. apply Nat.eqb_eq in Ha, Hb.
  pose proof (pair_lookup _ Hl1) as E1. pose proof (pair_lookup _ Hl2) as E2.
  rewrite Ha, Hb in E2.
  set (c1 := (pos !!! r1) !!! 0) in *. set (c2 := (pos !!! r1) !!! 1) in *.
  rewrite Hpos in E1, E2 by lia.
  match goal with
  | |- context [forEach ?xs ?body (ch, candidates g1, [])] =>
      assert (Hfine : fine (board g1) (candidates g1)
                        (forEach xs body (ch, candidates g1, [])).1.2)
  end.
  { apply (forEach_inv (fun st : bool * Cands * list Triple =>
             fine (board g1) (candidates g1) st.1.2)); [apply fine_refl|].
    intros rx st0 _ Hst0.
    destruct (Nat.eqb_spec rx r1); [exact Hst0|].
    destruct (Nat.eqb_spec rx r2); [exact Hst0|]. cbn [negb andb]. cbv zeta.
    apply fine_deleteIfEmpty; [|apply fine_deleteIfEmpty; [|exact Hst0]];
      apply (xwing_rows_safe g (Num d) r1 r2 c1 c2 rx); auto;
      try lia; cbn [In]; tauto. }
  revert Hfine.
  match goal with
  | |- context [forEach ?xs ?body (ch, candidates g1, [])] =>
      destruct (forEach xs body (ch, candidates g1, [])) as [[ch' cs'] R']
  end.
  intros Hfine. now apply during_recordIfRemoved.
Qed.

Lemma applyXWingColumns_Sound g d :
  Sound g -> In d digits19 -> Sound (applyXWingColumns g d).2.
Proof.
  intros Hg Hd. apply In_digits19 in Hd. unfold applyXWingColumns. cbv zeta.
  set (pos := map _ idx9).
  assert (Hpos : forall c, c < 9 ->
            pos !!! c = List.filter (fun r => isOpenFor g (Num d) r c) idx9).
  { intros c Hc. unfold pos, idx9.
    now rewrite (lookup_total_map_seq
                   (fun c => List.filter (fun r => isOpenFor g (Num d) r c)
                               (seq 0 9)) 9 c Hc). }
  apply (forEach_inv (fun st : bool * Sudoku => during g st.2));
    [now apply during_refl|].
  intros c1 st Hc1 Hst. apply In_idx9 in Hc1.
  destruct (Nat.eqb_spec (length (pos !!! c1)) 2) as [Hl1|]; [|exact Hst].
  apply (forEach_inv (fun st : bool * Sudoku => during g st.2)); [exact Hst|].
  intros c2 [ch g1] Hc2 Hg1. cbv beta iota. cbn [snd] in Hg1.
  apply In_range in Hc2.
  destruct (Nat.eqb_spec (length (pos !!! c2)) 2) as [Hl2|]; [|exact Hg1].
  destruct (_ && _) eqn:Hc; [|exact Hg1].
  apply andb_true_iff in Hc as [Ha Hb]. apply Nat.eqb_eq in Ha, Hb.
  pose proof (pair_lookup _ Hl1) as E1. pose proof (pair_lookup _ Hl2) as E2.
  rewrite Ha, Hb in E2.
  set (r1 := (pos !!! c1) !!! 0) in *. set (r2 := (pos !!! c1) !!! 1) in *.
  rewrite Hpos in E1, E2 by lia.
  match goal with
  | |- context [forEach ?xs ?body (ch, candidates g1, [])] =>
      assert (Hfine : fine (board g1) (candidates g1)
                        (forEach xs body (ch, candidates g1, [])).1.2)
  end.
  { apply (forEach_inv (fun st : bool * Cands * list Triple =>
             fine (board g1) (candidates g1) st.1.2)); [apply fine_refl|].
    intros cx st0 _ Hst0.
    destruct (Nat.eqb_spec cx c1); [exact Hst0|].
    destruct (Nat.eqb_spec cx c2); [exact Hst0|]. cbn [negb andb]. cbv zeta.
    apply fine_deleteIfEmpty; [|apply fine_deleteIfEmpty; [|exact Hst0]];
      apply (xwing_cols_safe g (Num d) c1 c2 r1 r2 _ cx); auto;
      try lia; cbn [In]; tauto. }
  revert Hfine.
  match goal with
  | |- context [forEach ?xs ?body (ch, candidates g1, [])] =>
      destruct (forEach xs body (ch, candidates g1, [])) as [[ch' cs'] R']
  end.
  intros Hfine. now apply during_recordIfRemoved.
Qed.

Lemma applyXWing_Sound g opts : Sound g -> Sound (applyXWing g opts).2.
Proof.
  intros Hg. pose proof (Sound_Good g Hg) as Hgood. unfold applyXWing.
  destruct (isFalse opts xWing); [exact Hg|].
  apply forFirst_sp; [|exact Hg]. intros d Hd.
  apply orElse_sp.
  { split; [now apply applyXWingRows_post | now apply applyXWingRows_Sound]. }
  apply orElse_sp.
  { split; [now apply applyXWingColumns_post
           | now apply applyXWingColumns_Sound]. }
  now apply sp_false.
Qed.

(** ** Hidden Pairs *)

Lemma bind_Ok_inv {A B} (m : result A) (k : A -> result B) (b : B) :
  (x ← m; k x) = Ok b -> exists a, m = Ok a /\ k a = Ok b.
Proof. destruct m as [a|e]; [eauto | discriminate]. Qed.

Lemma pushPosition_spec {X} (lo : Z) (pos pos' : list (list X)) d (x : X) :
  (0 <= lo)%Z -> length pos = 10 -> pushPosition lo pos d x = Ok pos' ->
  length pos' = 10
  /\ exists z, d = Num z /\ (0 <= z)%Z
       /\ forall n y, In y (pos' !!! n)
            <-> In y (pos !!! n) \/ (n = Z.to_nat z /\ y = x).
Proof.
  intros Hlo Hlen. unfold pushPosition. destruct d as [z|]; [|discriminate].
  destruct (Z.leb_spec lo z); [|discriminate].
  destruct (Z.leb_spec z 9); [|discriminate]. cbn [andb]. intros [= <-].
  split; [now rewrite length_insert|]. exists z. split; [reflexivity|].
  split; [lia|]. intros n y.
  destruct (decide (n = Z.to_nat z)) as [->|Hn].
  - rewrite list_lookup_total_insert_eq by lia. rewrite in_app_iff.
    cbn [In]. intuition.
  - rewrite list_lookup_total_insert_ne by congruence. intuition.
Qed.

Lemma pushAll_spec {X} (lo : Z) (cands : CSet) (x : X)
  (pos pos' : list (list X)) :
  (0 <= lo)%Z -> length pos = 10 ->
  forM cands (fun d pos => pushPosition lo pos d x) pos = Ok pos' ->
  length pos' = 10
  /\ forall n y, In y (pos' !!! n)
       <-> In y (pos !!! n)
           \/ (y = x /\ exists z, In (Num z) cands /\ (0 <= z)%Z
                                  /\ Z.to_nat z = n).
Proof.
  intros Hlo. revert pos. induction cands as [|d cands IH]; intros pos Hlen.
  - intros [= <-]. split; [exact Hlen|]. intros n y. split; [auto|].
    intros [H|(_ & z & [] & _)]. exact H.
  - cbn [forM]. intros Hb. apply bind_Ok_inv in Hb as (pos1 & E1 & E2).
    destruct (pushPosition_spec lo pos pos1 d x Hlo Hlen E1)
      as (Hlen1 & z & -> & Hz & H1).
    destruct (IH pos1 Hlen1 E2) as (Hlen' & H2). split; [exact Hlen'|].
    intros n y. rewrite H2, H1. split.
    + intros [[H|[-> ->]]|(-> & z' & Hin & Hz' & E)].
      * now left.
      * right. split; [reflexivity|]. exists z. split; [now left | auto].
      * right. split; [reflexivity|]. exists z'. split; [now right | auto].
    + intros [H|(-> & z' & [Hin|Hin] & Hz' & E)].
      * left. now left.
      * injection Hin as ->. left. right. auto.
      * right. split; [reflexivity|]. exists z'. auto.
Qed.

(** The table of positions of a unit: the list of a digit holds the
    guarded positions that have the digit as a candidate. *)
Lemma positions_spec {X} (lo : Z) (xs : list X) (guard : X -> bool)
  (cands : X -> CSet) (pos0 pos : list (list X)) :
  (0 <= lo)%Z -> length pos0 = 10 ->
  forM xs (fun x pos =>
    if guard x
    then forM (cands x) (fun d pos => pushPosition lo pos d x) pos
    else Ok pos) pos0 = Ok pos ->
  length pos = 10
  /\ forall n y, In y (pos !!! n)
       <-> In y (pos0 !!! n)
           \/ (In y xs /\ guard y = true
               /\ exists z, In (Num z) (cands y) /\ (0 <= z)%Z
                            /\ Z.to_nat z = n).
Proof.
  intros Hlo. revert pos0. induction xs as [|x xs IH]; intros pos0 Hlen.
  - intros [= <-]. split; [exact Hlen|]. intros n y. split; [auto|].
    intros [H|([] & _)]. exact H.
  - cbn [forM]. intros Hb. apply bind_Ok_inv in Hb as (pos1 & E1 & E2).
    assert (H1 : length pos1 = 10
                 /\ forall n y, In y (pos1 !!! n)
                      <-> In y (pos0 !!! n)
                          \/ (y = x /\ guard x = true
                              /\ exists z, In (Num z) (cands x) /\ (0 <= z)%Z
                                           /\ Z.to_nat z = n)).
    { destruct (guard x).
      - destruct (pushAll_spec lo (cands x) x pos0 pos1 Hlo Hlen E1)
          as (Hl & H). split; [exact Hl|]. intros n y. rewrite H. intuition.
      - injection E1 as <-. split; [exact Hlen|]. intros n y. split; [auto|].
        intros [H|(_ & H & _)]; [exact H | discriminate]. }
    destruct H1 as (Hlen1 & H1).
    destruct (IH pos1 Hlen1 E2) as (Hlen' & H2). split; [exact Hlen'|].
    intros n y. rewrite H2, H1. cbn [In]. split.
    + intros [[H|(-> & Hg & Hz)]|(Hin & Hg & Hz)]; auto.
    + intros [H|([->|Hin] & Hg & Hz)]; auto.
Qed.

Lemma forM_ext {S X} (xs : list X) (f g : X -> S -> result S) s :
  (forall x s, f x s = g x s) -> forM xs f s = forM xs g s.
Proof.
  intros Hfg. revert s. induction xs as [|x xs IH]; intros s; [reflexivity|].
  cbn [forM]. rewrite Hfg. destruct (g x s) as [s'|e]; [|reflexivity].
  apply IH.
Qed.

Lemma In_repeat_nil {X} (y : X) n k : ~ In y (repeat ([] : list X) k !!! n).
Proof.
  destruct (decide (n < k)) as [Hn|Hn].
  - now rewrite lookup_total_repeat.
  - rewrite list_lookup_total_alt, lookup_ge_None_2; [intros []|].
    rewrite repeat_length. lia.
Qed.

Lemma digit_range d : In d digits19 -> (1 <= d <= 9)%Z.
Proof.
  unfold digits19. cbn [In]. intros H.
  repeat (destruct H as [<-|H]; [lia|]). destruct H.
Qed.

Lemma positionsInRow_spec g row pos d y :
  positionsInRow g row = Ok pos -> (0 <= d)%Z ->
  In y (pos !!! Z.to_nat d) <-> y < 9 /\ isOpenFor g (Num d) row y = true.
Proof.
  unfold positionsInRow. intros Hp Hd.
  apply (positions_spec 0 idx9
           (fun col => is_zero (cell (board g) row col))
           (fun col => candsAt (candidates g) row col)) in Hp as [_ Hp];
    [|lia|reflexivity].
  rewrite Hp. unfold isOpenFor. split.
  - intros [H|(Hin & Hz & z & Hc & Hz0 & E)]; [now apply In_repeat_nil in H|].
    apply Z2Nat.inj in E; [|lia|lia]. subst z.
    split; [now apply In_idx9|]. rewrite Hz. now apply set_has_In.
  - intros [Hy Ho]. apply andb_true_iff in Ho as [Hz Hc].
    apply set_has_In in Hc. right. split; [now apply idx9_In|].
    split; [exact Hz|]. exists d. auto.
Qed.

Lemma positionsInColumn_spec g col pos d y :
  positionsInColumn g col = Ok pos -> (0 <= d)%Z ->
  In y (pos !!! Z.to_nat d) <-> y < 9 /\ isOpenFor g (Num d) y col = true.
Proof.
  unfold positionsInColumn. intros Hp Hd.
  apply (positions_spec 0 idx9
           (fun row => is_zero (cell (board g) row col))
           (fun row => candsAt (candidates g) row col)) in Hp as [_ Hp];
    [|lia|reflexivity].
  rewrite Hp. unfold isOpenFor. split.
  - intros [H|(Hin & Hz & z & Hc & Hz0 & E)]; [now apply In_repeat_nil in H|].
    apply Z2Nat.inj in E; [|lia|lia]. subst z.
    split; [now apply In_idx9|]. rewrite Hz. now apply set_has_In.
  - intros [Hy Ho]. apply andb_true_iff in Ho as [Hz Hc].
    apply set_has_In in Hc. right. split; [now apply idx9_In|].
    split; [exact Hz|]. exists d. auto.
Qed.

Lemma positionsInBox_spec g (emptyCells : list (nat * nat)) pos d p :
  positionsInBox g emptyCells = Ok pos -> (0 <= d)%Z ->
  In p (pos !!! Z.to_nat d)
  <-> In p emptyCells /\ In (Num d) (candsAt (candidates g) p.1 p.2).
Proof.
  unfold positionsInBox. intros Hp Hd.
  assert (Hp' : forM emptyCells
            (fun (x : nat * nat) pos =>
               if (fun _ : nat * nat => true) x
               then forM ((fun q : nat * nat =>
                             candsAt (candidates g) q.1 q.2) x)
                      (fun d pos => pushPosition 1 pos d x) pos
               else Ok pos) (repeat [] 10) = Ok pos).
  { rewrite <- Hp. apply forM_ext. intros [rr cc] s. reflexivity. }
  clear Hp.
  apply (positions_spec 1 emptyCells (fun _ => true)
           (fun q => candsAt (candidates g) q.1 q.2)) in Hp' as [_ Hp];
    [|lia|reflexivity].
  rewrite Hp. split.
  - intros [H|(Hin & _ & z & Hc & Hz0 & E)]; [now apply In_repeat_nil in H|].
    apply Z2Nat.inj in E; [|lia|lia]. subst z. auto.
  - intros [Hin Hc]. right. split; [exact Hin|]. split; [reflexivity|].
    exists d. auto.
Qed.

Lemma lookup_total_ext {A} `{Inhabited A} (a b : list A) :
  length a = length b -> (forall i, i < length a -> a !!! i = b !!! i) ->
  a = b.
Proof.
  revert b. induction a as [|x a IH]; intros [|y b] Hl Hi;
    try discriminate; [reflexivity|].
  f_equal.
  - apply (Hi 0). simpl. lia.
  - apply IH; [simpl in Hl; lia|]. intros i Hlt.
    apply (Hi (S i)). simpl. lia.
Qed.

Lemma arrayEquals_eq (a b : list nat) : arrayEquals a b = true -> a = b.
Proof.
  unfold arrayEquals. destruct (Nat.eqb_spec (length a) (length b)) as [Hl|];
    [|discriminate]. cbn [negb]. rewrite forallb_forall. intros Hall.
  apply lookup_total_ext; [exact Hl|]. intros i Hi. apply Nat.eqb_eq.
  apply Hall. unfold range. apply in_seq. lia.
Qed.

Lemma In_insertCoord p q l : In p (insertCoord q l) <-> p = q \/ In p l.
Proof.
  induction l as [|x l IH]; cbn [insertCoord In]; [intuition|].
  destruct (coordLe q x); cbn [In]; [intuition | rewrite IH; intuition].
Qed.

Lemma In_sortCoords p l : In p (sortCoords l) <-> In p l.
Proof.
  unfold sortCoords. induction l as [|x l IH]; cbn [fold_right In]; [tauto|].
  rewrite In_insertCoord, IH. intuition.
Qed.

Lemma length_insertCoord q l : length (insertCoord q l) = S (length l).
Proof.
  induction l as [|x l IH]; cbn [insertCoord]; [reflexivity|].
  destruct (coordLe q x); cbn [length]; [reflexivity | now rewrite IH].
Qed.

Lemma length_sortCoords l : length (sortCoords l) = length l.
Proof.
  unfold sortCoords. induction l as [|x l IH]; cbn [fold_right length];
    [reflexivity|]. now rewrite length_insertCoord, IH.
Qed.

Lemma coordsEquals_In (a b : list (nat * nat)) p :
  coordsEquals a b = true -> (In p a <-> In p b).
Proof.
  unfold coordsEquals. destruct (Nat.eqb_spec (length a) (length b)) as [Hl|];
    [|discriminate]. cbn [negb]. cbv zeta. rewrite forallb_forall. intros Hall.
  assert (E : sortCoords a = sortCoords b).
  { apply lookup_total_ext; [now rewrite !length_sortCoords|]. intros i Hi.
    assert (Hin : In i (range 0 (length (sortCoords a))))
      by (unfold range; apply in_seq; lia).
    specialize (Hall i Hin). apply negb_true_iff, orb_false_iff in Hall.
    destruct Hall as [H1 H2]. apply negb_false_iff, Nat.eqb_eq in H1, H2.
    destruct (sortCoords a !!! i), (sortCoords b !!! i). cbn [fst snd] in *.
    congruence. }
  now rewrite <- (In_sortCoords p a), E, In_sortCoords.
Qed.

Lemma fine_stripOtherCandidates b cs0 cs r c allowed R :
  fine b cs0 cs -> In (cell sol r c) allowed ->
  fine b cs0 (stripOtherCandidates cs r c allowed R).1.2.
Proof.
  intros Hf Hin. unfold stripOtherCandidates.
  apply (forEach_inv (fun st : bool * Cands * list Triple =>
           fine b cs0 st.1.2)); [exact Hf|].
  intros d st Hd Hst. apply fine_deleteRecordFlag; [|exact Hst].
  intros _ _ _ ->. apply filter_In in Hd as [_ Hd].
  apply negb_true_iff in Hd. apply not_true_iff_false in Hd. apply Hd.
  unfold includes. apply existsb_exists. exists (cell sol r c).
  split; [exact Hin | apply same_value_zero_refl].
Qed.

Lemma during_stripPair g0 g ch p1 p2 d1 d2 m :
  during g0 g ->
  In (cell sol p1.1 p1.2) [Num d1; Num d2] ->
  In (cell sol p2.1 p2.2) [Num d1; Num d2] ->
  during g0 (stripPair g ch p1 p2 d1 d2 m).2.
Proof.
  intros Hg H1 H2. unfold stripPair. cbv zeta.
  pose proof (fine_stripOtherCandidates (board g) (candidates g) (candidates g)
                p1.1 p1.2 [Num d1; Num d2] [] (fine_refl _ _) H1) as Hf1.
  destruct (stripOtherCandidates (candidates g) p1.1 p1.2 _ _)
    as [[ch1 cs1] R1]. cbn [fst snd] in Hf1.
  pose proof (fine_stripOtherCandidates (board g) (candidates g) cs1
                p2.1 p2.2 [Num d1; Num d2] R1 Hf1 H2) as Hf2.
  destruct (stripOtherCandidates cs1 p2.1 p2.2 _ _) as [[ch2 cs2] R2].
  cbn [fst snd] in Hf2. now apply during_recordIfRemoved.
Qed.

(** Two digits whose open positions in a unit are the same two cells:
    the solution has them in those two cells. *)
Lemma hidden_pair_cover {X} (loc : X -> nat * nat) (U : list (nat * nat))
  g d1 d2 (cols : list X) c :
  Sound g -> d1 <> d2 ->
  (forall d, In d fullSet -> exists q, In q U /\ cellOf sol q = d) ->
  (forall q q', In q U -> In q' U -> sameUnit q.1 q.2 q'.1 q'.2 = true) ->
  (forall q, In q U -> q.1 < 9 /\ q.2 < 9) ->
  (forall q, In q U -> exists y, loc y = q) ->
  In (Num d1) fullSet -> In (Num d2) fullSet ->
  (forall y, In y cols
     <-> In (loc y) U /\ isOpenFor g (Num d1) (loc y).1 (loc y).2 = true) ->
  (forall y, In y cols
     <-> In (loc y) U /\ isOpenFor g (Num d2) (loc y).1 (loc y).2 = true) ->
  length cols = 2 -> In c cols ->
  In (cellOf sol (loc c)) [Num d1; Num d2].
Proof.
  intros Hg Hne Hhas Hsame Hlt Hloc Hd1 Hd2 H1 H2 Hl Hc.
  assert (Hfind : forall d, In (Num d) fullSet ->
            (forall y, In y cols
               <-> In (loc y) U
                   /\ isOpenFor g (Num d) (loc y).1 (loc y).2 = true) ->
            exists y, In y cols /\ cellOf sol (loc y) = Num d).
  { intros d Hd Hspec. destruct cols as [|a cols]; [discriminate|].
    destruct (proj1 (Hspec a) (or_introl eq_refl)) as [HaU Hao].
    destruct (Hhas (Num d) Hd) as (q & Hq & Eq).
    destruct (Hloc q Hq) as (y & Ey). exists y. rewrite Ey.
    split; [|exact Eq]. apply Hspec. rewrite Ey. split; [exact Hq|].
    destruct (Hlt q Hq) as [Hq1 Hq2]. destruct (Hlt _ HaU) as [Ha1 Ha2].
    unfold cellOf in Eq. rewrite <- Eq in *.
    apply (Sound_open_of_peer g q.1 q.2 (loc a).1 (loc a).2); auto. }
  destruct (Hfind d1 Hd1 H1) as (y1 & Hy1 & E1).
  destruct (Hfind d2 Hd2 H2) as (y2 & Hy2 & E2).
  assert (Hy : y1 <> y2) by (intros ->; congruence).
  destruct cols as [|a [|b [|e cols]]]; try discriminate. clear Hfind H1 H2.
  cbn [In] in *.
  destruct Hc as [<-|[<-|[]]], Hy1 as [Ha|[Ha|[]]], Hy2 as [Hb|[Hb|[]]];
    subst; try tauto; try congruence; rewrite ?E1, ?E2; tauto.
Qed.

Lemma hidden_pair_row g row d1 d2 (cols : list nat) c :
  Sound g -> row < 9 -> d1 <> d2 ->
  In (Num d1) fullSet -> In (Num d2) fullSet ->
  (forall y, In y cols <-> y < 9 /\ isOpenFor g (Num d1) row y = true) ->
  (forall y, In y cols <-> y < 9 /\ isOpenFor g (Num d2) row y = true) ->
  length cols = 2 -> In c cols ->
  In (cell sol row c) [Num d1; Num d2].
Proof.
  intros Hg Hrow Hne Hd1 Hd2 H1 H2 Hl Hc.
  apply (hidden_pair_cover (fun c : nat => (row, c))
           (map (fun c : nat => (row, c)) idx9) g d1 d2 cols c); auto.
  - intros d Hd. destruct (validGrid_row_has sol row d Hsol Hrow Hd)
      as (k & Hk & Ek).
    exists (row, k). split; [now apply In_rowCells | exact Ek].
  - intros [r1 c1] [r2 c2] Hq1 Hq2.
    apply In_rowCells in Hq1 as [-> _], Hq2 as [-> _]. apply sameUnit_row.
  - intros [r1 c1] Hq. apply In_rowCells in Hq as [-> ?]. now split.
  - intros [r1 c1] Hq. apply In_rowCells in Hq as [-> ?]. now exists c1.
  - intros y. rewrite H1, In_rowCells. cbn [fst snd]. tauto.
  - intros y. rewrite H2, In_rowCells. cbn [fst snd]. tauto.
Qed.

Lemma hidden_pair_col g col d1 d2 (rows : list nat) r :
  Sound g -> col < 9 -> d1 <> d2 ->
  In (Num d1) fullSet -> In (Num d2) fullSet ->
  (forall y, In y rows <-> y < 9 /\ isOpenFor g (Num d1) y col = true) ->
  (forall y, In y rows <-> y < 9 /\ isOpenFor g (Num d2) y col = true) ->
  length rows = 2 -> In r rows ->
  In (cell sol r col) [Num d1; Num d2].
Proof.
  intros Hg Hcol Hne Hd1 Hd2 H1 H2 Hl Hr.
  apply (hidden_pair_cover (fun r : nat => (r, col))
           (map (fun r : nat => (r, col)) idx9) g d1 d2 rows r); auto.
  - intros d Hd. destruct (validGrid_col_has sol col d Hsol Hcol Hd)
      as (k & Hk & Ek).
    exists (k, col). split; [now apply In_colCells | exact Ek].
  - intros [r1 c1] [r2 c2] Hq1 Hq2.
    apply In_colCells in Hq1 as [-> _], Hq2 as [-> _]. apply sameUnit_col.
  - intros [r1 c1] Hq. apply In_colCells in Hq as [-> ?]. now split.
  - intros [r1 c1] Hq. apply In_colCells in Hq as [-> ?]. now exists r1.
  - intros y. rewrite H1, In_colCells. cbn [fst snd]. tauto.
  - intros y. rewrite H2, In_colCells. cbn [fst snd]. tauto.
Qed.

Lemma hidden_pair_box g boxRow boxCol d1 d2 (coords : list (nat * nat)) p :
  Sound g -> boxRow < 3 -> boxCol < 3 -> d1 <> d2 ->
  In (Num d1) fullSet -> In (Num d2) fullSet ->
  (forall q, In q coords
     <-> In q (boxCells (boxRow * 3) (boxCol * 3))
         /\ isOpenFor g (Num d1) q.1 q.2 = true) ->
  (forall q, In q coords
     <-> In q (boxCells (boxRow * 3) (boxCol * 3))
         /\ isOpenFor g (Num d2) q.1 q.2 = true) ->
  length coords = 2 -> In p coords ->
  In (cell sol p.1 p.2) [Num d1; Num d2].
Proof.
  intros Hg Hbr Hbc Hne Hd1 Hd2 H1 H2 Hl Hp.
  apply (hidden_pair_cover (fun q : nat * nat => q)
           (boxCells (boxRow * 3) (boxCol * 3)) g d1 d2 coords p); auto.
  - intros d Hd.
    destruct (validGrid_box_has sol boxRow boxCol d Hsol Hbr Hbc Hd)
      as (r & c & Hin & E).
    now exists (r, c).
  - intros [r1 c1] [r2 c2] Hq1 Hq2.
    apply In_boxCells_div in Hq1 as [E1 E2], Hq2 as [E3 E4].
    unfold sameUnit. cbn [fst snd].
    rewrite E1, E2, E3, E4, !Nat.eqb_refl. now rewrite orb_true_r.
  - intros [r1 c1] Hq. apply In_boxCells in Hq. cbn [fst snd]. lia.
  - intros q _. now exists q.
Qed.

Lemma Ok_inj {A} (a b : A) : Ok a = Ok b -> a = b.
Proof. now intros [= ->]. Qed.

Lemma applyHiddenPairsInRow_Sound g row res :
  Sound g -> row < 9 -> applyHiddenPairsInRow g row = Ok res -> Sound res.2.
Proof.
  intros Hg Hrow. unfold applyHiddenPairsInRow. cbv zeta.
  destruct (_ <? 2)%nat; [intros [= <-]; exact Hg|].
  intros Hb. apply bind_Ok_inv in Hb as (pos & Epos & Hb).
  apply Ok_inj in Hb. rewrite <- Hb. clear Hb res.
  apply (forEach_inv (fun st : bool * Sudoku => during g st.2));
    [now apply during_refl|].
  intros d1 st Hd1 Hst.
  destruct (Nat.eqb_spec (length (pos !!! Z.to_nat d1)) 2) as [Hl|];
    [|exact Hst].
  apply (forEach_inv (fun st : bool * Sudoku => during g st.2)); [exact Hst|].
  intros d2 [ch g1] Hd2 Hg1. unfold hiddenPairInRow. cbv zeta.
  destruct (arrayEquals _ _) eqn:Hae; [|exact Hg1]. apply arrayEquals_eq in Hae.
  apply filter_In in Hd2 as [Hd2 Hlt]. apply Z.ltb_lt in Hlt.
  pose proof (digit_range d1 Hd1). pose proof (digit_range d2 Hd2).
  assert (H1 : forall y, In y (pos !!! Z.to_nat d1)
                 <-> y < 9 /\ isOpenFor g (Num d1) row y = true).
  { intros y. apply positionsInRow_spec; [exact Epos | lia]. }
  assert (H2 : forall y, In y (pos !!! Z.to_nat d1)
                 <-> y < 9 /\ isOpenFor g (Num d2) row y = true).
  { intros y. rewrite Hae. apply positionsInRow_spec; [exact Epos | lia]. }
  apply during_stripPair; [exact Hg1| |]; cbn [fst snd];
    apply (hidden_pair_row g row d1 d2 (pos !!! Z.to_nat d1));
    auto using In_digits19; try lia; apply lookup_total_In; lia.
Qed.

Lemma applyHiddenPairsInColumn_Sound g col res :
  Sound g -> col < 9 -> applyHiddenPairsInColumn g col = Ok res ->
  Sound res.2.
Proof.
  intros Hg Hcol. unfold applyHiddenPairsInColumn. cbv zeta.
  destruct (_ <? 2)%nat; [intros [= <-]; exact Hg|].
  intros Hb. apply bind_Ok_inv in Hb as (pos & Epos & Hb).
  apply Ok_inj in Hb. rewrite <- Hb. clear Hb res.
  apply (forEach_inv (fun st : bool * Sudoku => during g st.2));
    [now apply during_refl|].
  intros d1 st Hd1 Hst.
  destruct (Nat.eqb_spec (length (pos !!! Z.to_nat d1)) 2) as [Hl|];
    [|exact Hst].
  apply (forEach_inv (fun st : bool * Sudoku => during g st.2)); [exact Hst|].
  intros d2 [ch g1] Hd2 Hg1. unfold hiddenPairInColumn. cbv zeta.
  destruct (arrayEquals _ _) eqn:Hae; [|exact Hg1]. apply arrayEquals_eq in Hae.
  apply filter_In in Hd2 as [Hd2 Hlt]. apply Z.ltb_lt in Hlt.
  pose proof (digit_range d1 Hd1). pose proof (digit_range d2 Hd2).
  assert (H1 : forall y, In y (pos !!! Z.to_nat d1)
                 <-> y < 9 /\ isOpenFor g (Num d1) y col = true).
  { intros y. apply positionsInColumn_spec; [exact Epos | lia]. }
  assert (H2 : forall y, In y (pos !!! Z.to_nat d1)
                 <-> y < 9 /\ isOpenFor g (Num d2) y col = true).
  { intros y. rewrite Hae. apply positionsInColumn_spec; [exact Epos | lia]. }
  apply during_stripPair; [exact Hg1| |]; cbn [fst snd];
    apply (hidden_pair_col g col d1 d2 (pos !!! Z.to_nat d1));
    auto using In_digits19; try lia; apply lookup_total_In; lia.
Qed.

Lemma applyHiddenPairsInBox_Sound g boxRow boxCol res :
  Sound g -> boxRow < 3 -> boxCol < 3 ->
  applyHiddenPairsInBox g boxRow boxCol = Ok res -> Sound res.2.
Proof.
  intros Hg Hbr Hbc. unfold applyHiddenPairsInBox. cbv zeta.
  set (emptyCells := List.filter _ _).
  destruct (_ <? 2)%nat; [intros [= <-]; exact Hg|].
  intros Hb. apply bind_Ok_inv in Hb as (pos & Epos & Hb).
  apply Ok_inj in Hb. rewrite <- Hb. clear Hb res.
  assert (Hpos : forall d q, (0 <= d)%Z ->
            In q (pos !!! Z.to_nat d)
            <-> In q (boxCells (boxRow * 3) (boxCol * 3))
                /\ isOpenFor g (Num d) q.1 q.2 = true).
  { intros d [r c] Hd. rewrite (positionsInBox_spec g emptyCells pos d (r, c) Epos Hd).
    unfold emptyCells. rewrite filter_In. unfold isOpenFor. cbn [fst snd].
    rewrite andb_true_iff, set_has_In. tauto. }
  apply (forEach_inv (fun st : bool * Sudoku => during g st.2));
    [now apply during_refl|].
  intros d1 st Hd1 Hst.
  destruct (Nat.eqb_spec (length (pos !!! Z.to_nat d1)) 2) as [Hl|];
    [|exact Hst].
  apply (forEach_inv (fun st : bool * Sudoku => during g st.2)); [exact Hst|].
  intros d2 [ch g1] Hd2 Hg1. unfold hiddenPairInBox. cbv zeta.
  destruct (Nat.eqb_spec (length (pos !!! Z.to_nat d2)) 2) as [Hl2|];
    [|exact Hg1].
  destruct (coordsEquals _ _) eqn:Hce; [|exact Hg1]. cbn [andb].
  apply filter_In in Hd2 as [Hd2 Hlt]. apply Z.ltb_lt in Hlt.
  pose proof (digit_range d1 Hd1). pose proof (digit_range d2 Hd2).
  assert (H2 : forall q, In q (pos !!! Z.to_nat d1)
                 <-> In q (boxCells (boxRow * 3) (boxCol * 3))
                     /\ isOpenFor g (Num d2) q.1 q.2 = true).
  { intros q. rewrite (coordsEquals_In _ _ q Hce). apply Hpos. lia. }
  apply during_stripPair; [exact Hg1| |];
    apply (hidden_pair_box g boxRow boxCol d1 d2 (pos !!! Z.to_nat d1));
    auto using In_digits19; try lia;
    try (intros q; apply Hpos; lia); apply lookup_total_In; lia.
Qed.

(** Calls that may raise. *)
Definition spR (g : Sudoku) (r : result (bool * Sudoku)) : Prop :=
  forall res, r = Ok res -> sp g res.

Lemma forFirstR_sp {X} (xs : list X) body g :
  (forall x, In x xs -> spR g (body x g)) ->
  Sound g -> spR g (forFirstR xs body g).
Proof.
  induction xs as [|x xs IH]; intros Hb Hg res; cbn [forFirstR].
  - intros [= <-]. now apply sp_false.
  - pose proof (Hb x (or_introl eq_refl)) as Hx.
    destruct (body x g) as [[hit g1]|e]; [|discriminate].
    specialize (Hx _ eq_refl). destruct hit; [now intros [= <-]|].
    destruct Hx as [[_ E] _]. cbn in E. subst g1.
    apply IH; [|exact Hg]. intros y Hy. apply Hb. now right.
Qed.

Lemma orElseUnitsR_sp {X} enabled (xs : list X) unit rest g :
  (forall x, In x xs -> spR g (unit x g)) -> spR g (rest g) ->
  Sound g -> spR g (orElseUnitsR enabled xs unit rest g).
Proof.
  intros Hu Hr Hg. unfold orElseUnitsR. destruct enabled; [|exact Hr].
  pose proof (forFirstR_sp xs unit g Hu Hg) as Hf.
  destruct (forFirstR xs unit g) as [[hit g1]|e]; [|intros res; discriminate].
  specialize (Hf _ eq_refl). destruct hit; [now intros res [= <-]|].
  destruct Hf as [[_ E] _]. cbn in E. now subst g1.
Qed.

Lemma postR_post g r res : postR g r -> r = Ok res -> post g res.
Proof. intros (res' & E & Hp) E'. congruence. Qed.

Lemma applyHiddenPairs_Sound g opts res :
  Sound g -> applyHiddenPairs g opts = Ok res -> Sound res.2.
Proof.
  intros Hg. pose proof (Sound_Good g Hg) as Hgood.
  enough (H : spR g (applyHiddenPairs g opts)) by (intros E; now apply H).
  unfold applyHiddenPairs.
  destruct (isFalse opts hiddenPairs);
    [intros res' [= <-]; now apply sp_false|].
  apply orElseUnitsR_sp; [| |exact Hg].
  { intros [br bc] Hb res' E. apply In_boxes in Hb as [? ?]. split.
    - eapply postR_post; [now apply applyHiddenPairsInBox_post | exact E].
    - now apply (applyHiddenPairsInBox_Sound g br bc). }
  apply orElseUnitsR_sp; [| |exact Hg].
  { intros r Hr res' E. apply In_idx9 in Hr. split.
    - eapply postR_post; [now apply applyHiddenPairsInRow_post | exact E].
    - now apply (applyHiddenPairsInRow_Sound g r). }
  apply orElseUnitsR_sp; [| |exact Hg].
  { intros c Hc res' E. apply In_idx9 in Hc. split.
    - eapply postR_post; [now apply applyHiddenPairsInColumn_post | exact E].
    - now apply (applyHiddenPairsInColumn_Sound g c). }
  intros res' [= <-]. now apply sp_false.
Qed.

(** ** The scheduler *)

Lemma tryStrategy_Sound strategy (st res : bool * Sudoku) :
  (forall g r, Sound g -> strategy g = Ok r -> Sound r.2) ->
  Sound st.2 -> tryStrategy strategy st = Ok res -> Sound res.2.
Proof.
  intros Hs Hst. destruct st as [ch g]. unfold tryStrategy.
  destruct ch; cbn [negb].
  - intros E. apply Ok_inj in E. now subst res.
  - destruct (strategy g) as [[hit g']|e] eqn:E; [|discriminate].
    intros E'. apply Ok_inj in E'. subst res. apply (Hs g _ Hst E).
Qed.

Lemma pure_Sound strategy :
  (forall g, Sound g -> Sound (strategy g).2) ->
  forall g r, Sound g -> pure strategy g = Ok r -> Sound r.2.
Proof. intros H g r Hg E. apply Ok_inj in E. subst r. now apply H. Qed.

Lemma strategyPass_Sound g opts res :
  Sound g -> strategyPass g opts = Ok res -> Sound res.2.
Proof.
  intros Hg. unfold strategyPass. cbv zeta. intros H.
  apply bind_Ok_inv in H as (st1 & E1 & H).
  apply bind_Ok_inv in H as (st2 & E2 & H).
  apply bind_Ok_inv in H as (st3 & E3 & H).
  apply bind_Ok_inv in H as (st4 & E4 & H).
  apply bind_Ok_inv in H as (st5 & E5 & H).
  apply bind_Ok_inv in H as (st6 & E6 & H).
  apply tryStrategy_Sound in E1;
    [|apply pure_Sound; intros; now apply applyNakedSingles_Sound | exact Hg].
  apply tryStrategy_Sound in E2;
    [|apply pure_Sound; intros; now apply applyNakedPairs_Sound | exact E1].
  apply tryStrategy_Sound in E3;
    [|apply pure_Sound; intros; now apply applyHiddenSingles_Sound | exact E2].
  apply tryStrategy_Sound in E4;
    [|apply pure_Sound; intros; now apply applyNakedTriples_Sound | exact E3].
  apply tryStrategy_Sound in E5;
    [|intros g0 r H0 E0; now apply (applyHiddenPairs_Sound g0 opts) | exact E4].
  apply tryStrategy_Sound in E6;
    [|apply pure_Sound; intros; now apply applyBoxLineReduction_Sound
     |exact E5].
  apply tryStrategy_Sound in H;
    [exact H | apply pure_Sound; intros; now apply applyXWing_Sound | exact E6].
Qed.

Lemma applyLogicalStrategies_Sound fuel g opts g' :
  Sound g -> applyLogicalStrategies fuel g opts = Some (Ok g') -> Sound g'.
Proof.
  revert g. induction fuel as [|fuel IH]; intros g Hg Hr; [discriminate|].
  cbn [applyLogicalStrategies] in Hr.
  destruct (strategyPass g opts) as [[changed g1]|e] eqn:E; [|discriminate].
  pose proof (strategyPass_Sound g opts _ Hg E) as Hg1. cbn [snd] in Hg1.
  destruct changed; [now apply (IH g1)|].
  injection Hr as <-. exact Hg1.
Qed.

(** ** The initial session *)

Lemma initialGame_Sound b :
  shape9 b ->
  (forall r c, r < 9 -> c < 9 -> is_zero (cell b r c) = false ->
     cell b r c = cell sol r c) ->
  Sound (initialGame b).
Proof.
  intros Hb Hag. split; [now apply initialGame_Good|].
  unfold initialGame, addSnapshot. cbn [board candidates].
  rewrite deepCloneBoard_id.
  assert (Hadm : forall r c, r < 9 -> c < 9 -> is_zero (cell b r c) = true ->
            isValid b r c (cell sol r c) = true).
  { intros r c Hr Hc Hz. apply isValid_true; [assumption..|].
    intros r' c' Hr' Hc' Hu.
    destruct (strict_eq (cell b r' c') (cell sol r c)) eqn:Es;
      [exfalso | reflexivity].
    pose proof (strict_eq_fullSet_nonzero _ _ (sol_digit sol Hsol r c Hr Hc) Es)
      as Hnz.
    apply strict_eq_eq in Es. rewrite (Hag r' c' Hr' Hc' Hnz) in Es.
    destruct (decide ((r, c) = (r', c'))) as [E|E].
    - injection E as <- <-. rewrite Hz in Hnz. discriminate.
    - apply (sol_peers sol Hsol r c r' c'); try assumption; [|now symmetry].
      rewrite isPeer_sameUnit, Hu, andb_true_r. apply negb_true_iff.
      apply andb_false_iff.
      destruct (Nat.eqb_spec r' r) as [->|]; [|now left].
      destruct (Nat.eqb_spec c' c) as [->|]; [congruence | now right]. }
  split.
  - intros r c r' c' Hr Hc Hr' Hc' Hp. cbn [board candidates].
    rewrite ?deepCloneBoard_id. intros Hnz Hz.
    rewrite candsAt_buildCandidates, Hz by assumption.
    intros Hin. apply filter_In in Hin as [Hd Hv].
    pose proof (proj1 (isValid_true b r' c' (cell b r c) Hr' Hc') Hv r c Hr Hc)
      as Hq.
    rewrite sameUnit_sym in Hq.
    rewrite isPeer_sameUnit in Hp. apply andb_true_iff in Hp as [_ Hu].
    specialize (Hq Hu). now rewrite strict_eq_refl_digit in Hq.
  - unfold admits. cbn [board candidates]. rewrite ?deepCloneBoard_id.
    apply admitsGrids_true.
    intros r c Hr Hc. rewrite candsAt_buildCandidates by assumption.
    destruct (is_zero (cell b r c)) eqn:Hz; [|now apply Hag].
    apply filter_In. split; [now apply sol_digit | now apply Hadm].
Qed.


End Soundness.

(** ** Sessions the logical phase can start from *)





Lemma solves_facts b sol :
  solves b sol = true ->
  shape9 sol /\ validGrid sol = true
  /\ forall r c, r < 9 -> c < 9 -> is_zero (cell b r c) = false ->
       cell b r c = cell sol r c.
Proof.
  unfold solves. intros H. apply andb_true_iff in H as [H H3].
  apply andb_true_iff in H as [H1 H2]. split; [now apply is9x9_shape9|].
  split; [exact H2|]. intros r c Hr Hc Hnz. rewrite forallb_forall in H3.
  specialize (H3 (r, c) (proj2 (cells81_all r c) (conj Hr Hc))).
  cbv beta iota in H3. rewrite Hnz in H3. now apply bool_decide_eq_true in H3.
Qed.

Lemma solveSudoku_Sound fuel sb opts b0 sol g :
  wellFormed sb -> startBoard sb = Ok b0 -> solves b0 sol = true ->
  solveSudoku fuel sb opts = Some (Ok g) -> Sound sol g.
Proof.
  intros Hwf Hb0 Hsol Hrun. rewrite solveSudoku_unfold, Hb0 in Hrun.
  destruct (solves_facts _ _ Hsol) as (Hs & Hv & Hag).
  apply (applyLogicalStrategies_Sound sol Hv fuel (initialGame b0) opts);
    [|exact Hrun].
  apply initialGame_Sound; [exact Hv | | exact Hag].
  now apply (startBoard_shape9 sb).
Qed.




(** The solution of [hardPuzzle]. *)
Definition hardSolved : Board :=
  [ [Num 6; Num 9; Num 3; Num 7; Num 8; Num 4; Num 5; Num 1; Num 2];
    [Num 4; Num 8; Num 7; Num 5; Num 1; Num 2; Num 9; Num 3; Num 6];
    [Num 1; Num 2; Num 5; Num 9; Num 6; Num 3; Num 8; Num 7; Num 4];
    [Num 9; Num 3; Num 2; Num 6; Num 5; Num 1; Num 4; Num 8; Num 7];
    [Num 5; Num 6; Num 8; Num 2; Num 4; Num 7; Num 3; Num 9; Num 1];
    [Num 7; Num 4; Num 1; Num 3; Num 9; Num 8; Num 6; Num 2; Num 5];
    [Num 3; Num 1; Num 9; Num 4; Num 7; Num 5; Num 2; Num 6; Num 8];
    [Num 8; Num 5; Num 6; Num 1; Num 2; Num 9; Num 7; Num 4; Num 3];
    [Num 2; Num 7; Num 4; Num 8; Num 3; Num 6; Num 1; Num 5; Num 9] ].

(** The matrix of [hardPuzzle]. *)
Definition hardBoard : Board :=
  [ [Num 0; Num 0; Num 0; Num 0; Num 0; Num 0; Num 0; Num 1; Num 0];
    [Num 4; Num 0; Num 0; Num 0; Num 0; Num 0; Num 0; Num 0; Num 0];
    [Num 0; Num 2; Num 0; Num 0; Num 0; Num 0; Num 0; Num 0; Num 0];
    [Num 0; Num 0; Num 0; Num 0; Num 5; Num 0; Num 4; Num 0; Num 7];
    [Num 0; Num 0; Num 8; Num 0; Num 0; Num 0; Num 3; Num 0; Num 0];
    [Num 0; Num 0; Num 1; Num 0; Num 9; Num 0; Num 0; Num 0; Num 0];
    [Num 3; Num 0; Num 0; Num 4; Num 0; Num 0; Num 2; Num 0; Num 0];
    [Num 0; Num 5; Num 0; Num 1; Num 0; Num 0; Num 0; Num 0; Num 0];
    [Num 0; Num 0; Num 0; Num 8; Num 0; Num 6; Num 0; Num 0; Num 0] ].

(** * The steps of the logical phase, exactly *)

(** A candidate grid after deletions in empty cells only. *)
Definition calm (b : Board) (cs0 cs : Cands) : Prop :=
  shrinks cs0 cs
  /\ forall r c, is_zero (cell b r c) = false ->
       candsAt cs r c = candsAt cs0 r c.

(** Kind, variant and difficulty of the snapshots the strategies record:
    for a placement and for an elimination. *)
Definition recordedPlacements : list (string * option string * nat) :=
  map (fun d => ("Naked Single", Some (jsnum_to_string (Num d)), 1)) digits19
  ++ [ ("Hidden Single", Some "Row", 3);
       ("Hidden Single", Some "Column", 3);
       ("Hidden Single", Some "Box", 3) ].

Definition recordedEliminations : list (string * option string * nat) :=
  [ ("Naked Pair", Some "Row", 2);
    ("Naked Pair", Some "Column", 2);
    ("Naked Pair", Some "Box", 2);
    ("Naked Triple", Some "Row", 4);
    ("Naked Triple", Some "Column", 4);
    ("Naked Triple", Some "Box", 4);
    ("Hidden Pair", Some "Row", 5);
    ("Hidden Pair", Some "Column", 5);
    ("Hidden Pair", Some "Box", 5);
    ("Box Line Reduction", Some "Row", 5);
    ("Box Line Reduction", Some "Column", 5);
    ("X-Wing", Some "Row", 6);
    ("X-Wing", Some "Column", 6) ].

Definition metaKey (m : SnapshotMeta) : string * option string * nat :=
  (m_kind m, m_variant m, m_difficulty m).


(** One step of a strategy: a candidate of an empty cell is placed there
    and eliminated from the peers, with a snapshot; or candidates of empty
    cells are deleted, with a snapshot when one was deleted. *)
Inductive move (g : Sudoku) : Sudoku -> Prop :=
| move_place r c d m :
    r < 9 -> c < 9 -> is_zero (cell (board g) r c) = true ->
    In d (candsAt (candidates g) r c) ->
    In (metaKey m) recordedPlacements -> is_Some (m_highlight m) ->
    move g (addSnapshot (eliminatePeers (placeDigit g r c d) r c d) m)
| move_elim cs' m :
    calm (board g) (candidates g) cs' ->
    In (metaKey m) recordedEliminations -> is_Some (m_highlight m) ->
    move g (addSnapshot (withCandidates g cs') m)
| move_quiet cs' :
    calm (board g) (candidates g) cs' -> move g (withCandidates g cs').

Definition moves : Sudoku -> Sudoku -> Prop := rtc move.

Lemma calm_refl b cs : calm b cs cs.
Proof. split; [apply shrinks_refl | auto]. Qed.

Lemma calm_trans b cs0 cs1 cs2 :
  calm b cs0 cs1 -> calm b cs1 cs2 -> calm b cs0 cs2.
Proof.
  intros [S1 F1] [S2 F2]. split; [eapply shrinks_trans; eauto|].
  intros r c Hz. now rewrite F2, F1.
Qed.

Lemma calm_deleteCand b cs r c d :
  is_zero (cell b r c) = true -> calm b cs (deleteCand cs r c d).
Proof.
  intros Hz. split; [apply shrinks_deleteCand|]. intros r' c' Hnz.
  rewrite candsAt_deleteCand. case_decide as E; [|reflexivity].
  injection E as <- <-. congruence.
Qed.

Lemma calm_deleteAndRecord b cs0 r c d (st : Cands * list Triple) :
  is_zero (cell b r c) = true -> calm b cs0 st.1 ->
  calm b cs0 (deleteAndRecord r c d st).1.
Proof.
  intros Hz Hc. destruct st as [cs R]. unfold deleteAndRecord.
  destruct (set_has (candsAt cs r c) d); [|exact Hc]. cbn [fst] in *.
  eapply calm_trans; [exact Hc | now apply calm_deleteCand].
Qed.

Lemma calm_deleteRecordFlag b cs0 r c d (st : bool * Cands * list Triple) :
  is_zero (cell b r c) = true -> calm b cs0 st.1.2 ->
  calm b cs0 (deleteRecordFlag r c d st).1.2.
Proof.
  intros Hz Hc. destruct st as [[ch cs] R]. unfold deleteRecordFlag.
  destruct (set_has (candsAt cs r c) d); [|exact Hc]. cbn [fst snd] in *.
  eapply calm_trans; [exact Hc | now apply calm_deleteCand].
Qed.

Lemma calm_deleteIfEmpty b cs0 r c d (st : bool * Cands * list Triple) :
  calm b cs0 st.1.2 -> calm b cs0 (deleteIfEmpty b r c d st).1.2.
Proof.
  intros Hc. unfold deleteIfEmpty.
  destruct (is_zero (cell b r c)) eqn:Hz; [|exact Hc].
  now apply calm_deleteRecordFlag.
Qed.

Lemma Good_withCandidates g cs :
  Good g -> shrinks (candidates g) cs -> Good (withCandidates g cs).
Proof.
  intros (Hb & Hcs & Hdom) Hs. split; [exact Hb|]. split.
  - exact (shrinks_shape9 _ _ Hs Hcs).
  - intros r c d Hz Hin. apply (Hdom r c d Hz). destruct Hs as [R He].
    exact (elim_sub _ _ _ He _ _ _ Hin).
Qed.

Lemma Good_place g r c d :
  Good g -> r < 9 -> c < 9 -> is_zero (cell (board g) r c) = true ->
  In d fullSet -> Good (eliminatePeers (placeDigit g r c d) r c d).
Proof.
  intros Hg Hr Hc Hz Hd.
  assert (Hm : removedOf (mkMeta "" None 0 None) = []) by reflexivity.
  exact (post_Good _ _ _ (post_place g r c d _ Hr Hc Hz Hd Hm) Hg).
Qed.

Lemma Good_candidate g r c d :
  Good g -> is_zero (cell (board g) r c) = true ->
  In d (candsAt (candidates g) r c) -> In d fullSet.
Proof. intros (_ & _ & Hdom). apply Hdom. Qed.

Lemma move_Good g g' : move g g' -> Good g -> Good g'.
Proof.
  intros [r c d m Hr Hc Hz Hin _ _ | cs' m [Hs _] _ _ | cs' [Hs _]] Hg.
  - apply addSnapshot_Good, Good_place; auto.
    now apply (Good_candidate g r c).
  - apply addSnapshot_Good. now apply Good_withCandidates.
  - now apply Good_withCandidates.
Qed.

Lemma moves_Good g g' : moves g g' -> Good g -> Good g'.
Proof. induction 1; eauto using move_Good. Qed.

Lemma tight_place g r c d :
  tight g -> r < 9 -> c < 9 -> is_zero (cell (board g) r c) = true ->
  In d fullSet -> tight (eliminatePeers (placeDigit g r c d) r c d).
Proof.
  intros Ht Hr Hc Hz Hd r1 c1 r2 c2 Hr1 Hc1 Hr2 Hc2 Hp Hnz Hz2.
  unfold eliminatePeers, placeDigit in *. cbn [board candidates] in *.
  rewrite candsAt_eliminateFromPeers by assumption. rewrite Hz2, andb_true_r.
  assert (Hne2 : (r, c) <> (r2, c2)).
  { intros [= <- <-]. rewrite cell_setCell_eq in Hz2 by assumption.
    rewrite (fullSet_nonzero d Hd) in Hz2. discriminate. }
  rewrite cell_setCell_ne in Hz2 by assumption.
  destruct (decide ((r, c) = (r1, c1))) as [E|E].
  - injection E as <- <-. rewrite cell_setCell_eq by assumption.
    rewrite Hp. rewrite set_remove_In. tauto.
  - rewrite cell_setCell_ne in * by assumption. intros Hin.
    apply (Ht r1 c1 r2 c2 Hr1 Hc1 Hr2 Hc2 Hp Hnz Hz2).
    destruct (isPeer r c r2 c2); [|exact Hin].
    now apply set_remove_In in Hin as [Hin _].
Qed.

Lemma tight_withCandidates g cs :
  tight g -> shrinks (candidates g) cs -> tight (withCandidates g cs).
Proof.
  intros Ht [R He] r c r' c' Hr Hc Hr' Hc' Hp Hnz Hz Hin.
  apply (Ht r c r' c' Hr Hc Hr' Hc' Hp Hnz Hz).
  exact (elim_sub _ _ _ He _ _ _ Hin).
Qed.

Lemma move_tight g g' : move g g' -> Good g -> tight g -> tight g'.
Proof.
  intros [r c d m Hr Hc Hz Hin _ _ | cs' m [Hs _] _ _ | cs' [Hs _]] Hg Ht.
  - apply (tight_place g r c d); auto. now apply (Good_candidate g r c).
  - now apply (tight_withCandidates g cs').
  - now apply tight_withCandidates.
Qed.

Lemma moves_tight g g' : moves g g' -> Good g -> tight g -> tight g'.
Proof.
  induction 1 as [|g g1 g2 Hm _ IH]; [auto|]. intros Hg Ht.
  apply IH; [now apply (move_Good g) | now apply (move_Good g) || now apply (move_tight g)].
Qed.

(** A filled cell keeps its value and its candidate set. *)
Definition frozen (g g' : Sudoku) : Prop :=
  forall r c, r < 9 -> c < 9 -> is_zero (cell (board g) r c) = false ->
    cell (board g') r c = cell (board g) r c
    /\ candsAt (candidates g') r c = candsAt (candidates g) r c.

Lemma frozen_refl g : frozen g g.
Proof. intros r c _ _ _. split; reflexivity. Qed.

Lemma frozen_trans g1 g2 g3 : frozen g1 g2 -> frozen g2 g3 -> frozen g1 g3.
Proof.
  intros H12 H23 r c Hr Hc Hnz. destruct (H12 r c Hr Hc Hnz) as [E1 E2].
  destruct (H23 r c Hr Hc) as [E3 E4]; [now rewrite E1|].
  split; congruence.
Qed.

Lemma move_frozen g g' : move g g' -> frozen g g'.
Proof.
  intros [r c d m Hr Hc Hz Hin _ _ | cs' m [_ Hf] _ _ | cs' [_ Hf]]
    r' c' Hr' Hc' Hnz; cbn [addSnapshot withCandidates board candidates].
  - unfold eliminatePeers, placeDigit. cbn [board candidates].
    assert (Hne : (r, c) <> (r', c')) by (intros [= <- <-]; congruence).
    rewrite candsAt_eliminateFromPeers by assumption.
    rewrite !cell_setCell_ne by assumption. rewrite Hnz, andb_false_r.
    split; reflexivity.
  - split; [reflexivity | now apply Hf].
  - split; [reflexivity | now apply Hf].
Qed.

Lemma moves_frozen g g' : moves g g' -> frozen g g'.
Proof.
  induction 1 as [|g g1 g2 Hm _ IH]; [apply frozen_refl|].
  eapply frozen_trans; [apply move_frozen; exact Hm | exact IH].
Qed.

(** A candidate of an empty cell can be placed without a conflict when
    the candidates are tight. *)
Lemma tight_isValid g r c d :
  tight g -> r < 9 -> c < 9 -> is_zero (cell (board g) r c) = true ->
  In d fullSet -> In d (candsAt (candidates g) r c) ->
  isValid (board g) r c d = true.
Proof.
  intros Ht Hr Hc Hz Hd Hin. apply isValid_true; [assumption..|].
  intros r' c' Hr' Hc' Hu.
  destruct (strict_eq (cell (board g) r' c') d) eqn:Es; [exfalso|reflexivity].
  pose proof (strict_eq_fullSet_nonzero _ _ Hd Es) as Hnz.
  apply strict_eq_eq in Es.
  destruct (decide ((r', c') = (r, c))) as [E|E];
    [injection E as -> ->; congruence|].
  apply (Ht r' c' r c Hr' Hc' Hr Hc); try assumption; [|now rewrite Es].
  rewrite isPeer_sameUnit, sameUnit_sym, Hu, andb_true_r.
  apply negb_true_iff, andb_false_iff.
  destruct (Nat.eqb_spec r r') as [->|]; [|now left].
  destruct (Nat.eqb_spec c c') as [->|]; [congruence | now right].
Qed.

Lemma move_conflictFree g g' :
  move g g' -> Good g -> tight g ->
  conflictFree (board g) = true -> conflictFree (board g') = true.
Proof.
  intros [r c d m Hr Hc Hz Hin _ _ | cs' m _ _ _ | cs' _] Hg Ht Hcf;
    cbn [addSnapshot withCandidates board]; [|exact Hcf..].
  unfold eliminatePeers, placeDigit. cbn [board].
  apply conflictFree_place; auto.
  apply (tight_isValid g); auto. now apply (Good_candidate g r c).
Qed.

Lemma moves_conflictFree g g' :
  moves g g' -> Good g -> tight g ->
  conflictFree (board g) = true -> conflictFree (board g') = true.
Proof.
  induction 1 as [|g g1 g2 Hm _ IH]; [auto|]. intros Hg Ht Hcf.
  apply IH; [now apply (move_Good g) | now apply (move_tight g)|].
  now apply (move_conflictFree g).
Qed.




(** Every snapshot shows a state that the session is a frozen
    continuation of. *)
Definition replayable (g : Sudoku) : Prop :=
  forall s, In s (snapshots g) ->
    forall r c, r < 9 -> c < 9 -> is_zero (cell (snap_board s) r c) = false ->
      cell (board g) r c = cell (snap_board s) r c
      /\ candsAt (candidates g) r c = candsAt (snap_candidates s) r c.

Lemma move_replayable g g' : move g g' -> replayable g -> replayable g'.
Proof.
  intros Hm Hrep. pose proof (move_frozen _ _ Hm) as Hf.
  assert (Hold : forall s, In s (snapshots g) ->
            forall r c, r < 9 -> c < 9 ->
              is_zero (cell (snap_board s) r c) = false ->
              cell (board g') r c = cell (snap_board s) r c
              /\ candsAt (candidates g') r c = candsAt (snap_candidates s) r c).
  { intros s Hs r c Hr Hc Hnz. destruct (Hrep s Hs r c Hr Hc Hnz) as [E1 E2].
    destruct (Hf r c Hr Hc) as [E3 E4]; [now rewrite E1|].
    split; congruence. }
  destruct Hm as [r c d m Hr Hc Hz Hin _ _ | cs' m _ _ _ | cs' _];
    intros s Hs; cbn [addSnapshot withCandidates snapshots] in Hs;
    try (apply in_app_or in Hs as [Hs|[<-|[]]]); try now apply Hold.
  - intros r' c' _ _ _. cbn [snap_board snap_candidates].
    now rewrite deepCloneBoard_id, deepCloneCandidates_id.
  - intros r' c' _ _ _. cbn [snap_board snap_candidates].
    now rewrite deepCloneBoard_id, deepCloneCandidates_id.
Qed.

Lemma moves_replayable g g' : moves g g' -> replayable g -> replayable g'.
Proof. induction 1; eauto using move_replayable. Qed.

(** ** The strategies take exact steps *)

(** A call that takes recorded steps, which are exact steps. *)
Definition mp (g : Sudoku) (res : bool * Sudoku) : Prop :=
  post g res /\ moves g res.2.

Lemma mp_false g : mp g (false, g).
Proof. split; [apply post_false | apply rtc_refl]. Qed.

Lemma forFirst_mp {X} (xs : list X) body g :
  (forall x, In x xs -> mp g (body x g)) -> mp g (forFirst xs body g).
Proof.
  induction xs as [|x xs IH]; intros Hb; simpl; [apply mp_false|].
  pose proof (Hb x (or_introl eq_refl)) as Hx.
  destruct (body x g) as [hit g1]. destruct hit; [exact Hx|].
  destruct Hx as [[_ E] _]. simpl in E. subst g1.
  apply IH. intros y Hy. apply Hb. now right.
Qed.

Lemma orElse_mp enabled strategy rest g :
  mp g (strategy g) -> mp g (rest g) ->
  mp g (orElse enabled strategy rest g).
Proof.
  intros Hs Hr. unfold orElse. destruct enabled; [|exact Hr].
  destruct (strategy g) as [hit g1]. destruct hit; [exact Hs|].
  destruct Hs as [[_ E] _]. simpl in E. now subst g1.
Qed.

Lemma orElseUnits_mp {X} enabled (xs : list X) unit rest g :
  (forall x, In x xs -> mp g (unit x g)) -> mp g (rest g) ->
  mp g (orElseUnits enabled xs unit rest g).
Proof.
  intros Hu Hr. unfold orElseUnits. destruct enabled; [|exact Hr].
  pose proof (forFirst_mp xs unit g Hu) as Hf.
  destruct (forFirst xs unit g) as [hit g1]. destruct hit; [exact Hf|].
  destruct Hf as [[_ E] _]. simpl in E. now subst g1.
Qed.

Lemma mp_place g r c d m :
  Good g -> r < 9 -> c < 9 -> is_zero (cell (board g) r c) = true ->
  In d (candsAt (candidates g) r c) ->
  In (metaKey m) recordedPlacements -> is_Some (m_highlight m) ->
  removedOf m = [] ->
  mp g (true, addSnapshot (eliminatePeers (placeDigit g r c d) r c d) m).
Proof.
  intros Hg Hr Hc Hz Hin Hk Hh Hm. split.
  - apply post_place; auto. now apply (Good_candidate g r c).
  - apply rtc_once. now apply move_place.
Qed.

Lemma mp_commitIfRemoved g cs R m :
  elim (candidates g) cs R -> removedOf m = R ->
  calm (board g) (candidates g) cs ->
  In (metaKey m) recordedEliminations -> is_Some (m_highlight m) ->
  mp g (commitIfRemoved g cs R m).
Proof.
  intros He Hm Hc Hk Hh. split; [now apply post_commitIfRemoved|].
  unfold commitIfRemoved. destruct (0 <? length R)%nat; apply rtc_once.
  - now apply move_elim.
  - now apply move_quiet.
Qed.

(** Membership in the tables of recorded kinds. *)
Ltac key_In :=
  unfold metaKey, recordedPlacements, recordedEliminations;
  cbn [m_kind m_variant m_difficulty];
  try (apply in_or_app; right);
  cbn [In]; repeat (first [left; reflexivity | right]).

Lemma nakedSingle_key d h :
  In d fullSet ->
  In (metaKey (mkMeta "Naked Single" (Some (jsnum_to_string d)) 1 h))
    recordedPlacements.
Proof.
  intros Hd. unfold fullSet in Hd. apply in_map_iff in Hd as (z & <- & Hz).
  unfold recordedPlacements, metaKey. cbn [m_kind m_variant m_difficulty].
  apply in_or_app. left.
  apply (in_map (fun d => ("Naked Single", Some (jsnum_to_string (Num d)), 1))
           digits19 z Hz).
Qed.

Lemma applyNakedSingles_moves g opts :
  Good g -> moves g (applyNakedSingles g opts).2.
Proof.
  intros Hg. unfold applyNakedSingles.
  destruct (isFalse opts nakedSingles); [apply rtc_refl|].
  apply (forEach_inv (fun st : bool * Sudoku => moves g st.2 /\ Good st.2));
    [split; [apply rtc_refl | exact Hg]|].
  intros row st Hrow Hst.
  apply (forEach_inv (fun st : bool * Sudoku => moves g st.2 /\ Good st.2));
    [exact Hst|].
  intros col [ch g1] Hcol [Hm1 Hg1]. cbv beta iota zeta. cbn [snd] in Hm1, Hg1.
  apply In_idx9 in Hrow, Hcol.
  destruct (is_zero (cell (board g1) row col)) eqn:Hz; cbn [andb];
    [|now split].
  destruct (Nat.eqb_spec (length (candsAt (candidates g1) row col)) 1)
    as [Hl|Hl]; [|now split].
  cbn [snd].
  assert (Hin : In (candsAt (candidates g1) row col !!! 0)
                  (candsAt (candidates g1) row col))
    by (apply lookup_total_In; lia).
  pose proof (Good_candidate g1 row col _ Hg1 Hz Hin) as Hd.
  assert (Hstep : move g1
            (addSnapshot
               (eliminatePeers
                  (placeDigit g1 row col (candsAt (candidates g1) row col !!! 0))
                  row col (candsAt (candidates g1) row col !!! 0))
               (mkMeta "Naked Single"
                  (Some (jsnum_to_string (candsAt (candidates g1) row col !!! 0)))
                  1 (Some (mkHighlight None None (Some [(row, col)])
                             None None None))))).
  { apply move_place; auto. now apply nakedSingle_key. }
  split; [eapply rtc_r; eauto | now apply (move_Good g1)].
Qed.

Lemma applyHiddenSinglesInRows_mp g :
  Good g -> mp g (applyHiddenSinglesInRows g).
Proof.
  intros Hg. unfold applyHiddenSinglesInRows.
  apply forFirst_mp. intros row Hrow.
  apply forFirst_mp. intros d Hd. cbv zeta.
  destruct (isDigitInRow _ _ _); [apply mp_false|].
  set (possibleCols := List.filter _ idx9).
  destruct (Nat.eqb_spec (length possibleCols) 1) as [Hl|Hl]; [|apply mp_false].
  assert (Hin : In (possibleCols !!! 0) possibleCols)
    by (apply lookup_total_In; lia).
  apply filter_In in Hin as [Hc Ho]. apply andb_true_iff in Ho as [Hz Hh].
  apply set_has_In in Hh. apply In_idx9 in Hrow, Hc.
  apply mp_place; auto; first [now eexists | key_In].
Qed.

Lemma applyHiddenSinglesInColumns_mp g :
  Good g -> mp g (applyHiddenSinglesInColumns g).
Proof.
  intros Hg. unfold applyHiddenSinglesInColumns.
  apply forFirst_mp. intros col Hcol.
  apply forFirst_mp. intros d Hd. cbv zeta.
  destruct (isDigitInCol _ _ _); [apply mp_false|].
  set (possibleRows := List.filter _ idx9).
  destruct (Nat.eqb_spec (length possibleRows) 1) as [Hl|Hl]; [|apply mp_false].
  assert (Hin : In (possibleRows !!! 0) possibleRows)
    by (apply lookup_total_In; lia).
  apply filter_In in Hin as [Hr Ho]. apply andb_true_iff in Ho as [Hz Hh].
  apply set_has_In in Hh. apply In_idx9 in Hcol, Hr.
  apply mp_place; auto; first [now eexists | key_In].
Qed.

Lemma applyHiddenSinglesInBoxes_mp g :
  Good g -> mp g (applyHiddenSinglesInBoxes g).
Proof.
  intros Hg. unfold applyHiddenSinglesInBoxes.
  apply forFirst_mp. intros boxRow Hbr.
  apply forFirst_mp. intros boxCol Hbc.
  apply forFirst_mp. intros d Hd. cbv zeta.
  destruct (isDigitInBox _ _ _ _); [apply mp_false|].
  set (cells := List.filter _ _).
  destruct (Nat.eqb_spec (length cells) 1) as [Hl|Hl]; [|apply mp_false].
  assert (Hin : In (cells !!! 0) cells) by (apply lookup_total_In; lia).
  destruct (cells !!! 0) as [r c]. apply filter_In in Hin as [Hcell Ho].
  apply andb_true_iff in Ho as [Hz Hh]. apply set_has_In in Hh.
  apply In_boxCells in Hcell. apply In_idx3 in Hbr, Hbc.
  apply mp_place; auto; try lia; first [now eexists | key_In].
Qed.

Lemma applyHiddenSingles_moves g opts :
  Good g -> moves g (applyHiddenSingles g opts).2.
Proof.
  intros Hg. unfold applyHiddenSingles.
  destruct (isFalse opts hiddenSingles); [apply rtc_refl|].
  apply orElse_mp; [now apply applyHiddenSinglesInBoxes_mp|].
  apply orElse_mp; [now apply applyHiddenSinglesInRows_mp|].
  apply orElse_mp; [now apply applyHiddenSinglesInColumns_mp|].
  apply mp_false.
Qed.

Lemma applyNakedPairsInRow_mp g row : mp g (applyNakedPairsInRow g row).
Proof.
  unfold applyNakedPairsInRow. cbv zeta. set (emptyCols := List.filter _ _).
  apply forFirst_mp. intros i _. apply forFirst_mp. intros j _.
  destruct (_ && _ && _); [|apply mp_false].
  match goal with
  | |- context [forEach ?xs ?body (candidates g, [])] =>
      assert (Hcalm : calm (board g) (candidates g)
                        (forEach xs body (candidates g, [])).1)
  end.
  { apply (forEach_inv (fun st : Cands * list Triple =>
             calm (board g) (candidates g) st.1)); [apply calm_refl|].
    intros c st _ Hst.
    destruct (is_zero (cell (board g) row c)) eqn:Hz;
      [|now rewrite andb_false_r].
    destruct (_ && _); [|exact Hst]. cbn [andb].
    apply (forEach_inv (fun st : Cands * list Triple =>
             calm (board g) (candidates g) st.1)); [exact Hst|].
    intros v st' _ Hst'. now apply calm_deleteAndRecord. }
  revert Hcalm. run_elim. intros Hcalm.
  apply mp_commitIfRemoved; auto; first [now eexists | key_In].
Qed.

Lemma applyNakedPairsInCol_mp g col : mp g (applyNakedPairsInCol g col).
Proof.
  unfold applyNakedPairsInCol. cbv zeta. set (emptyRows := List.filter _ _).
  apply forFirst_mp. intros i _. apply forFirst_mp. intros j _.
  destruct (_ && _ && _); [|apply mp_false].
  match goal with
  | |- context [forEach ?xs ?body (candidates g, [])] =>
      assert (Hcalm : calm (board g) (candidates g)
                        (forEach xs body (candidates g, [])).1)
  end.
  { apply (forEach_inv (fun st : Cands * list Triple =>
             calm (board g) (candidates g) st.1)); [apply calm_refl|].
    intros r st _ Hst.
    destruct (is_zero (cell (board g) r col)) eqn:Hz;
      [|now rewrite andb_false_r].
    destruct (_ && _); [|exact Hst]. cbn [andb].
    apply (forEach_inv (fun st : Cands * list Triple =>
             calm (board g) (candidates g) st.1)); [exact Hst|].
    intros v st' _ Hst'. now apply calm_deleteAndRecord. }
  revert Hcalm. run_elim. intros Hcalm.
  apply mp_commitIfRemoved; auto; first [now eexists | key_In].
Qed.

Lemma applyNakedPairsInBox_mp g boxRow boxCol :
  mp g (applyNakedPairsInBox g boxRow boxCol).
Proof.
  unfold applyNakedPairsInBox. cbv zeta. set (cells := List.filter _ _).
  apply forFirst_mp. intros i _. apply forFirst_mp. intros j _.
  destruct (cells !!! i) as [r1 c1]. destruct (cells !!! j) as [r2 c2].
  destruct (_ && _ && _); [|apply mp_false].
  match goal with
  | |- context [forEach ?xs ?body (candidates g, [])] =>
      assert (Hcalm : calm (board g) (candidates g)
                        (forEach xs body (candidates g, [])).1)
  end.
  { apply (forEach_inv (fun st : Cands * list Triple =>
             calm (board g) (candidates g) st.1)); [apply calm_refl|].
    intros k st Hk Hst. apply In_range in Hk.
    destruct (_ && _); [|exact Hst].
    assert (Hin : In (cells !!! k) cells) by (apply lookup_total_In; lia).
    destruct (cells !!! k) as [rr cc]. apply filter_In in Hin as [_ Hz].
    apply (forEach_inv (fun st : Cands * list Triple =>
             calm (board g) (candidates g) st.1)); [exact Hst|].
    intros v st' _ Hst'. now apply calm_deleteAndRecord. }
  revert Hcalm. run_elim. intros Hcalm.
  apply mp_commitIfRemoved; auto; first [now eexists | key_In].
Qed.

Lemma applyNakedPairs_moves g opts : moves g (applyNakedPairs g opts).2.
Proof.
  unfold applyNakedPairs.
  destruct (isFalse opts nakedPairs); [apply rtc_refl|].
  apply orElseUnits_mp; [intros; apply applyNakedPairsInRow_mp|].
  apply orElseUnits_mp; [intros; apply applyNakedPairsInCol_mp|].
  apply orElseUnits_mp; [intros [br bc] _; apply applyNakedPairsInBox_mp|].
  apply mp_false.
Qed.

(** The session during a scan of eliminations that started from [g0]. *)
Definition scanning (g0 g : Sudoku) : Prop :=
  moves g0 g /\ board g = board g0.

Lemma scanning_refl g : scanning g g.
Proof. split; [apply rtc_refl | reflexivity]. Qed.

Lemma scanning_recordIfRemoved g0 g ch cs R m :
  scanning g0 g -> calm (board g) (candidates g) cs ->
  In (metaKey m) recordedEliminations -> is_Some (m_highlight m) ->
  scanning g0 (recordIfRemoved g ch cs R m).2.
Proof.
  intros [Hm Hb] Hc Hk Hh. unfold recordIfRemoved.
  destruct (0 <? length R)%nat; (split; [|exact Hb]);
    (eapply rtc_r; [exact Hm|]).
  - now apply move_elim.
  - now apply move_quiet.
Qed.

Lemma applyNakedTriplesInRow_moves g row :
  moves g (applyNakedTriplesInRow g row).2.
Proof.
  unfold applyNakedTriplesInRow. cbv zeta. set (emptyCols := List.filter _ _).
  apply (forEach_inv (fun st : bool * Sudoku => scanning g st.2));
    [apply scanning_refl|].
  intros i st _ Hst.
  apply (forEach_inv (fun st : bool * Sudoku => scanning g st.2)); [exact Hst|].
  intros j st' _ Hst'.
  apply (forEach_inv (fun st : bool * Sudoku => scanning g st.2)); [exact Hst'|].
  intros k [ch g1] _ Hg1. cbv beta iota. cbn [snd] in Hg1.
  destruct (_ && _ && _ && _); [|exact Hg1].
  match goal with
  | |- context [forEach ?xs ?body (ch, candidates g1, [])] =>
      assert (Hcalm : calm (board g1) (candidates g1)
                        (forEach xs body (ch, candidates g1, [])).1.2)
  end.
  { apply (forEach_inv (fun st : bool * Cands * list Triple =>
             calm (board g1) (candidates g1) st.1.2)); [apply calm_refl|].
    intros c st0 _ Hst0.
    destruct (is_zero (cell (board g1) row c)) eqn:Hz;
      [|now rewrite andb_false_r].
    destruct (_ && _ && _); [|exact Hst0]. cbn [andb].
    apply (forEach_inv (fun st : bool * Cands * list Triple =>
             calm (board g1) (candidates g1) st.1.2)); [exact Hst0|].
    intros v st1 _ Hst1. now apply calm_deleteRecordFlag. }
  revert Hcalm.
  match goal with
  | |- context [forEach ?xs ?body (ch, candidates g1, [])] =>
      destruct (forEach xs body (ch, candidates g1, [])) as [[ch' cs'] R']
  end.
  intros Hcalm. apply scanning_recordIfRemoved; auto;
    first [now eexists | key_In].
Qed.

Lemma applyNakedTriplesInColumn_moves g col :
  moves g (applyNakedTriplesInColumn g col).2.
Proof.
  unfold applyNakedTriplesInColumn. cbv zeta.
  set (emptyRows := List.filter _ _).
  apply (forEach_inv (fun st : bool * Sudoku => scanning g st.2));
    [apply scanning_refl|].
  intros i st _ Hst.
  apply (forEach_inv (fun st : bool * Sudoku => scanning g st.2)); [exact Hst|].
  intros j st' _ Hst'.
  apply (forEach_inv (fun st : bool * Sudoku => scanning g st.2)); [exact Hst'|].
  intros k [ch g1] _ Hg1. cbv beta iota. cbn [snd] in Hg1.
  destruct (_ && _ && _ && _); [|exact Hg1].
  match goal with
  | |- context [forEach ?xs ?body (ch, candidates g1, [])] =>
      assert (Hcalm : calm (board g1) (candidates g1)
                        (forEach xs body (ch, candidates g1, [])).1.2)
  end.
  { apply (forEach_inv (fun st : bool * Cands * list Triple =>
             calm (board g1) (candidates g1) st.1.2)); [apply calm_refl|].
    intros r st0 _ Hst0.
    destruct (is_zero (cell (board g1) r col)) eqn:Hz;
      [|now rewrite andb_false_r].
    destruct (_ && _ && _); [|exact Hst0]. cbn [andb].
    apply (forEach_inv (fun st : bool * Cands * list Triple =>
             calm (board g1) (candidates g1) st.1.2)); [exact Hst0|].
    intros v st1 _ Hst1. now apply calm_deleteRecordFlag. }
  revert Hcalm.
  match goal with
  | |- context [forEach ?xs ?body (ch, candidates g1, [])] =>
      destruct (forEach xs body (ch, candidates g1, [])) as [[ch' cs'] R']
  end.
  intros Hcalm. apply scanning_recordIfRemoved; auto;
    first [now eexists | key_In].
Qed.

Lemma applyNakedTriplesInBox_moves g boxRow boxCol :
  moves g (applyNakedTriplesInBox g boxRow boxCol).2.
Proof.
  unfold applyNakedTriplesInBox. cbv zeta.
  set (emptyCells := List.filter _ _).
  apply (forEach_inv (fun st : bool * Sudoku => scanning g st.2));
    [apply scanning_refl|].
  intros i st _ Hst.
  apply (forEach_inv (fun st : bool * Sudoku => scanning g st.2)); [exact Hst|].
  intros j st' _ Hst'.
  apply (forEach_inv (fun st : bool * Sudoku => scanning g st.2)); [exact Hst'|].
  intros k [ch g1] _ Hg1. cbv beta iota. cbn [snd] in Hg1.
  destruct (emptyCells !!! i) as [r1 c1]. destruct (emptyCells !!! j) as [r2 c2].
  destruct (emptyCells !!! k) as [r3 c3].
  destruct (_ && _ && _ && _); [|exact Hg1].
  match goal with
  | |- context [forEach ?xs ?body (ch, candidates g1, [])] =>
      assert (Hcalm : calm (board g1) (candidates g1)
                        (forEach xs body (ch, candidates g1, [])).1.2)
  end.
  { apply (forEach_inv (fun st : bool * Cands * list Triple =>
             calm (board g1) (candidates g1) st.1.2)); [apply calm_refl|].
    intros [rr cc] st0 _ Hst0.
    destruct (is_zero (cell (board g1) rr cc)) eqn:Hz;
      [|now rewrite andb_false_r].
    destruct (_ && _ && _); [|exact Hst0]. cbn [andb].
    apply (forEach_inv (fun st : bool * Cands * list Triple =>
             calm (board g1) (candidates g1) st.1.2)); [exact Hst0|].
    intros v st1 _ Hst1. now apply calm_deleteRecordFlag. }
  revert Hcalm.
  match goal with
  | |- context [forEach ?xs ?body (ch, candidates g1, [])] =>
      destruct (forEach xs body (ch, candidates g1, [])) as [[ch' cs'] R']
  end.
  intros Hcalm. apply scanning_recordIfRemoved; auto;
    first [now eexists | key_In].
Qed.

Lemma applyNakedTriples_moves g opts :
  Good g -> moves g (applyNakedTriples g opts).2.
Proof.
  intros Hg. unfold applyNakedTriples.
  destruct (isFalse opts nakedTriples); [apply rtc_refl|].
  apply orElseUnits_mp.
  { intros r _. split; [now apply applyNakedTriplesInRow_post|].
    apply applyNakedTriplesInRow_moves. }
  apply orElseUnits_mp.
  { intros c _. split; [now apply applyNakedTriplesInColumn_post|].
    apply applyNakedTriplesInColumn_moves. }
  apply orElseUnits_mp.
  { intros [br bc] _. split; [now apply applyNakedTriplesInBox_post|].
    apply applyNakedTriplesInBox_moves. }
  apply mp_false.
Qed.

Lemma eliminateDigitFromBox_mp g boxRow boxCol digit excludeRow excludeCol :
  Good g ->
  mp g (eliminateDigitFromBox g boxRow boxCol digit excludeRow excludeCol).
Proof.
  intros Hg. split; [now apply eliminateDigitFromBox_post|].
  unfold eliminateDigitFromBox. cbv zeta.
  match goal with
  | |- context [forEach ?xs ?body (candidates g, [], [])] =>
      assert (Hcalm : calm (board g) (candidates g)
                        (forEach xs body (candidates g, [], [])).1.1)
  end.
  { apply (forEach_inv
             (fun st : Cands * list Triple * list (nat * nat) =>
                calm (board g) (candidates g) st.1.1)); [apply calm_refl|].
    intros [rr cc] [[cs R] bh] Hin Hst. cbv beta iota.
    destruct (ifPresent excludeRow _ _); [exact Hst|].
    destruct (ifPresent excludeCol _ _); [exact Hst|].
    destruct (is_zero (cell (board g) rr cc)) eqn:Hz; [|exact Hst].
    pose proof (calm_deleteAndRecord (board g) (candidates g) rr cc digit
                  (cs, R) Hz Hst) as Hf.
    destruct (deleteAndRecord rr cc digit (cs, R)) as [cs1 R1]. exact Hf. }
  revert Hcalm.
  match goal with
  | |- context [forEach ?xs ?body (candidates g, [], [])] =>
      destruct (forEach xs body (candidates g, [], [])) as [[cs' R'] bh']
  end.
  intros Hcalm. unfold commitIfRemoved.
  destruct (0 <? length R')%nat; apply rtc_once.
  - apply move_elim; [exact Hcalm| |now eexists].
    destruct excludeRow; key_In.
  - now apply move_quiet.
Qed.

Lemma applyBoxLineReduction_moves g opts :
  Good g -> moves g (applyBoxLineReduction g opts).2.
Proof.
  intros Hg. unfold applyBoxLineReduction.
  destruct (isFalse opts boxLineReduction); [apply rtc_refl|].
  apply orElse_mp.
  { unfold applyBoxLineReductionInRows.
    apply forFirst_mp. intros row _. apply forFirst_mp. intros d _. cbv zeta.
    destruct (isDigitInRow _ _ _); [apply mp_false|].
    destruct (_ && _); [|apply mp_false].
    destruct (forallb _ _); [|apply mp_false].
    now apply eliminateDigitFromBox_mp. }
  apply orElse_mp.
  { unfold applyBoxLineReductionInColumns.
    apply forFirst_mp. intros col _. apply forFirst_mp. intros d _. cbv zeta.
    destruct (isDigitInColumn _ _ _); [apply mp_false|].
    destruct (_ && _); [|apply mp_false].
    destruct (forallb _ _); [|apply mp_false].
    now apply eliminateDigitFromBox_mp. }
  apply mp_false.
Qed.

Lemma applyXWingRows_moves g d : moves g (applyXWingRows g d).2.
Proof.
  unfold applyXWingRows. cbv zeta. set (pos := map _ idx9).
  apply (forEach_inv (fun st : bool * Sudoku => scanning g st.2));
    [apply scanning_refl|].
  intros r1 st _ Hst.
  destruct (length (pos !!! r1) =? 2)%nat; [|exact Hst].
  apply (forEach_inv (fun st : bool * Sudoku => scanning g st.2)); [exact Hst|].
  intros r2 [ch g1] _ Hg1. cbv beta iota. cbn [snd] in Hg1.
  destruct (length (pos !!! r2) =? 2)%nat; [|exact Hg1].
  destruct (_ && _); [|exact Hg1].
  match goal with
  | |- context [forEach ?xs ?body (ch, candidates g1, [])] =>
      assert (Hcalm : calm (board g1) (candidates g1)
                        (forEach xs body (ch, candidates g1, [])).1.2)
  end.
  { apply (forEach_inv (fun st : bool * Cands * list Triple =>
             calm (board g1) (candidates g1) st.1.2)); [apply calm_refl|].
    intros rx st0 _ Hst0. destruct (_ && _); [|exact Hst0]. cbv zeta.
    now apply calm_deleteIfEmpty, calm_deleteIfEmpty. }
  revert Hcalm.
  match goal with
  | |- context [forEach ?xs ?body (ch, candidates g1, [])] =>
      destruct (forEach xs body (ch, candidates g1, [])) as [[ch' cs'] R']
  end.
  intros Hcalm. apply scanning_recordIfRemoved; auto;
    first [now eexists | key_In].
Qed.

Lemma applyXWingColumns_moves g d : moves g (applyXWingColumns g d).2.
Proof.
  unfold applyXWingColumns. cbv zeta. set (pos := map _ idx9).
  apply (forEach_inv (fun st : bool * Sudoku => scanning g st.2));
    [apply scanning_refl|].
  intros c1 st _ Hst.
  destruct (length (pos !!! c1) =? 2)%nat; [|exact Hst].
  apply (forEach_inv (fun st : bool * Sudoku => scanning g st.2)); [exact Hst|].
  intros c2 [ch g1] _ Hg1. cbv beta iota. cbn [snd] in Hg1.
  destruct (length (pos !!! c2) =? 2)%nat; [|exact Hg1].
  destruct (_ && _); [|exact Hg1].
  match goal with
  | |- context [forEach ?xs ?body (ch, candidates g1, [])] =>
      assert (Hcalm : calm (board g1) (candidates g1)
                        (forEach xs body (ch, candidates g1, [])).1.2)
  end.
  { apply (forEach_inv (fun st : bool * Cands * list Triple =>
             calm (board g1) (candidates g1) st.1.2)); [apply calm_refl|].
    intros cx st0 _ Hst0. destruct (_ && _); [|exact Hst0]. cbv zeta.
    now apply calm_deleteIfEmpty, calm_deleteIfEmpty. }
  revert Hcalm.
  match goal with
  | |- context [forEach ?xs ?body (ch, candidates g1, [])] =>
      destruct (forEach xs body (ch, candidates g1, [])) as [[ch' cs'] R']
  end.
  intros Hcalm. apply scanning_recordIfRemoved; auto;
    first [now eexists | key_In].
Qed.

Lemma applyXWing_moves g opts : Good g -> moves g (applyXWing g opts).2.
Proof.
  intros Hg. unfold applyXWing.
  destruct (isFalse opts xWing); [apply rtc_refl|].
  apply forFirst_mp. intros d _.
  apply orElse_mp.
  { split; [now apply applyXWingRows_post | apply applyXWingRows_moves]. }
  apply orElse_mp.
  { split; [now apply applyXWingColumns_post | apply applyXWingColumns_moves]. }
  apply mp_false.
Qed.

Lemma calm_stripOtherCandidates b cs0 cs r c allowed R :
  is_zero (cell b r c) = true -> calm b cs0 cs ->
  calm b cs0 (stripOtherCandidates cs r c allowed R).1.2.
Proof.
  intros Hz Hc. unfold stripOtherCandidates.
  apply (forEach_inv (fun st : bool * Cands * list Triple =>
           calm b cs0 st.1.2)); [exact Hc|].
  intros d st _ Hst. now apply calm_deleteRecordFlag.
Qed.

Lemma scanning_stripPair g0 g ch p1 p2 d1 d2 m :
  scanning g0 g ->
  is_zero (cell (board g) p1.1 p1.2) = true ->
  is_zero (cell (board g) p2.1 p2.2) = true ->
  (forall R, In (metaKey (m R)) recordedEliminations) ->
  (forall R, is_Some (m_highlight (m R))) ->
  scanning g0 (stripPair g ch p1 p2 d1 d2 m).2.
Proof.
  intros Hg H1 H2 Hk Hh. unfold stripPair. cbv zeta.
  pose proof (calm_stripOtherCandidates (board g) (candidates g) (candidates g)
                p1.1 p1.2 [Num d1; Num d2] [] H1 (calm_refl _ _)) as Hf1.
  destruct (stripOtherCandidates (candidates g) p1.1 p1.2 _ _)
    as [[ch1 cs1] R1]. cbn [fst snd] in Hf1.
  pose proof (calm_stripOtherCandidates (board g) (candidates g) cs1
                p2.1 p2.2 [Num d1; Num d2] R1 H2 Hf1) as Hf2.
  destruct (stripOtherCandidates cs1 p2.1 p2.2 _ _) as [[ch2 cs2] R2].
  cbn [fst snd] in Hf2. now apply scanning_recordIfRemoved.
Qed.

Lemma applyHiddenPairsInRow_moves g row res :
  applyHiddenPairsInRow g row = Ok res -> moves g res.2.
Proof.
  unfold applyHiddenPairsInRow. cbv zeta.
  destruct (_ <? 2)%nat;
    [intros E; apply Ok_inj in E; subst res; apply rtc_refl|].
  intros Hb. apply bind_Ok_inv in Hb as (pos & Epos & Hb).
  apply Ok_inj in Hb. rewrite <- Hb. clear Hb res.
  apply (forEach_inv (fun st : bool * Sudoku => scanning g st.2));
    [apply scanning_refl|].
  intros d1 st Hd1 Hst.
  destruct (Nat.eqb_spec (length (pos !!! Z.to_nat d1)) 2) as [Hl|];
    [|exact Hst].
  apply (forEach_inv (fun st : bool * Sudoku => scanning g st.2)); [exact Hst|].
  intros d2 [ch g1] Hd2 Hg1. unfold hiddenPairInRow. cbv zeta.
  destruct (arrayEquals _ _); [|exact Hg1].
  pose proof (digit_range d1 Hd1).
  assert (Hz : forall i, i < 2 ->
            is_zero (cell (board g1) row ((pos !!! Z.to_nat d1) !!! i)) = true).
  { intros i Hi. destruct Hg1 as [_ Hbd]. cbn [snd] in Hbd. rewrite Hbd.
    assert (Hin : In ((pos !!! Z.to_nat d1) !!! i) (pos !!! Z.to_nat d1))
      by (apply lookup_total_In; lia).
    apply (positionsInRow_spec g row pos d1) in Hin as [_ Ho];
      [|exact Epos|lia].
    now apply isOpenFor_zero in Ho. }
  apply scanning_stripPair; [exact Hg1 | | | |]; cbn [fst snd];
    try (apply Hz; lia); intros R; first [now eexists | key_In].
Qed.

Lemma applyHiddenPairsInColumn_moves g col res :
  applyHiddenPairsInColumn g col = Ok res -> moves g res.2.
Proof.
  unfold applyHiddenPairsInColumn. cbv zeta.
  destruct (_ <? 2)%nat;
    [intros E; apply Ok_inj in E; subst res; apply rtc_refl|].
  intros Hb. apply bind_Ok_inv in Hb as (pos & Epos & Hb).
  apply Ok_inj in Hb. rewrite <- Hb. clear Hb res.
  apply (forEach_inv (fun st : bool * Sudoku => scanning g st.2));
    [apply scanning_refl|].
  intros d1 st Hd1 Hst.
  destruct (Nat.eqb_spec (length (pos !!! Z.to_nat d1)) 2) as [Hl|];
    [|exact Hst].
  apply (forEach_inv (fun st : bool * Sudoku => scanning g st.2)); [exact Hst|].
  intros d2 [ch g1] Hd2 Hg1. unfold hiddenPairInColumn. cbv zeta.
  destruct (arrayEquals _ _); [|exact Hg1].
  pose proof (digit_range d1 Hd1).
  assert (Hz : forall i, i < 2 ->
            is_zero (cell (board g1) ((pos !!! Z.to_nat d1) !!! i) col) = true).
  { intros i Hi. destruct Hg1 as [_ Hbd]. cbn [snd] in Hbd. rewrite Hbd.
    assert (Hin : In ((pos !!! Z.to_nat d1) !!! i) (pos !!! Z.to_nat d1))
      by (apply lookup_total_In; lia).
    apply (positionsInColumn_spec g col pos d1) in Hin as [_ Ho];
      [|exact Epos|lia].
    now apply isOpenFor_zero in Ho. }
  apply scanning_stripPair; [exact Hg1 | | | |]; cbn [fst snd];
    try (apply Hz; lia); intros R; first [now eexists | key_In].
Qed.

Lemma applyHiddenPairsInBox_moves g boxRow boxCol res :
  applyHiddenPairsInBox g boxRow boxCol = Ok res -> moves g res.2.
Proof.
  unfold applyHiddenPairsInBox. cbv zeta.
  set (emptyCells := List.filter _ _).
  destruct (_ <? 2)%nat;
    [intros E; apply Ok_inj in E; subst res; apply rtc_refl|].
  intros Hb. apply bind_Ok_inv in Hb as (pos & Epos & Hb).
  apply Ok_inj in Hb. rewrite <- Hb. clear Hb res.
  apply (forEach_inv (fun st : bool * Sudoku => scanning g st.2));
    [apply scanning_refl|].
  intros d1 st Hd1 Hst.
  destruct (Nat.eqb_spec (length (pos !!! Z.to_nat d1)) 2) as [Hl|];
    [|exact Hst].
  apply (forEach_inv (fun st : bool * Sudoku => scanning g st.2)); [exact Hst|].
  intros d2 [ch g1] Hd2 Hg1. unfold hiddenPairInBox. cbv zeta.
  destruct (_ && _); [|exact Hg1].
  pose proof (digit_range d1 Hd1).
  assert (Hz : forall i, i < 2 ->
            is_zero (cell (board g1) ((pos !!! Z.to_nat d1) !!! i).1
                       ((pos !!! Z.to_nat d1) !!! i).2) = true).
  { intros i Hi. destruct Hg1 as [_ Hbd]. cbn [snd] in Hbd. rewrite Hbd.
    assert (Hin : In ((pos !!! Z.to_nat d1) !!! i) (pos !!! Z.to_nat d1))
      by (apply lookup_total_In; lia).
    apply (positionsInBox_spec g emptyCells pos d1) in Hin as [Hin _];
      [|exact Epos|lia].
    destruct ((pos !!! Z.to_nat d1) !!! i) as [rr cc].
    now apply filter_In in Hin as [_ Hin]. }
  apply scanning_stripPair; [exact Hg1 | | | |];
    try (apply Hz; lia); intros R; first [now eexists | key_In].
Qed.

Definition mpR (g : Sudoku) (r : result (bool * Sudoku)) : Prop :=
  forall res, r = Ok res -> mp g res.

Lemma forFirstR_mp {X} (xs : list X) body g :
  (forall x, In x xs -> mpR g (body x g)) -> mpR g (forFirstR xs body g).
Proof.
  induction xs as [|x xs IH]; intros Hb res; cbn [forFirstR].
  - intros E. apply Ok_inj in E. subst res. apply mp_false.
  - pose proof (Hb x (or_introl eq_refl)) as Hx.
    destruct (body x g) as [[hit g1]|e]; [|discriminate].
    specialize (Hx _ eq_refl).
    destruct hit; [intros E; apply Ok_inj in E; now subst res|].
    destruct Hx as [[_ E] _]. cbn in E. subst g1.
    apply IH. intros y Hy. apply Hb. now right.
Qed.

Lemma orElseUnitsR_mp {X} enabled (xs : list X) unit rest g :
  (forall x, In x xs -> mpR g (unit x g)) -> mpR g (rest g) ->
  mpR g (orElseUnitsR enabled xs unit rest g).
Proof.
  intros Hu Hr. unfold orElseUnitsR. destruct enabled; [|exact Hr].
  pose proof (forFirstR_mp xs unit g Hu) as Hf.
  destruct (forFirstR xs unit g) as [[hit g1]|e]; [|intros res; discriminate].
  specialize (Hf _ eq_refl).
  destruct hit; [intros res E; apply Ok_inj in E; now subst res|].
  destruct Hf as [[_ E] _]. cbn in E. now subst g1.
Qed.

Lemma applyHiddenPairs_moves g opts res :
  Good g -> applyHiddenPairs g opts = Ok res -> moves g res.2.
Proof.
  intros Hg.
  enough (H : mpR g (applyHiddenPairs g opts)) by (intros E; now apply H).
  unfold applyHiddenPairs.
  destruct (isFalse opts hiddenPairs);
    [intros res' E; apply Ok_inj in E; subst res'; apply mp_false|].
  apply orElseUnitsR_mp.
  { intros [br bc] _ res' E. split.
    - eapply postR_post; [now apply applyHiddenPairsInBox_post | exact E].
    - now apply (applyHiddenPairsInBox_moves g br bc). }
  apply orElseUnitsR_mp.
  { intros r _ res' E. split.
    - eapply postR_post; [now apply applyHiddenPairsInRow_post | exact E].
    - now apply (applyHiddenPairsInRow_moves g r). }
  apply orElseUnitsR_mp.
  { intros c _ res' E. split.
    - eapply postR_post; [now apply applyHiddenPairsInColumn_post | exact E].
    - now apply (applyHiddenPairsInColumn_moves g c). }
  intros res' E. apply Ok_inj in E. subst res'. apply mp_false.
Qed.

(** ** The scheduler *)

Lemma tryStrategy_moves strategy g0 (st res : bool * Sudoku) :
  (forall g r, Good g -> strategy g = Ok r -> moves g r.2) ->
  Good g0 -> moves g0 st.2 -> tryStrategy strategy st = Ok res ->
  moves g0 res.2.
Proof.
  intros Hs Hg0 Hst. destruct st as [ch g]. unfold tryStrategy.
  destruct ch; cbn [negb].
  - intros E. apply Ok_inj in E. now subst res.
  - destruct (strategy g) as [[hit g']|e] eqn:E; [|discriminate].
    intros E'. apply Ok_inj in E'. subst res. cbn [snd] in *.
    eapply rtc_trans; [exact Hst|].
    apply (Hs g _ (moves_Good _ _ Hst Hg0) E).
Qed.

Lemma pure_moves strategy :
  (forall g, Good g -> moves g (strategy g).2) ->
  forall g r, Good g -> pure strategy g = Ok r -> moves g r.2.
Proof. intros H g r Hg E. apply Ok_inj in E. subst r. now apply H. Qed.

Lemma strategyPass_moves g opts res :
  Good g -> strategyPass g opts = Ok res -> moves g res.2.
Proof.
  intros Hg. unfold strategyPass. cbv zeta. intros H.
  apply bind_Ok_inv in H as (st1 & E1 & H).
  apply bind_Ok_inv in H as (st2 & E2 & H).
  apply bind_Ok_inv in H as (st3 & E3 & H).
  apply bind_Ok_inv in H as (st4 & E4 & H).
  apply bind_Ok_inv in H as (st5 & E5 & H).
  apply bind_Ok_inv in H as (st6 & E6 & H).
  apply (tryStrategy_moves _ g) in E1;
    [|apply pure_moves; intros; now apply applyNakedSingles_moves
     |exact Hg | apply rtc_refl].
  apply (tryStrategy_moves _ g) in E2;
    [|apply pure_moves; intros; now apply applyNakedPairs_moves
     |exact Hg | exact E1].
  apply (tryStrategy_moves _ g) in E3;
    [|apply pure_moves; intros; now apply applyHiddenSingles_moves
     |exact Hg | exact E2].
  apply (tryStrategy_moves _ g) in E4;
    [|apply pure_moves; intros; now apply applyNakedTriples_moves
     |exact Hg | exact E3].
  apply (tryStrategy_moves _ g) in E5;
    [|intros g0 r H0 E0; now apply (applyHiddenPairs_moves g0 opts)
     |exact Hg | exact E4].
  apply (tryStrategy_moves _ g) in E6;
    [|apply pure_moves; intros; now apply applyBoxLineReduction_moves
     |exact Hg | exact E5].
  apply (tryStrategy_moves _ g) in H;
    [exact H | apply pure_moves; intros; now apply applyXWing_moves
     |exact Hg | exact E6].
Qed.

Lemma applyLogicalStrategies_moves fuel g opts g' :
  Good g -> applyLogicalStrategies fuel g opts = Some (Ok g') -> moves g g'.
Proof.
  revert g. induction fuel as [|fuel IH]; intros g Hg Hr; [discriminate|].
  cbn [applyLogicalStrategies] in Hr.
  destruct (strategyPass g opts) as [[changed g1]|e] eqn:E; [|discriminate].
  pose proof (strategyPass_moves g opts _ Hg E) as Hm. cbn [snd] in Hm.
  destruct changed.
  - eapply rtc_trans; [exact Hm|].
    apply IH; [now apply (moves_Good g) | exact Hr].
  - injection Hr as <-. exact Hm.
Qed.

Lemma solveSudoku_moves fuel sb opts g :
  wellFormed sb -> solveSudoku fuel sb opts = Some (Ok g) ->
  exists b0, startBoard sb = Ok b0 /\ shape9 b0 /\ moves (initialGame b0) g.
Proof.
  intros Hwf Hrun. rewrite solveSudoku_unfold in Hrun.
  destruct (startBoard sb) as [b0|e] eqn:Es; [|discriminate].
  pose proof (startBoard_shape9 _ _ Hwf Es) as Hshape.
  exists b0. split; [reflexivity|]. split; [exact Hshape|].
  apply (applyLogicalStrategies_moves fuel _ opts);
    [now apply initialGame_Good | exact Hrun].
Qed.

Lemma initialGame_tight b : tight (initialGame b).
Proof.
  intros r c r' c' Hr Hc Hr' Hc' Hp.
  unfold initialGame, addSnapshot. cbn [board candidates].
  rewrite ?deepCloneBoard_id. intros Hnz Hz.
  rewrite candsAt_buildCandidates, Hz by assumption.
  intros Hin. apply filter_In in Hin as [Hd Hv].
  pose proof (proj1 (isValid_true b r' c' (cell b r c) Hr' Hc') Hv r c Hr Hc)
    as Hq.
  rewrite sameUnit_sym in Hq.
  rewrite isPeer_sameUnit in Hp. apply andb_true_iff in Hp as [_ Hu].
  specialize (Hq Hu). now rewrite strict_eq_refl_digit in Hq.
Qed.

Lemma initialGame_replayable b : replayable (initialGame b).
Proof.
  intros s [<-|[]] r c _ _ _. unfold initialGame, addSnapshot.
  cbn [board candidates snap_board snap_candidates].
  now rewrite !deepCloneBoard_id, deepCloneCandidates_id.
Qed.

(** ** The comparisons of Hidden Pairs and Naked Pairs *)

Lemma arrayEquals_refl (a : list nat) : arrayEquals a a = true.
Proof.
  unfold arrayEquals. rewrite Nat.eqb_refl. cbn [negb].
  apply forallb_forall. intros i _. apply Nat.eqb_refl.
Qed.

Lemma coordLe_total p q : coordLe p q = false -> coordLe q p = true.
Proof.
  unfold coordLe. destruct p as [a b], q as [c d]. cbn [fst snd].
  destruct (Nat.ltb_spec a c), (Nat.ltb_spec c a), (Nat.eqb_spec a c),
    (Nat.eqb_spec c a), (Nat.leb_spec b d), (Nat.leb_spec d b);
    cbn [orb andb]; intros; try reflexivity; try discriminate; lia.
Qed.

Lemma coordLe_antisym p q :
  coordLe p q = true -> coordLe q p = true -> p = q.
Proof.
  unfold coordLe. destruct p as [a b], q as [c d]. cbn [fst snd].
  destruct (Nat.ltb_spec a c), (Nat.ltb_spec c a), (Nat.eqb_spec a c),
    (Nat.eqb_spec c a), (Nat.leb_spec b d), (Nat.leb_spec d b);
    cbn [orb andb]; intros; try discriminate; try lia; f_equal; lia.
Qed.

Lemma coordLe_trans p q s :
  coordLe p q = true -> coordLe q s = true -> coordLe p s = true.
Proof.
  unfold coordLe. destruct p as [a b], q as [c d], s as [e f]. cbn [fst snd].
  destruct (Nat.ltb_spec a c), (Nat.eqb_spec a c), (Nat.leb_spec b d),
    (Nat.ltb_spec c e), (Nat.eqb_spec c e), (Nat.leb_spec d f),
    (Nat.ltb_spec a e), (Nat.eqb_spec a e), (Nat.leb_spec b f);
    cbn [orb andb]; intros; try reflexivity; try discriminate; lia.
Qed.

(** A list in the order of the comparator. *)
Fixpoint sortedCoords (l : list (nat * nat)) : Prop :=
  match l with
  | [] => True
  | p :: l' => (forall q, In q l' -> coordLe p q = true) /\ sortedCoords l'
  end.

Lemma insertCoord_sorted p l :
  sortedCoords l -> sortedCoords (insertCoord p l).
Proof.
  induction l as [|x l IH]; cbn [insertCoord sortedCoords].
  - intros _. split; [intros q []|exact I].
  - intros [Hx Hl]. destruct (coordLe p x) eqn:E; cbn [sortedCoords].
    + split; [|now split]. intros q [<-|Hq]; [exact E|].
      apply (coordLe_trans p x q E). now apply Hx.
    + split; [|now apply IH]. intros q Hq. apply In_insertCoord in Hq as [->|Hq].
      * now apply coordLe_total.
      * now apply Hx.
Qed.

Lemma sortCoords_sorted l : sortedCoords (sortCoords l).
Proof.
  unfold sortCoords. induction l as [|x l IH]; cbn [fold_right];
    [exact I | now apply insertCoord_sorted].
Qed.

Lemma insertCoord_perm p l : Permutation (p :: l) (insertCoord p l).
Proof.
  induction l as [|x l IH]; cbn [insertCoord]; [reflexivity|].
  destruct (coordLe p x); [reflexivity|].
  rewrite perm_swap. now apply perm_skip.
Qed.

Lemma sortCoords_perm l : Permutation l (sortCoords l).
Proof.
  unfold sortCoords. induction l as [|x l IH]; cbn [fold_right]; [reflexivity|].
  rewrite <- insertCoord_perm. now apply perm_skip.
Qed.

Lemma sortedCoords_unique l1 l2 :
  sortedCoords l1 -> sortedCoords l2 -> Permutation l1 l2 -> l1 = l2.
Proof.
  revert l2. induction l1 as [|p l1 IH]; intros l2 H1 H2 Hp.
  - apply Permutation_nil in Hp. now subst.
  - destruct l2 as [|q l2];
      [apply Permutation_sym, Permutation_nil in Hp; discriminate|].
    destruct H1 as [Hp1 H1], H2 as [Hq2 H2].
    assert (E : p = q).
    { assert (Hin1 : In p (q :: l2))
        by (apply (Permutation_in _ Hp); now left).
      assert (Hin2 : In q (p :: l1))
        by (apply (Permutation_in _ (Permutation_sym Hp)); now left).
      destruct Hin1 as [->|Hin1]; [reflexivity|].
      destruct Hin2 as [->|Hin2]; [reflexivity|].
      apply coordLe_antisym; [now apply Hp1 | now apply Hq2]. }
    subst q. f_equal. apply IH; [exact H1 | exact H2|].
    now apply Permutation_cons_inv in Hp.
Qed.

Lemma coordsEquals_sorted (a b : list (nat * nat)) :
  coordsEquals a b = true
  <-> length a = length b /\ sortCoords a = sortCoords b.
Proof.
  unfold coordsEquals. destruct (Nat.eqb_spec (length a) (length b)) as [Hl|Hl];
    cbn [negb]; [|split; [discriminate | tauto]]. cbv zeta.
  rewrite forallb_forall. split.
  - intros Hall. split; [exact Hl|].
    apply lookup_total_ext; [now rewrite !length_sortCoords|]. intros i Hi.
    assert (Hin : In i (range 0 (length (sortCoords a))))
      by (unfold range; apply in_seq; lia).
    specialize (Hall i Hin). apply negb_true_iff, orb_false_iff in Hall.
    destruct Hall as [H1 H2]. apply negb_false_iff, Nat.eqb_eq in H1, H2.
    destruct (sortCoords a !!! i), (sortCoords b !!! i). cbn [fst snd] in *.
    congruence.
  - intros [_ E] i _. rewrite E, !Nat.eqb_refl. reflexivity.
Qed.

(** ** The bound of the logical loop *)

Lemma list_sum_bound {A} (f : A -> nat) (l : list A) k :
  (forall x, In x l -> f x <= k) -> list_sum (map f l) <= length l * k.
Proof.
  induction l as [|x l IH]; intros Hb; simpl; [lia|].
  pose proof (Hb x (or_introl eq_refl)).
  specialize (IH (fun y Hy => Hb y (or_intror Hy))). lia.
Qed.

Lemma gridSum_bound {A} `{Inhabited A} (f : A -> nat) (g : list (list A)) k :
  shape9 g -> (forall r c, r < 9 -> c < 9 -> f (gridGet g r c) <= k) ->
  gridSum f g <= 81 * k.
Proof.
  intros [Hl Hr] Hb. unfold gridSum.
  assert (Hrow : forall row, In row g -> list_sum (map f row) <= 9 * k).
  { intros row Hin. apply list_elem_of_In in Hin.
    apply list_elem_of_lookup_total_1 in Hin as (r & Hlt & <-).
    rewrite Hl in Hlt. rewrite <- (Hr r Hlt). apply list_sum_bound.
    intros x Hx. apply list_elem_of_In in Hx.
    apply list_elem_of_lookup_total_1 in Hx as (c & Hc & <-).
    rewrite (Hr r Hlt) in Hc. now apply Hb. }
  pose proof (list_sum_bound (fun row => list_sum (map f row)) g (9 * k) Hrow).
  rewrite Hl in *. lia.
Qed.

Lemma measure_initialGame b : shape9 b -> measure (initialGame b) <= 810.
Proof.
  intros Hb. unfold measure, initialGame, addSnapshot. cbn [board candidates].
  rewrite deepCloneBoard_id.
  assert (H1 : total (buildCandidates b) <= 81 * 9).
  { apply gridSum_bound; [apply buildCandidates_shape9|]. intros r c Hr Hc.
    change (gridGet (buildCandidates b) r c)
      with (candsAt (buildCandidates b) r c).
    rewrite candsAt_buildCandidates by assumption.
    destruct (is_zero (cell b r c)); [|cbn [length]; lia].
    etransitivity; [apply List.filter_length_le | reflexivity]. }
  assert (H2 : countEmpty b <= 81 * 1).
  { apply gridSum_bound; [exact Hb|]. intros r c _ _.
    destruct (is_zero _); lia. }
  lia.
Qed.

(** ** Logic, then search *)









(** ** Cell highlighting of the board view (components/Board.tsx)

    [Array.prototype.find] returns the first element that satisfies the
    predicate, or [undefined]; the class conditions then test that result for
    truthiness.  A number is truthy when it is not zero, an array always. *)

Definition jsFind {A : Type} (p : A -> bool) (l : option (list A)) : option A :=
  match l with
  | Some xs => List.find p xs
  | None => None
  end.

Definition truthyNum (o : option nat) : bool :=
  match o with
  | Some n => negb (Nat.eqb n 0)
  | None => false
  end.

Definition truthyArr {A : Type} (o : option A) : bool :=
  match o with
  | Some _ => true
  | None => false
  end.

Definition hlField {A : Type} (f : Highlight -> option (list A))
    (h : option Highlight) : option (list A) :=
  match h with
  | Some hl => f hl
  | None => None
  end.

Definition blockHit (h : option Highlight) (rowIndex colIndex : nat)
    : option (nat * nat) :=
  jsFind (fun rc => Nat.eqb rowIndex rc.1 && Nat.eqb colIndex rc.2)
         (hlField hl_blocks h).

(* the condition of the class 'bg-yellow-50' *)
Definition bgYellow50 (h : option Highlight) (rowIndex colIndex : nat) : bool :=
  (truthyNum (jsFind (fun r => Nat.eqb rowIndex r) (hlField hl_rows h))
   || truthyNum (jsFind (fun c => Nat.eqb colIndex c) (hlField hl_cols h))
   || truthyArr (jsFind (fun rc => Nat.eqb (rowIndex / 3) rc.1 && Nat.eqb (colIndex / 3) rc.2)
                        (hlField hl_boxes h)))
  && negb (truthyArr (blockHit h rowIndex colIndex)).

(* the condition of the class 'bg-yellow-300' *)
Definition bgYellow300 (h : option Highlight) (rowIndex colIndex : nat) : bool :=
  truthyArr (blockHit h rowIndex colIndex).

(* the entries of an optional highlight field, none when it is absent *)
Definition hlList {A : Type} (f : Highlight -> option (list A))
    (h : option Highlight) : list A :=
  match hlField f h with
  | Some xs => xs
  | None => []
  end.

Lemma truthyArr_find {A : Type} (p : A -> bool) (l : option (list A)) :
  truthyArr (jsFind p l) = true
  <-> exists x, In x (match l with Some xs => xs | None => [] end) /\ p x = true.
Proof.
  destruct l as [xs|]; simpl.
  - destruct (List.find p xs) as [x|] eqn:E; simpl.
    + apply List.find_some in E. split; [intros _; exists x; exact E|reflexivity].
    + split; [discriminate|]. intros [x [Hx Hp]].
      pose proof (List.find_none _ _ E x Hx). congruence.
  - split; [discriminate|]. intros [x [[] _]].
Qed.

Lemma truthyNum_find (i : nat) (l : option (list nat)) :
  truthyNum (jsFind (fun r => Nat.eqb i r) l) = true
  <-> i <> 0 /\ In i (match l with Some xs => xs | None => [] end).
Proof.
  destruct l as [xs|]; simpl.
  - destruct (List.find (fun r => Nat.eqb i r) xs) as [x|] eqn:E; simpl.
    + apply List.find_some in E. destruct E as [Hx Hp].
      apply Nat.eqb_eq in Hp. subst x.
      rewrite negb_true_iff, Nat.eqb_neq. tauto.
    + split; [discriminate|]. intros [_ Hx].
      pose proof (List.find_none _ _ E i Hx) as Hn. simpl in Hn.
      rewrite Nat.eqb_refl in Hn. discriminate.
  - split; [discriminate|]. intros [_ []].
Qed.

Lemma pair_eqb_In (a b : nat) (l : list (nat * nat)) :
  (exists x, In x l /\ Nat.eqb a x.1 && Nat.eqb b x.2 = true) <-> In (a, b) l.
Proof.
  split.
  - intros [[x y] [Hx Hp]]. simpl in Hp.
    apply andb_true_iff in Hp. destruct Hp as [H1 H2].
    apply Nat.eqb_eq in H1, H2. subst. exact Hx.
  - intros H. exists (a, b). split; [exact H|]. simpl.
    now rewrite !Nat.eqb_refl.
Qed.

(** ** Statements *)

(** The solution of [easyBoard], and the same grid with its last row
    still to fill. *)
Definition easySolved : Board :=
  [ [Num 5; Num 3; Num 4; Num 6; Num 7; Num 8; Num 9; Num 1; Num 2];
    [Num 6; Num 7; Num 2; Num 1; Num 9; Num 5; Num 3; Num 4; Num 8];
    [Num 1; Num 9; Num 8; Num 3; Num 4; Num 2; Num 5; Num 6; Num 7];
    [Num 8; Num 5; Num 9; Num 7; Num 6; Num 1; Num 4; Num 2; Num 3];
    [Num 4; Num 2; Num 6; Num 8; Num 5; Num 3; Num 7; Num 9; Num 1];
    [Num 7; Num 1; Num 3; Num 9; Num 2; Num 4; Num 8; Num 5; Num 6];
    [Num 9; Num 6; Num 1; Num 5; Num 3; Num 7; Num 2; Num 8; Num 4];
    [Num 2; Num 8; Num 7; Num 4; Num 1; Num 9; Num 6; Num 3; Num 5];
    [Num 3; Num 4; Num 5; Num 2; Num 8; Num 6; Num 1; Num 7; Num 9] ].

Definition lastRowOpen : Sudoku :=
  let b := firstn 8 easySolved ++ [repeat (Num 0) 9] in
  mkSudoku b (buildCandidates b) [].

(** [eliminateFromPeers(game, row, col, digit)] deletes the digit from the
    candidate set of every empty cell that shares the row, the column or
    the box of (row, col), the cell itself excepted, and changes no other
    candidate set. *)
Theorem eliminateFromPeers_spec (b : Board) (cs : Cands) (row col : nat)
  (digit : jsnum) (r c : nat) :
  is9x9 b = true -> is9x9 cs = true ->
  row < 9 -> col < 9 -> r < 9 -> c < 9 ->
  candsAt (eliminateFromPeers b cs row col digit) r c
  = if isPeer row col r c && is_zero (cell b r c)
    then set_remove (candsAt cs r c) digit
    else candsAt cs r c.
Proof. intros _ _. apply candsAt_eliminateFromPeers. Qed.

Lemma eliminateFromPeers_spec_witness :
  candsAt (eliminateFromPeers easyBoard (buildCandidates easyBoard) 0 2 (Num 4))
    1 1
  = if isPeer 0 2 1 1 && is_zero (cell easyBoard 1 1)
    then set_remove (candsAt (buildCandidates easyBoard) 1 1) (Num 4)
    else candsAt (buildCandidates easyBoard) 1 1.
Proof.
  apply (eliminateFromPeers_spec easyBoard (buildCandidates easyBoard)
           0 2 (Num 4) 1 1); first [reflexivity | lia].
Defined.

(** [isValid(board, row, col, digit)] returns [true] exactly when no cell
    of the row, of the column and of the 3x3 box of (row, col), the cell
    itself included, is [===] the digit. *)
Theorem isValid_spec (b : Board) (row col : nat) (digit : jsnum) :
  is9x9 b = true -> row < 9 -> col < 9 ->
  (isValid b row col digit = true
   <-> forall r c, r < 9 -> c < 9 ->
         r = row \/ c = col \/ (r / 3 = row / 3 /\ c / 3 = col / 3) ->
         strict_eq (cell b r c) digit = false).
Proof.
  intros _ Hrow Hcol. rewrite isValid_true by assumption.
  split; intros Hall r c Hr Hc Hu; apply Hall; try assumption.
  - unfold sameUnit. destruct Hu as [->|[->|[-> ->]]];
      rewrite ?Nat.eqb_refl, ?orb_true_r; reflexivity.
  - unfold sameUnit in Hu.
    apply orb_true_iff in Hu as [Hu|Hu];
      [apply orb_true_iff in Hu as [Hu|Hu]|].
    + left. now apply Nat.eqb_eq.
    + right. left. now apply Nat.eqb_eq.
    + right. right. apply andb_true_iff in Hu as [H1 H2].
      split; now apply Nat.eqb_eq.
Qed.

Lemma isValid_spec_witness :
  isValid easyBoard 0 2 (Num 4) = true
  <-> forall r c, r < 9 -> c < 9 ->
        r = 0 \/ c = 2 \/ (r / 3 = 0 / 3 /\ c / 3 = 2 / 3) ->
        strict_eq (cell easyBoard r c) (Num 4) = false.
Proof.
  apply (isValid_spec easyBoard 0 2 (Num 4)); first [reflexivity | lia].
Defined.

(** [buildCandidates] gives a filled cell the set that holds its value
    and an empty cell the digits 1..9 that [isValid] accepts for it, in
    increasing order. *)
Theorem buildCandidates_spec (b : Board) (r c : nat) :
  is9x9 b = true -> r < 9 -> c < 9 ->
  candsAt (buildCandidates b) r c
  = if is_zero (cell b r c) then List.filter (isValid b r c) fullSet
    else [cell b r c].
Proof. intros _. apply candsAt_buildCandidates. Qed.

Lemma buildCandidates_spec_witness :
  candsAt (buildCandidates easyBoard) 0 2
  = if is_zero (cell easyBoard 0 2)
    then List.filter (isValid easyBoard 0 2) fullSet
    else [cell easyBoard 0 2].
Proof.
  apply (buildCandidates_spec easyBoard 0 2); first [reflexivity | lia].
Defined.

(** [findEmptyCell] returns no cell exactly when [isComplete] holds;
    otherwise it returns the first empty cell in row-major order. *)
Theorem findEmptyCell_spec (b : Board) :
  is9x9 b = true ->
  (findEmptyCell b = None <-> isComplete b = true)
  /\ forall row col, findEmptyCell b = Some (row, col) ->
       row < 9 /\ col < 9 /\ cell b row col = Num 0
       /\ forall r c, r < 9 -> c < 9 -> r < row \/ (r = row /\ c < col) ->
            is_zero (cell b r c) = false.
Proof.
  intros _. split; [apply findEmptyCell_None|]. intros row col Hf.
  destruct (findEmptyCell_Some _ _ _ Hf) as (Hz & Hrow & Hcol).
  repeat split; try assumption. intros r c Hr Hc Hlt.
  apply (findEmptyCell_first b row col r c Hf Hr Hc).
  unfold scanIndex. cbn [fst snd]. lia.
Qed.

Lemma findEmptyCell_spec_witness :
  findEmptyCell easyBoard = Some (0, 2)
  /\ forall r c, r < 9 -> c < 9 -> r < 0 \/ (r = 0 /\ c < 2) ->
       is_zero (cell easyBoard r c) = false.
Proof.
  split; [reflexivity|].
  apply (proj2 (findEmptyCell_spec easyBoard eq_refl) 0 2 eq_refl).
Defined.

(** When [backtrack] returns [true] the board is complete, every cell
    that was filled at entry holds the value it had, and no digit occurs
    twice in a row, a column or a box if none did at entry. *)
Theorem backtrack_true_spec (fuel : nat) (g g' : Sudoku) :
  is9x9 (board g) = true -> is9x9 (candidates g) = true ->
  backtrack fuel g = Some (true, g') ->
  isComplete (board g') = true
  /\ (forall r c, r < 9 -> c < 9 -> is_zero (cell (board g) r c) = false ->
        cell (board g') r c = cell (board g) r c)
  /\ (conflictFree (board g) = true -> conflictFree (board g') = true).
Proof.
  intros _ Hs. apply is9x9_shape9 in Hs. now apply backtrack_true.
Qed.

Lemma backtrack_true_spec_witness :
  exists g',
    backtrack 10 lastRowOpen = Some (true, g')
    /\ isComplete (board g') = true
    /\ (forall r c, r < 9 -> c < 9 ->
          is_zero (cell (board lastRowOpen) r c) = false ->
          cell (board g') r c = cell (board lastRowOpen) r c)
    /\ (conflictFree (board lastRowOpen) = true ->
        conflictFree (board g') = true).
Proof.
  eexists. split; [vm_compute; reflexivity|].
  apply (backtrack_true_spec 10 lastRowOpen); vm_compute; reflexivity.
Defined.

(** If a valid grid agrees with the filled cells of the board and, for
    each empty cell, its digit is among the candidates, [backtrack] never
    returns [false]; with a bound on the depth above the number of empty
    cells it returns [true] with a complete board without conflict. *)
Theorem backtrack_finds_solution (fuel : nat) (g : Sudoku) (sol : Board) :
  is9x9 (board g) = true -> is9x9 (candidates g) = true ->
  is9x9 sol = true -> validGrid sol = true ->
  admits g sol = true ->
  (forall fuel' g', backtrack fuel' g <> Some (false, g'))
  /\ (countEmpty (board g) < fuel ->
      exists g', backtrack fuel g = Some (true, g')
        /\ isComplete (board g') = true
        /\ conflictFree (board g') = true).
Proof.
  intros _ Hs _ Hsol Ha. apply is9x9_shape9 in Hs. split.
  - intros fuel' g'. now apply (backtrack_not_false sol Hsol).
  - intros Hfuel. destruct (backtrack_total fuel g Hs Hfuel) as ([[|] g'] & E).
    + exists g'. split; [exact E|].
      destruct (backtrack_true _ _ _ Hs E) as (Hc & _ & Hcf).
      split; [exact Hc|]. apply Hcf.
      exact (admits_conflictFree sol Hsol _ _ Ha).
    + exfalso. exact (backtrack_not_false sol Hsol _ _ _ Hs Ha E).
Qed.

Lemma backtrack_finds_solution_witness :
  exists g', backtrack 10 lastRowOpen = Some (true, g')
    /\ isComplete (board g') = true
    /\ conflictFree (board g') = true.
Proof.
  apply (backtrack_finds_solution 10 lastRowOpen easySolved);
    vm_compute; first [reflexivity | lia].
Defined.

(** The session [solveSudoku] returns keeps every filled cell of the board
    it started from, both grids are 9x9, and the candidate set of a cell
    is a subset of the set [buildCandidates] gave it; the candidates of an
    empty cell are digits 1..9. *)
Theorem solveSudoku_keeps_clues (fuel : nat) (sb : Board + string)
  (opts : option SolverOptions) (b0 : Board) (g : Sudoku) :
  wellFormed sb -> startBoard sb = Ok b0 ->
  solveSudoku fuel sb opts = Some (Ok g) ->
  (forall r c, r < 9 -> c < 9 -> is_zero (cell b0 r c) = false ->
     cell (board g) r c = cell b0 r c)
  /\ (forall r c d, In d (candsAt (candidates g) r c) ->
        In d (candsAt (buildCandidates b0) r c))
  /\ shape9 (board g) /\ shape9 (candidates g)
  /\ (forall r c d, is_zero (cell (board g) r c) = true ->
        In d (candsAt (candidates g) r c) -> In d fullSet).
Proof.
  intros Hwf Hb0 Hrun.
  destruct (solveSudoku_units _ _ _ _ Hwf Hrun) as (b & Hb & Hshape & U).
  rewrite Hb0 in Hb. injection Hb as <-.
  destruct (units_Good _ _ U (initialGame_Good _ Hshape)) as (H1 & H2 & H3).
  split; [|split; [|auto]].
  - intros r c Hr Hc Hnz.
    rewrite (units_board _ _ r c U); unfold initialGame, addSnapshot;
      cbn [board]; rewrite deepCloneBoard_id; [reflexivity | exact Hnz].
  - intros r c d Hin. destruct (units_shrinks _ _ U) as [R He].
    apply (elim_sub _ _ _ He) in Hin. unfold initialGame, addSnapshot in Hin.
    cbn [candidates] in Hin. now rewrite deepCloneBoard_id in Hin.
Qed.

Lemma solveSudoku_keeps_clues_witness :
  exists g,
    solveSudoku 100 (inr easyPuzzle) None = Some (Ok g)
    /\ (forall r c, r < 9 -> c < 9 -> is_zero (cell easyBoard r c) = false ->
          cell (board g) r c = cell easyBoard r c)
    /\ (forall r c d, In d (candsAt (candidates g) r c) ->
          In d (candsAt (buildCandidates easyBoard) r c))
    /\ shape9 (board g) /\ shape9 (candidates g)
    /\ (forall r c d, is_zero (cell (board g) r c) = true ->
          In d (candsAt (candidates g) r c) -> In d fullSet).
Proof.
  eexists. split; [vm_compute; reflexivity|].
  apply (solveSudoku_keeps_clues 100 (inr easyPuzzle) None easyBoard _ I);
    vm_compute; reflexivity.
Defined.

(** The snapshot list [solveSudoku] returns starts with the "Initial
    Board" snapshot of the starting board and its candidates, its last
    entry is a copy of the returned board and candidate grid, and from
    each snapshot to the next the filled cells stay as they are and no
    candidate comes back. *)
Theorem solveSudoku_snapshots_replay (fuel : nat) (sb : Board + string)
  (opts : option SolverOptions) (b0 : Board) (g : Sudoku) :
  wellFormed sb -> startBoard sb = Ok b0 ->
  solveSudoku fuel sb opts = Some (Ok g) ->
  (exists rest,
     snapshots g
     = mkSnapshot b0 (buildCandidates b0) "Initial Board" None 0 None :: rest)
  /\ (exists lst, last (snapshots g) = Some lst
        /\ snap_board lst = board g /\ snap_candidates lst = candidates g)
  /\ forall i prev cur,
       snapshots g !! i = Some prev -> snapshots g !! S i = Some cur ->
       (forall r c, is_zero (cell (snap_board prev) r c) = false ->
          cell (snap_board cur) r c = cell (snap_board prev) r c)
       /\ (forall r c d, In d (candsAt (snap_candidates cur) r c) ->
             In d (candsAt (snap_candidates prev) r c)).
Proof.
  intros Hwf Hb0 Hrun.
  destruct (solveSudoku_units _ _ _ _ Hwf Hrun) as (b & Hb & Hshape & U).
  rewrite Hb0 in Hb. injection Hb as <-. split; [|split].
  - destruct (units_prefix _ _ U) as (more & E). exists more. rewrite E.
    unfold initialGame, addSnapshot. cbn [snapshots app m_kind m_variant
      m_difficulty m_highlight board candidates].
    now rewrite deepCloneCandidates_id, !deepCloneBoard_id.
  - exact (units_mirrors _ _ U (initialGame_mirrors b0)).
  - exact (units_growing _ _ U (initialGame_mirrors b0)
             (initialGame_growing b0)).
Qed.

Lemma solveSudoku_snapshots_replay_witness :
  exists g,
    solveSudoku 100 (inr easyPuzzle) None = Some (Ok g)
    /\ exists lst, last (snapshots g) = Some lst
         /\ snap_board lst = board g /\ snap_candidates lst = candidates g.
Proof.
  eexists. split; [vm_compute; reflexivity|].
  apply (solveSudoku_snapshots_replay 100 (inr easyPuzzle) None easyBoard _ I);
    vm_compute; reflexivity.
Defined.

(** The session [solveSudoku] returns is a fixpoint of the scheduler: a
    further pass over the strategies reports no change and leaves it as it
    is, so solving it again returns it; if Naked Singles are enabled, no
    empty cell is left with exactly one candidate. *)
Theorem solveSudoku_result_is_fixpoint (fuel : nat) (sb : Board + string)
  (opts : option SolverOptions) (g : Sudoku) :
  wellFormed sb ->
  solveSudoku fuel sb opts = Some (Ok g) ->
  strategyPass g opts = Ok (false, g)
  /\ (forall fuel', applyLogicalStrategies (S fuel') g opts = Some (Ok g))
  /\ (isFalse opts nakedSingles = false ->
      forall r c, r < 9 -> c < 9 -> is_zero (cell (board g) r c) = true ->
        length (candsAt (candidates g) r c) <> 1).
Proof.
  intros Hwf Hrun. pose proof Hrun as Hrun'.
  rewrite solveSudoku_unfold in Hrun'.
  destruct (startBoard sb) as [b0|e] eqn:Es; [|discriminate].
  pose proof (startBoard_shape9 _ _ Hwf Es) as Hshape.
  pose proof (applyLogicalStrategies_stable _ _ _ _
                (initialGame_Good _ Hshape) Hrun') as Hst.
  split; [exact Hst|]. split.
  - intros fuel'. cbn [applyLogicalStrategies]. now rewrite Hst.
  - intros Hon r c Hr Hc Hz Hlen.
    destruct (strategyPass_false_nakedSingles _ _ _ Hst) as (g1 & Hns).
    rewrite (applyNakedSingles_cells g opts Hon) in Hns.
    destruct (visitCells_scan cells81 false g) as (placed & g' & E & Hs & _).
    rewrite E in Hns. injection Hns as Hp _. destruct placed; [|discriminate].
    pose proof (nakedSingleScan_none _ _ _ Hs (r, c)
                  (proj2 (cells81_all r c) (conj Hr Hc))) as Hn.
    unfold nakedSingleAt in Hn. cbn [fst snd] in Hn.
    rewrite Hz, Hlen in Hn. discriminate.
Qed.

Lemma solveSudoku_result_is_fixpoint_witness :
  exists g,
    solveSudoku 100 (inr hardPuzzle) None = Some (Ok g)
    /\ strategyPass g None = Ok (false, g).
Proof.
  eexists. split; [vm_compute; reflexivity|].
  apply (solveSudoku_result_is_fixpoint 100 (inr hardPuzzle) None _ I).
  vm_compute. reflexivity.
Defined.

(** For a string of 81 characters [stringToBoard] returns the 9x9 matrix
    whose cell (row, col) is read from the character at [row * 9 + col]:
    0 for [.] and [0], the value of the digit for [1] to [9], and [NaN]
    for any other character. *)
Theorem stringToBoard_cells (s : string) :
  String.length s = 81 ->
  stringToBoard s
  = Ok (map (fun row =>
          map (fun col => charCell (char_at s (row * 9 + col))) idx9) idx9)
  /\ (forall ch, charCell ch
        = if Ascii.eqb ch "."%char || Ascii.eqb ch "0"%char then Num 0
          else if (49 <=? nat_of_ascii ch)%nat && (nat_of_ascii ch <=? 57)%nat
               then Num (Z.of_nat (nat_of_ascii ch - 48))
               else NaN).
Proof.
  intros Hl. split.
  - unfold stringToBoard. rewrite Hl. simpl negb. cbv iota.
    now rewrite parseRows_value.
  - intros ch. unfold charCell, parseInt1.
    destruct (Ascii.eqb ch "." || Ascii.eqb ch "0") eqn:E; [reflexivity|].
    apply orb_false_iff in E as [_ E0]. apply Ascii.eqb_neq in E0.
    destruct (Nat.leb_spec 48 (nat_of_ascii ch)),
      (Nat.leb_spec 49 (nat_of_ascii ch)),
      (Nat.leb_spec (nat_of_ascii ch) 57); cbn [andb]; try reflexivity;
      try lia.
    exfalso. apply E0. assert (Hn : nat_of_ascii ch = 48) by lia.
    rewrite <- (ascii_nat_embedding ch), Hn. reflexivity.
Qed.

Lemma stringToBoard_cells_witness : stringToBoard easyPuzzle = Ok easyBoard.
Proof.
  etransitivity;
    [apply (proj1 (stringToBoard_cells easyPuzzle eq_refl)) | reflexivity].
Defined.

(** Whatever strategies are enabled, [solveSudoku] never contradicts a
    solution of the puzzle it is given: in the session it returns every
    filled cell holds the digit the solution has there, and every empty
    cell still has the digit of the solution among its candidates. *)
Theorem solveSudoku_keeps_solution (fuel : nat) (sb : Board + string)
  (opts : option SolverOptions) (b0 sol : Board) (g : Sudoku) :
  wellFormed sb -> startBoard sb = Ok b0 -> solves b0 sol = true ->
  solveSudoku fuel sb opts = Some (Ok g) ->
  forall r c, r < 9 -> c < 9 ->
    if is_zero (cell (board g) r c)
    then In (cell sol r c) (candsAt (candidates g) r c)
    else cell (board g) r c = cell sol r c.
Proof.
  intros Hwf Hb0 Hsol Hrun r c Hr Hc.
  pose proof (solveSudoku_Sound _ _ _ _ _ _ Hwf Hb0 Hsol Hrun) as Hg.
  now apply Sound_admits.
Qed.

Lemma solveSudoku_keeps_solution_witness :
  exists g,
    solveSudoku 100 (inr hardPuzzle) None = Some (Ok g)
    /\ forall r c, r < 9 -> c < 9 ->
         if is_zero (cell (board g) r c)
         then In (cell hardSolved r c) (candsAt (candidates g) r c)
         else cell (board g) r c = cell hardSolved r c.
Proof.
  eexists. split; [vm_compute; reflexivity|].
  apply (solveSudoku_keeps_solution 100 (inr hardPuzzle) None hardBoard
           hardSolved _ I); vm_compute; reflexivity.
Defined.





(** In the session [solveSudoku] returns, whatever the input and the
    options, the candidates are tight: no empty cell has among its
    candidates the value of a filled cell of its row, column or box.  If
    no value occurred twice in a row, column or box of the starting
    board, none does in the returned board. *)
Theorem solveSudoku_result_tight (fuel : nat) (sb : Board + string)
  (opts : option SolverOptions) (b0 : Board) (g : Sudoku) :
  wellFormed sb -> startBoard sb = Ok b0 ->
  solveSudoku fuel sb opts = Some (Ok g) ->
  tight g /\ (conflictFree b0 = true -> conflictFree (board g) = true).
Proof.
  intros Hwf Hb0 Hrun.
  destruct (solveSudoku_moves _ _ _ _ Hwf Hrun) as (b & Hb & Hshape & Hm).
  rewrite Hb0 in Hb. apply Ok_inj in Hb. subst b.
  pose proof (initialGame_Good _ Hshape) as Hg.
  pose proof (initialGame_tight b0) as Ht.
  split; [now apply (moves_tight (initialGame b0))|].
  intros Hcf. apply (moves_conflictFree (initialGame b0)); auto.
  unfold initialGame, addSnapshot. cbn [board]. now rewrite deepCloneBoard_id.
Qed.

Lemma solveSudoku_result_tight_witness :
  exists g,
    solveSudoku 100 (inr hardPuzzle) None = Some (Ok g)
    /\ tight g /\ (conflictFree hardBoard = true ->
                   conflictFree (board g) = true).
Proof.
  eexists. split; [vm_compute; reflexivity|].
  apply (solveSudoku_result_tight 100 (inr hardPuzzle) None hardBoard _ I);
    vm_compute; reflexivity.
Defined.

(** The logical phase never touches a filled cell: in the session
    [solveSudoku] returns, a cell that was filled in the starting board
    has the one-element candidate set of its value, and a cell that is
    filled in a snapshot of the sequence has the value and the candidate
    set it has in that snapshot (for a cell a strategy filled, the set it
    had when it was filled). *)
Theorem solveSudoku_filled_cells_frozen (fuel : nat) (sb : Board + string)
  (opts : option SolverOptions) (b0 : Board) (g : Sudoku) :
  wellFormed sb -> startBoard sb = Ok b0 ->
  solveSudoku fuel sb opts = Some (Ok g) ->
  (forall r c, r < 9 -> c < 9 -> is_zero (cell b0 r c) = false ->
     candsAt (candidates g) r c = [cell b0 r c])
  /\ (forall s, In s (snapshots g) ->
        forall r c, r < 9 -> c < 9 ->
          is_zero (cell (snap_board s) r c) = false ->
          cell (board g) r c = cell (snap_board s) r c
          /\ candsAt (candidates g) r c = candsAt (snap_candidates s) r c).
Proof.
  intros Hwf Hb0 Hrun.
  destruct (solveSudoku_moves _ _ _ _ Hwf Hrun) as (b & Hb & Hshape & Hm).
  rewrite Hb0 in Hb. apply Ok_inj in Hb. subst b. split.
  - intros r c Hr Hc Hnz.
    destruct (moves_frozen _ _ Hm r c Hr Hc) as [_ E].
    + unfold initialGame, addSnapshot. cbn [board].
      now rewrite deepCloneBoard_id.
    + rewrite E. unfold initialGame, addSnapshot. cbn [candidates].
      rewrite deepCloneBoard_id, candsAt_buildCandidates by assumption.
      now rewrite Hnz.
  - apply (moves_replayable _ _ Hm). apply initialGame_replayable.
Qed.

Lemma solveSudoku_filled_cells_frozen_witness :
  exists g,
    solveSudoku 100 (inr hardPuzzle) None = Some (Ok g)
    /\ (forall r c, r < 9 -> c < 9 -> is_zero (cell hardBoard r c) = false ->
          candsAt (candidates g) r c = [cell hardBoard r c])
    /\ (forall s, In s (snapshots g) ->
          forall r c, r < 9 -> c < 9 ->
            is_zero (cell (snap_board s) r c) = false ->
            cell (board g) r c = cell (snap_board s) r c
            /\ candsAt (candidates g) r c = candsAt (snap_candidates s) r c).
Proof.
  eexists. split; [vm_compute; reflexivity|].
  apply (solveSudoku_filled_cells_frozen 100 (inr hardPuzzle) None hardBoard
           _ I); vm_compute; reflexivity.
Defined.



(** [arrayEquals] is equality of the two arrays, position by position. *)
Theorem arrayEquals_spec (a b : list nat) : arrayEquals a b = true <-> a = b.
Proof.
  split; [apply arrayEquals_eq | intros ->; apply arrayEquals_refl].
Qed.

(** [coordsEquals] does not depend on the order of the coordinates: it
    returns [true] exactly when the one array is a permutation of the
    other (the same cells with the same multiplicities). *)
Theorem coordsEquals_spec (a b : list (nat * nat)) :
  coordsEquals a b = true <-> Permutation a b.
Proof.
  rewrite coordsEquals_sorted. split.
  - intros [_ E]. rewrite (sortCoords_perm a), E. symmetry.
    apply sortCoords_perm.
  - intros Hp. split; [now apply Permutation_length|].
    apply sortedCoords_unique; [apply sortCoords_sorted..|].
    now rewrite <- (sortCoords_perm a), <- (sortCoords_perm b).
Qed.

(** On sets (lists without repetition) [areSetsEqual] is equality of
    sets: it returns [true] exactly when the two have the same elements. *)
Theorem areSetsEqual_spec (a b : CSet) :
  List.NoDup a -> List.NoDup b ->
  areSetsEqual a b = true <-> (forall x, In x a <-> In x b).
Proof.
  intros Ha Hb. unfold areSetsEqual.
  destruct (Nat.eqb_spec (length a) (length b)) as [Hl|Hl]; cbn [negb].
  - rewrite forallb_forall. split.
    + intros Hall. assert (Hincl : incl a b).
      { intros x Hx. apply set_has_In. now apply Hall. }
      intros x. split; [apply Hincl|].
      apply (List.NoDup_length_incl Ha); [lia | exact Hincl].
    + intros Heq x Hx. apply set_has_In. now apply Heq.
  - split; [discriminate|]. intros Heq. exfalso. apply Hl.
    apply Nat.le_antisymm; apply List.NoDup_incl_length; auto;
      intros x Hx; now apply Heq.
Qed.

Lemma areSetsEqual_spec_witness :
  areSetsEqual [Num 2; Num 7] [Num 7; Num 2] = true
  <-> (forall x, In x [Num 2; Num 7] <-> In x [Num 7; Num 2]).
Proof.
  apply (areSetsEqual_spec [Num 2; Num 7] [Num 7; Num 2]);
    repeat (constructor; [cbn [In]; intros H;
      repeat (destruct H as [H|H]; [discriminate|]); exact H|]);
    constructor.
Defined.

(** The logical loop of [solveSudoku] stops within 811 iterations on
    every input that parses, whatever the options, and the session it
    returns has at most 811 snapshots: each recorded step removes a
    candidate or fills a cell, and a 9x9 session has at most 729
    candidates and 81 empty cells. *)
Theorem solveSudoku_within_bound (sb : Board + string)
  (opts : option SolverOptions) (b0 : Board) :
  wellFormed sb -> startBoard sb = Ok b0 ->
  exists g,
    (forall fuel, 811 <= fuel -> solveSudoku fuel sb opts = Some (Ok g))
    /\ length (snapshots g) <= 811.
Proof.
  intros Hwf Hb0. pose proof (startBoard_shape9 _ _ Hwf Hb0) as Hshape.
  pose proof (initialGame_Good _ Hshape) as Hg.
  pose proof (measure_initialGame _ Hshape) as Hm.
  destruct (applyLogicalStrategies_terminates 811 (initialGame b0) opts Hg)
    as (g & E & U); [lia|].
  exists g. split.
  - intros fuel Hle. rewrite solveSudoku_unfold, Hb0.
    now apply (applyLogicalStrategies_fuel_mono 811).
  - pose proof (units_measure _ _ U) as Hu.
    change (length (snapshots (initialGame b0))) with 1 in Hu. lia.
Qed.

Lemma solveSudoku_within_bound_witness :
  exists g,
    (forall fuel, 811 <= fuel ->
       solveSudoku fuel (inr hardPuzzle) None = Some (Ok g))
    /\ length (snapshots g) <= 811.
Proof.
  apply (solveSudoku_within_bound (inr hardPuzzle) None hardBoard I).
  vm_compute. reflexivity.
Defined.





(** X23 (components/Board.tsx, the cell classes of [SudokuBoard]).  A cell
    gets the strong background exactly when it is one of the highlighted
    blocks.  It gets the light background exactly when it is not such a block
    and its box is highlighted, or its row is highlighted and is not row 0, or
    its column is highlighted and is not column 0: the row and column tests
    take the truthiness of the index that [find] returns, so a highlight of
    row 0 or of column 0 never colours a cell.  The two backgrounds are never
    given together. *)
Theorem cell_background_spec (h : option Highlight) (rowIndex colIndex : nat) :
  (bgYellow300 h rowIndex colIndex = true
     <-> In (rowIndex, colIndex) (hlList hl_blocks h))
  /\ (bgYellow50 h rowIndex colIndex = true
     <-> ((rowIndex <> 0 /\ In rowIndex (hlList hl_rows h))
          \/ (colIndex <> 0 /\ In colIndex (hlList hl_cols h))
          \/ In (rowIndex / 3, colIndex / 3) (hlList hl_boxes h))
         /\ ~ In (rowIndex, colIndex) (hlList hl_blocks h))
  /\ (bgYellow50 h rowIndex colIndex && bgYellow300 h rowIndex colIndex = false).
Proof.
  assert (Hb : bgYellow300 h rowIndex colIndex = true
               <-> In (rowIndex, colIndex) (hlList hl_blocks h)).
  { unfold bgYellow300, blockHit, hlList.
    rewrite truthyArr_find. apply pair_eqb_In. }
  split; [exact Hb|]. split.
  - unfold bgYellow50. fold (bgYellow300 h rowIndex colIndex).
    rewrite andb_true_iff, !orb_true_iff, negb_true_iff, <- not_true_iff_false.
    rewrite Hb, !truthyNum_find, truthyArr_find.
    unfold hlList. rewrite (pair_eqb_In (rowIndex / 3) (colIndex / 3)). tauto.
  - unfold bgYellow50. fold (bgYellow300 h rowIndex colIndex).
    destruct (bgYellow300 h rowIndex colIndex); cbn [negb];
      rewrite ?andb_false_r; reflexivity.
Qed.
